(* ===== verification/_CoqProject ===== *)
-Q . S2P
Prelude.v
Hashing.v
InnerActionTree.v
Codec.v
PublicValues.v
BridgeValues.v
Field.v
Kimchi.v
Wire.v
WireProperties.v
BridgeGuest.v
Merkle.v
Registry.v
ActionBatch.v
SettlementGuest.v
Rpc.v
Pickles.v
PicklesProperties.v
Database.v
Program.v
OuterWriter.v
Submission.v
Worker.v
Base58.v
Indexer.v
TxLogic.v
Coordination.v
Gateway.v
Fencing.v
System.v
Ledger.v
Accounts.v
ChainIndex.v
ExplorerIndex.v
Reorganization.v
Convergence.v
Recovery.v
Admission.v
Withdrawals.v
Archive.v
DepositBatch.v
ExampleGateway.v
LedgerProperties.v
GatewayProperties.v
ApiProperties.v
ArchiveProperties.v
