(* ===== verification/Prelude.v ===== *)
(** * Verification of the Zeko Ethereum settlement repository

    Zeko is a Mina-style rollup whose outer state settles on Ethereum.  Three
    kinds of program cooperate.  The _guests_ ([program/bridge],
    [program/settlement]) run in a zkVM: they check deposits or a Mina account
    update and commit a byte receipt.  The _library_ ([lib/src/lib.rs]) holds
    the receipts' codecs and the Keccak tree over inner actions, shared by the
    guests, the contracts' fixtures and the gateway.  The _gateway_ ([api/src])
    is a PostgreSQL-backed service: sequencers lease the outer state and hand
    in settlement proofs, workers turn jobs into proofs and Ethereum
    transactions, and an indexer follows the chain.

    ** Files

    Shared: [Prelude] (bytes, machine integers, the [outcome] monad in which a
    Rust panic, an error and a value are distinct, automation), [Hashing]
    (Keccak as a parameter), [Field] (Mina fields and the sponge of the
    guests, Poseidon's permutation as a parameter) and [Kimchi] (the vendored
    permutation itself, run on the repository's test vector).

    Library: [InnerActionTree] (leaf and node preimages, the tree, membership
    proofs), [Codec] and [PublicValues] (settlement receipts V1 to V4),
    [BridgeValues] (bridge receipts).

    Guests: [BridgeGuest]; [Merkle], [Registry], [ActionBatch] and
    [SettlementGuest] for [settlement/src/receipt.rs].

    Gateway: [Rpc] (error chains and the retry loop of [rpc.rs]), [Database]
    (rows, constraints, statements and the transaction monad), [Program]
    (handlers as trees of transactions and calls to the outside world),
    [OuterWriter] ([outer_writer.rs]), [Submission] ([submission.rs]),
    [Worker] (the jobs of [main.rs] and [graphql.rs]), [Indexer] (the job part
    of [indexer.rs]); then the theory: [TxLogic] (inversion of transactions),
    [Coordination] (what each transaction preserves), [Gateway] (the worker's
    program with the knowledge a thread may rely on), [Fencing] (workers whose
    claim was taken over), [System] (the step relation of the whole gateway,
    its invariant and an executable scheduler), [Admission] (from a lease to a
    claim), [ExampleGateway] (a concrete gateway to run) and
    [GatewayProperties].

    Indexer tables: [Ledger] (accounts, history, actions, leaves, deposits and
    blocks next to the jobs, transactions on all of them, and the whole of
    [rollback_after]), [Accounts] ([apply_confirmed_settlement],
    [apply_confirmed_bridge] and the account updates), [ChainIndex]
    ([index_blocks] against a node whose answers may change at every call),
    [ExplorerIndex] (the explorer's event tables and their cursor); then
    [Reorganization] (the invariant of the snapshots, and these transactions
    as steps of [System]), [Convergence] (the index on a chain that stands
    still), [Recovery] (the tick of the indexer: recovery of jobs from final
    events and reconciliation of submitted jobs) and [LedgerProperties].

    Answers to users, of [main.rs] and [explorer.rs]: [Base58] (the text of
    Zeko addresses), [Withdrawals] (withdrawal proofs and lists from the stored
    leaves), [DepositBatch] (the batch of final deposits, its admission, the
    deposits listed with their progress) and [ApiProperties].

    ** What the theorems show

    Codecs: every receipt round-trips, the decoders accept exactly the
    encodings and never panic.  Tree: the level-by-level reduction is the
    perfect depth-16 tree; membership proofs are complete, and sound up to an
    explicit collision of two hashed messages.  Guests: a receipt is produced
    exactly for the inputs of a separate specification ([input_ok],
    [batch_valid], [binding_valid]), what is committed decodes in the
    gateway, digests bind what they hash up to an explicit collision, batches
    compose, amounts are exact.  Gateway: over every interleaving of workers,
    API calls, crashes, restarts and reorganizations each job has one signed
    transaction and buys at most one proof; without reorganizations one
    unfinished job owns the writer; fenced tokens and superseded workers have
    no effect; failures keep what may be on the network; retries are bounded;
    a granted lease leads to the claim of the job prepared under it.  Indexer:
    a rollback restores every account that receipts above the ancestor
    changed; on a chain that stands still two calls of [index_blocks] reach
    exactly its blocks, deposits and finality; these transactions refine the
    gateway's steps; every row of a reachable state is well formed; a recovery
    that returns has applied every final event.  Answers: Base58 decoding
    accepts exactly the encodings; every action of a confirmed settlement is
    served with a proof of its root; a deposit batch is accepted by the bridge
    guest and by the worker's validation, and its deposits are queued once.
    Three theorems show defects: a rollback that orphans two
    bridge batches cannot commit ([two_orphaned_bridges_stop_rollback]); a
    deposit that a reorganization moves onto the log index of another row
    stops the index ([moved_deposit_stops_index]); the action of a settlement
    that was mined twice outlives the rollback of its second block
    ([remined_action_outlives_rollback]).

    ** Conventions

    Integers are [Z] with the width of the source written as wrap-around,
    checked operations or range checks; bytes are lists of [Byte.byte]; uuids
    are [Z]; times are microseconds.  Loops over lists are folds or structural
    recursion, so no fuel is needed; the retry loop counts its remaining
    attempts, [work_rounds] takes the number of rounds of the worker's endless
    loop, and the two loops of [index_blocks] take fuel, of which two more
    than the height of the head are proved enough.  Hash functions are abstract and nothing is assumed of them:
    theorems that need injectivity name the messages that would collide.
    JSON, hexadecimal and decimal printing of the gateway are the class
    [Externals], which [ExampleGateway] instantiates.

    A database transaction is one step: those that take the [gateway_config]
    row lock exclude each other, the others are single statements or lock the
    one row they update.  In [reconcile_job] the row is read again at the
    update, where the source reads all rows at the start of its round; between
    the two no other statement of the gateway changes a row with one of these
    statuses.  [FOR UPDATE SKIP LOCKED] never skips, because claims exclude
    each other.  A thread stops or crashes anywhere, and claims are possible
    while other workers run, which the advisory lock of the source only makes
    rarer.  A step of [System] may also change the account columns
    arbitrarily; [Reorganization] shows that the indexer's transactions are
    such steps.

    ** Not modelled

    The queries for the explorer ([explorer.rs]), [withdrawal_activity.rs]
    and the queries of [graphql.rs]; the Ethereum client ([ethereum.rs]) and
    the provers ([prover.rs], [fake_prover.rs]),
    which wrap SDKs and appear as calls with arbitrary answers; the Pickles
    verifier crate, an argument of the settlement guest; pacing and cooldown
    timers; HTTP routing and environment parsing; the scripts, the Solidity
    contracts, the user interfaces and vendored code other than the Poseidon
    permutation.  They are listed with their reasons in the manifest. *)

From Stdlib Require Export Strings.String ZArith Lia.
From Stdlib Require Import Strings.Byte.
From stdpp Require Export base list numbers option sets.

Declare Scope rust_scope.
Delimit Scope rust_scope with rust.
#[global] Open Scope rust_scope.
#[global] Open Scope Z_scope.
#[global] Open Scope list_scope.

Create HintDb zeko discriminated.

(** ** Bytes and fixed-width integers *)

Abbreviation byte := Byte.byte.
Abbreviation bytes := (list Byte.byte).

#[export] Instance byte_eq_dec : EqDecision byte := Byte.byte_eq_dec.
#[export] Instance rust_str_eq_dec : EqDecision string := String.string_dec.
#[export] Instance byte_inhabited : Inhabited byte := populate Byte.x00.

Definition byte_val (b : byte) : Z := Z.of_N (Byte.to_N b).

Definition byte_of (z : Z) : byte :=
  match Byte.of_N (Z.to_N (z mod 256)) with
  | Some b => b
  | None => Byte.x00
  end.

Definition zeros (n : nat) : bytes := replicate n Byte.x00.

(** The low [n] bytes of [z], most significant first: [to_be_bytes]. *)
Fixpoint to_be (n : nat) (z : Z) : bytes :=
  match n with
  | O => []
  | S m => to_be m (z / 256) ++ [byte_of z]
  end.

(** [from_be_bytes], of any length. *)
Definition from_be (l : bytes) : Z :=
  foldl (fun acc b => acc * 256 + byte_val b) 0 l.

Lemma byte_val_range b : 0 <= byte_val b < 256.
Proof. unfold byte_val. pose proof (Byte.to_N_bounded b). lia. Qed.

Lemma byte_val_of z : byte_val (byte_of z) = z mod 256.
Proof.
  unfold byte_val, byte_of.
  pose proof (Z.mod_pos_bound z 256 ltac:(lia)) as Hr.
  destruct (Byte.of_N (Z.to_N (z mod 256))) as [b|] eqn:E.
  - apply Byte.to_of_N in E. rewrite E. lia.
  - apply Byte.of_N_None_iff in E. lia.
Qed.

Lemma byte_of_val b : byte_of (byte_val b) = b.
Proof.
  unfold byte_of, byte_val.
  pose proof (Byte.to_N_bounded b).
  rewrite Z.mod_small, N2Z.id, Byte.of_to_N by lia. done.
Qed.

Lemma byte_val_inj a b : byte_val a = byte_val b -> a = b.
Proof. intros H. rewrite <- (byte_of_val a), <- (byte_of_val b). by rewrite H. Qed.

Lemma length_to_be n z : length (to_be n z) = n.
Proof. revert z; induction n as [|n IH]; intros z; simpl; [done|]. rewrite length_app, IH. simpl. lia. Qed.

Lemma from_be_snoc l b : from_be (l ++ [b]) = from_be l * 256 + byte_val b.
Proof. unfold from_be. by rewrite foldl_app. Qed.

Lemma from_be_nonneg l : 0 <= from_be l.
Proof.
  induction l as [|b l IH] using rev_ind; [done|].
  rewrite from_be_snoc. pose proof (byte_val_range b). lia.
Qed.

Lemma pow256_S n : 256 ^ Z.of_nat (S n) = 256 * 256 ^ Z.of_nat n.
Proof. rewrite Nat2Z.inj_succ, Z.pow_succ_r by lia. done. Qed.

Lemma pow256_pos n : 0 < 256 ^ Z.of_nat n.
Proof. apply Z.pow_pos_nonneg; lia. Qed.

Lemma from_be_bound l : from_be l < 256 ^ Z.of_nat (length l).
Proof.
  induction l as [|b l IH] using rev_ind; [done|].
  rewrite from_be_snoc, length_app. simpl (length [b]).
  rewrite Nat.add_1_r, pow256_S. pose proof (byte_val_range b). lia.
Qed.

Lemma from_be_to_be n z : from_be (to_be n z) = z mod 256 ^ Z.of_nat n.
Proof.
  revert z; induction n as [|n IH]; intros z.
  - simpl. by rewrite Z.mod_1_r.
  - simpl to_be. rewrite from_be_snoc, IH, byte_val_of, pow256_S.
    pose proof (pow256_pos n).
    rewrite Z.rem_mul_r by lia. lia.
Qed.

Lemma from_be_to_be_small n z : 0 <= z < 256 ^ Z.of_nat n -> from_be (to_be n z) = z.
Proof. intros H. rewrite from_be_to_be. by apply Z.mod_small. Qed.

Lemma byte_of_add_mul k b : byte_of (k * 256 + byte_val b) = b.
Proof.
  apply byte_val_inj. rewrite byte_val_of, Z.add_comm, Z.mod_add by lia.
  apply Z.mod_small, byte_val_range.
Qed.

Lemma to_be_from_be l : to_be (length l) (from_be l) = l.
Proof.
  induction l as [|b l IH] using rev_ind; [done|].
  rewrite from_be_snoc, length_app. simpl (length [b]). rewrite Nat.add_1_r. simpl to_be.
  rewrite byte_of_add_mul, Z.div_add_l by lia.
  rewrite (Z.div_small (byte_val b)) by apply byte_val_range.
  by rewrite Z.add_0_r, IH.
Qed.

Lemma to_be_from_be_n n l : length l = n -> to_be n (from_be l) = l.
Proof. intros <-. apply to_be_from_be. Qed.

Lemma from_be_inj l k : length l = length k -> from_be l = from_be k -> l = k.
Proof. intros Hl Hv. rewrite <- (to_be_from_be l), <- (to_be_from_be k). by rewrite Hl, Hv. Qed.

Lemma to_be_inj n a b :
  0 <= a < 256 ^ Z.of_nat n -> 0 <= b < 256 ^ Z.of_nat n -> to_be n a = to_be n b -> a = b.
Proof.
  intros Ha Hb H. rewrite <- (from_be_to_be_small n a), <- (from_be_to_be_small n b) by done.
  by rewrite H.
Qed.

Lemma length_zeros n : length (zeros n) = n.
Proof. apply length_replicate. Qed.

#[global] Arguments to_be : simpl never.

(** Ranges of the Rust integer types. *)
Definition is_u8 (z : Z) : Prop := 0 <= z < 2 ^ 8.
Definition is_u16 (z : Z) : Prop := 0 <= z < 2 ^ 16.
Definition is_u32 (z : Z) : Prop := 0 <= z < 2 ^ 32.
Definition is_u64 (z : Z) : Prop := 0 <= z < 2 ^ 64.

Lemma u16_range z : is_u16 z -> 0 <= z < 256 ^ Z.of_nat 2.
Proof. intros Hz; exact Hz. Qed.
Lemma u32_range z : is_u32 z -> 0 <= z < 256 ^ Z.of_nat 4.
Proof. intros Hz; exact Hz. Qed.
Lemma u64_range z : is_u64 z -> 0 <= z < 256 ^ Z.of_nat 8.
Proof. intros Hz; exact Hz. Qed.
#[export] Hint Resolve u16_range u32_range u64_range : zeko.

Lemma from_be_u32 l : length l = 4%nat -> is_u32 (from_be l).
Proof. intros Hl. pose proof (from_be_nonneg l). pose proof (from_be_bound l) as Hb. rewrite Hl in Hb. done. Qed.
Lemma from_be_u64 l : length l = 8%nat -> is_u64 (from_be l).
Proof. intros Hl. pose proof (from_be_nonneg l). pose proof (from_be_bound l) as Hb. rewrite Hl in Hb. done. Qed.
#[export] Hint Resolve from_be_u32 from_be_u64 : zeko.

Definition u32_MAX : Z := 2 ^ 32 - 1.
Definition u64_MAX : Z := 2 ^ 64 - 1.

(** [u32::checked_add]; [None] on overflow. *)
Definition checked_add_u32 (a b : Z) : option Z :=
  if a + b <? 2 ^ 32 then Some (a + b) else None.

(** [u32::checked_sub]. *)
Definition checked_sub_u32 (a b : Z) : option Z :=
  if b <=? a then Some (a - b) else None.

(** Release-profile [u64] addition: the workspace profile leaves overflow
    checks off, so [+] wraps. *)
Definition wrapping_add_u64 (a b : Z) : Z := (a + b) mod 2 ^ 64.
Definition wrapping_sub_u64 (a b : Z) : Z := (a - b) mod 2 ^ 64.

(** ** Outcomes: [Result] values and panics

    [Ok] and [Err] are the two constructors of Rust's [Result]; [Panic] is a
    failed [assert!], [expect] or slice index, with the message the source
    gives it.  Inside an SP1 guest a panic means that no proof exists. *)
Inductive outcome (E A : Type) : Type :=
| Ok (a : A)
| Err (e : E)
| Panic (why : string).
Arguments Ok {E A} a.
Arguments Err {E A} e.
Arguments Panic {E A} why%_string.

(** A guest has no error value: it returns or panics. *)
Abbreviation guest := (outcome Empty_set).

#[export] Instance outcome_ret E : MRet (outcome E) := fun A a => Ok a.
#[export] Instance outcome_bind E : MBind (outcome E) := fun A B f m =>
  match m with
  | Ok a => f a
  | Err e => Err e
  | Panic w => Panic w
  end.
#[export] Instance outcome_fmap E : FMap (outcome E) := fun A B f m =>
  match m with
  | Ok a => Ok (f a)
  | Err e => Err e
  | Panic w => Panic w
  end.

Definition is_ok {E A} (m : outcome E A) : bool :=
  match m with Ok _ => true | _ => false end.
Definition panics {E A} (m : outcome E A) : bool :=
  match m with Panic _ => true | _ => false end.

(** [assert!(b, why)] and [anyhow::ensure!]-style early returns. *)
Definition assert_ {E} (b : bool) (why : string) : outcome E unit :=
  if b then Ok tt else Panic why.
Definition ensure {E} (b : bool) (e : E) : outcome E unit :=
  if b then Ok tt else Err e.

(** [Option::expect]. *)
Definition expect {E A} (o : option A) (why : string) : outcome E A :=
  match o with Some a => Ok a | None => Panic why end.

(** A [for] loop that threads its mutable state. *)
Fixpoint foldM {E A B} (f : B -> A -> outcome E B) (b : B) (l : list A) : outcome E B :=
  match l with
  | [] => Ok b
  | a :: l => b' ← f b a; foldM f b' l
  end.

(** [slice.chunks(2)] for the two-element chunks the sponge and the Merkle
    reductions use; the last chunk may be a singleton. *)
Fixpoint chunks2 {A} (l : list A) : list (list A) :=
  match l with
  | [] => []
  | [a] => [[a]]
  | a :: b :: l => [a; b] :: chunks2 l
  end.

Section outcome_lemmas.
Context {E : Type}.

Lemma bind_Ok {A B} (m : outcome E A) (f : A -> outcome E B) b :
  (m ≫= f) = Ok b <-> exists a, m = Ok a /\ f a = Ok b.
Proof. destruct m; simpl; naive_solver. Qed.

Lemma fmap_Ok {A B} (m : outcome E A) (f : A -> B) b :
  (f <$> m) = Ok b <-> exists a, m = Ok a /\ b = f a.
Proof. destruct m; simpl; naive_solver. Qed.

Lemma assert_Ok b why (u : unit) : assert_ (E := E) b why = Ok u <-> b = true.
Proof. destruct b, u; simpl; naive_solver. Qed.

Lemma ensure_Ok b (e : E) (u : unit) : ensure b e = Ok u <-> b = true.
Proof. destruct b, u; simpl; naive_solver. Qed.

Lemma is_ok_Ok {A} (m : outcome E A) : is_ok m = true -> exists a, m = Ok a.
Proof. destruct m; naive_solver. Qed.

Lemma expect_Ok {A} (o : option A) why a : expect (E := E) o why = Ok a <-> o = Some a.
Proof. destruct o; simpl; naive_solver. Qed.

Lemma Ok_bind {A B} (a : A) (k : A -> outcome E B) : (Ok a ≫= k) = k a.
Proof. done. Qed.

Lemma ensure_true {A} b (e : E) (k : unit -> outcome E A) : b = true -> (ensure b e ≫= k) = k tt.
Proof. by intros ->. Qed.

Lemma assert_true {A} b why (k : unit -> outcome E A) : b = true -> (assert_ b why ≫= k) = k tt.
Proof. by intros ->. Qed.

Lemma mapM_Ok {A B} (f : A -> outcome E B) l k :
  mapM f l = Ok k <-> Forall2 (fun x y => f x = Ok y) l k.
Proof.
  revert k; induction l as [|x l IH]; intros k; simpl.
  - split; [intros [= <-]; constructor | intros H; inversion H; done].
  - split.
    + intros (y & Hy & (ys & Hys & [= <-])%bind_Ok)%bind_Ok.
      constructor; [done | by apply IH].
    + intros H; inversion H as [|? y ? ys Hy Hys]; subst.
      apply bind_Ok. exists y; split; [done|]. apply bind_Ok. exists ys; split; [by apply IH|done].
Qed.

Lemma foldM_app {A B} (f : B -> A -> outcome E B) b l k :
  foldM f b (l ++ k) = (foldM f b l ≫= fun b' => foldM f b' k).
Proof. revert b; induction l as [|a l IH]; intros b; simpl; [done|]. destruct (f b a); simpl; auto. Qed.

(** Loop invariants: [I] relates the elements consumed so far to the state. *)
Lemma foldM_ind {A B} (f : B -> A -> outcome E B) (I : list A -> B -> Prop) b0 l b :
  I [] b0 ->
  (forall pre a b1 b2, I pre b1 -> f b1 a = Ok b2 -> I (pre ++ [a]) b2) ->
  foldM f b0 l = Ok b -> I l b.
Proof.
  intros H0 Hstep. revert b. induction l as [|a l IH] using rev_ind; simpl; intros b.
  - by intros [= <-].
  - rewrite foldM_app. intros (b1 & H1 & H2)%bind_Ok. simpl in H2.
    apply bind_Ok in H2 as (b2 & Hb & [= <-]). eauto.
Qed.

End outcome_lemmas.

(** [inv_ok] turns every hypothesis [_ = Ok _] built from the monad into its
    successful steps. *)
Ltac inv_ok_step :=
  match goal with
  | H : (_ ≫= _) = Ok _ |- _ => apply bind_Ok in H as (? & ? & H)
  | H : (_ <$> _) = Ok _ |- _ => apply fmap_Ok in H as (? & ? & H)
  | H : assert_ _ _ = Ok _ |- _ => apply assert_Ok in H
  | H : ensure _ _ = Ok _ |- _ => apply ensure_Ok in H
  | H : expect _ _ = Ok _ |- _ => apply expect_Ok in H
  | H : Ok _ = Ok _ |- _ => inversion H; clear H; subst
  | H : mret _ = Ok _ |- _ => unfold mret, outcome_ret in H
  | H : Err _ = Ok _ |- _ => discriminate H
  | H : Panic _ = Ok _ |- _ => discriminate H
  | u : unit |- _ => destruct u
  end.
Ltac inv_ok := repeat inv_ok_step.

(** Boolean guards to propositions. *)
Ltac bool_props :=
  repeat match goal with
  | H : bool_decide _ = true |- _ => apply bool_decide_eq_true in H
  | H : bool_decide _ = false |- _ => apply bool_decide_eq_false in H
  | H : negb _ = true |- _ => apply negb_true_iff in H
  | H : negb _ = false |- _ => apply negb_false_iff in H
  | H : (_ && _)%bool = true |- _ => apply andb_true_iff in H as [? ?]
  | H : (_ || _)%bool = false |- _ => apply orb_false_iff in H as [? ?]
  | H : (_ <=? _)%Z = true |- _ => apply Z.leb_le in H
  | H : (_ <=? _)%Z = false |- _ => apply Z.leb_gt in H
  | H : (_ <? _)%Z = true |- _ => apply Z.ltb_lt in H
  | H : (_ <? _)%Z = false |- _ => apply Z.ltb_ge in H
  | H : (_ =? _)%Z = true |- _ => apply Z.eqb_eq in H
  | H : (_ =? _)%Z = false |- _ => apply Z.eqb_neq in H
  | H : (_ <=? _)%nat = true |- _ => apply Nat.leb_le in H
  | H : (_ <=? _)%nat = false |- _ => apply Nat.leb_gt in H
  | H : (_ <? _)%nat = true |- _ => apply Nat.ltb_lt in H
  | H : (_ <? _)%nat = false |- _ => apply Nat.ltb_ge in H
  | H : (_ =? _)%nat = true |- _ => apply Nat.eqb_eq in H
  | H : (_ =? _)%nat = false |- _ => apply Nat.eqb_neq in H
  end.

(** Lengths of concatenations of encoded fields. *)
Ltac len := rewrite ?length_app, ?length_to_be, ?length_zeros; simpl; try lia.

(** ** Strings *)

(** [str::strip_prefix]. *)
Definition strip_prefix (prefix s : string) : option string :=
  if String.prefix prefix s then
    Some (String.substring (String.length prefix) (String.length s - String.length prefix) s)
  else None.

Lemma substring_all s : String.substring 0 (String.length s) s = s.
Proof. induction s as [|c s IH]; cbn; [done|by rewrite IH]. Qed.
Lemma strip_hex_prefix s : strip_prefix "0x" ("0x" ++ s) = Some s.
Proof.
  unfold strip_prefix. rewrite (proj2 (String.prefix_correct "0x" ("0x" ++ s)%string)) by (by destruct s).
  f_equal. change (String.length ("0x" ++ s)) with (S (S (String.length s))).
  cbn [String.length Nat.sub]. rewrite Nat.sub_0_r.
  cbn [String.append String.substring]. apply substring_all.
Qed.

(** A concrete hexadecimal codec, for the examples; [hex::decode] itself is a
    parameter of the components that use it. *)
Definition hex_digit (c : Ascii.ascii) : option Z :=
  let n := Z.of_nat (Ascii.nat_of_ascii c) in
  if (48 <=? n) && (n <=? 57) then Some (n - 48) else if (97 <=? n) && (n <=? 102) then Some (n - 87) else None.
Fixpoint example_hex_decode (s : string) : option bytes :=
  match s with
  | EmptyString => Some []
  | String a (String b s) =>
    a ← hex_digit a; b ← hex_digit b; l ← example_hex_decode s; Some (byte_of (16 * a + b) :: l)
  | _ => None
  end.
Definition hex_char (n : Z) : Ascii.ascii := Ascii.ascii_of_nat (Z.to_nat (if n <? 10 then n + 48 else n + 87)).
Fixpoint example_hex_encode (b : bytes) : string :=
  match b with
  | [] => EmptyString
  | b :: l => String (hex_char (byte_val b / 16)) (String (hex_char (byte_val b mod 16)) (example_hex_encode l))
  end.

Lemma example_hex_decode_encode b : example_hex_decode (example_hex_encode b) = Some b.
Proof. induction b as [|x b IH]; [done|]. cbn [example_hex_encode example_hex_decode]. rewrite IH. by destruct x. Qed.

(** Texts of [n] bytes. *)
Definition example_text (n : nat) (s : string) : option bytes :=
  b ← example_hex_decode (default s (strip_prefix "0x" s)); if (length b =? n)%nat then Some b else None.

(** ** Generic lemmas on lists and bits *)

Lemma chunks2_ind {A} (P : list A -> Prop) :
  P [] -> (forall a, P [a]) -> (forall a b l, P l -> P (a :: b :: l)) -> forall l, P l.
Proof.
  intros H0 H1 H2. fix IH 1. intros [|a [|b l]]; [done|apply H1|apply H2, IH].
Qed.

Lemma chunks2_lookup {A} (l : list A) i :
  chunks2 l !! i = (fun a => a :: option_list (l !! (2 * i + 1)%nat)) <$> l !! (2 * i)%nat.
Proof.
  revert i. induction l as [|a|a b l IH] using chunks2_ind; intros [|i]; try done.
  change (chunks2 (a :: b :: l) !! S i) with (chunks2 l !! i). rewrite IH.
  by replace (2 * S i)%nat with (S (S (2 * i)))%nat by lia.
Qed.

Lemma length_chunks2 {A} (l : list A) : length (chunks2 l) = Nat.div2 (S (length l)).
Proof. induction l as [|a|a b l IH] using chunks2_ind; [done..|]. simpl in *. by rewrite IH. Qed.

Lemma lxor_1 x : 0 <= x -> Z.lxor x 1 = if Z.land x 1 =? 0 then x + 1 else x - 1.
Proof. destruct x as [|[p|p|]|p]; intros; try done. Qed.

Lemma land_1_shiftr x : 0 <= x ->
  x = 2 * Z.shiftr x 1 + (if Z.land x 1 =? 0 then 0 else 1).
Proof.
  intros. rewrite Z.shiftr_div_pow2 by lia. change (2 ^ 1) with 2.
  replace (Z.land x 1) with (x mod 2) by (symmetry; apply (Z.land_ones x 1); lia).
  pose proof (Z.div_mod x 2). pose proof (Z.mod_pos_bound x 2).
  destruct (Z.eqb_spec (x mod 2) 0); lia.
Qed.

Lemma list_cons_eq_inv {A} (a b : A) l k : a :: l = b :: k -> a = b /\ l = k.
Proof. by intros [= -> ->]. Qed.

Lemma length_concat_n {A} n (ls : list (list A)) :
  Forall (fun l => length l = n) ls -> length (concat ls) = (length ls * n)%nat.
Proof. induction 1 as [|l ls Hl _ IH]; simpl; [done|]. rewrite length_app, IH, Hl. lia. Qed.

Lemma imap_snoc {A B} (f : nat -> A -> B) l a : imap f (l ++ [a]) = imap f l ++ [f (length l) a].
Proof. rewrite imap_app. simpl. by rewrite Nat.add_0_r. Qed.

Lemma concat_inj_length {A} n (ls ks : list (list A)) :
  (0 < n)%nat -> Forall (fun l => length l = n) ls -> Forall (fun l => length l = n) ks ->
  concat ls = concat ks -> ls = ks.
Proof.
  intros Hn Hls. revert ks. induction Hls as [|l ls Hl Hls IH]; intros ks Hks He.
  - destruct Hks as [|k ks Hk Hks]; [done|]. destruct k; simpl in *; [lia|done].
  - destruct Hks as [|k ks Hk Hks]; simpl in He.
    + destruct l; simpl in *; [lia|done].
    + apply app_inj_1 in He as [-> He]; [|congruence]. f_equal. auto.
Qed.

Lemma foldl_foldM {E A B} (f : B -> A -> B) b l :
  foldM (E := E) (fun b a => Ok (f b a)) b l = Ok (foldl f b l).
Proof. revert b; induction l as [|a l IH]; intros b; simpl; auto. Qed.

(** ** Sums over lists *)

Lemma sum_list_with_insert {A} (f : A -> nat) l i x y :
  l !! i = Some x -> (sum_list_with f (<[i := y]> l) + f x = sum_list_with f l + f y)%nat.
Proof.
  revert i. induction l as [|a l IH]; intros [|i]; cbn; [done|done| |].
  - intros [= ->]. lia.
  - intros Hi. specialize (IH i Hi).
    change (f a + sum_list_with f (<[i:=y]> l) + f x = f a + sum_list_with f l + f y)%nat. lia.
Qed.

Lemma sum_list_with_delete {A} (f : A -> nat) l i :
  (sum_list_with f (delete i l) <= sum_list_with f l)%nat.
Proof.
  revert i. induction l as [|a l IH]; intros i; [by destruct i|]. destruct i as [|i].
  - change (sum_list_with f l <= f a + sum_list_with f l)%nat. lia.
  - specialize (IH i). change (f a + sum_list_with f (delete i l) <= f a + sum_list_with f l)%nat. lia.
Qed.
