(* ===== verification/Hashing.v ===== *)
(** * The Keccak interface and the 32-byte words the encodings share

    [keccak256] is [alloy_primitives::keccak256], a third-party function: the
    development takes it as a parameter (class [Keccak]) and uses only that a
    digest has 32 bytes.  Collision resistance is never assumed globally (no
    function into 32 bytes is injective): a theorem that needs it names the
    finite list of messages that must not collide ([no_collision]). *)

From Stdlib Require Import Strings.Byte.
From S2P Require Import Prelude.

Class Keccak := {
  keccak256 : bytes -> bytes;
  keccak256_length m : length (keccak256 m) = 32%nat
}.

(** [str::as_bytes] of an ASCII literal. *)
Definition ascii (s : string) : bytes := list_byte_of_string s.

(** No two distinct messages of [Q] have the same digest. *)
Definition no_collision `{Keccak} (Q : list bytes) : Prop :=
  Forall (fun x => Forall (fun y => keccak256 x = keccak256 y -> x = y) Q) Q.

(** Big-endian words of the ABI-style preimages. *)
Definition u64_word (value : Z) : bytes := zeros 24 ++ to_be 8 value.
Definition u32_word (value : Z) : bytes := zeros 28 ++ to_be 4 value.
Definition address_word (value : bytes) : bytes := zeros 12 ++ value.

(** A concrete [Keccak] for evaluating the development on examples: a
    polynomial checksum in a 32-byte word. *)
Definition checksum (m : bytes) : bytes :=
  zeros 28 ++ to_be 4 (foldl (fun acc b => Z.land (acc * 257 + byte_val b + 1) (2 ^ 32 - 1)) 7 m).

#[refine] Definition checksum_keccak : Keccak := {| keccak256 := checksum |}.
Proof. intros m. unfold checksum. by rewrite length_app, length_zeros, length_to_be. Defined.

#[export] Instance no_collision_dec `{Keccak} Q : Decision (no_collision Q).
Proof. unfold no_collision. apply _. Defined.

Section facts.
Context `{Keccak}.

Lemma no_collision_elim Q x y :
  no_collision Q -> x ∈ Q -> y ∈ Q -> keccak256 x = keccak256 y -> x = y.
Proof.
  intros HQ Hx Hy. unfold no_collision in HQ.
  pose proof (proj1 (list.Forall_forall _ _) HQ x Hx) as HQ'.
  exact (proj1 (list.Forall_forall _ _) HQ' y Hy).
Qed.

Lemma no_collision_subset P Q : P ⊆ Q -> no_collision Q -> no_collision P.
Proof.
  intros Hsub HQ. unfold no_collision. apply list.Forall_forall; intros x Hx.
  apply list.Forall_forall; intros y Hy He. eapply no_collision_elim; eauto.
Qed.

Lemma length_u64_word z : length (u64_word z) = 32%nat.
Proof. unfold u64_word. len. Qed.
Lemma length_u32_word z : length (u32_word z) = 32%nat.
Proof. unfold u32_word. len. Qed.
Lemma length_address_word a : length a = 20%nat -> length (address_word a) = 32%nat.
Proof. unfold address_word. intros. len. Qed.

Lemma u64_word_inj a b : is_u64 a -> is_u64 b -> u64_word a = u64_word b -> a = b.
Proof. intros ? ? He. apply app_inv_head in He. eapply to_be_inj; eauto with zeko. Qed.
Lemma u32_word_inj a b : is_u32 a -> is_u32 b -> u32_word a = u32_word b -> a = b.
Proof. intros ? ? He. apply app_inv_head in He. eapply to_be_inj; eauto with zeko. Qed.
Lemma address_word_inj a b : address_word a = address_word b -> a = b.
Proof. apply app_inv_head. Qed.

End facts.

#[export] Hint Resolve keccak256_length length_u64_word length_u32_word length_address_word : zeko.

(** Peel an equation between explicit lists, then the words of its elements. *)
Ltac cons_props :=
  repeat match goal with
  | H : _ :: _ = _ :: _ |- _ => apply list_cons_eq_inv in H as [? H]
  | H : [] = _ :: _ |- _ => discriminate H
  | H : _ :: _ = [] |- _ => discriminate H
  | H : [] = [] |- _ => clear H
  end.
Ltac word_props :=
  repeat match goal with
  | H : u64_word _ = u64_word _ |- _ => apply u64_word_inj in H; [|assumption..]
  | H : u32_word _ = u32_word _ |- _ => apply u32_word_inj in H; [|assumption..]
  | H : address_word _ = address_word _ |- _ => apply address_word_inj in H
  end.
