(* ===== verification/InnerActionTree.v ===== *)
(** * The inner-action commitment tree ([inner_action_commitment] of [lib/src/lib.rs])

    Leaf preimages, the sixteen-level Keccak tree over a settlement's inner
    actions, its membership proofs and their verifier.  [subtree] is the
    abstract specification: the perfect binary tree whose missing leaves are
    the zero word. *)

From S2P Require Import Prelude Hashing.

(** ** Data *)

Record NativeWithdrawalV2 := { nw_recipient : bytes; nw_amount : Z }.

Record TokenWithdrawalV3 := {
  tw_encoding_version : Z;
  tw_registry_index : Z;
  tw_record_commitment : bytes;
  tw_token : bytes;
  tw_asset_id : bytes;
  tw_recipient : bytes;
  tw_amount : Z;
  tw_params_fields : list bytes
}.

Definition ERC20_ACTION_ENCODING_V2 : Z := 2.
Definition TREE_DEPTH : nat := 16.
Definition MAX_LEAVES : Z := Z.shiftl 1 16.

Definition ACTION_FIELDS_DOMAIN : string := "ZEKO_INNER_ACTION_FIELDS_V2".
Definition NATIVE_WITHDRAWAL_LEAF_DOMAIN : string := "ZEKO_NATIVE_WITHDRAWAL_LEAF_V2".
Definition ERC20_WITHDRAWAL_LEAF_V2_DOMAIN : string := "ZEKO_ERC20_WITHDRAWAL_LEAF_V4".
Definition RAW_INNER_ACTION_LEAF_DOMAIN : string := "ZEKO_RAW_INNER_ACTION_LEAF_V2".
Definition INNER_ACTION_NODE_DOMAIN : string := "ZEKO_INNER_ACTION_NODE_V2".

Section tree.
Context `{Keccak}.

(** ** Leaves: each is the digest of the [encoded] buffer of its function *)

Definition action_fields_encoded (fields : list bytes) : bytes :=
  keccak256 (ascii ACTION_FIELDS_DOMAIN) ++ u32_word (Z.of_nat (length fields)) ++ concat fields.

Definition action_fields_hash {E} (fields : list bytes) : outcome E bytes :=
  assert_ (Z.of_nat (length fields) <=? u32_MAX) "field count fits u32";;
  Ok (keccak256 (action_fields_encoded fields)).

Definition native_withdrawal_encoded (chain_id : Z) (bridge_address : bytes)
    (global_index : Z) (withdrawal : NativeWithdrawalV2) (fields_hash : bytes) : bytes :=
  concat [keccak256 (ascii NATIVE_WITHDRAWAL_LEAF_DOMAIN); u64_word chain_id;
          address_word bridge_address; u32_word global_index;
          address_word (nw_recipient withdrawal); u64_word (nw_amount withdrawal); fields_hash].

Definition native_withdrawal_leaf chain_id bridge_address global_index withdrawal fields_hash : bytes :=
  keccak256 (native_withdrawal_encoded chain_id bridge_address global_index withdrawal fields_hash).

Definition erc20_withdrawal_encoded (chain_id : Z) (bridge_address : bytes)
    (global_index : Z) (withdrawal : TokenWithdrawalV3) (fields_hash : bytes) : bytes :=
  concat [keccak256 (ascii ERC20_WITHDRAWAL_LEAF_V2_DOMAIN); u64_word chain_id;
          address_word bridge_address; u32_word global_index;
          address_word (tw_token withdrawal); u32_word (tw_encoding_version withdrawal);
          u32_word (tw_registry_index withdrawal); tw_record_commitment withdrawal;
          tw_asset_id withdrawal; address_word (tw_recipient withdrawal);
          u64_word (tw_amount withdrawal); fields_hash].

Definition erc20_withdrawal_leaf {E} chain_id bridge_address global_index withdrawal fields_hash
    : outcome E bytes :=
  assert_ (tw_encoding_version withdrawal =? ERC20_ACTION_ENCODING_V2)
    "unsupported ERC20 withdrawal encoding version";;
  Ok (keccak256 (erc20_withdrawal_encoded chain_id bridge_address global_index withdrawal fields_hash)).

Definition raw_inner_action_encoded (chain_id : Z) (bridge_address : bytes)
    (global_index : Z) (fields_hash : bytes) : bytes :=
  concat [keccak256 (ascii RAW_INNER_ACTION_LEAF_DOMAIN); u64_word chain_id;
          address_word bridge_address; u32_word global_index; fields_hash].

Definition raw_inner_action_leaf chain_id bridge_address global_index fields_hash : bytes :=
  keccak256 (raw_inner_action_encoded chain_id bridge_address global_index fields_hash).

(** ** Nodes *)

Definition node_encoded (left right : bytes) : bytes :=
  keccak256 (ascii INNER_ACTION_NODE_DOMAIN) ++ left ++ right.

Definition hash_node (left right : bytes) : bytes := keccak256 (node_encoded left right).

(** The array is filled from index 0; [hashes[level + 1]] from [hashes[level]]. *)
Definition zero_hashes : list bytes :=
  foldl (fun hashes level =>
           <[S level := hash_node (hashes !!! level) (hashes !!! level)]> hashes)
        (replicate (S TREE_DEPTH) (zeros 32)) (seq 0 TREE_DEPTH).

(** One pass of the reduction: a missing right sibling is the level's zero hash. *)
Definition hash_pair (zero_hash : bytes) (pair : list bytes) : bytes :=
  hash_node (pair !!! 0%nat) (default zero_hash (pair !! 1%nat)).

Definition reduce_level (zero_hash : bytes) (nodes : list bytes) : list bytes :=
  map (hash_pair zero_hash) (chunks2 nodes).

Definition root {E} (leaves : list bytes) : outcome E bytes :=
  assert_ (Z.of_nat (length leaves) <=? MAX_LEAVES) "inner action tree exceeds capacity";;
  match leaves with
  | [] => Ok (zero_hashes !!! TREE_DEPTH)
  | _ =>
    let nodes := foldl (fun nodes zero_hash => reduce_level zero_hash nodes) leaves
                       (take TREE_DEPTH zero_hashes) in
    assert_ (length nodes =? 1)%nat "invalid inner action tree";;
    Ok (nodes !!! 0%nat)
  end.

(** The loop state of [merkle_proof]: [proof], [nodes] and [index]. *)
Definition merkle_proof_step (st : list bytes * list bytes * Z) (level : nat)
    : list bytes * list bytes * Z :=
  let '(proof, nodes, index) := st in
  (<[level := default (zero_hashes !!! level) (nodes !! Z.to_nat (Z.lxor index 1))]> proof,
   reduce_level (zero_hashes !!! level) nodes,
   Z.shiftr index 1).

Definition merkle_proof (leaves : list bytes) (target : Z) : option (list bytes) :=
  if (MAX_LEAVES <? Z.of_nat (length leaves)) || (Z.of_nat (length leaves) <=? target) then None
  else Some (foldl merkle_proof_step (replicate TREE_DEPTH (zeros 32), leaves, target)
               (seq 0 TREE_DEPTH)).1.1.

Definition verify_step (st : bytes * Z) (sibling : bytes) : bytes * Z :=
  let '(computed, index) := st in
  (if Z.land index 1 =? 0 then hash_node computed sibling else hash_node sibling computed,
   Z.shiftr index 1).

Definition verify_merkle_proof (leaf : bytes) (index : Z) (proof : list bytes)
    (expected_root : bytes) : bool :=
  if MAX_LEAVES <=? index then false
  else bool_decide ((foldl verify_step (leaf, index) proof).1 = expected_root).

(** ** Specification *)

(** What a leaf commits to, before hashing. *)
Inductive leaf_data :=
| NativeLeaf (chain_id : Z) (bridge : bytes) (index : Z) (w : NativeWithdrawalV2) (fields_hash : bytes)
| Erc20Leaf (chain_id : Z) (bridge : bytes) (index : Z) (w : TokenWithdrawalV3) (fields_hash : bytes)
| RawLeaf (chain_id : Z) (bridge : bytes) (index : Z) (fields_hash : bytes).

Definition leaf_message (d : leaf_data) : bytes :=
  match d with
  | NativeLeaf c b i w f => native_withdrawal_encoded c b i w f
  | Erc20Leaf c b i w f => erc20_withdrawal_encoded c b i w f
  | RawLeaf c b i f => raw_inner_action_encoded c b i f
  end.

(** The types of the source: fixed-size arrays and unsigned integers. *)
Definition native_typed (w : NativeWithdrawalV2) : Prop :=
  length (nw_recipient w) = 20%nat /\ is_u64 (nw_amount w).
Definition token_typed (w : TokenWithdrawalV3) : Prop :=
  is_u32 (tw_encoding_version w) /\ is_u32 (tw_registry_index w) /\
  length (tw_record_commitment w) = 32%nat /\ length (tw_token w) = 20%nat /\
  length (tw_asset_id w) = 32%nat /\ length (tw_recipient w) = 20%nat /\ is_u64 (tw_amount w).
Definition leaf_header_typed (c : Z) (b : bytes) (i : Z) (f : bytes) : Prop :=
  is_u64 c /\ length b = 20%nat /\ is_u32 i /\ length f = 32%nat.
Definition leaf_typed (d : leaf_data) : Prop :=
  match d with
  | NativeLeaf c b i w f => leaf_header_typed c b i f /\ native_typed w
  | Erc20Leaf c b i w f => leaf_header_typed c b i f /\ token_typed w
  | RawLeaf c b i f => leaf_header_typed c b i f
  end.

(** The leaf does not repeat the clear action parameters (the action-field
    hash covers them). *)
Definition forget_params (d : leaf_data) : leaf_data :=
  match d with
  | Erc20Leaf c b i w f =>
    Erc20Leaf c b i {| tw_encoding_version := tw_encoding_version w;
      tw_registry_index := tw_registry_index w; tw_record_commitment := tw_record_commitment w;
      tw_token := tw_token w; tw_asset_id := tw_asset_id w; tw_recipient := tw_recipient w;
      tw_amount := tw_amount w; tw_params_fields := [] |} f
  | d => d
  end.

(** The node at height [k] and position [i] of the perfect tree over [leaves]. *)
Fixpoint subtree (leaves : list bytes) (k i : nat) : bytes :=
  match k with
  | O => default (zeros 32) (leaves !! i)
  | S k => hash_node (subtree leaves k (2 * i)) (subtree leaves k (2 * i + 1))
  end.

(** The messages a verification hashes: the node preimages along the path. *)
Fixpoint path_messages (leaf : bytes) (index : Z) (proof : list bytes) : list bytes :=
  match proof with
  | [] => []
  | sibling :: proof =>
    let m := if Z.land index 1 =? 0 then node_encoded leaf sibling else node_encoded sibling leaf in
    m :: path_messages (keccak256 m) (Z.shiftr index 1) proof
  end.

End tree.

Arguments subtree : simpl never.
#[global] Opaque TREE_DEPTH.

(** ** Lemmas *)

Section facts.
Context `{Keccak}.
Implicit Types leaves nodes : list bytes.

Fixpoint zero_hash (k : nat) : bytes :=
  match k with O => zeros 32 | S k => hash_node (zero_hash k) (zero_hash k) end.

Lemma zero_hashes_fill n :
  (n <= TREE_DEPTH)%nat ->
  let hs := foldl (fun hashes level =>
              <[S level := hash_node (hashes !!! level) (hashes !!! level)]> hashes)
              (replicate (S TREE_DEPTH) (zeros 32)) (seq 0 n) in
  length hs = S TREE_DEPTH /\ forall k, (k <= n)%nat -> hs !!! k = zero_hash k.
Proof.
  induction n as [|n IH]; intros Hn; cbv zeta.
  - split; [apply length_replicate|]. intros k Hk. replace k with O by lia. done.
  - rewrite seq_S, foldl_app. cbn [foldl]. destruct IH as [Hlen IH]; [lia|].
    split; [by rewrite length_insert|].
    intros k Hk. destruct (decide (k = S n)) as [->|Hne].
    + rewrite list_lookup_total_insert_eq by lia. simpl. by rewrite IH by lia.
    + rewrite list_lookup_total_insert_ne by lia. apply IH. lia.
Qed.

Lemma zero_hashes_lookup k : (k <= TREE_DEPTH)%nat -> zero_hashes !!! k = zero_hash k.
Proof. apply (zero_hashes_fill TREE_DEPTH). lia. Qed.

Lemma length_zero_hashes : length zero_hashes = S TREE_DEPTH.
Proof. apply (zero_hashes_fill TREE_DEPTH). lia. Qed.

Lemma take_zero_hashes : take TREE_DEPTH zero_hashes = map zero_hash (seq 0 TREE_DEPTH).
Proof.
  apply list_eq. intros i. destruct (decide (i < TREE_DEPTH)%nat) as [Hi|Hi].
  - rewrite lookup_take_lt by done.
    rewrite (list_lookup_lookup_total_lt zero_hashes) by (rewrite length_zero_hashes; lia).
    rewrite zero_hashes_lookup by lia.
    change (map zero_hash) with (fmap zero_hash : list nat -> list bytes).
    rewrite list_lookup_fmap, lookup_seq_lt by done. done.
  - rewrite !lookup_ge_None_2; [done| |]; rewrite ?length_map, ?length_seq, ?length_take; lia.
Qed.

(** The nodes left after [k] reductions. *)
Definition nodes_at leaves (k : nat) : list bytes :=
  foldl (fun nodes z => reduce_level z nodes) leaves (map zero_hash (seq 0 k)).

Lemma nodes_at_S leaves k : nodes_at leaves (S k) = reduce_level (zero_hash k) (nodes_at leaves k).
Proof. unfold nodes_at. rewrite seq_S, map_app, foldl_app. done. Qed.

Lemma reduce_level_lookup z nodes i :
  reduce_level z nodes !! i =
  (fun a => hash_node a (default z (nodes !! (2 * i + 1)%nat))) <$> nodes !! (2 * i)%nat.
Proof.
  unfold reduce_level. change (map (hash_pair z)) with (fmap (hash_pair z) : list (list bytes) -> _).
  rewrite list_lookup_fmap, chunks2_lookup.
  destruct (nodes !! (2 * i)%nat); [|done]. simpl. f_equal. unfold hash_pair. simpl.
  by destruct (nodes !! (i + (i + 0) + 1)%nat).
Qed.

Lemma length_reduce_level z nodes : length (reduce_level z nodes) = Nat.div2 (S (length nodes)).
Proof. unfold reduce_level. by rewrite length_map, length_chunks2. Qed.

Lemma nodes_at_subtree leaves k i : default (zero_hash k) (nodes_at leaves k !! i) = subtree leaves k i.
Proof.
  revert i. induction k as [|k IH]; intros i; [done|].
  rewrite nodes_at_S, reduce_level_lookup. simpl zero_hash.
  change (subtree leaves (S k) i) with
    (hash_node (subtree leaves k (2 * i)) (subtree leaves k (2 * i + 1))).
  rewrite <- !IH.
  destruct (nodes_at leaves k !! (2 * i)%nat) eqn:E1; simpl; [done|].
  rewrite (lookup_ge_None_2 _ (i + (i + 0) + 1)%nat); [done|].
  apply lookup_ge_None_1 in E1. lia.
Qed.

Lemma length_nodes_at leaves k :
  (0 < length leaves)%nat ->
  (0 < length (nodes_at leaves k))%nat /\
  2 ^ Z.of_nat k * (Z.of_nat (length (nodes_at leaves k)) - 1) < Z.of_nat (length leaves).
Proof.
  intros Hpos. induction k as [|k [IH1 IH2]]; [unfold nodes_at; simpl; lia|].
  rewrite nodes_at_S, length_reduce_level.
  pose proof (Nat.div2_odd (S (length (nodes_at leaves k)))) as Hd.
  rewrite Nat2Z.inj_succ, Z.pow_succ_r by lia.
  assert (0 < 2 ^ Z.of_nat k) by (apply Z.pow_pos_nonneg; lia).
  destruct (Nat.odd _); simpl Nat.b2n in Hd; split; nia.
Qed.

Lemma root_ok_eq {E} leaves :
  Z.of_nat (length leaves) <= MAX_LEAVES -> root (E := E) leaves = Ok (subtree leaves TREE_DEPTH 0).
Proof.
  intros Hlen. unfold root. rewrite (proj2 (Z.leb_le _ _) Hlen). simpl.
  rewrite <- (nodes_at_subtree leaves TREE_DEPTH 0).
  destruct leaves as [|l ls].
  - by rewrite zero_hashes_lookup by done.
  - rewrite take_zero_hashes. set (L := l :: ls) in *.
    change (foldl _ L _) with (nodes_at L TREE_DEPTH).
    destruct (length_nodes_at L TREE_DEPTH) as [Hpos Hb]; [simpl; lia|].
    assert (length (nodes_at L TREE_DEPTH) = 1%nat) as H1.
    { change MAX_LEAVES with 65536 in Hlen. change (2 ^ Z.of_nat TREE_DEPTH) with 65536 in Hb. lia. }
    rewrite H1. simpl. destruct (nodes_at L TREE_DEPTH); done.
Qed.

(** [merkle_proof] after [k] levels. *)
Lemma merkle_proof_fill leaves target k :
  0 <= target -> (k <= TREE_DEPTH)%nat ->
  exists proof,
    foldl merkle_proof_step (replicate TREE_DEPTH (zeros 32), leaves, target) (seq 0 k) =
      (proof, nodes_at leaves k, Z.shiftr target (Z.of_nat k)) /\
    length proof = TREE_DEPTH /\
    forall j, (j < k)%nat ->
      proof !! j = Some (subtree leaves j (Z.to_nat (Z.lxor (Z.shiftr target (Z.of_nat j)) 1))).
Proof.
  intros Ht. induction k as [|k IH]; intros Hk.
  - exists (replicate TREE_DEPTH (zeros 32)). split; [done|]. split; [apply length_replicate|lia].
  - destruct IH as (proof & Hf & Hlen & Hp); [lia|].
    rewrite seq_S, foldl_app, Hf. cbn [foldl Nat.add merkle_proof_step].
    rewrite zero_hashes_lookup by lia. rewrite nodes_at_subtree, nodes_at_S.
    eexists; split; [|split].
    + f_equal. rewrite Z.shiftr_shiftr by lia. f_equal. lia.
    + by rewrite length_insert.
    + intros j Hj. destruct (decide (j = k)) as [->|Hne].
      * rewrite list_lookup_insert_eq by lia. done.
      * rewrite list_lookup_insert_ne by done. apply Hp. lia.
Qed.

Lemma verify_step_subtree leaves k x :
  0 <= x ->
  verify_step (subtree leaves k (Z.to_nat x), x) (subtree leaves k (Z.to_nat (Z.lxor x 1)))
  = (subtree leaves (S k) (Z.to_nat (Z.shiftr x 1)), Z.shiftr x 1).
Proof.
  intros Hx. unfold verify_step.
  change (subtree leaves (S k) (Z.to_nat (Z.shiftr x 1))) with
    (hash_node (subtree leaves k (2 * Z.to_nat (Z.shiftr x 1)))
               (subtree leaves k (2 * Z.to_nat (Z.shiftr x 1) + 1))).
  assert (0 <= Z.shiftr x 1) by (apply Z.shiftr_nonneg; lia).
  rewrite lxor_1 by done. pose proof (land_1_shiftr x Hx) as Hs.
  destruct (Z.land x 1 =? 0); f_equal; f_equal; f_equal; lia.
Qed.

Lemma verify_fold_subtree leaves target proof k :
  0 <= target ->
  (forall j, (j < k)%nat ->
    proof !! j = Some (subtree leaves j (Z.to_nat (Z.lxor (Z.shiftr target (Z.of_nat j)) 1)))) ->
  foldl verify_step (subtree leaves 0 (Z.to_nat target), target) (take k proof) =
    (subtree leaves k (Z.to_nat (Z.shiftr target (Z.of_nat k))), Z.shiftr target (Z.of_nat k)).
Proof.
  intros Ht. induction k as [|k IH]; intros Hp; [done|].
  rewrite (take_S_r _ _ _ (Hp k ltac:(lia))), foldl_app, IH by (intros; apply Hp; lia).
  cbn [foldl]. rewrite verify_step_subtree by (apply Z.shiftr_nonneg; lia).
  rewrite Z.shiftr_shiftr by lia. by replace (Z.of_nat k + 1) with (Z.of_nat (S k)) by lia.
Qed.

Lemma shiftr_depth x : 0 <= x < MAX_LEAVES -> Z.shiftr x (Z.of_nat TREE_DEPTH) = 0.
Proof. intros. rewrite Z.shiftr_div_pow2 by lia. apply Z.div_small. done. Qed.

(** The verifier applied to its own messages. *)
Lemma verify_binding leaf1 leaf2 index p1 p2 :
  length leaf1 = 32%nat -> length leaf2 = 32%nat -> length p1 = length p2 ->
  Forall (fun s => length s = 32%nat) p1 -> Forall (fun s => length s = 32%nat) p2 ->
  no_collision (path_messages leaf1 index p1 ++ path_messages leaf2 index p2) ->
  (foldl verify_step (leaf1, index) p1).1 = (foldl verify_step (leaf2, index) p2).1 ->
  leaf1 = leaf2 /\ p1 = p2.
Proof.
  revert leaf1 leaf2 index p2. induction p1 as [|s1 p1 IH];
    intros leaf1 leaf2 index [|s2 p2] Hl1 Hl2 Hlen Hp1 Hp2 Hnc He; try done.
  inversion Hp1; inversion Hp2; subst. simpl in Hlen.
  set (m leaf s := if Z.land index 1 =? 0 then node_encoded leaf s else node_encoded s leaf).
  assert (forall leaf s, verify_step (leaf, index) s = (keccak256 (m leaf s), Z.shiftr index 1)) as Hv.
  { intros. unfold verify_step, m, hash_node. by destruct (_ =? 0). }
  cbn [foldl] in He. rewrite !Hv in He. cbn [path_messages] in Hnc. fold (m leaf1 s1) (m leaf2 s2) in Hnc.
  edestruct IH as [Hk ->]; [..|exact He|]; try apply keccak256_length; try done; [congruence| |].
  { eapply no_collision_subset, Hnc. set_solver. }
  eapply no_collision_elim in Hk; [|exact Hnc|set_solver..].
  unfold m, node_encoded in Hk.
  destruct (Z.land index 1 =? 0); apply app_inv_head in Hk; apply app_inj_1 in Hk as [-> ->]; auto; congruence.
Qed.

(** The 32-byte words of a leaf message. *)
Definition leaf_words (d : leaf_data) : list bytes :=
  match d with
  | NativeLeaf c b i w f =>
    [keccak256 (ascii NATIVE_WITHDRAWAL_LEAF_DOMAIN); u64_word c; address_word b; u32_word i;
     address_word (nw_recipient w); u64_word (nw_amount w); f]
  | Erc20Leaf c b i w f =>
    [keccak256 (ascii ERC20_WITHDRAWAL_LEAF_V2_DOMAIN); u64_word c; address_word b; u32_word i;
     address_word (tw_token w); u32_word (tw_encoding_version w); u32_word (tw_registry_index w);
     tw_record_commitment w; tw_asset_id w; address_word (tw_recipient w); u64_word (tw_amount w); f]
  | RawLeaf c b i f =>
    [keccak256 (ascii RAW_INNER_ACTION_LEAF_DOMAIN); u64_word c; address_word b; u32_word i; f]
  end.

Lemma leaf_message_words d : leaf_message d = concat (leaf_words d).
Proof. by destruct d. Qed.

Lemma leaf_words_typed d : leaf_typed d -> Forall (fun w => length w = 32%nat) (leaf_words d).
Proof.
  destruct d as [? ? ? [] ?|? ? ? [] ?|]; unfold leaf_typed, leaf_header_typed, native_typed, token_typed;
    simpl; intros; destruct_and?; repeat constructor; auto with zeko.
Qed.

Lemma leaf_message_injective a b :
  leaf_typed a -> leaf_typed b -> leaf_message a = leaf_message b -> forget_params a = forget_params b.
Proof.
  intros Ha Hb He.
  assert (leaf_words a = leaf_words b) as Hw.
  { apply (concat_inj_length 32); [lia|by apply leaf_words_typed..|by rewrite <- !leaf_message_words]. }
  destruct a as [? ? ? [] ?|? ? ? [] ?|], b as [? ? ? [] ?|? ? ? [] ?|];
    unfold leaf_typed, leaf_header_typed, native_typed, token_typed in Ha, Hb; simpl in Ha, Hb, Hw;
    destruct_and?; cons_props; simpl; word_props; subst; reflexivity.
Qed.

Lemma leaf_message_not_node d l r :
  leaf_typed d -> length l = 32%nat -> length r = 32%nat -> leaf_message d <> node_encoded l r.
Proof.
  intros Hd Hl Hr He. apply (f_equal length) in He.
  rewrite leaf_message_words, (length_concat_n 32) in He by by apply leaf_words_typed.
  unfold node_encoded in He. rewrite !length_app, keccak256_length in He.
  destruct d; simpl in He; lia.
Qed.

(** The proof of a position of the list is accepted there. *)
Lemma merkle_proof_accepts leaves target :
  Z.of_nat (length leaves) <= MAX_LEAVES -> 0 <= target ->
  match leaves !! Z.to_nat target with
  | Some leaf => exists proof r,
      merkle_proof leaves target = Some proof /\ length proof = TREE_DEPTH /\
      root (E := Empty_set) leaves = Ok r /\ verify_merkle_proof leaf target proof r = true
  | None => merkle_proof leaves target = None
  end.
Proof.
  intros Hlen Ht. unfold merkle_proof.
  rewrite (proj2 (Z.ltb_ge _ _) Hlen). simpl orb.
  destruct (leaves !! Z.to_nat target) as [leaf|] eqn:El.
  - pose proof (lookup_lt_Some _ _ _ El) as Hlt.
    rewrite (proj2 (Z.leb_gt _ _)) by lia.
    destruct (merkle_proof_fill leaves target TREE_DEPTH) as (proof & Hf & Hpl & Hp); [lia..|].
    rewrite Hf. exists proof, (subtree leaves TREE_DEPTH 0).
    repeat split; [done|by apply root_ok_eq|].
    unfold verify_merkle_proof. rewrite (proj2 (Z.leb_gt _ _)) by lia.
    apply bool_decide_eq_true. rewrite <- (take_ge proof TREE_DEPTH) by lia.
    replace leaf with (subtree leaves 0 (Z.to_nat target)) by (unfold subtree; by rewrite El).
    rewrite verify_fold_subtree by done. simpl. by rewrite shiftr_depth by lia.
  - apply lookup_ge_None in El. rewrite (proj2 (Z.leb_le _ _)); [done|lia].
Qed.

End facts.

(** ** Properties *)

Section properties.
Context `{Keccak}.

(** C20. The tree root the settlement guest publishes is the root of the
    perfect depth-16 tree whose absent leaves are the zero word, for every
    list of at most 65536 leaves; a longer list panics. *)
Theorem root_perfect_tree leaves :
  root (E := Empty_set) leaves =
    if Z.of_nat (length leaves) <=? MAX_LEAVES then Ok (subtree leaves TREE_DEPTH 0)
    else Panic "inner action tree exceeds capacity".
Proof.
  destruct (Z.leb_spec (Z.of_nat (length leaves)) MAX_LEAVES) as [Hle|Hgt].
  - by apply root_ok_eq.
  - unfold root. rewrite (proj2 (Z.leb_gt _ _) Hgt). done.
Qed.

(** C21. Completeness of membership proofs: exactly the positions of the leaf
    list have a proof, and that proof makes the verifier accept the leaf at
    its position under the published root. *)
Theorem merkle_proof_complete leaves target :
  Z.of_nat (length leaves) <= MAX_LEAVES -> 0 <= target ->
  match leaves !! Z.to_nat target with
  | Some leaf => exists proof r,
      merkle_proof leaves target = Some proof /\ length proof = TREE_DEPTH /\
      root (E := Empty_set) leaves = Ok r /\ verify_merkle_proof leaf target proof r = true
  | None => merkle_proof leaves target = None
  end.
Proof. apply merkle_proof_accepts. Qed.

(** C15. Soundness: whoever convinces the verifier of a leaf at the position
    of a committed leaf presents that very leaf and the canonical proof,
    unless two of the 32 node messages of the two paths collide. *)
Theorem merkle_proof_sound leaves target leaf honest claimed proof r :
  Z.of_nat (length leaves) <= MAX_LEAVES -> 0 <= target ->
  leaves !! Z.to_nat target = Some leaf -> length leaf = 32%nat -> length claimed = 32%nat ->
  merkle_proof leaves target = Some honest ->
  length proof = TREE_DEPTH ->
  Forall (fun s => length s = 32%nat) proof -> Forall (fun s => length s = 32%nat) honest ->
  no_collision (path_messages claimed target proof ++ path_messages leaf target honest) ->
  root (E := Empty_set) leaves = Ok r -> verify_merkle_proof claimed target proof r = true ->
  claimed = leaf /\ proof = honest.
Proof.
  intros Hlen Ht Hl Hw1 Hw2 Hh Hpl Hp Hhw Hnc Hr0 Hv.
  pose proof (merkle_proof_accepts leaves target Hlen Ht) as Hc. rewrite Hl, Hh in Hc.
  destruct Hc as (? & ? & [= <-] & Hhl & Hr & Hv').
  rewrite Hr0 in Hr. injection Hr as <-.
  unfold verify_merkle_proof in Hv, Hv'.
  destruct (MAX_LEAVES <=? target); [done|].
  apply bool_decide_eq_true in Hv, Hv'.
  apply (verify_binding claimed leaf target proof honest); try done; congruence.
Qed.

(** C23. Leaf messages are injective and domain separated: two typed leaves
    with the same message have the same kind, chain, bridge, index and
    withdrawal data, and no leaf message is an inner-node message. *)
Theorem leaf_messages_separated a :
  leaf_typed a ->
  (forall b, leaf_typed b -> leaf_message a = leaf_message b -> forget_params a = forget_params b) /\
  (forall l r, length l = 32%nat -> length r = 32%nat -> leaf_message a <> node_encoded l r).
Proof. intros Ha. split; intros; [by apply leaf_message_injective|by apply leaf_message_not_node]. Qed.

End properties.

(** ** Witnesses *)

Module Examples.
Definition word (n : Z) : bytes := to_be 32 n.
Definition leaves3 : list bytes := [word 81; word 82; word 83].
Definition proof1 : list bytes := Eval vm_compute in default [] (merkle_proof (H := checksum_keccak) leaves3 1).
Definition root3 : bytes := Eval vm_compute in
  match root (H := checksum_keccak) (E := Empty_set) leaves3 with Ok r => r | _ => [] end.
Definition raw0 : leaf_data := RawLeaf 31337 (zeros 20) 5 (word 9).
End Examples.
Import Examples.

Lemma merkle_proof_complete_witness :
  exists leaf proof r,
    leaves3 !! 1%nat = Some leaf /\ merkle_proof (H := checksum_keccak) leaves3 1 = Some proof /\
    root (H := checksum_keccak) (E := Empty_set) leaves3 = Ok r /\
    verify_merkle_proof (H := checksum_keccak) leaf 1 proof r = true.
Proof.
  pose proof (@merkle_proof_complete checksum_keccak leaves3 1 ltac:(vm_compute; discriminate)
                ltac:(lia)) as Hc.
  destruct Hc as (proof & r & ? & ? & ? & ?). exists (word 82), proof, r. auto.
Defined.

Lemma merkle_proof_sound_witness : word 82 = word 82 /\ proof1 = proof1.
Proof.
  apply (@merkle_proof_sound checksum_keccak leaves3 1 (word 82) proof1 (word 82) proof1 root3).
  1: vm_compute; discriminate.
  1: lia.
  1: reflexivity.
  1-2: apply length_to_be.
  1-2: vm_compute; reflexivity.
  4-5: vm_compute; reflexivity.
  all: apply (bool_decide_unpack _); vm_compute; exact I.
Defined.

Lemma leaf_messages_separated_witness :
  leaf_message (H := checksum_keccak) raw0 <> node_encoded (H := checksum_keccak) (word 1) (word 2).
Proof.
  refine (proj2 (@leaf_messages_separated checksum_keccak raw0 _) (word 1) (word 2) _ _);
    [|apply length_to_be..].
  unfold raw0, leaf_typed, leaf_header_typed, is_u64, is_u32.
  repeat split; try lia; apply length_zeros || apply length_to_be.
Defined.
