(* ===== verification/Codec.v ===== *)
(** * Cursors over byte buffers ([write_bytes] and [read_array] of [lib/src/lib.rs])

    Every public-values format is written by advancing a cursor over a
    zeroed buffer and read by advancing a cursor over a length-checked
    slice.  The two operations are translated with their slice panics; the
    lemmas reduce a run of writes to a concatenation and a run of reads to
    the consecutive pieces of the input. *)

From S2P Require Import Prelude.

Section codec.
Context {E : Type}.

(** [output[cursor..cursor + N].copy_from_slice(bytes); cursor += N]. *)
Definition write_bytes (st : bytes * nat) (b : bytes) : outcome E (bytes * nat) :=
  let '(output, cursor) := st in
  assert_ (cursor + length b <=? length output)%nat "slice index out of range";;
  Ok (take cursor output ++ b ++ drop (cursor + length b) output, (cursor + length b)%nat).

(** [input[cursor..cursor + N].try_into(); cursor += N]. *)
Definition read_array (n : nat) (input : bytes) (cursor : nat) : outcome E (bytes * nat) :=
  assert_ (cursor + n <=? length input)%nat "slice index out of range";;
  Ok (take n (drop cursor input), (cursor + n)%nat).

(** [for field in &mut fields { *field = read_array(input, &mut cursor) }]. *)
Fixpoint read_arrays (count n : nat) (input : bytes) (cursor : nat)
    : outcome E (list bytes * nat) :=
  match count with
  | O => Ok ([], cursor)
  | S count =>
    r ← read_array n input cursor;
    rs ← read_arrays count n input r.2;
    Ok (r.1 :: rs.1, rs.2)
  end.

(** [output[a..b].copy_from_slice(bytes)] with [b - a = bytes.len()]. *)
Definition patch (output : bytes) (at_ : nat) (b : bytes) : bytes :=
  take at_ output ++ b ++ drop (at_ + length b) output.

(** A run of writes. *)
Definition write_all (parts : list bytes) (st : bytes * nat) : outcome E (bytes * nat) :=
  foldM write_bytes st parts.

Lemma write_all_app pre parts rest :
  (length (concat parts) <= length rest)%nat ->
  write_all parts (pre ++ rest, length pre) =
    Ok (pre ++ concat parts ++ drop (length (concat parts)) rest,
        (length pre + length (concat parts))%nat).
Proof.
  revert pre rest. induction parts as [|b parts IH]; intros pre rest Hl; simpl in *.
  - by rewrite drop_0, Nat.add_0_r.
  - rewrite length_app in Hl. unfold write_all in *. simpl. unfold write_bytes at 1.
    rewrite (proj2 (Nat.leb_le _ _)) by (rewrite length_app; lia). simpl.
    rewrite take_app_length, drop_app_add, app_assoc, <- length_app.
    rewrite IH by (rewrite length_drop; lia).
    by rewrite drop_drop, <- !app_assoc, !length_app, Nat.add_assoc.
Qed.

(** Filling a whole zeroed buffer. *)
Lemma write_all_full parts n :
  length (concat parts) = n -> write_all parts (zeros n, 0%nat) = Ok (concat parts, n).
Proof.
  intros Hn. pose proof (write_all_app [] parts (zeros n)) as Hw. simpl in Hw.
  rewrite Hw by (rewrite length_zeros; lia).
  rewrite Hn, drop_ge, app_nil_r by (rewrite length_zeros; lia). done.
Qed.

(** Filling the tail of a buffer whose head is already written. *)
Lemma write_all_tail pre parts rest n :
  length pre = n -> length (concat parts) = length rest ->
  write_all parts (pre ++ rest, n) = Ok (pre ++ concat parts, (n + length (concat parts))%nat).
Proof.
  intros <- Hl. rewrite write_all_app by lia.
  by rewrite drop_ge, app_nil_r by lia.
Qed.

(** Reading [b] where the rest of the input starts with it. *)
Lemma read_array_at n input cursor b rest :
  drop cursor input = b ++ rest -> length b = n -> (cursor <= length input)%nat ->
  read_array n input cursor = Ok (b, (cursor + n)%nat) /\
  drop (cursor + n) input = rest /\ (cursor + n <= length input)%nat.
Proof.
  intros Hd <- Hc. pose proof (f_equal length Hd) as Hl. rewrite length_drop, length_app in Hl.
  unfold read_array. rewrite (proj2 (Nat.leb_le _ _)) by lia. simpl.
  rewrite Hd, take_app_length. split; [done|]. split; [|lia].
  by rewrite <- drop_drop, Hd, drop_app_length.
Qed.

Lemma read_array_Ok n input cursor r :
  read_array n input cursor = Ok r ->
  length r.1 = n /\ r.2 = (cursor + n)%nat /\ (r.2 <= length input)%nat /\
  drop cursor input = r.1 ++ drop r.2 input.
Proof.
  unfold read_array. intros Hr. inv_ok. bool_props. simpl.
  split; [rewrite length_take, length_drop; lia|]. repeat split; [done|].
  by rewrite <- drop_drop, take_drop.
Qed.

Lemma read_array_total n input cursor :
  (cursor + n <= length input)%nat -> exists r, read_array n input cursor = Ok r.
Proof. intros. unfold read_array. rewrite (proj2 (Nat.leb_le _ _)) by lia. eauto. Qed.

Lemma read_arrays_at n input cursor fs rest :
  drop cursor input = concat fs ++ rest -> Forall (fun f => length f = n) fs ->
  (cursor <= length input)%nat ->
  read_arrays (length fs) n input cursor = Ok (fs, (cursor + length fs * n)%nat) /\
  drop (cursor + length fs * n) input = rest /\ (cursor + length fs * n <= length input)%nat.
Proof.
  intros Hd Hf Hc. revert cursor Hd Hc. induction Hf as [|f fs Hf Hfs IH]; intros cursor Hd Hc; simpl in *.
  - by rewrite Nat.add_0_r.
  - rewrite <- app_assoc in Hd.
    destruct (read_array_at n input cursor _ _ Hd Hf Hc) as (-> & Hd' & Hc'). simpl.
    destruct (IH _ Hd' Hc') as (-> & Hd'' & Hc''). simpl.
    by rewrite Nat.add_assoc.
Qed.

Lemma read_arrays_at' count n input cursor fs rest :
  drop cursor input = concat fs ++ rest -> length fs = count -> Forall (fun f => length f = n) fs ->
  (cursor <= length input)%nat ->
  read_arrays count n input cursor = Ok (fs, (cursor + count * n)%nat) /\
  drop (cursor + count * n) input = rest /\ (cursor + count * n <= length input)%nat.
Proof. intros ? <-. apply read_arrays_at; done. Qed.

Lemma read_arrays_Ok count n input cursor r :
  read_arrays count n input cursor = Ok r -> (cursor <= length input)%nat ->
  length r.1 = count /\ Forall (fun f => length f = n) r.1 /\
  r.2 = (cursor + count * n)%nat /\ (r.2 <= length input)%nat /\
  drop cursor input = concat r.1 ++ drop r.2 input.
Proof.
  revert cursor r. induction count as [|count IH]; intros cursor r Hr Hc; simpl in Hr.
  - inv_ok. simpl. rewrite Nat.add_0_r. auto.
  - apply bind_Ok in Hr as (r1 & H1 & Hr). apply bind_Ok in Hr as (rs & Hrs & Hr). inv_ok.
    apply read_array_Ok in H1 as (Hl & Hc1 & Hle & Hd).
    apply IH in Hrs as (Hls & Hfs & Hc2 & Hle2 & Hd2); [|done]. simpl.
    repeat split; [lia|by constructor|lia|done|]. by rewrite Hd, Hd2, app_assoc.
Qed.

Lemma length_patch output at_ b : (at_ + length b <= length output)%nat -> length (patch output at_ b) = length output.
Proof. unfold patch. rewrite !length_app, length_take, length_drop. lia. Qed.

Lemma patch_app pre old new rest :
  length old = length new -> patch (pre ++ old ++ rest) (length pre) new = pre ++ new ++ rest.
Proof.
  intros Hl. unfold patch. rewrite take_app_length, drop_app_add, <- Hl, drop_app_length. done.
Qed.

End codec.

(** [read_next] consumes the first piece of the remaining input in a decoder
    run; the hypothesis [drop c input = piece ++ rest] tracks it. *)
Ltac read_len := rewrite ?length_to_be; first [assumption | reflexivity | done].
Ltac read_next :=
  let Hr := fresh in let Hd' := fresh in let Hc' := fresh in
  match goal with
  | Hd : drop ?c ?input = ?b ++ ?rest, Hc : (?c <= length ?input)%nat
    |- context[@read_array ?E ?n ?input ?c] =>
    destruct (@read_array_at E n input c b rest Hd ltac:(read_len) Hc) as (Hr & Hd' & Hc');
    rewrite Hr; clear Hr Hd Hc; cbn beta iota delta [mbind outcome_bind]
  | Hd : drop ?c ?input = concat ?fs ++ ?rest, Hc : (?c <= length ?input)%nat
    |- context[@read_arrays ?E ?count ?n ?input ?c] =>
    destruct (@read_arrays_at' E count n input c fs rest Hd ltac:(read_len) ltac:(assumption) Hc)
      as (Hr & Hd' & Hc');
    rewrite Hr; clear Hr Hd Hc; cbn beta iota delta [mbind outcome_bind]
  end.

(** Split every successful read of a decoder hypothesis. *)
Ltac split_reads :=
  repeat match goal with
  | p : (_ * _)%type |- _ => destruct p
  | H : read_array _ _ _ = Ok _ |- _ => apply read_array_Ok in H as (? & ? & ? & ?); simpl in *; subst
  end.
