(* ===== verification/PublicValues.v ===== *)
(** * Settlement receipts ([SettlementPublicValuesV1] .. [V4] of [lib/src/lib.rs])

    The big-endian receipt formats the settlement guest commits and Solidity
    and the gateway decode.  Each version extends the previous one: the wire
    format is the magic, the version and a body whose prefix is the body of
    the previous version ([frame], [body1] .. [body4]). *)

From S2P Require Import Prelude Codec.

(** ** Data *)

(** The eight canonical Mina field encodings of the outer state. *)
Record OuterStateV1 := { os_fields : list bytes }.

Definition pause_key (s : OuterStateV1) : bytes := os_fields s !!! 0%nat.
Definition status_flags (s : OuterStateV1) : bytes := os_fields s !!! 1%nat.
Definition ledger_hash (s : OuterStateV1) : bytes := os_fields s !!! 2%nat.
Definition inner_action_state (s : OuterStateV1) : bytes := os_fields s !!! 3%nat.
Definition inner_action_state_length (s : OuterStateV1) : bytes := os_fields s !!! 4%nat.
Definition sequencer (s : OuterStateV1) : bytes := os_fields s !!! 5%nat.
Definition da_key (s : OuterStateV1) : bytes := os_fields s !!! 6%nat.
Definition account_set (s : OuterStateV1) : bytes := os_fields s !!! 7%nat.

Inductive SettlementDaMode := Multisig.
Definition da_mode_u8 (m : SettlementDaMode) : Z := match m with Multisig => 1 end.

Definition SETTLEMENT_PUBLIC_VALUES_MAGIC : bytes := list_byte_of_string "ZKST".
Definition SETTLEMENT_PUBLIC_VALUES_VERSION : Z := 1.
Definition SETTLEMENT_PUBLIC_VALUES_V2_VERSION : Z := 2.
Definition SETTLEMENT_PUBLIC_VALUES_V3_VERSION : Z := 3.
Definition SETTLEMENT_PUBLIC_VALUES_V4_VERSION : Z := 4.
Definition SETTLEMENT_PUBLIC_VALUES_V1_LENGTH : nat := 768.
Definition SETTLEMENT_PUBLIC_VALUES_V2_LENGTH : nat := 828.
Definition SETTLEMENT_PUBLIC_VALUES_V3_LENGTH : nat := 932.
Definition SETTLEMENT_PUBLIC_VALUES_V4_LENGTH : nat := 904.

(** The [Err(String)] values: the receipt version whose decoder failed, and why. *)
Inductive DecodeError :=
| WrongLength (format expected actual : nat)
| InvalidMagic (format : nat)
| UnsupportedVersion (format : nat) (version : Z)
| ReservedByte
| UnsupportedDaMode (mode : Z)
| UnsupportedLength (actual : nat).

Module V1.

Record SettlementPublicValuesV1 := {
  da_mode : SettlementDaMode;
  chain_id : Z;
  settlement_contract : bytes;
  batch_sequence : Z;
  vk_hash : bytes;
  app_statement : bytes;
  mina_transaction_hash : bytes;
  state_before : OuterStateV1;
  state_after : OuterStateV1;
  outer_action_state_before : bytes;
  outer_action_state_after : bytes;
  outer_action_state_length_before : Z;
  outer_action_state_length_after : Z;
  synchronized_outer_action_state : bytes;
  synchronized_outer_action_state_length : Z;
  slot_lower : Z;
  slot_upper : Z
}.

(** The writes of [encode], in order; the two [for] loops are spliced in. *)
Definition writes (v : SettlementPublicValuesV1) : list bytes :=
  [SETTLEMENT_PUBLIC_VALUES_MAGIC;
   to_be 2 SETTLEMENT_PUBLIC_VALUES_VERSION;
   [byte_of (da_mode_u8 (da_mode v)); Byte.x00];
   to_be 8 (chain_id v);
   settlement_contract v;
   to_be 8 (batch_sequence v);
   vk_hash v;
   app_statement v;
   mina_transaction_hash v]
  ++ os_fields (state_before v)
  ++ os_fields (state_after v)
  ++ [outer_action_state_before v;
      outer_action_state_after v;
      to_be 4 (outer_action_state_length_before v);
      to_be 4 (outer_action_state_length_after v);
      synchronized_outer_action_state v;
      to_be 4 (synchronized_outer_action_state_length v);
      to_be 4 (slot_lower v);
      to_be 4 (slot_upper v)].

Definition encode {E} (v : SettlementPublicValuesV1) : outcome E bytes :=
  '(output, _) ← write_all (writes v) (zeros SETTLEMENT_PUBLIC_VALUES_V1_LENGTH, 0%nat);
  Ok output.

Definition decode (input : bytes) : outcome DecodeError SettlementPublicValuesV1 :=
  ensure (length input =? SETTLEMENT_PUBLIC_VALUES_V1_LENGTH)%nat
    (WrongLength 1 SETTLEMENT_PUBLIC_VALUES_V1_LENGTH (length input));;
  '(magic, cursor) ← read_array 4 input 0;
  ensure (bool_decide (magic = SETTLEMENT_PUBLIC_VALUES_MAGIC)) (InvalidMagic 1);;
  '(version, cursor) ← read_array 2 input cursor;
  ensure (from_be version =? SETTLEMENT_PUBLIC_VALUES_VERSION)
    (UnsupportedVersion 1 (from_be version));;
  '(mode, cursor) ← read_array 1 input cursor;
  '(reserved, cursor) ← read_array 1 input cursor;
  ensure (from_be reserved =? 0) ReservedByte;;
  da_mode ← (if from_be mode =? 1 then Ok Multisig else Err (UnsupportedDaMode (from_be mode)));
  '(chain_id, cursor) ← read_array 8 input cursor;
  '(settlement_contract, cursor) ← read_array 20 input cursor;
  '(batch_sequence, cursor) ← read_array 8 input cursor;
  '(vk_hash, cursor) ← read_array 32 input cursor;
  '(app_statement, cursor) ← read_array 32 input cursor;
  '(mina_transaction_hash, cursor) ← read_array 32 input cursor;
  '(state_before, cursor) ← read_arrays 8 32 input cursor;
  '(state_after, cursor) ← read_arrays 8 32 input cursor;
  '(outer_action_state_before, cursor) ← read_array 32 input cursor;
  '(outer_action_state_after, cursor) ← read_array 32 input cursor;
  '(outer_action_state_length_before, cursor) ← read_array 4 input cursor;
  '(outer_action_state_length_after, cursor) ← read_array 4 input cursor;
  '(synchronized_outer_action_state, cursor) ← read_array 32 input cursor;
  '(synchronized_outer_action_state_length, cursor) ← read_array 4 input cursor;
  '(slot_lower, cursor) ← read_array 4 input cursor;
  '(slot_upper, cursor) ← read_array 4 input cursor;
  Ok {| da_mode := da_mode;
        chain_id := from_be chain_id;
        settlement_contract := settlement_contract;
        batch_sequence := from_be batch_sequence;
        vk_hash := vk_hash;
        app_statement := app_statement;
        mina_transaction_hash := mina_transaction_hash;
        state_before := {| os_fields := state_before |};
        state_after := {| os_fields := state_after |};
        outer_action_state_before := outer_action_state_before;
        outer_action_state_after := outer_action_state_after;
        outer_action_state_length_before := from_be outer_action_state_length_before;
        outer_action_state_length_after := from_be outer_action_state_length_after;
        synchronized_outer_action_state := synchronized_outer_action_state;
        synchronized_outer_action_state_length := from_be synchronized_outer_action_state_length;
        slot_lower := from_be slot_lower;
        slot_upper := from_be slot_upper |}.

(** The Rust types of the fields. *)
Definition state_typed (s : OuterStateV1) : Prop :=
  length (os_fields s) = 8%nat /\ Forall (fun f => length f = 32%nat) (os_fields s).
Definition typed (v : SettlementPublicValuesV1) : Prop :=
  is_u64 (chain_id v) /\ length (settlement_contract v) = 20%nat /\ is_u64 (batch_sequence v) /\
  length (vk_hash v) = 32%nat /\ length (app_statement v) = 32%nat /\
  length (mina_transaction_hash v) = 32%nat /\
  state_typed (state_before v) /\ state_typed (state_after v) /\
  length (outer_action_state_before v) = 32%nat /\ length (outer_action_state_after v) = 32%nat /\
  is_u32 (outer_action_state_length_before v) /\ is_u32 (outer_action_state_length_after v) /\
  length (synchronized_outer_action_state v) = 32%nat /\
  is_u32 (synchronized_outer_action_state_length v) /\ is_u32 (slot_lower v) /\ is_u32 (slot_upper v).

End V1.

(** [if input[..4] != MAGIC]; [input[4..6]]: the header checks V2 to V4 share. *)
Definition check_header (format : nat) (expected : Z) (input : bytes) : outcome DecodeError unit :=
  ensure (bool_decide (take 4 input = SETTLEMENT_PUBLIC_VALUES_MAGIC)) (InvalidMagic format);;
  ensure (from_be (take 2 (drop 4 input)) =? expected)
    (UnsupportedVersion format (from_be (take 2 (drop 4 input)))).

Module V2.

Record SettlementPublicValuesV2 := {
  settlement : V1.SettlementPublicValuesV1;
  bridge_address : bytes;
  inner_action_root : bytes;
  inner_action_start_index : Z;
  inner_action_count : Z
}.

Definition writes (v : SettlementPublicValuesV2) : list bytes :=
  [bridge_address v; inner_action_root v; to_be 4 (inner_action_start_index v);
   to_be 4 (inner_action_count v)].

Definition encode {E} (v : SettlementPublicValuesV2) : outcome E bytes :=
  prefix ← V1.encode (settlement v);
  let output := patch (zeros SETTLEMENT_PUBLIC_VALUES_V2_LENGTH) 0 prefix in
  let output := patch output 4 (to_be 2 SETTLEMENT_PUBLIC_VALUES_V2_VERSION) in
  '(output, _) ← write_all (writes v) (output, SETTLEMENT_PUBLIC_VALUES_V1_LENGTH);
  Ok output.

Definition decode (input : bytes) : outcome DecodeError SettlementPublicValuesV2 :=
  ensure (length input =? SETTLEMENT_PUBLIC_VALUES_V2_LENGTH)%nat
    (WrongLength 2 SETTLEMENT_PUBLIC_VALUES_V2_LENGTH (length input));;
  check_header 2 SETTLEMENT_PUBLIC_VALUES_V2_VERSION input;;
  let v1_prefix := take SETTLEMENT_PUBLIC_VALUES_V1_LENGTH input in
  let v1_prefix := patch v1_prefix 4 (to_be 2 SETTLEMENT_PUBLIC_VALUES_VERSION) in
  settlement ← V1.decode v1_prefix;
  '(bridge_address, cursor) ← read_array 20 input SETTLEMENT_PUBLIC_VALUES_V1_LENGTH;
  '(inner_action_root, cursor) ← read_array 32 input cursor;
  '(inner_action_start_index, cursor) ← read_array 4 input cursor;
  '(inner_action_count, cursor) ← read_array 4 input cursor;
  Ok {| settlement := settlement;
        bridge_address := bridge_address;
        inner_action_root := inner_action_root;
        inner_action_start_index := from_be inner_action_start_index;
        inner_action_count := from_be inner_action_count |}.

Definition typed (v : SettlementPublicValuesV2) : Prop :=
  V1.typed (settlement v) /\ length (bridge_address v) = 20%nat /\
  length (inner_action_root v) = 32%nat /\ is_u32 (inner_action_start_index v) /\
  is_u32 (inner_action_count v).

End V2.

Module V3.

Record SettlementPublicValuesV3 := {
  settlement : V2.SettlementPublicValuesV2;
  asset_registry_root : bytes;
  asset_registry_count : Z;
  asset_registry_schema_version : Z;
  asset_record_hash : bytes;
  asset_record_commitment : bytes
}.

Definition writes (v : SettlementPublicValuesV3) : list bytes :=
  [asset_registry_root v; to_be 4 (asset_registry_count v);
   to_be 4 (asset_registry_schema_version v); asset_record_hash v; asset_record_commitment v].

Definition encode {E} (v : SettlementPublicValuesV3) : outcome E bytes :=
  prefix ← V2.encode (settlement v);
  let output := patch (zeros SETTLEMENT_PUBLIC_VALUES_V3_LENGTH) 0 prefix in
  let output := patch output 4 (to_be 2 SETTLEMENT_PUBLIC_VALUES_V3_VERSION) in
  '(output, _) ← write_all (writes v) (output, SETTLEMENT_PUBLIC_VALUES_V2_LENGTH);
  Ok output.

Definition decode (input : bytes) : outcome DecodeError SettlementPublicValuesV3 :=
  ensure (length input =? SETTLEMENT_PUBLIC_VALUES_V3_LENGTH)%nat
    (WrongLength 3 SETTLEMENT_PUBLIC_VALUES_V3_LENGTH (length input));;
  check_header 3 SETTLEMENT_PUBLIC_VALUES_V3_VERSION input;;
  let v2_prefix := take SETTLEMENT_PUBLIC_VALUES_V2_LENGTH input in
  let v2_prefix := patch v2_prefix 4 (to_be 2 SETTLEMENT_PUBLIC_VALUES_V2_VERSION) in
  settlement ← V2.decode v2_prefix;
  '(asset_registry_root, cursor) ← read_array 32 input SETTLEMENT_PUBLIC_VALUES_V2_LENGTH;
  '(asset_registry_count, cursor) ← read_array 4 input cursor;
  '(asset_registry_schema_version, cursor) ← read_array 4 input cursor;
  '(asset_record_hash, cursor) ← read_array 32 input cursor;
  '(asset_record_commitment, cursor) ← read_array 32 input cursor;
  Ok {| settlement := settlement;
        asset_registry_root := asset_registry_root;
        asset_registry_count := from_be asset_registry_count;
        asset_registry_schema_version := from_be asset_registry_schema_version;
        asset_record_hash := asset_record_hash;
        asset_record_commitment := asset_record_commitment |}.

Definition typed (v : SettlementPublicValuesV3) : Prop :=
  V2.typed (settlement v) /\ length (asset_registry_root v) = 32%nat /\
  is_u32 (asset_registry_count v) /\ is_u32 (asset_registry_schema_version v) /\
  length (asset_record_hash v) = 32%nat /\ length (asset_record_commitment v) = 32%nat.

End V3.

Module V4.

Record SettlementPublicValuesV4 := {
  settlement : V2.SettlementPublicValuesV2;
  asset_registry_root : bytes;
  asset_registry_count : Z;
  asset_registry_schema_version : Z;
  asset_record_batch_root : bytes;
  asset_record_batch_count : Z
}.

Definition writes (v : SettlementPublicValuesV4) : list bytes :=
  [asset_registry_root v; to_be 4 (asset_registry_count v);
   to_be 4 (asset_registry_schema_version v); asset_record_batch_root v;
   to_be 4 (asset_record_batch_count v)].

Definition encode {E} (v : SettlementPublicValuesV4) : outcome E bytes :=
  prefix ← V2.encode (settlement v);
  let output := patch (zeros SETTLEMENT_PUBLIC_VALUES_V4_LENGTH) 0 prefix in
  let output := patch output 4 (to_be 2 SETTLEMENT_PUBLIC_VALUES_V4_VERSION) in
  '(output, _) ← write_all (writes v) (output, SETTLEMENT_PUBLIC_VALUES_V2_LENGTH);
  Ok output.

Definition decode (input : bytes) : outcome DecodeError SettlementPublicValuesV4 :=
  ensure (length input =? SETTLEMENT_PUBLIC_VALUES_V4_LENGTH)%nat
    (WrongLength 4 SETTLEMENT_PUBLIC_VALUES_V4_LENGTH (length input));;
  check_header 4 SETTLEMENT_PUBLIC_VALUES_V4_VERSION input;;
  let v2_prefix := take SETTLEMENT_PUBLIC_VALUES_V2_LENGTH input in
  let v2_prefix := patch v2_prefix 4 (to_be 2 SETTLEMENT_PUBLIC_VALUES_V2_VERSION) in
  settlement ← V2.decode v2_prefix;
  '(asset_registry_root, cursor) ← read_array 32 input SETTLEMENT_PUBLIC_VALUES_V2_LENGTH;
  '(asset_registry_count, cursor) ← read_array 4 input cursor;
  '(asset_registry_schema_version, cursor) ← read_array 4 input cursor;
  '(asset_record_batch_root, cursor) ← read_array 32 input cursor;
  '(asset_record_batch_count, cursor) ← read_array 4 input cursor;
  Ok {| settlement := settlement;
        asset_registry_root := asset_registry_root;
        asset_registry_count := from_be asset_registry_count;
        asset_registry_schema_version := from_be asset_registry_schema_version;
        asset_record_batch_root := asset_record_batch_root;
        asset_record_batch_count := from_be asset_record_batch_count |}.

Definition typed (v : SettlementPublicValuesV4) : Prop :=
  V2.typed (settlement v) /\ length (asset_registry_root v) = 32%nat /\
  is_u32 (asset_registry_count v) /\ is_u32 (asset_registry_schema_version v) /\
  length (asset_record_batch_root v) = 32%nat /\ is_u32 (asset_record_batch_count v).

End V4.

(** ** The version dispatcher *)

Inductive SettlementPublicValues :=
| PV1 (values : V1.SettlementPublicValuesV1)
| PV2 (values : V2.SettlementPublicValuesV2)
| PV3 (values : V3.SettlementPublicValuesV3)
| PV4 (values : V4.SettlementPublicValuesV4).

Definition decode_values (input : bytes) : outcome DecodeError SettlementPublicValues :=
  if (length input =? SETTLEMENT_PUBLIC_VALUES_V1_LENGTH)%nat then PV1 <$> V1.decode input
  else if (length input =? SETTLEMENT_PUBLIC_VALUES_V2_LENGTH)%nat then PV2 <$> V2.decode input
  else if (length input =? SETTLEMENT_PUBLIC_VALUES_V3_LENGTH)%nat then PV3 <$> V3.decode input
  else if (length input =? SETTLEMENT_PUBLIC_VALUES_V4_LENGTH)%nat then PV4 <$> V4.decode input
  else Err (UnsupportedLength (length input)).

Definition settlement_of (v : SettlementPublicValues) : V1.SettlementPublicValuesV1 :=
  match v with
  | PV1 values => values
  | PV2 values => V2.settlement values
  | PV3 values => V2.settlement (V3.settlement values)
  | PV4 values => V2.settlement (V4.settlement values)
  end.

Definition inner_action_batch (v : SettlementPublicValues) : option V2.SettlementPublicValuesV2 :=
  match v with
  | PV1 _ => None
  | PV2 values => Some values
  | PV3 values => Some (V3.settlement values)
  | PV4 values => Some (V4.settlement values)
  end.

(** The encoder of each version; the guest picks the version. *)
Definition encode_values {E} (v : SettlementPublicValues) : outcome E bytes :=
  match v with
  | PV1 values => V1.encode values
  | PV2 values => V2.encode values
  | PV3 values => V3.encode values
  | PV4 values => V4.encode values
  end.

(** ** Specification: versions as frames around nested bodies *)

Definition version_of (v : SettlementPublicValues) : Z :=
  match v with PV1 _ => 1 | PV2 _ => 2 | PV3 _ => 3 | PV4 _ => 4 end.

Definition body1 (v : V1.SettlementPublicValuesV1) : bytes := concat (drop 2 (V1.writes v)).
Definition body2 (v : V2.SettlementPublicValuesV2) : bytes :=
  body1 (V2.settlement v) ++ concat (V2.writes v).
Definition body (v : SettlementPublicValues) : bytes :=
  match v with
  | PV1 v => body1 v
  | PV2 v => body2 v
  | PV3 v => body2 (V3.settlement v) ++ concat (V3.writes v)
  | PV4 v => body2 (V4.settlement v) ++ concat (V4.writes v)
  end.
Definition frame (version : Z) (b : bytes) : bytes :=
  SETTLEMENT_PUBLIC_VALUES_MAGIC ++ to_be 2 version ++ b.

Definition typed (v : SettlementPublicValues) : Prop :=
  match v with
  | PV1 v => V1.typed v | PV2 v => V2.typed v | PV3 v => V3.typed v | PV4 v => V4.typed v
  end.

(** The header a decoder accepts: the length fixes the version, byte 6 is
    the multisig mode and byte 7 is reserved. *)
Definition length_of_version (version : Z) : option nat :=
  if version =? 1 then Some 768%nat else if version =? 2 then Some 828%nat
  else if version =? 3 then Some 932%nat else if version =? 4 then Some 904%nat else None.
Definition header_ok (input : bytes) : bool :=
  bool_decide (length_of_version (from_be (take 2 (drop 4 input))) = Some (length input)) &&
  bool_decide (take 4 input = SETTLEMENT_PUBLIC_VALUES_MAGIC) &&
  bool_decide (take 2 (drop 6 input) = [Byte.x01; Byte.x00]).

(** ** Lemmas *)

Lemma body1_flat v :
  body1 v = [byte_of (da_mode_u8 (V1.da_mode v))] ++ [Byte.x00] ++ to_be 8 (V1.chain_id v)
    ++ V1.settlement_contract v ++ to_be 8 (V1.batch_sequence v) ++ V1.vk_hash v
    ++ V1.app_statement v ++ V1.mina_transaction_hash v
    ++ concat (os_fields (V1.state_before v)) ++ concat (os_fields (V1.state_after v))
    ++ V1.outer_action_state_before v ++ V1.outer_action_state_after v
    ++ to_be 4 (V1.outer_action_state_length_before v)
    ++ to_be 4 (V1.outer_action_state_length_after v)
    ++ V1.synchronized_outer_action_state v
    ++ to_be 4 (V1.synchronized_outer_action_state_length v)
    ++ to_be 4 (V1.slot_lower v) ++ to_be 4 (V1.slot_upper v) ++ [].
Proof.
  unfold body1, V1.writes. cbn [drop app concat]. rewrite !concat_app. reflexivity.
Qed.

Lemma writes1_frame v : concat (V1.writes v) = frame 1 (body1 v).
Proof. reflexivity. Qed.

Lemma length_state s : V1.state_typed s -> length (concat (os_fields s)) = 256%nat.
Proof. intros [Hl Hf]. by rewrite (length_concat_n 32), Hl by done. Qed.

Lemma length_body1 v : V1.typed v -> length (body1 v) = 762%nat.
Proof.
  intros Hv. unfold V1.typed in Hv. destruct_and?. rewrite body1_flat.
  repeat rewrite length_app, ?length_to_be. rewrite !length_state by done. simpl. lia.
Qed.

Lemma length_frame k b : length (frame k b) = (6 + length b)%nat.
Proof. unfold frame. rewrite !length_app, length_to_be. done. Qed.

(** Re-versioning a frame: [output[4..6].copy_from_slice(..)]. *)
Lemma patch_version j k b : patch (frame j b) 4 (to_be 2 k) = frame k b.
Proof. unfold frame. apply (patch_app SETTLEMENT_PUBLIC_VALUES_MAGIC). by rewrite !length_to_be. Qed.

Lemma patch_head n pre : (length pre <= n)%nat ->
  patch (zeros n) 0 pre = pre ++ zeros (n - length pre).
Proof. intros. unfold patch. simpl. f_equal. unfold zeros. by rewrite drop_replicate. Qed.

(** The writers of V2 to V4 produce the next frame. *)
Lemma extend_frame {E} j k b parts n m :
  length (frame j b) = n -> (n + length (concat parts))%nat = m ->
  ('(output, _) ← write_all (E := E) parts (patch (patch (zeros m) 0 (frame j b)) 4 (to_be 2 k), n);
   Ok output) = Ok (frame k (b ++ concat parts)).
Proof.
  intros Hn Hm. rewrite patch_head by lia.
  replace (frame j b ++ zeros (m - length (frame j b))) with (frame j (b ++ zeros (m - n)))
    by (unfold frame; rewrite <- !app_assoc, <- Hn; done).
  rewrite patch_version.
  replace (frame k (b ++ zeros (m - n))) with (frame k b ++ zeros (m - n))
    by (unfold frame; by rewrite <- !app_assoc).
  rewrite write_all_tail.
  - reflexivity.
  - rewrite length_frame in *. done.
  - rewrite length_zeros. lia.
Qed.

Lemma encode1_frame {E} v : V1.typed v -> V1.encode (E := E) v = Ok (frame 1 (body1 v)).
Proof.
  intros Hv. unfold V1.encode. rewrite write_all_full; [by rewrite writes1_frame|].
  by rewrite writes1_frame, length_frame, length_body1.
Qed.

Lemma length_writes2 v : V2.typed v -> length (concat (V2.writes v)) = 60%nat.
Proof. unfold V2.typed, V2.writes. intros; destruct_and?. cbn [concat]. rewrite !length_app, !length_to_be. simpl. lia. Qed.
Lemma length_writes3 v : V3.typed v -> length (concat (V3.writes v)) = 104%nat.
Proof. unfold V3.typed, V3.writes. intros; destruct_and?. cbn [concat]. rewrite !length_app, !length_to_be. simpl. lia. Qed.
Lemma length_writes4 v : V4.typed v -> length (concat (V4.writes v)) = 76%nat.
Proof. unfold V4.typed, V4.writes. intros; destruct_and?. cbn [concat]. rewrite !length_app, !length_to_be. simpl. lia. Qed.

Lemma length_body2 v : V2.typed v -> length (body2 v) = 822%nat.
Proof.
  intros Hv. unfold body2. rewrite length_app, length_writes2 by done.
  unfold V2.typed in Hv. rewrite length_body1 by tauto. done.
Qed.

Lemma encode2_frame {E} v : V2.typed v -> V2.encode (E := E) v = Ok (frame 2 (body2 v)).
Proof.
  intros Hv. unfold V2.encode. rewrite encode1_frame by (unfold V2.typed in Hv; tauto). simpl.
  apply extend_frame; [|by rewrite length_writes2].
  rewrite length_frame, length_body1 by (unfold V2.typed in Hv; tauto). done.
Qed.

Lemma encode_frame {E} v : typed v -> encode_values (E := E) v = Ok (frame (version_of v) (body v)).
Proof.
  destruct v as [v|v|v|v]; simpl; intros Hv.
  - by apply encode1_frame.
  - by apply encode2_frame.
  - unfold V3.encode. rewrite encode2_frame by (unfold V3.typed in Hv; tauto). simpl.
    apply extend_frame; [|by rewrite length_writes3].
    rewrite length_frame, length_body2 by (unfold V3.typed in Hv; tauto). done.
  - unfold V4.encode. rewrite encode2_frame by (unfold V4.typed in Hv; tauto). simpl.
    apply extend_frame; [|by rewrite length_writes4].
    rewrite length_frame, length_body2 by (unfold V4.typed in Hv; tauto). done.
Qed.

(** Decoding a frame. *)
Lemma decode1_frame v : V1.typed v -> V1.decode (frame 1 (body1 v)) = Ok v.
Proof.
  intros Hv. pose proof (length_body1 v Hv) as Hlen.
  unfold V1.typed, V1.state_typed in Hv. destruct_and?.
  pose proof (length_frame 1 (body1 v)) as Hfl. rewrite Hlen in Hfl.
  remember (frame 1 (body1 v)) as input eqn:Hin.
  assert (drop 0 input = SETTLEMENT_PUBLIC_VALUES_MAGIC ++ to_be 2 1 ++ body1 v) as Hd
    by (by rewrite Hin).
  rewrite body1_flat in Hd. clear Hin Hlen.
  assert (0 <= length input)%nat as Hc by lia.
  unfold V1.decode. rewrite ensure_true by by apply Nat.eqb_eq.
  read_next. rewrite ensure_true by done.
  read_next. rewrite ensure_true by done.
  do 2 read_next. rewrite ensure_true by done.
  replace (from_be [byte_of (da_mode_u8 (V1.da_mode v))] =? 1) with true by by destruct (V1.da_mode v).
  cbn beta iota delta [mbind outcome_bind].
  repeat read_next.
  repeat match goal with H : drop _ _ = _ |- _ => clear H | H : (_ <= _)%nat |- _ => clear H end.
  repeat (rewrite from_be_to_be_small by auto with zeko).
  destruct v as [[] ? ? ? ? ? ? [] [] ? ? ? ? ? ? ? ?]. reflexivity.
Qed.

Lemma frame_version j b : 0 <= j < 65536 -> from_be (take 2 (drop 4 (frame j b))) = j.
Proof.
  intros. unfold frame. change (drop 4 (SETTLEMENT_PUBLIC_VALUES_MAGIC ++ to_be 2 j ++ b)) with (to_be 2 j ++ b).
  rewrite (take_app_length' (to_be 2 j)) by by rewrite length_to_be. by apply from_be_to_be_small.
Qed.

Lemma check_header_frame k b : 0 <= k < 65536 -> check_header (Z.to_nat k) k (frame k b) = Ok tt.
Proof.
  intros. unfold check_header. rewrite ensure_true by by apply bool_decide_eq_true.
  rewrite frame_version by done. unfold ensure. by rewrite Z.eqb_refl.
Qed.

(** The prefix a V2 to V4 decoder rebuilds. *)
Lemma prefix_of_frame j k b tail n :
  length (frame k b) = n -> patch (take n (frame k (b ++ tail))) 4 (to_be 2 j) = frame j b.
Proof.
  intros <-. replace (frame k (b ++ tail)) with (frame k b ++ tail) by (unfold frame; by rewrite <- !app_assoc).
  rewrite take_app_length. apply patch_version.
Qed.

Lemma drop_frame k b tail n : length (frame k b) = n -> drop n (frame k (b ++ tail)) = tail.
Proof.
  intros <-. replace (frame k (b ++ tail)) with (frame k b ++ tail) by (unfold frame; by rewrite <- !app_assoc).
  apply drop_app_length.
Qed.

Ltac read_tail v :=
  repeat read_next;
  repeat match goal with H : drop _ _ = _ |- _ => clear H | H : (_ <= _)%nat |- _ => clear H end;
  repeat (rewrite from_be_to_be_small by auto with zeko); destruct v; reflexivity.

Lemma decode2_frame v : V2.typed v -> V2.decode (frame 2 (body2 v)) = Ok v.
Proof.
  intros Hv. pose proof (length_body2 v Hv) as Hl. unfold V2.typed in Hv. destruct_and?.
  assert (length (frame 2 (body1 (V2.settlement v))) = 768%nat) as Hp
    by (by rewrite length_frame, length_body1).
  pose proof (length_frame 2 (body2 v)) as Hfl. rewrite Hl in Hfl. unfold body2 in *.
  unfold V2.decode. rewrite ensure_true by by apply Nat.eqb_eq.
  rewrite (check_header_frame 2) by lia. cbn beta iota delta [mbind outcome_bind].
  rewrite prefix_of_frame, decode1_frame by done.
  cbn beta iota delta [mbind outcome_bind].
  pose proof (drop_frame 2 _ (concat (V2.writes v)) _ Hp) as Hd.
  remember (frame 2 (body1 (V2.settlement v) ++ concat (V2.writes v))) as input eqn:Hin. clear Hin.
  assert (768 <= length input)%nat as Hc by lia.
  unfold V2.writes in Hd. cbn [concat] in Hd.
  change SETTLEMENT_PUBLIC_VALUES_V1_LENGTH with 768%nat.
  read_tail v.
Qed.

Lemma decode3_frame v : V3.typed v -> V3.decode (frame 3 (body (PV3 v))) = Ok v.
Proof.
  intros Hv. pose proof (length_writes3 v Hv) as Hl. unfold V3.typed in Hv. destruct_and?.
  assert (length (frame 3 (body2 (V3.settlement v))) = 828%nat) as Hp
    by (by rewrite length_frame, length_body2).
  cbn beta iota delta [body].
  assert (length (frame 3 (body2 (V3.settlement v) ++ concat (V3.writes v))) = 932%nat) as Hfl
    by (rewrite length_frame, length_app, length_body2, Hl by done; done).
  unfold V3.decode. rewrite ensure_true by by apply Nat.eqb_eq.
  rewrite (check_header_frame 3) by lia. cbn beta iota delta [mbind outcome_bind].
  rewrite prefix_of_frame, decode2_frame by done.
  cbn beta iota delta [mbind outcome_bind].
  pose proof (drop_frame 3 _ (concat (V3.writes v)) _ Hp) as Hd.
  remember (frame 3 (body2 (V3.settlement v) ++ concat (V3.writes v))) as input eqn:Hin. clear Hin.
  assert (828 <= length input)%nat as Hc by lia.
  unfold V3.writes in Hd. cbn [concat] in Hd.
  change SETTLEMENT_PUBLIC_VALUES_V2_LENGTH with 828%nat.
  read_tail v.
Qed.

Lemma decode4_frame v : V4.typed v -> V4.decode (frame 4 (body (PV4 v))) = Ok v.
Proof.
  intros Hv. pose proof (length_writes4 v Hv) as Hl. unfold V4.typed in Hv. destruct_and?.
  assert (length (frame 4 (body2 (V4.settlement v))) = 828%nat) as Hp
    by (by rewrite length_frame, length_body2).
  cbn beta iota delta [body].
  assert (length (frame 4 (body2 (V4.settlement v) ++ concat (V4.writes v))) = 904%nat) as Hfl
    by (rewrite length_frame, length_app, length_body2, Hl by done; done).
  unfold V4.decode. rewrite ensure_true by by apply Nat.eqb_eq.
  rewrite (check_header_frame 4) by lia. cbn beta iota delta [mbind outcome_bind].
  rewrite prefix_of_frame, decode2_frame by done.
  cbn beta iota delta [mbind outcome_bind].
  pose proof (drop_frame 4 _ (concat (V4.writes v)) _ Hp) as Hd.
  remember (frame 4 (body2 (V4.settlement v) ++ concat (V4.writes v))) as input eqn:Hin. clear Hin.
  assert (828 <= length input)%nat as Hc by lia.
  unfold V4.writes in Hd. cbn [concat] in Hd.
  change SETTLEMENT_PUBLIC_VALUES_V2_LENGTH with 828%nat.
  read_tail v.
Qed.

(** ** Canonicity: an accepted input is the frame of its value *)

Lemma from_be_eq n b z : length b = n -> from_be b = z -> b = to_be n z.
Proof. intros Hl <-. by rewrite to_be_from_be_n. Qed.

(** Destruct the reads of a decoder hypothesis and keep their pieces. *)
Ltac inv_reads :=
  repeat first
    [ progress inv_ok
    | match goal with
      | H : (match ?p with (_, _) => _ end) = Ok _ |- _ => destruct p
      | H : read_array _ _ _ = Ok _ |- _ =>
        apply read_array_Ok in H as (? & ? & ? & ?); cbn [fst snd] in *; subst
      | H : read_arrays _ _ _ _ = Ok _ |- _ =>
        apply read_arrays_Ok in H as (? & ? & ? & ? & ?); [cbn [fst snd] in *; subst|lia]
      end ].

(** Rebuild the input from its pieces: [drop c input = b ++ drop c' input]. *)
Ltac chain_drops :=
  repeat match goal with
  | H : drop ?c ?input = ?b ++ drop ?c' ?input |- context[drop ?c ?input] => rewrite H; clear H
  end.

Ltac typed_reads := repeat split; simpl; try assumption; auto with zeko.

Ltac is_u := first [apply from_be_u32; assumption | apply from_be_u64; assumption].

Lemma decode1_canonical input v :
  V1.decode input = Ok v -> V1.typed v /\ input = frame 1 (body1 v).
Proof.
  unfold V1.decode. intros Hv. apply bind_Ok in Hv as ([] & Hl & Hv).
  apply ensure_Ok, Nat.eqb_eq in Hl. change SETTLEMENT_PUBLIC_VALUES_V1_LENGTH with 768%nat in Hl.
  inv_reads. bool_props. subst.
  destruct (from_be l1 =? 1) eqn:Hmode; [|done]. bool_props. inv_ok.
  split.
  - unfold V1.typed, V1.state_typed. simpl. split_and?; first [assumption | is_u].
  - change input with (drop 0 input). rewrite body1_flat. unfold frame.
    cbn [V1.da_mode V1.chain_id V1.settlement_contract V1.batch_sequence V1.vk_hash V1.app_statement
      V1.mina_transaction_hash V1.state_before V1.state_after os_fields V1.outer_action_state_before
      V1.outer_action_state_after V1.outer_action_state_length_before
      V1.outer_action_state_length_after V1.synchronized_outer_action_state
      V1.synchronized_outer_action_state_length V1.slot_lower V1.slot_upper].
    rewrite !to_be_from_be_n by assumption.
    rewrite <- (from_be_eq 2 l0 1) by assumption.
    rewrite <- (from_be_eq 1 l2 0 ltac:(assumption) ltac:(assumption) : l2 = [Byte.x00]).
    match goal with m : SettlementDaMode |- _ => destruct m end. change (da_mode_u8 Multisig) with 1.
    rewrite <- (from_be_eq 1 l1 1 ltac:(assumption) ltac:(assumption) : l1 = [byte_of 1]).
    chain_drops. rewrite drop_ge by lia. reflexivity.
Qed.

(** A prefix whose re-versioned copy is a frame is itself a frame. *)
Lemma prefix_frame j k input n b :
  (6 <= n <= length input)%nat ->
  take 4 input = SETTLEMENT_PUBLIC_VALUES_MAGIC -> from_be (take 2 (drop 4 input)) = k ->
  patch (take n input) 4 (to_be 2 j) = frame j b -> input = frame k (b ++ drop n input).
Proof.
  intros Hn Hm Hv Hp.
  assert (take 2 (drop 4 input) = to_be 2 k) as Hver.
  { apply from_be_eq; [|done]. rewrite length_take, length_drop. lia. }
  unfold patch, frame in Hp.
  rewrite length_to_be, take_take in Hp. replace (4 `min` n)%nat with 4%nat in Hp by lia.
  rewrite Hm in Hp. do 2 apply app_inv_head in Hp.
  unfold frame. rewrite <- Hp, <- Hm, <- Hver.
  rewrite skipn_firstn_comm.
  replace (drop n input) with (drop (n - (4 + 2)) (drop (4 + 2) input)) by (rewrite drop_drop; f_equal; lia).
  rewrite take_drop, <- drop_drop. by rewrite !take_drop.
Qed.

Lemma check_header_Ok format k input u :
  check_header format k input = Ok u ->
  take 4 input = SETTLEMENT_PUBLIC_VALUES_MAGIC /\ from_be (take 2 (drop 4 input)) = k.
Proof. unfold check_header. intros. inv_ok. bool_props. done. Qed.

(** The tail of a V2 to V4 decoder run. *)
Ltac canonical_tail :=
  cbn [concat]; rewrite !to_be_from_be_n by assumption;
  chain_drops; rewrite drop_ge by lia; rewrite ?app_nil_r; reflexivity.

Lemma decode2_canonical input v :
  V2.decode input = Ok v -> V2.typed v /\ input = frame 2 (body2 v).
Proof.
  unfold V2.decode. intros Hv. apply bind_Ok in Hv as ([] & Hl & Hv).
  apply ensure_Ok, Nat.eqb_eq in Hl. change SETTLEMENT_PUBLIC_VALUES_V2_LENGTH with 828%nat in Hl.
  change SETTLEMENT_PUBLIC_VALUES_V1_LENGTH with 768%nat in Hv.
  apply bind_Ok in Hv as (u & Hh & Hv). apply check_header_Ok in Hh as [Hm Hver].
  apply bind_Ok in Hv as (s & Hs & Hv). apply decode1_canonical in Hs as [Hts Hs].
  pose proof (prefix_frame 1 2 input 768 _ ltac:(lia) Hm Hver Hs) as Hf; clear Hs.
  inv_reads. split.
  - unfold V2.typed. simpl. split_and?; first [assumption | is_u].
  - rewrite Hf at 1. unfold body2, V2.writes.
    cbn [V2.settlement V2.bridge_address V2.inner_action_root V2.inner_action_start_index
         V2.inner_action_count].
    unfold frame. do 3 f_equal. canonical_tail.
Qed.

Lemma decode3_canonical input v :
  V3.decode input = Ok v -> V3.typed v /\ input = frame 3 (body (PV3 v)).
Proof.
  unfold V3.decode. intros Hv. apply bind_Ok in Hv as ([] & Hl & Hv).
  apply ensure_Ok, Nat.eqb_eq in Hl. change SETTLEMENT_PUBLIC_VALUES_V3_LENGTH with 932%nat in Hl.
  change SETTLEMENT_PUBLIC_VALUES_V2_LENGTH with 828%nat in Hv.
  apply bind_Ok in Hv as (u & Hh & Hv). apply check_header_Ok in Hh as [Hm Hver].
  apply bind_Ok in Hv as (s & Hs & Hv). apply decode2_canonical in Hs as [Hts Hs].
  pose proof (prefix_frame 2 3 input 828 _ ltac:(lia) Hm Hver Hs) as Hf; clear Hs.
  inv_reads. split.
  - unfold V3.typed. simpl. split_and?; first [assumption | is_u].
  - rewrite Hf at 1. cbn beta iota delta [body]. unfold V3.writes.
    cbn [V3.settlement V3.asset_registry_root V3.asset_registry_count
         V3.asset_registry_schema_version V3.asset_record_hash V3.asset_record_commitment].
    unfold frame. do 3 f_equal. canonical_tail.
Qed.

Lemma decode4_canonical input v :
  V4.decode input = Ok v -> V4.typed v /\ input = frame 4 (body (PV4 v)).
Proof.
  unfold V4.decode. intros Hv. apply bind_Ok in Hv as ([] & Hl & Hv).
  apply ensure_Ok, Nat.eqb_eq in Hl. change SETTLEMENT_PUBLIC_VALUES_V4_LENGTH with 904%nat in Hl.
  change SETTLEMENT_PUBLIC_VALUES_V2_LENGTH with 828%nat in Hv.
  apply bind_Ok in Hv as (u & Hh & Hv). apply check_header_Ok in Hh as [Hm Hver].
  apply bind_Ok in Hv as (s & Hs & Hv). apply decode2_canonical in Hs as [Hts Hs].
  pose proof (prefix_frame 2 4 input 828 _ ltac:(lia) Hm Hver Hs) as Hf; clear Hs.
  inv_reads. split.
  - unfold V4.typed. simpl. split_and?; first [assumption | is_u].
  - rewrite Hf at 1. cbn beta iota delta [body]. unfold V4.writes.
    cbn [V4.settlement V4.asset_registry_root V4.asset_registry_count
         V4.asset_registry_schema_version V4.asset_record_batch_root V4.asset_record_batch_count].
    unfold frame. do 3 f_equal. canonical_tail.
Qed.

(** ** Acceptance and absence of panics *)

Lemma decode_values_canonical input v :
  decode_values input = Ok v -> typed v /\ input = frame (version_of v) (body v).
Proof.
  unfold decode_values.
  repeat case_match; intros Hv; inv_ok; subst.
  - by apply decode1_canonical.
  - by apply decode2_canonical.
  - by apply decode3_canonical.
  - by apply decode4_canonical.
Qed.

Lemma length_typed_frame v :
  typed v -> length_of_version (version_of v) = Some (length (frame (version_of v) (body v))).
Proof.
  destruct v as [v|v|v|v]; intros Hv; rewrite length_frame; cbn beta iota delta [body].
  - by rewrite length_body1.
  - by rewrite length_body2.
  - rewrite length_app, length_writes3, length_body2; [done| |done]. apply Hv.
  - rewrite length_app, length_writes4, length_body2; [done| |done]. apply Hv.
Qed.

Lemma decode_values_frame v : typed v -> decode_values (frame (version_of v) (body v)) = Ok v.
Proof.
  intros Hv. pose proof (length_typed_frame v Hv) as Hl. unfold decode_values.
  destruct v as [v|v|v|v].
  - assert (length (frame 1 (body1 v)) = 768%nat) as Hn by (apply (inj Some); symmetry; exact Hl).
    cbn [body version_of]. rewrite Hn. cbn [Nat.eqb]. by rewrite decode1_frame.
  - assert (length (frame 2 (body2 v)) = 828%nat) as Hn by (apply (inj Some); symmetry; exact Hl).
    cbn [body version_of]. rewrite Hn. cbn [Nat.eqb]. by rewrite decode2_frame.
  - assert (length (frame 3 (body (PV3 v))) = 932%nat) as Hn by (apply (inj Some); symmetry; exact Hl).
    cbn [version_of]. rewrite Hn. cbn [Nat.eqb]. by rewrite decode3_frame.
  - assert (length (frame 4 (body (PV4 v))) = 904%nat) as Hn by (apply (inj Some); symmetry; exact Hl).
    cbn [version_of]. rewrite Hn. cbn [Nat.eqb]. by rewrite decode4_frame.
Qed.

Definition no_panic {E A} (m : outcome E A) : Prop := panics m = false.

Lemma no_panic_bind {E A B} (m : outcome E A) (f : A -> outcome E B) :
  no_panic m -> (forall a, m = Ok a -> no_panic (f a)) -> no_panic (m ≫= f).
Proof. destruct m; simpl; auto. Qed.

Lemma no_panic_ensure {E} b (e : E) : no_panic (ensure b e).
Proof. by destruct b. Qed.

Lemma no_panic_read {E} n input c :
  (c + n <= length input)%nat -> no_panic (read_array (E := E) n input c).
Proof. intros H. destruct (read_array_total (E := E) n input c H) as [? ->]. done. Qed.

Lemma no_panic_reads {E} count n input c :
  (c + count * n <= length input)%nat -> no_panic (read_arrays (E := E) count n input c).
Proof.
  revert c. induction count as [|count IH]; intros c Hc; simpl in *; [done|].
  apply no_panic_bind; [apply no_panic_read; lia|]. intros r Hr.
  apply read_array_Ok in Hr as (? & ? & ? & ?).
  apply no_panic_bind; [apply IH; lia|]. done.
Qed.

Ltac no_panic_step :=
  match goal with
  | |- no_panic (_ ≫= _) => apply no_panic_bind
  | |- no_panic (ensure _ _) => apply no_panic_ensure
  | |- no_panic (read_array _ _ _) => apply no_panic_read; lia
  | |- no_panic (read_arrays _ _ _ _) => apply no_panic_reads; lia
  | |- no_panic (if _ then _ else _) => case_match
  | |- no_panic (Ok _) => reflexivity
  | |- no_panic (Err _) => reflexivity
  | |- forall a, read_array _ _ _ = Ok a -> _ =>
    intros [? ?] (? & ? & ? & _)%read_array_Ok; cbn [fst snd] in *
  | |- forall a, read_arrays _ _ _ _ = Ok a -> _ =>
    intros [? ?] (_ & _ & ? & ? & _)%read_arrays_Ok; [cbn [fst snd] in *|lia]
  | |- forall a, ensure _ _ = Ok a -> _ => intros _ _
  | |- forall a, _ = Ok a -> _ => intros ? ?
  end.

Lemma decode1_no_panic input : no_panic (V1.decode input).
Proof.
  unfold V1.decode. apply no_panic_bind; [apply no_panic_ensure|].
  intros _ Hl%ensure_Ok%Nat.eqb_eq. change SETTLEMENT_PUBLIC_VALUES_V1_LENGTH with 768%nat in Hl.
  repeat no_panic_step.
Qed.

Lemma check_header_no_panic format k input : no_panic (check_header format k input).
Proof. unfold check_header. repeat no_panic_step. Qed.

Lemma decode2_no_panic input : no_panic (V2.decode input).
Proof.
  unfold V2.decode. apply no_panic_bind; [apply no_panic_ensure|].
  intros _ Hl%ensure_Ok%Nat.eqb_eq. change SETTLEMENT_PUBLIC_VALUES_V2_LENGTH with 828%nat in Hl.
  apply no_panic_bind; [apply check_header_no_panic|]. intros _ _.
  change SETTLEMENT_PUBLIC_VALUES_V1_LENGTH with 768%nat.
  apply no_panic_bind; [apply decode1_no_panic|]. intros ? _.
  repeat no_panic_step.
Qed.

Lemma decode_values_no_panic input : no_panic (decode_values input).
Proof.
  assert (forall E A B (m : outcome E A) (f : A -> B), no_panic m -> no_panic (f <$> m)) as Hmap
    by (intros ? ? ? []; done).
  unfold decode_values.
  repeat case_match; try apply Hmap; [apply decode1_no_panic|apply decode2_no_panic| | |done];
    first [unfold V3.decode | unfold V4.decode]; (apply no_panic_bind; [apply no_panic_ensure|]);
    intros _ Hl%ensure_Ok%Nat.eqb_eq;
    (apply no_panic_bind; [apply check_header_no_panic|]); intros _ _;
    change SETTLEMENT_PUBLIC_VALUES_V3_LENGTH with 932%nat in Hl;
    change SETTLEMENT_PUBLIC_VALUES_V4_LENGTH with 904%nat in Hl;
    change SETTLEMENT_PUBLIC_VALUES_V2_LENGTH with 828%nat;
    (apply no_panic_bind; [apply decode2_no_panic|]); intros ? _;
    repeat no_panic_step.
Qed.

(** Reads inside the buffer succeed. *)
Lemma read_array_in {E B} n input c (k : bytes * nat -> outcome E B) :
  (c + n <= length input)%nat ->
  (read_array n input c ≫= k) = k (take n (drop c input), (c + n)%nat).
Proof. intros Hc. unfold read_array. by rewrite (proj2 (Nat.leb_le _ _) Hc). Qed.

Lemma read_arrays_in {E B} count n input c (k : list bytes * nat -> outcome E B) :
  (c + count * n <= length input)%nat ->
  exists fs, (read_arrays count n input c ≫= k) = k (fs, (c + count * n)%nat).
Proof.
  intros Hc. pose proof (no_panic_reads (E := E) count n input c Hc) as Hp.
  destruct (read_arrays count n input c) as [r|e|w] eqn:Hr; [|exfalso|done].
  - destruct r as [fs c']. pose proof (read_arrays_Ok _ _ _ _ _ Hr ltac:(lia)) as (_ & _ & Hc' & _).
    simpl in Hc'. subst. by exists fs.
  - clear - Hr. revert c e Hr. induction count as [|count IH]; intros c e Hr; simpl in Hr; [done|].
    unfold read_array, assert_ in Hr. destruct (_ <=? _)%nat; simpl in Hr; [|done].
    destruct (read_arrays count n input (c + n)) eqn:Hs; simpl in Hr; try done. by eapply IH.
Qed.

Ltac read_total :=
  repeat first
    [ rewrite read_array_in by lia
    | match goal with |- context[read_arrays ?a ?b ?i ?c ≫= ?k] =>
        let fs := fresh in destruct (read_arrays_in a b i c k ltac:(lia)) as [fs ->] end ];
  eexists; reflexivity.

Lemma decode1_total input :
  length input = 768%nat -> take 4 input = SETTLEMENT_PUBLIC_VALUES_MAGIC ->
  take 2 (drop 4 input) = to_be 2 1 -> take 2 (drop 6 input) = [Byte.x01; Byte.x00] ->
  exists v, V1.decode input = Ok v.
Proof.
  intros Hl Hm Hv Hb. unfold V1.decode. rewrite ensure_true by by apply Nat.eqb_eq.
  assert (take 1 (drop 6 input) = [Byte.x01]) as H6.
  { replace (take 1 (drop 6 input)) with (take 1 (take 2 (drop 6 input))) by by rewrite take_take.
    by rewrite Hb. }
  assert (take 1 (drop 7 input) = [Byte.x00]) as H7.
  { replace (drop 7 input) with (drop 1 (drop 6 input)) by by rewrite drop_drop.
    rewrite take_drop_commute. cbn [Nat.add]. by rewrite Hb. }
  rewrite read_array_in by lia. rewrite drop_0, Hm, ensure_true by done.
  rewrite read_array_in by lia. cbn [Nat.add]. rewrite Hv, ensure_true by done.
  do 2 rewrite read_array_in by lia. cbn [Nat.add]. rewrite H6, H7, ensure_true by done.
  change (from_be [Byte.x01] =? 1) with true. cbv iota. rewrite Ok_bind.
  read_total.
Qed.

Lemma header_ok_inv input :
  header_ok input = true ->
  exists k, length_of_version k = Some (length input) /\
    from_be (take 2 (drop 4 input)) = k /\
    take 4 input = SETTLEMENT_PUBLIC_VALUES_MAGIC /\ take 2 (drop 6 input) = [Byte.x01; Byte.x00].
Proof. unfold header_ok. intros H. bool_props. eauto. Qed.

Lemma header_ok_frame v : typed v -> header_ok (frame (version_of v) (body v)) = true.
Proof.
  intros Hv. unfold header_ok. rewrite frame_version by (destruct v; simpl; lia).
  rewrite length_typed_frame by done. rewrite !bool_decide_true; [done| |done|done].
  assert (forall b, take 2 (drop 6 (frame (version_of v) b)) = take 2 b) as ->.
  { intros b. unfold frame. rewrite app_assoc, (drop_app_length' (_ ++ _)); [done|].
    by rewrite length_app, length_to_be. }
  destruct v as [v|v|v|v]; cbn [body]; unfold body2;
    (rewrite body1_flat; by destruct (V1.da_mode _)).
Qed.

(** The copy of an accepted header that the inner decoder receives. *)
Lemma patched_header j n input :
  (8 <= n <= length input)%nat -> take 4 input = SETTLEMENT_PUBLIC_VALUES_MAGIC ->
  let q := patch (take n input) 4 (to_be 2 j) in
  length q = n /\ take 4 q = SETTLEMENT_PUBLIC_VALUES_MAGIC /\
  take 2 (drop 4 q) = to_be 2 j /\ take 2 (drop 6 q) = take 2 (drop 6 input).
Proof.
  intros Hn Hm q. assert (length (take n input) = n) as Ht by (rewrite length_take; lia).
  assert (length q = n) as Hq by (unfold q; rewrite length_patch; [done|rewrite length_to_be; lia]).
  assert (q = SETTLEMENT_PUBLIC_VALUES_MAGIC ++ to_be 2 j ++ drop 6 (take n input)) as Hqe.
  { unfold q, patch. rewrite take_take, Nat.min_l by lia. rewrite Hm.
    by rewrite length_to_be. }
  rewrite Hqe in *. split; [done|]. split; [done|]. split.
  - change (drop 4 _) with (to_be 2 j ++ drop 6 (take n input)).
    apply take_app_length'. by rewrite length_to_be.
  - rewrite app_assoc, (drop_app_length' (_ ++ _)) by (by rewrite length_app, length_to_be).
    rewrite skipn_firstn_comm, take_take. f_equal. lia.
Qed.

Lemma check_header_ok format k input :
  take 4 input = SETTLEMENT_PUBLIC_VALUES_MAGIC -> from_be (take 2 (drop 4 input)) = k ->
  check_header format k input = Ok tt.
Proof.
  intros Hm Hv. unfold check_header. rewrite ensure_true by by apply bool_decide_eq_true.
  unfold ensure. by rewrite (proj2 (Z.eqb_eq _ _) Hv).
Qed.

Lemma decode2_total input :
  length input = 828%nat -> take 4 input = SETTLEMENT_PUBLIC_VALUES_MAGIC ->
  from_be (take 2 (drop 4 input)) = 2 -> take 2 (drop 6 input) = [Byte.x01; Byte.x00] ->
  exists v, V2.decode input = Ok v.
Proof.
  intros Hl Hm Hv Hb. unfold V2.decode. rewrite ensure_true by by apply Nat.eqb_eq.
  rewrite check_header_ok, Ok_bind by done.
  change SETTLEMENT_PUBLIC_VALUES_V1_LENGTH with 768%nat.
  destruct (patched_header 1 768 input) as (H1 & H2 & H3 & H4); [lia|done|].
  destruct (decode1_total _ H1 H2 H3) as [s Hs]; [by rewrite H4|].
  change SETTLEMENT_PUBLIC_VALUES_VERSION with 1. rewrite Hs, Ok_bind. read_total.
Qed.

Lemma decode3_total input :
  length input = 932%nat -> take 4 input = SETTLEMENT_PUBLIC_VALUES_MAGIC ->
  from_be (take 2 (drop 4 input)) = 3 -> take 2 (drop 6 input) = [Byte.x01; Byte.x00] ->
  exists v, V3.decode input = Ok v.
Proof.
  intros Hl Hm Hv Hb. unfold V3.decode. rewrite ensure_true by by apply Nat.eqb_eq.
  rewrite check_header_ok, Ok_bind by done.
  change SETTLEMENT_PUBLIC_VALUES_V2_LENGTH with 828%nat.
  destruct (patched_header 2 828 input) as (H1 & H2 & H3 & H4); [lia|done|].
  destruct (decode2_total _ H1 H2) as [s Hs]; [by rewrite H3|by rewrite H4|].
  change SETTLEMENT_PUBLIC_VALUES_V2_VERSION with 2. rewrite Hs, Ok_bind. read_total.
Qed.

Lemma decode4_total input :
  length input = 904%nat -> take 4 input = SETTLEMENT_PUBLIC_VALUES_MAGIC ->
  from_be (take 2 (drop 4 input)) = 4 -> take 2 (drop 6 input) = [Byte.x01; Byte.x00] ->
  exists v, V4.decode input = Ok v.
Proof.
  intros Hl Hm Hv Hb. unfold V4.decode. rewrite ensure_true by by apply Nat.eqb_eq.
  rewrite check_header_ok, Ok_bind by done.
  change SETTLEMENT_PUBLIC_VALUES_V2_LENGTH with 828%nat.
  destruct (patched_header 2 828 input) as (H1 & H2 & H3 & H4); [lia|done|].
  destruct (decode2_total _ H1 H2) as [s Hs]; [by rewrite H3|by rewrite H4|].
  change SETTLEMENT_PUBLIC_VALUES_V2_VERSION with 2. rewrite Hs, Ok_bind. read_total.
Qed.

Lemma length_of_version_cases k n :
  length_of_version k = Some n ->
  k = 1 /\ n = 768%nat \/ k = 2 /\ n = 828%nat \/ k = 3 /\ n = 932%nat \/ k = 4 /\ n = 904%nat.
Proof.
  unfold length_of_version.
  destruct (Z.eqb_spec k 1); [by intros [= <-]; auto|].
  destruct (Z.eqb_spec k 2); [by intros [= <-]; auto|].
  destruct (Z.eqb_spec k 3); [by intros [= <-]; auto|].
  destruct (Z.eqb_spec k 4); [by intros [= <-]; auto 6|done].
Qed.

Lemma decode_values_total input : header_ok input = true -> exists v, decode_values input = Ok v.
Proof.
  intros (k & Hk & Hver & Hm & Hb)%header_ok_inv.
  unfold decode_values.
  apply length_of_version_cases in Hk as [[-> Hl]|[[-> Hl]|[[-> Hl]|[-> Hl]]]]; rewrite Hl; cbn [Nat.eqb].
  - destruct (decode1_total input Hl Hm) as [v ->]; [apply from_be_eq; [|done]|done|by eexists].
    rewrite length_take, length_drop. lia.
  - destruct (decode2_total input Hl Hm) as [v ->]; [done..|by eexists].
  - destruct (decode3_total input Hl Hm) as [v ->]; [done..|by eexists].
  - destruct (decode4_total input Hl Hm) as [v ->]; [done..|by eexists].
Qed.

(** ** Properties *)

(** Every typed receipt of every version encodes without a panic, to the
    length its version fixes, and the gateway's decoder returns it. *)
Theorem settlement_values_roundtrip v :
  typed v ->
  exists b, encode_values (E := Empty_set) v = Ok b /\
    length_of_version (version_of v) = Some (length b) /\ decode_values b = Ok v.
Proof.
  intros Hv. exists (frame (version_of v) (body v)).
  split; [by apply encode_frame|]. split; [by apply length_typed_frame|by apply decode_values_frame].
Qed.

(** C25. The wire format is canonical: an input the decoder accepts is
    byte for byte the encoding of the receipt it returns, which is typed.
    Two inputs that decode to the same receipt are therefore equal. *)
Theorem settlement_values_canonical input v :
  decode_values input = Ok v -> typed v /\ encode_values (E := Empty_set) v = Ok input.
Proof.
  intros Hd. destruct (decode_values_canonical input v Hd) as [Hv ->].
  split; [done|by apply encode_frame].
Qed.

(** On arbitrary bytes the decoder never panics (its slice reads stay in
    range), and it accepts exactly the inputs whose magic, version, length,
    DA mode and reserved byte agree. *)
Theorem settlement_decode_accepts input :
  panics (decode_values input) = false /\ is_ok (decode_values input) = header_ok input.
Proof.
  split; [apply decode_values_no_panic|].
  destruct (header_ok input) eqn:Hh.
  - destruct (decode_values_total input Hh) as [v ->]. done.
  - destruct (decode_values input) as [v| |] eqn:Hd; try done.
    apply decode_values_canonical in Hd as [Hv ->]. by rewrite header_ok_frame in Hh.
Qed.

(** ** Witnesses *)

Module Examples.
Definition state (z : Z) : OuterStateV1 := {| os_fields := replicate 8 (to_be 32 z) |}.
Definition v1 : V1.SettlementPublicValuesV1 := {|
  V1.da_mode := Multisig; V1.chain_id := 11155111; V1.settlement_contract := to_be 20 17;
  V1.batch_sequence := 42; V1.vk_hash := to_be 32 34; V1.app_statement := to_be 32 51;
  V1.mina_transaction_hash := to_be 32 68; V1.state_before := state 1; V1.state_after := state 2;
  V1.outer_action_state_before := to_be 32 85; V1.outer_action_state_after := to_be 32 102;
  V1.outer_action_state_length_before := 7; V1.outer_action_state_length_after := 8;
  V1.synchronized_outer_action_state := to_be 32 119;
  V1.synchronized_outer_action_state_length := 6; V1.slot_lower := 100; V1.slot_upper := 120 |}.
Definition v2 : V2.SettlementPublicValuesV2 := {|
  V2.settlement := v1; V2.bridge_address := to_be 20 136; V2.inner_action_root := to_be 32 153;
  V2.inner_action_start_index := 7; V2.inner_action_count := 1 |}.
Definition v4 : SettlementPublicValues := PV4 {|
  V4.settlement := v2; V4.asset_registry_root := to_be 32 170; V4.asset_registry_count := 5;
  V4.asset_registry_schema_version := 1; V4.asset_record_batch_root := to_be 32 187;
  V4.asset_record_batch_count := 2 |}.
Lemma v4_typed : typed v4.
Proof.
  unfold typed, v4, V4.typed, V2.typed, V1.typed, V1.state_typed, is_u64, is_u32; simpl.
  split_and!; try lia; try done; repeat constructor.
Qed.
End Examples.

Lemma settlement_values_roundtrip_witness :
  exists b, encode_values (E := Empty_set) Examples.v4 = Ok b /\
    length_of_version (version_of Examples.v4) = Some (length b) /\ decode_values b = Ok Examples.v4.
Proof. apply settlement_values_roundtrip. exact Examples.v4_typed. Defined.

Lemma settlement_values_canonical_witness :
  typed Examples.v4 /\
  encode_values (E := Empty_set) Examples.v4 =
    Ok (match encode_values (E := Empty_set) Examples.v4 with Ok b => b | _ => [] end).
Proof. apply settlement_values_canonical. vm_compute. reflexivity. Defined.
