(* ===== verification/BridgeValues.v ===== *)
(** * Bridge transition receipts ([BridgeTransitionPublicValuesV2] of [lib/src/lib.rs])

    The header of eleven fields and the variable tail of outer actions that
    the bridge guest commits, with the gateway's decoder. *)

From S2P Require Import Prelude Codec PublicValues.

(** ** Data *)

Definition BRIDGE_PUBLIC_VALUES_V2_MAGIC : bytes := list_byte_of_string "ZKBR".
Definition BRIDGE_PUBLIC_VALUES_V2_VERSION : Z := 2.
Definition BRIDGE_PUBLIC_VALUES_V2_HEADER_LENGTH : nat := 164.
Definition BRIDGE_ACTION_FIELDS : nat := 5.
Definition BRIDGE_ACTION_V2_LENGTH : nat := (BRIDGE_ACTION_FIELDS + 1) * 32.

Record BridgeOuterActionV2 := { ba_fields : list bytes; ba_state_after : bytes }.

Record BridgeTransitionPublicValuesV2 := {
  ethereum_state_before : bytes;
  ethereum_state_after : bytes;
  ethereum_nonce_before : Z;
  ethereum_nonce_after : Z;
  zeko_action_state_before : bytes;
  zeko_action_state_after : bytes;
  zeko_action_state_length_before : Z;
  zeko_action_state_length_after : Z;
  actions : list BridgeOuterActionV2
}.

Inductive BridgeDecodeError :=
| TruncatedHeader
| BridgeInvalidMagic
| BridgeUnsupportedVersion (version : Z)
| ReservedBytes
| LengthOverflow
| BridgeWrongLength (expected : Z) (actual : nat).

(** ** Operations *)

Definition encode_action (a : BridgeOuterActionV2) : bytes := concat (ba_fields a) ++ ba_state_after a.

Definition encode {E} (v : BridgeTransitionPublicValuesV2) : outcome E bytes :=
  assert_ (Z.of_nat (length (actions v)) <=? u32_MAX) "bridge action count fits u32";;
  let count := Z.of_nat (length (actions v)) in
  Ok (concat [BRIDGE_PUBLIC_VALUES_V2_MAGIC; to_be 2 BRIDGE_PUBLIC_VALUES_V2_VERSION; zeros 2;
              ethereum_state_before v; ethereum_state_after v;
              to_be 8 (ethereum_nonce_before v); to_be 8 (ethereum_nonce_after v);
              zeko_action_state_before v; zeko_action_state_after v;
              to_be 4 (zeko_action_state_length_before v);
              to_be 4 (zeko_action_state_length_after v);
              to_be 4 count]
      ++ concat (map encode_action (actions v))).

(** [HEADER_LENGTH.checked_add(count * ACTION_LENGTH)] on 64-bit [usize]. *)
Definition expected_length (count : Z) : option Z :=
  let tail := (count * Z.of_nat BRIDGE_ACTION_V2_LENGTH) mod 2 ^ 64 in
  let total := Z.of_nat BRIDGE_PUBLIC_VALUES_V2_HEADER_LENGTH + tail in
  if total <? 2 ^ 64 then Some total else None.

(** The loop over [0..count]. *)
Fixpoint read_actions (count : nat) (input : bytes) (cursor : nat)
    : outcome BridgeDecodeError (list BridgeOuterActionV2 * nat) :=
  match count with
  | O => Ok ([], cursor)
  | S count =>
    '(fields, cursor) ← read_arrays BRIDGE_ACTION_FIELDS 32 input cursor;
    '(state_after, cursor) ← read_array 32 input cursor;
    '(rest, cursor) ← read_actions count input cursor;
    Ok ({| ba_fields := fields; ba_state_after := state_after |} :: rest, cursor)
  end.

Definition decode (input : bytes) : outcome BridgeDecodeError BridgeTransitionPublicValuesV2 :=
  ensure (negb (length input <? BRIDGE_PUBLIC_VALUES_V2_HEADER_LENGTH)%nat) TruncatedHeader;;
  ensure (bool_decide (take 4 input = BRIDGE_PUBLIC_VALUES_V2_MAGIC)) BridgeInvalidMagic;;
  ensure (from_be (take 2 (drop 4 input)) =? BRIDGE_PUBLIC_VALUES_V2_VERSION)
    (BridgeUnsupportedVersion (from_be (take 2 (drop 4 input))));;
  ensure (bool_decide (take 2 (drop 6 input) = zeros 2)) ReservedBytes;;
  '(ethereum_state_before, cursor) ← read_array 32 input 8;
  '(ethereum_state_after, cursor) ← read_array 32 input cursor;
  '(ethereum_nonce_before, cursor) ← read_array 8 input cursor;
  '(ethereum_nonce_after, cursor) ← read_array 8 input cursor;
  '(zeko_action_state_before, cursor) ← read_array 32 input cursor;
  '(zeko_action_state_after, cursor) ← read_array 32 input cursor;
  '(zeko_action_state_length_before, cursor) ← read_array 4 input cursor;
  '(zeko_action_state_length_after, cursor) ← read_array 4 input cursor;
  '(count, cursor) ← read_array 4 input cursor;
  match expected_length (from_be count) with
  | None => Err LengthOverflow
  | Some expected =>
    ensure (Z.of_nat (length input) =? expected) (BridgeWrongLength expected (length input));;
    '(actions, cursor) ← read_actions (Z.to_nat (from_be count)) input cursor;
    Ok {| ethereum_state_before := ethereum_state_before;
          ethereum_state_after := ethereum_state_after;
          ethereum_nonce_before := from_be ethereum_nonce_before;
          ethereum_nonce_after := from_be ethereum_nonce_after;
          zeko_action_state_before := zeko_action_state_before;
          zeko_action_state_after := zeko_action_state_after;
          zeko_action_state_length_before := from_be zeko_action_state_length_before;
          zeko_action_state_length_after := from_be zeko_action_state_length_after;
          actions := actions |}
  end.

(** [self.actions.len() as u32]. *)
Definition deposit_count (v : BridgeTransitionPublicValuesV2) : Z :=
  Z.of_nat (length (actions v)) mod 2 ^ 32.

(** ** Specification *)

Definition action_typed (a : BridgeOuterActionV2) : Prop :=
  length (ba_fields a) = BRIDGE_ACTION_FIELDS /\
  Forall (fun f => length f = 32%nat) (ba_fields a) /\ length (ba_state_after a) = 32%nat.

Definition typed (v : BridgeTransitionPublicValuesV2) : Prop :=
  length (ethereum_state_before v) = 32%nat /\ length (ethereum_state_after v) = 32%nat /\
  is_u64 (ethereum_nonce_before v) /\ is_u64 (ethereum_nonce_after v) /\
  length (zeko_action_state_before v) = 32%nat /\ length (zeko_action_state_after v) = 32%nat /\
  is_u32 (zeko_action_state_length_before v) /\ is_u32 (zeko_action_state_length_after v) /\
  is_u32 (Z.of_nat (length (actions v))) /\ Forall action_typed (actions v).

(** The inputs the decoder accepts. *)
Definition bridge_header_ok (input : bytes) : bool :=
  (164 <=? length input)%nat &&
  bool_decide (take 8 input = BRIDGE_PUBLIC_VALUES_V2_MAGIC ++ to_be 2 2 ++ zeros 2) &&
  (Z.of_nat (length input) =? 164 + 192 * from_be (take 4 (drop 160 input))).

(** ** Lemmas *)

Lemma length_encode_action a : action_typed a -> length (encode_action a) = 192%nat.
Proof.
  intros (Hl & Hf & Hs). unfold encode_action.
  by rewrite length_app, (length_concat_n 32), Hl, Hs.
Qed.

Lemma length_encode_actions l :
  Forall action_typed l -> length (concat (map encode_action l)) = (length l * 192)%nat.
Proof.
  intros H. rewrite (length_concat_n 192), length_map; [done|].
  apply Forall_map. eapply Forall_impl; [exact H|]. apply length_encode_action.
Qed.

Definition flat (v : BridgeTransitionPublicValuesV2) : bytes :=
  ethereum_state_before v ++ ethereum_state_after v ++
  to_be 8 (ethereum_nonce_before v) ++ to_be 8 (ethereum_nonce_after v) ++
  zeko_action_state_before v ++ zeko_action_state_after v ++
  to_be 4 (zeko_action_state_length_before v) ++ to_be 4 (zeko_action_state_length_after v) ++
  to_be 4 (Z.of_nat (length (actions v))) ++ concat (map encode_action (actions v)) ++ [].
Definition wire (v : BridgeTransitionPublicValuesV2) : bytes :=
  (BRIDGE_PUBLIC_VALUES_V2_MAGIC ++ to_be 2 2 ++ zeros 2) ++ flat v.

Lemma encode_wire {E} v : typed v -> encode (E := E) v = Ok (wire v).
Proof.
  intros Hv. unfold encode, wire, flat. unfold typed, is_u32 in Hv. destruct_and?.
  rewrite assert_true by (apply Z.leb_le; unfold u32_MAX; lia).
  cbn [concat]. rewrite !app_nil_r. rewrite <- !app_assoc. done.
Qed.

Lemma length_flat v : typed v -> length (flat v) = (156 + length (actions v) * 192)%nat.
Proof.
  unfold typed, flat. intros; destruct_and?.
  rewrite !length_app, !length_to_be, length_encode_actions by done. simpl. lia.
Qed.

Lemma length_wire v : typed v -> length (wire v) = (164 + length (actions v) * 192)%nat.
Proof.
  intros Hv. unfold wire. rewrite length_app, length_flat by done.
  rewrite !length_app, length_to_be, length_zeros. simpl. lia.
Qed.

Lemma expected_length_u32 c : is_u32 c -> expected_length c = Some (164 + c * 192).
Proof.
  intros [? ?]. unfold expected_length. change (Z.of_nat BRIDGE_ACTION_V2_LENGTH) with 192.
  change (Z.of_nat BRIDGE_PUBLIC_VALUES_V2_HEADER_LENGTH) with 164.
  rewrite Z.mod_small by lia. rewrite (proj2 (Z.ltb_lt _ _)) by lia. done.
Qed.

Lemma read_actions_at l input cursor rest :
  drop cursor input = concat (map encode_action l) ++ rest -> Forall action_typed l ->
  (cursor <= length input)%nat ->
  exists c, read_actions (length l) input cursor = Ok (l, c).
Proof.
  intros Hd Hl. revert cursor Hd. induction Hl as [|[fs sa] l (Hf & Hfs & Hs) Hl IH]; intros cursor Hd Hc.
  - eexists. reflexivity.
  - cbn [map concat] in Hd. unfold encode_action at 1 in Hd. cbn [ba_fields ba_state_after] in *.
    rewrite <- !app_assoc in Hd. cbn [length read_actions].
    do 2 read_next.
    match goal with Hd : drop ?c _ = concat _ ++ _, Hc : (?c <= _)%nat |- _ =>
      destruct (IH c Hd Hc) as [c' ->] end.
    rewrite Ok_bind. eexists. reflexivity.
Qed.

Lemma read_actions_Ok count input cursor l c :
  read_actions count input cursor = Ok (l, c) -> (cursor <= length input)%nat ->
  length l = count /\ Forall action_typed l /\ c = (cursor + count * 192)%nat /\
  (c <= length input)%nat /\
  drop cursor input = concat (map encode_action l) ++ drop c input.
Proof.
  revert cursor l c. induction count as [|count IH]; intros cursor l c Hr Hc; cbn [read_actions] in Hr.
  - inv_ok. rewrite Nat.add_0_r. auto.
  - inv_reads. cbn in *. subst.
    match goal with H : read_actions _ _ _ = Ok _ |- _ =>
      apply IH in H as (Hl1 & Hf1 & Hc1 & Hle & Hd1); [|lia] end.
    split; [by f_equal|]. split; [by constructor|]. split; [subst; lia|]. split; [done|].
    cbn [map concat]. unfold encode_action at 1. cbn [ba_fields ba_state_after].
    rewrite <- !app_assoc. subst. chain_drops. done.
Qed.

Lemma no_panic_read_actions count input cursor :
  (cursor + count * 192 <= length input)%nat -> no_panic (read_actions count input cursor).
Proof.
  revert cursor. induction count as [|count IH]; intros cursor Hc; [done|]. cbn [read_actions].
  change BRIDGE_ACTION_FIELDS with 5%nat.
  repeat first [no_panic_step | apply IH; lia]. by destruct a.
Qed.

Lemma decode_wire v : typed v -> decode (wire v) = Ok v.
Proof.
  intros Hv. pose proof (length_wire v Hv) as Hl.
  assert (drop 8 (wire v) = flat v) as Hd by reflexivity.
  unfold decode. rewrite ensure_true
    by (apply negb_true_iff, Nat.ltb_ge; unfold BRIDGE_PUBLIC_VALUES_V2_HEADER_LENGTH; lia).
  rewrite ensure_true by (by apply bool_decide_eq_true).
  do 2 rewrite ensure_true by done.
  remember (wire v) as b eqn:Hb. clear Hb. unfold flat in Hd.
  assert (8 <= length b)%nat as Hc by lia.
  unfold typed in Hv. destruct_and?.
  do 9 read_next.
  rewrite (from_be_to_be_small 4 (Z.of_nat (length (actions v)))) by auto with zeko.
  rewrite expected_length_u32 by done. rewrite ensure_true by (apply Z.eqb_eq; lia).
  rewrite Nat2Z.id.
  match goal with Hd : drop ?c _ = concat _ ++ _, Hc : (?c <= _)%nat |- _ =>
    destruct (read_actions_at (actions v) b c [] Hd ltac:(done) Hc) as [c' ->] end.
  rewrite Ok_bind.
  repeat match goal with H : drop _ _ = _ |- _ => clear H | H : (_ <= _)%nat |- _ => clear H end.
  rewrite !from_be_to_be_small by auto with zeko. by destruct v.
Qed.

Lemma decode_canonical input v : decode input = Ok v -> typed v /\ input = wire v.
Proof.
  unfold decode. intros Hv. apply bind_Ok in Hv as ([] & Hl & Hv).
  apply ensure_Ok, negb_true_iff, Nat.ltb_ge in Hl.
  change BRIDGE_PUBLIC_VALUES_V2_HEADER_LENGTH with 164%nat in Hl.
  inv_reads.
  rewrite expected_length_u32 in Hv by is_u.
  inv_reads. bool_props.
  match goal with H : read_actions _ _ _ = Ok _ |- _ =>
    apply read_actions_Ok in H as (Hn & Hf & Hc & Hle & Hd); [|done] end.
  match goal with H : length ?x = 4%nat, Hn : length _ = Z.to_nat (from_be ?x) |- _ =>
    pose proof (from_be_u32 x H) as Hu end.
  split.
  - unfold typed. cbn. split_and!; first [assumption | is_u | idtac].
    rewrite Hn, Z2Nat.id by apply Hu. done.
  - unfold wire, flat. cbn [ethereum_state_before ethereum_state_after ethereum_nonce_before
      ethereum_nonce_after zeko_action_state_before zeko_action_state_after
      zeko_action_state_length_before zeko_action_state_length_after actions].
    rewrite Hn, Z2Nat.id by apply Hu. rewrite !to_be_from_be_n by assumption.
    rewrite <- (take_drop 8 input) at 1. f_equal.
    + rewrite <- (take_drop 4 (take 8 input)). rewrite take_take. cbn [Nat.min].
      change 8%nat with (4 + 4)%nat. rewrite <- take_drop_commute.
      rewrite <- (take_drop 2 (take 4 (drop 4 input))), take_take, <- (take_drop_commute _ 2 2), drop_drop.
      cbn [Nat.min Nat.add].
      rewrite (from_be_eq 2 (take 2 (drop 4 input)) 2); [|rewrite length_take, length_drop; lia|done].
      congruence.
    + chain_drops. rewrite drop_ge by lia. done.
Qed.

Lemma bridge_no_panic input : no_panic (decode input).
Proof.
  unfold decode. apply no_panic_bind; [apply no_panic_ensure|].
  intros _ Hl%ensure_Ok%negb_true_iff%Nat.ltb_ge.
  change BRIDGE_PUBLIC_VALUES_V2_HEADER_LENGTH with 164%nat in Hl.
  repeat no_panic_step. case_match eqn:He; [|done]. subst.
  apply no_panic_bind; [apply no_panic_ensure|]. intros _ Hx%ensure_Ok%Z.eqb_eq.
  match goal with He : expected_length (from_be ?b) = _ |- _ =>
    pose proof (from_be_nonneg b); rewrite expected_length_u32 in He by is_u; injection He as He end.
  apply no_panic_bind; [apply no_panic_read_actions; lia|by intros []].
Qed.

Lemma bridge_header_inv input :
  bridge_header_ok input = true ->
  (164 <= length input)%nat /\ take 4 input = BRIDGE_PUBLIC_VALUES_V2_MAGIC /\
  from_be (take 2 (drop 4 input)) = 2 /\ take 2 (drop 6 input) = zeros 2 /\
  Z.of_nat (length input) = 164 + 192 * from_be (take 4 (drop 160 input)).
Proof.
  unfold bridge_header_ok. intros H. bool_props. split; [done|].
  assert (forall n k, (n + k <= 8)%nat -> take k (drop n input) = take k (drop n (take 8 input))) as Ht.
  { intros n k Hk. rewrite skipn_firstn_comm, take_take. f_equal. lia. }
  rewrite <- (drop_0 input) at 1. rewrite !Ht by lia.
  match goal with H : take 8 input = _ |- _ => rewrite H end. auto.
Qed.

Lemma decode_header input v : decode input = Ok v -> bridge_header_ok input = true.
Proof.
  intros Hv. destruct (decode_canonical input v Hv) as [Ht ->].
  pose proof (length_wire v Ht) as Hl.
  unfold bridge_header_ok. rewrite Hl.
  assert (from_be (take 4 (drop 160 (wire v))) = Z.of_nat (length (actions v))) as ->.
  { assert (exists p r, length p = 160%nat /\
      wire v = p ++ to_be 4 (Z.of_nat (length (actions v))) ++ r) as (p & r & Hp & ->).
    { exists (concat [BRIDGE_PUBLIC_VALUES_V2_MAGIC ++ to_be 2 2 ++ zeros 2;
        ethereum_state_before v; ethereum_state_after v; to_be 8 (ethereum_nonce_before v);
        to_be 8 (ethereum_nonce_after v); zeko_action_state_before v; zeko_action_state_after v;
        to_be 4 (zeko_action_state_length_before v); to_be 4 (zeko_action_state_length_after v)]),
        (concat (map encode_action (actions v)) ++ []).
      unfold wire, flat. cbn [concat]. rewrite <- !app_assoc. split; [|reflexivity].
      unfold typed in Ht. destruct_and?. rewrite !length_app, !length_to_be, length_zeros.
      simpl. lia. }
    rewrite (drop_app_length' p) by done. rewrite take_app_length' by (by rewrite length_to_be).
    apply from_be_to_be_small, u32_range. unfold typed in Ht. tauto. }
  rewrite (proj2 (Nat.leb_le _ _)), bool_decide_true, (proj2 (Z.eqb_eq _ _)); [done|lia|done|lia].
Qed.

Lemma read_actions_total count input cursor :
  (cursor + count * 192 <= length input)%nat -> exists r, read_actions count input cursor = Ok r.
Proof.
  revert cursor. induction count as [|count IH]; intros cursor Hc; [by eexists|].
  cbn [read_actions]. change BRIDGE_ACTION_FIELDS with 5%nat.
  match goal with |- context[read_arrays ?a ?b ?i ?c ≫= ?k] =>
    destruct (read_arrays_in a b i c k ltac:(lia)) as [fs ->] end.
  rewrite read_array_in by lia.
  destruct (IH (cursor + 5 * 32 + 32)%nat) as [[l c] ->]; [lia|]. by eexists.
Qed.

Lemma bridge_decode_total input : bridge_header_ok input = true -> exists v, decode input = Ok v.
Proof.
  intros (Hl & Hm & Hv & Hz & Hn)%bridge_header_inv. unfold decode.
  rewrite ensure_true
    by (apply negb_true_iff, Nat.ltb_ge; unfold BRIDGE_PUBLIC_VALUES_V2_HEADER_LENGTH; lia).
  rewrite Hm, Hv, Hz. do 3 rewrite ensure_true by done.
  repeat rewrite read_array_in by lia. cbn [Nat.add].
  assert (length (take 4 (drop 160 input)) = 4%nat) by (rewrite length_take, length_drop; lia).
  pose proof (from_be_u32 (take 4 (drop 160 input)) ltac:(done)) as Hu.
  rewrite expected_length_u32 by done. rewrite ensure_true by (apply Z.eqb_eq; lia).
  destruct (read_actions_total (Z.to_nat (from_be (take 4 (drop 160 input)))) input 164) as [[l c] ->];
    [destruct Hu; lia|]. by eexists.
Qed.

Lemma no_overflow_bind {A B} (m : outcome BridgeDecodeError A) (k : A -> outcome BridgeDecodeError B) :
  m <> Err LengthOverflow -> (forall a, m = Ok a -> k a <> Err LengthOverflow) ->
  (m ≫= k) <> Err LengthOverflow.
Proof. destruct m; simpl; intros H1 H2; [by apply H2|congruence|done]. Qed.

Lemma no_overflow_read n input c : read_array n input c <> Err LengthOverflow.
Proof. unfold read_array, assert_. by destruct (_ <=? _)%nat. Qed.

Lemma no_overflow_reads count n input c : read_arrays count n input c <> Err LengthOverflow.
Proof.
  revert c. induction count as [|count IH]; intros c; [done|]. cbn [read_arrays].
  apply no_overflow_bind; [apply no_overflow_read|]. intros r _.
  apply no_overflow_bind; [apply IH|done].
Qed.

Lemma no_overflow_actions count input c : read_actions count input c <> Err LengthOverflow.
Proof.
  revert c. induction count as [|count IH]; intros c; [done|]. cbn [read_actions].
  apply no_overflow_bind; [apply no_overflow_reads|]. intros [? ?] _.
  apply no_overflow_bind; [apply no_overflow_read|]. intros [? ?] _.
  apply no_overflow_bind; [apply IH|by intros [? ?]].
Qed.

Lemma decode_no_overflow input : decode input <> Err LengthOverflow.
Proof.
  assert (forall b e, e <> LengthOverflow -> ensure b e <> Err LengthOverflow)
    by (intros [] ? ? [=]; done).
  unfold decode.
  repeat (apply no_overflow_bind;
    [first [apply no_overflow_read | by apply H | apply no_overflow_actions]|];
    first [intros [? ?] (? & _)%read_array_Ok; cbn [fst snd] in * | intros _ _]).
  rewrite expected_length_u32 by is_u.
  apply no_overflow_bind; [by apply H|]. intros _ _.
  apply no_overflow_bind; [apply no_overflow_actions|by intros [? ?]].
Qed.

(** ** Properties *)

(** Every typed transition encodes without a panic, to the header and
    192 bytes per action, and the gateway's decoder returns it. *)
Theorem bridge_values_roundtrip v :
  typed v ->
  exists b, encode (E := Empty_set) v = Ok b /\
    length b = (BRIDGE_PUBLIC_VALUES_V2_HEADER_LENGTH + length (actions v) * BRIDGE_ACTION_V2_LENGTH)%nat /\
    decode b = Ok v /\ deposit_count v = Z.of_nat (length (actions v)).
Proof.
  intros Hv. exists (wire v). split; [by apply encode_wire|]. split; [by apply length_wire|].
  split; [by apply decode_wire|]. unfold deposit_count. apply Z.mod_small.
  unfold typed, is_u32 in Hv. tauto.
Qed.

(** C28. The wire format is canonical: the only bytes that decode to a
    transition are its own encoding, and the decoded transition is typed. *)
Theorem bridge_values_canonical input v :
  decode input = Ok v -> typed v /\ encode (E := Empty_set) v = Ok input.
Proof.
  intros Hd. destruct (decode_canonical input v Hd) as [Hv ->]. split; [done|by apply encode_wire].
Qed.

(** C29. On arbitrary bytes the decoder never panics, never reports a length
    overflow (the count is a [u32]), and accepts exactly the inputs with the
    right magic, version and reserved bytes whose length matches their count. *)
Theorem bridge_decode_accepts input :
  panics (decode input) = false /\ decode input <> Err LengthOverflow /\
  is_ok (decode input) = bridge_header_ok input.
Proof.
  split; [apply bridge_no_panic|]. split; [|].
  - apply decode_no_overflow.
  - destruct (bridge_header_ok input) eqn:Hh.
    + by destruct (bridge_decode_total input Hh) as [v ->].
    + destruct (decode input) as [v| |] eqn:Hd; try done. apply decode_header in Hd. congruence.
Qed.

(** ** Witnesses *)

Module Examples.
Definition action (z : Z) : BridgeOuterActionV2 :=
  {| ba_fields := map (fun k => to_be 32 (z + k)) [1; 2; 3; 4; 5]; ba_state_after := to_be 32 z |}.
Definition transition : BridgeTransitionPublicValuesV2 := {|
  ethereum_state_before := to_be 32 1; ethereum_state_after := to_be 32 2;
  ethereum_nonce_before := 4; ethereum_nonce_after := 6;
  zeko_action_state_before := to_be 32 3; zeko_action_state_after := to_be 32 4;
  zeko_action_state_length_before := 10; zeko_action_state_length_after := 12;
  actions := [action 100; action 200] |}.
Lemma transition_typed : typed transition.
Proof.
  unfold typed, action_typed, is_u64, is_u32, transition; simpl.
  split_and!; try lia; try done; repeat constructor.
Qed.
End Examples.

Lemma bridge_values_roundtrip_witness :
  exists b, encode (E := Empty_set) Examples.transition = Ok b /\
    length b = (BRIDGE_PUBLIC_VALUES_V2_HEADER_LENGTH + 2 * BRIDGE_ACTION_V2_LENGTH)%nat /\
    decode b = Ok Examples.transition /\ deposit_count Examples.transition = 2.
Proof. exact (bridge_values_roundtrip Examples.transition Examples.transition_typed). Defined.

Lemma bridge_values_canonical_witness :
  typed Examples.transition /\
  encode (E := Empty_set) Examples.transition =
    Ok (match encode (E := Empty_set) Examples.transition with Ok b => b | _ => [] end).
Proof. apply bridge_values_canonical. vm_compute. reflexivity. Defined.
