(* ===== verification/Field.v ===== *)
(** * Mina field elements and the Poseidon sponge the guests share

    The Pasta base field [Fp] is modelled by canonical integers below the
    modulus.  The codec and the hashing helpers are those of
    [program/bridge/src/main.rs] and [program/settlement/src/receipt.rs],
    which are textually the same; the permutation is an interface (class
    [Poseidon]), implemented in [Kimchi.v] by the vendored cipher. *)

From S2P Require Import Prelude Hashing.

(** ** Field elements *)

(** [field_order] of [unpack_zeko_address], the modulus of [Fp]. *)
Definition field_order : Z :=
  0x40000000000000000000000000000000224698fc094cf91b992d30ed00000001.

Definition canonical (x : Z) : Prop := 0 <= x < field_order.

Definition fp_add (a b : Z) : Z := (a + b) mod field_order.
Definition fp_mul (a b : Z) : Z := (a * b) mod field_order.
(** [Fp::from] of an unsigned integer and [from_be_bytes_mod_order]. *)
Definition fp_from (n : Z) : Z := n mod field_order.

Definition field_to_bytes (x : Z) : bytes := to_be 32 x.

Definition field_from_bytes (b : bytes) : guest Z :=
  let value := fp_from (from_be b) in
  assert_ (bool_decide (field_to_bytes value = b)) "non-canonical Mina field";;
  Ok value.

Definition fields_from_bytes (l : list bytes) : guest (list Z) := mapM field_from_bytes l.

(** [pow2]: repeated doubling. *)
Definition pow2 (bits : nat) : Z := Nat.iter bits (fun value => fp_add value value) 1.

(** Big-endian suffix of a word whose 28 leading bytes must be zero. *)
Definition field_bytes_to_u32 (value : bytes) : guest Z :=
  assert_ (forallb (fun b => bool_decide (b = Byte.x00)) (take 28 value)) "field does not fit u32";;
  Ok (from_be (drop 28 value)).

Definition field_to_u32 (value : Z) : guest Z := field_bytes_to_u32 (field_to_bytes value).

(** ** The sponge *)

Record sponge := Sponge { s0 : Z; s1 : Z; s2 : Z }.

Definition canonical_sponge (st : sponge) : Prop :=
  canonical (s0 st) /\ canonical (s1 st) /\ canonical (s2 st).

Class Poseidon := {
  poseidon_block_cipher : sponge -> sponge;
  block_cipher_canonical st : canonical_sponge (poseidon_block_cipher st)
}.

Definition empty_sponge : sponge := Sponge 0 0 0.

(** A cheap permutation for evaluating the development on examples. *)
Definition low62 (z : Z) : Z := Z.land z (2 ^ 62 - 1).
Definition mix (st : sponge) : sponge :=
  Sponge (low62 (3 * s0 st + 5 * s1 st + 7 * s2 st + 11))
         (low62 (s0 st * s0 st + 13 * s1 st + 1)) (low62 (s1 st + 17 * s2 st + 2)).

(** Little-endian packing of the prefix, zero padded to 32 bytes. *)
Definition prefix_to_field (prefix : bytes) : guest Z :=
  assert_ (length prefix <? 32)%nat "prefix too long";;
  Ok (fp_from (from_be (rev (prefix ++ zeros (32 - length prefix))))).

Section hashing.
Context `{Poseidon}.

(** [state[0] += chunk[0]; if chunk.len() == 2 { state[1] += chunk[1] }]. *)
Definition add_chunk (state : sponge) (chunk : list Z) : sponge :=
  match chunk with
  | [] => state
  | [a] => Sponge (fp_add (s0 state) a) (s1 state) (s2 state)
  | a :: b :: _ => Sponge (fp_add (s0 state) a) (fp_add (s1 state) b) (s2 state)
  end.

Definition poseidon_update (state : sponge) (input : list Z) : sponge :=
  match input with
  | [] => poseidon_block_cipher state
  | _ => foldl (fun state chunk => poseidon_block_cipher (add_chunk state chunk)) state (chunks2 input)
  end.

Definition hash_with_prefix (prefix : string) (input : list Z) : guest Z :=
  prefix ← prefix_to_field (ascii prefix);
  Ok (s0 (poseidon_update (poseidon_update empty_sponge [prefix]) input)).

Definition empty_hash_with_prefix (prefix : string) : guest Z :=
  prefix ← prefix_to_field (ascii prefix);
  Ok (s0 (poseidon_update empty_sponge [prefix])).

(** A prefix below 32 bytes always packs; [phash] is the digest then. *)
Definition prefix_field (prefix : string) : Z :=
  fp_from (from_be (rev (ascii prefix ++ zeros (32 - length (ascii prefix))))).
Definition phash (prefix : string) (input : list Z) : Z :=
  s0 (poseidon_update (poseidon_update empty_sponge [prefix_field prefix]) input).
Definition phash_empty (prefix : string) : Z :=
  s0 (poseidon_update empty_sponge [prefix_field prefix]).

(** No two distinct messages of [Q] have the same digest: the assumption,
    on the finitely many messages hashed, of the binding theorems. *)
Definition no_hash_collision (Q : list (string * list Z)) : Prop :=
  Forall (fun x => Forall (fun y => phash x.1 x.2 = phash y.1 y.2 -> x = y) Q) Q.

(** The same check, hashing every message once. *)
Definition hash_collision_free_b (Q : list (string * list Z)) : bool :=
  let hashed := map (fun p => (p, phash p.1 p.2)) Q in
  forallb (fun x => forallb (fun y => negb (x.2 =? y.2) || bool_decide (x.1 = y.1)) hashed) hashed.

(** ** The vendored sponge state machine ([ArithmeticSponge]) *)

Inductive SpongeState := Absorbed (n : nat) | Squeezed (n : nat).
Definition SPONGE_RATE : nat := 2.

Record ArithmeticSponge := { sponge_state : SpongeState; as_state : sponge }.

(** [self.state[n].add_assign(elem)]. *)
Definition add_at (st : sponge) (n : nat) (elem : Z) : sponge :=
  match n with
  | 0%nat => Sponge (fp_add (s0 st) elem) (s1 st) (s2 st)
  | 1%nat => Sponge (s0 st) (fp_add (s1 st) elem) (s2 st)
  | _ => Sponge (s0 st) (s1 st) (fp_add (s2 st) elem)
  end.

Definition get_at (st : sponge) (n : nat) : Z :=
  match n with 0%nat => s0 st | 1%nat => s1 st | _ => s2 st end.

Definition absorb_one (sp : ArithmeticSponge) (elem : Z) : ArithmeticSponge :=
  match sponge_state sp with
  | Absorbed n =>
    if (n =? SPONGE_RATE)%nat then
      {| sponge_state := Absorbed 1;
         as_state := add_at (poseidon_block_cipher (as_state sp)) 0 elem |}
    else {| sponge_state := Absorbed (n + 1); as_state := add_at (as_state sp) n elem |}
  | Squeezed _ => {| sponge_state := Absorbed 1; as_state := add_at (as_state sp) 0 elem |}
  end.

Definition absorb (sp : ArithmeticSponge) (x : list Z) : ArithmeticSponge := foldl absorb_one sp x.

Definition squeeze (sp : ArithmeticSponge) : Z * ArithmeticSponge :=
  match sponge_state sp with
  | Squeezed n =>
    if (n =? SPONGE_RATE)%nat then
      let state := poseidon_block_cipher (as_state sp) in
      (s0 state, {| sponge_state := Squeezed 1; as_state := state |})
    else (get_at (as_state sp) n, {| sponge_state := Squeezed (n + 1); as_state := as_state sp |})
  | Absorbed _ =>
    let state := poseidon_block_cipher (as_state sp) in
    (s0 state, {| sponge_state := Squeezed 1; as_state := state |})
  end.

(** ** Lemmas on the field *)

Lemma fp_from_canonical n : canonical (fp_from n).
Proof. unfold canonical, fp_from. apply Z.mod_pos_bound. done. Qed.

Lemma fp_add_canonical a b : canonical (fp_add a b).
Proof. apply Z.mod_pos_bound. done. Qed.

Lemma fp_mul_canonical a b : canonical (fp_mul a b).
Proof. apply Z.mod_pos_bound. done. Qed.

Lemma fp_from_small n : canonical n -> fp_from n = n.
Proof. intros Hn. by apply Z.mod_small. Qed.

Lemma field_order_256 : field_order < 256 ^ Z.of_nat 32.
Proof. done. Qed.

Lemma field_order_u64 z : is_u64 z -> canonical z.
Proof. unfold is_u64, canonical, field_order. lia. Qed.

Lemma field_order_u32 z : is_u32 z -> canonical z.
Proof. unfold is_u32, canonical, field_order. lia. Qed.

Lemma canonical_word x : canonical x -> 0 <= x < 256 ^ Z.of_nat 32.
Proof. unfold canonical. pose proof field_order_256. lia. Qed.

Lemma from_be_field x : canonical x -> from_be (field_to_bytes x) = x.
Proof. intros. unfold field_to_bytes. by rewrite from_be_to_be_small by by apply canonical_word. Qed.

Lemma field_from_bytes_Ok b x :
  field_from_bytes b = Ok x <-> b = field_to_bytes x /\ canonical x.
Proof.
  unfold field_from_bytes. split.
  - intros Hx. inv_ok. bool_props. split; [done|apply fp_from_canonical].
  - intros [-> Hx]. unfold field_to_bytes.
    rewrite from_be_to_be_small by by apply canonical_word.
    rewrite fp_from_small, assert_true; [done|by apply bool_decide_eq_true|done].
Qed.

Lemma field_from_to_bytes x : canonical x -> field_from_bytes (field_to_bytes x) = Ok x.
Proof. intros. by apply field_from_bytes_Ok. Qed.

Lemma length_field_to_bytes x : length (field_to_bytes x) = 32%nat.
Proof. apply length_to_be. Qed.

Lemma field_from_bytes_be b x :
  field_from_bytes b = Ok x <-> length b = 32%nat /\ from_be b = x /\ canonical x.
Proof.
  rewrite field_from_bytes_Ok. split.
  - intros [-> Hx]. rewrite length_field_to_bytes. unfold field_to_bytes.
    rewrite from_be_to_be_small; [done|by apply canonical_word].
  - intros (Hl & <- & Hx). unfold field_to_bytes. by rewrite to_be_from_be_n.
Qed.

Lemma field_from_bytes_eq b :
  length b = 32%nat -> from_be b < field_order -> field_from_bytes b = Ok (from_be b).
Proof. intros. apply field_from_bytes_be. split_and!; [done..|]. split; [apply from_be_nonneg|done]. Qed.

Lemma fields_from_bytes_Ok l xs :
  fields_from_bytes l = Ok xs <-> l = map field_to_bytes xs /\ Forall canonical xs.
Proof.
  unfold fields_from_bytes. rewrite mapM_Ok. split.
  - induction 1 as [|b x l xs Hb _ [-> IH]]; [done|].
    apply field_from_bytes_Ok in Hb as [-> Hx]. split; [done|by constructor].
  - intros [-> Hxs]. induction Hxs as [|x xs Hx _ IH]; constructor; [by apply field_from_bytes_Ok|done].
Qed.

Lemma field_to_bytes_inj x y : canonical x -> canonical y -> field_to_bytes x = field_to_bytes y -> x = y.
Proof. intros ? ?. apply to_be_inj; by apply canonical_word. Qed.

Lemma to_be_split a b z : to_be (a + b) z = to_be a (z / 256 ^ Z.of_nat b) ++ to_be b z.
Proof.
  revert z. induction b as [|b IH]; intros z.
  - rewrite Nat.add_0_r. simpl. unfold to_be at 3. by rewrite app_nil_r, Z.div_1_r.
  - rewrite Nat.add_succ_r. change (to_be (S (a + b)) z) with (to_be (a + b) (z / 256) ++ [byte_of z]).
    rewrite IH. change (to_be (S b) z) with (to_be b (z / 256) ++ [byte_of z]).
    rewrite <- app_assoc, pow256_S, Z.div_div; [done|lia|apply pow256_pos].
Qed.

Lemma to_be_0 n : to_be n 0 = zeros n.
Proof.
  induction n as [|n IH]; [done|]. change (to_be (S n) 0) with (to_be n (0 / 256) ++ [byte_of 0]).
  change (0 / 256) with 0. rewrite IH. change [byte_of 0] with (zeros 1).
  unfold zeros. rewrite <- replicate_add. f_equal. lia.
Qed.

Lemma forallb_zeros l : forallb (fun b => bool_decide (b = Byte.x00)) l = true <-> l = zeros (length l).
Proof.
  induction l as [|b l IH]; simpl; [done|]. rewrite andb_true_iff, IH, bool_decide_eq_true.
  change (zeros (S (length l))) with (Byte.x00 :: zeros (length l)). split; [by intros [-> <-]|by intros [= -> <-]].
Qed.

Lemma field_bytes_to_u32_Ok b n :
  length b = 32%nat -> field_bytes_to_u32 b = Ok n <-> b = u32_word n /\ is_u32 n.
Proof.
  intros Hl. unfold field_bytes_to_u32. split.
  - intros ([] & Hn%assert_Ok%forallb_zeros & [= <-])%bind_Ok.
    rewrite length_take, Hl in Hn. change (28 `min` 32)%nat with 28%nat in Hn.
    assert (length (drop 28 b) = 4%nat) by (rewrite length_drop; lia).
    split; [|by apply from_be_u32]. unfold u32_word.
    by rewrite to_be_from_be_n, <- Hn, take_drop.
  - intros [-> Hn]. unfold u32_word. rewrite take_app_length', drop_app_length' by done.
    rewrite assert_true by (apply forallb_zeros; by rewrite length_zeros).
    by rewrite from_be_to_be_small by auto with zeko.
Qed.

Lemma field_to_bytes_u32 n : is_u32 n -> field_to_bytes n = u32_word n.
Proof.
  intros Hn. unfold field_to_bytes, u32_word. change 32%nat with (28 + 4)%nat.
  rewrite to_be_split, Z.div_small by auto with zeko. by rewrite to_be_0.
Qed.

Lemma field_to_u32_Ok x n : canonical x -> field_to_u32 x = Ok n <-> x = n /\ is_u32 n.
Proof.
  intros Hx. unfold field_to_u32. rewrite field_bytes_to_u32_Ok by apply length_field_to_bytes.
  split.
  - intros [He Hn]. split; [|done]. rewrite <- field_to_bytes_u32 in He by done.
    apply field_to_bytes_inj in He; [done..|by apply field_order_u32].
  - intros [-> Hn]. by rewrite field_to_bytes_u32.
Qed.

Lemma pow2_small bits : (bits < 255)%nat -> pow2 bits = 2 ^ Z.of_nat bits.
Proof.
  intros Hb. unfold pow2. induction bits as [|bits IH]; [done|].
  change (Nat.iter (S bits) ?f ?x) with (f (Nat.iter bits f x)). cbv beta.
  rewrite IH by lia. unfold fp_add. rewrite Nat2Z.inj_succ, Z.pow_succ_r by lia.
  assert (2 ^ Z.of_nat bits <= 2 ^ 253) by (apply Z.pow_le_mono_r; lia).
  pose proof (Z.pow_pos_nonneg 2 (Z.of_nat bits)).
  rewrite Z.mod_small; [lia|]. unfold field_order. lia.
Qed.

Lemma from_be_short l n : length l = n -> (n <= 31)%nat -> canonical (from_be l).
Proof.
  intros Hl Hn. pose proof (from_be_nonneg l). pose proof (from_be_bound l). rewrite Hl in *.
  assert (256 ^ Z.of_nat n <= 256 ^ 31) by (apply Z.pow_le_mono_r; lia).
  unfold canonical, field_order. split; [done|]. eapply Z.lt_le_trans; [eassumption|].
  etrans; [eassumption|]. done.
Qed.

Lemma from_be_zeros n l : from_be (zeros n ++ l) = from_be l.
Proof.
  induction l as [|b l IH] using rev_ind.
  - rewrite app_nil_r. rewrite <- to_be_0, from_be_to_be, Z.mod_0_l; [done|]. pose proof (pow256_pos n). lia.
  - by rewrite app_assoc, !from_be_snoc, IH.
Qed.

(** ** Lemmas on the sponge *)

Lemma poseidon_update_canonical st input : canonical_sponge (poseidon_update st input).
Proof.
  unfold poseidon_update. destruct input as [|a input]; [apply block_cipher_canonical|].
  assert (chunks2 (a :: input) <> []) as Hne by (destruct input; done).
  destruct (chunks2 (a :: input)) as [|c cs] using rev_ind; [done|].
  rewrite foldl_app. apply block_cipher_canonical.
Qed.

Lemma prefix_to_field_Ok prefix :
  (length (ascii prefix) < 32)%nat -> prefix_to_field (ascii prefix) = Ok (prefix_field prefix).
Proof. intros Hl. unfold prefix_to_field. by rewrite assert_true by by apply Nat.ltb_lt. Qed.

Lemma hash_with_prefix_Ok prefix input :
  (length (ascii prefix) < 32)%nat -> hash_with_prefix prefix input = Ok (phash prefix input).
Proof. intros Hl. unfold hash_with_prefix. by rewrite prefix_to_field_Ok. Qed.

Lemma empty_hash_with_prefix_Ok prefix :
  (length (ascii prefix) < 32)%nat -> empty_hash_with_prefix prefix = Ok (phash_empty prefix).
Proof. intros Hl. unfold empty_hash_with_prefix. by rewrite prefix_to_field_Ok. Qed.

Lemma phash_canonical prefix input : canonical (phash prefix input).
Proof. apply poseidon_update_canonical. Qed.

Lemma phash_empty_canonical prefix : canonical (phash_empty prefix).
Proof. apply poseidon_update_canonical. Qed.

Lemma no_hash_collision_elim Q x y :
  no_hash_collision Q -> x ∈ Q -> y ∈ Q -> phash x.1 x.2 = phash y.1 y.2 -> x = y.
Proof.
  intros HQ Hx Hy. unfold no_hash_collision in HQ.
  pose proof (proj1 (list.Forall_forall _ _) HQ x Hx) as HQ'.
  exact (proj1 (list.Forall_forall _ _) HQ' y Hy).
Qed.

Lemma hash_collision_free_check Q : hash_collision_free_b Q = true -> no_hash_collision Q.
Proof.
  unfold hash_collision_free_b. rewrite forallb_forall. intros HQ.
  apply list.Forall_forall; intros x Hx. apply list.Forall_forall; intros y Hy He.
  specialize (HQ (x, phash x.1 x.2) ltac:(apply in_map_iff; exists x; split; [done|by apply list_elem_of_In])).
  rewrite forallb_forall in HQ.
  specialize (HQ (y, phash y.1 y.2) ltac:(apply in_map_iff; exists y; split; [done|by apply list_elem_of_In])).
  cbn [fst snd] in HQ. rewrite (proj2 (Z.eqb_eq _ _) He) in HQ. by apply bool_decide_eq_true in HQ.
Qed.

Lemma add_at_both st a b : add_at (add_at st 0 a) 1 b = add_chunk st [a; b].
Proof. done. Qed.

(** The full-rate block is permuted only when the next element arrives or
    the digest is squeezed. *)
Lemma absorb_pairs st a b l :
  (squeeze (absorb {| sponge_state := Absorbed 2; as_state := add_chunk st [a; b] |} l)).1 =
  match l with
  | [] => s0 (poseidon_block_cipher (add_chunk st [a; b]))
  | _ => s0 (poseidon_update (poseidon_block_cipher (add_chunk st [a; b])) l)
  end.
Proof.
  revert st a b. induction l as [|c|c d l IH] using chunks2_ind; intros st a b; [done..|].
  change (absorb _ (c :: d :: l)) with
    (absorb {| sponge_state := Absorbed 2;
               as_state := add_chunk (poseidon_block_cipher (add_chunk st [a; b])) [c; d] |} l).
  rewrite IH. by destruct l.
Qed.

(** ** Properties *)

(** The field codec: [field_from_bytes] accepts exactly the 32-byte
    big-endian encodings of integers below the modulus and returns that
    integer; everything else panics; [field_to_bytes] inverts it. *)
Theorem field_codec b :
  (forall x, field_from_bytes b = Ok x <-> length b = 32%nat /\ from_be b = x /\ x < field_order) /\
  (panics (field_from_bytes b) = negb ((length b =? 32)%nat && (from_be b <? field_order))) /\
  (forall x, field_from_bytes b = Ok x -> field_to_bytes x = b).
Proof.
  assert (forall x, field_from_bytes b = Ok x <-> length b = 32%nat /\ from_be b = x /\ x < field_order)
    as Hiff.
  { intros x. rewrite field_from_bytes_be. unfold canonical. pose proof (from_be_nonneg b).
    split; [intros (? & <- & ?)|intros (? & <- & ?)]; split_and!; auto; lia. }
  split; [done|]. split.
  - destruct (_ && _)%bool eqn:Hb; simpl.
    + bool_props. rewrite (proj2 (Hiff (from_be b))); done.
    + destruct (field_from_bytes b) as [x|[]|w] eqn:Hx; [|done].
      destruct (proj1 (Hiff x) eq_refl) as (Hl & <- & Hlt). apply Z.ltb_lt in Hlt. by rewrite Hl, Hlt in Hb.
  - intros x Hx. by apply field_from_bytes_Ok in Hx as [-> _].
Qed.

(** C30. The guests' direct sponge loop is the vendored absorb/squeeze state
    machine: absorbing any input into a fresh rate and squeezing once yields
    the first element of [poseidon_update], for empty, odd and even inputs. *)
Theorem sponge_refines st input :
  (squeeze (absorb {| sponge_state := Absorbed 0; as_state := st |} input)).1 =
    s0 (poseidon_update st input).
Proof.
  destruct input as [|a [|b l]]; [done..|].
  change (absorb _ (a :: b :: l)) with
    (absorb {| sponge_state := Absorbed 2; as_state := add_chunk st [a; b] |} l).
  rewrite absorb_pairs. by destruct l.
Qed.

End hashing.

Lemma low62_canonical z : canonical (low62 z).
Proof.
  unfold low62. change (2 ^ 62 - 1) with (Z.ones 62). rewrite Z.land_ones by done.
  pose proof (Z.mod_pos_bound z (2 ^ 62) ltac:(done)). unfold canonical, field_order. lia.
Qed.

Definition mix_poseidon : Poseidon := {|
  poseidon_block_cipher := mix;
  block_cipher_canonical st := conj (low62_canonical _) (conj (low62_canonical _) (low62_canonical _))
|}.

#[export] Hint Resolve fp_from_canonical fp_add_canonical fp_mul_canonical phash_canonical
  phash_empty_canonical field_order_u32 field_order_u64 length_field_to_bytes : zeko.
