(* ===== verification/Wire.v ===== *)
(** * The wire of Pickles proofs ([crates/pickles-verifier/src/wire.rs])

    The host reads a wrap proof, its verification key and the skeleton of a
    proof from JSON.  JSON values are the tree of serde_json; its text parser,
    the hexadecimal decoder, the evaluation domains and Kimchi's own serde (for
    the legacy files) are parameters.  Field elements are integers with the
    modulus of their field; error texts leave out the numbers found.

    [proof_wire] and [vk_wire] print the versioned format; the theorems of
    [WireProperties] are that the parsers read it back and accept well-formed
    values only. *)

From Stdlib Require Import Strings.Byte.
From S2P Require Import Prelude Field.

(** ** JSON *)

(** Integers that fit a [u64], negative ones that fit an [i64], other numbers. *)
Inductive json_number := PosInt (n : N) | NegInt (n : Z) | Float.
Inductive Json :=
| JNull
| JBool (b : bool)
| JNumber (n : json_number)
| JString (s : string)
| JArray (l : list Json)
| JObject (m : list (string * Json)).

(** [Value::get] of a key, and the other accessors. *)
Definition json_get (v : Json) (k : string) : option Json :=
  match v with
  | JObject m => snd <$> (snd <$> list_find (fun e => e.1 = k) m)
  | _ => None
  end.
Definition json_array (v : Json) : option (list Json) := match v with JArray l => Some l | _ => None end.
Definition json_str (v : Json) : option string := match v with JString s => Some s | _ => None end.
Definition json_bool (v : Json) : option bool := match v with JBool b => Some b | _ => None end.
Definition json_u64 (v : Json) : option Z := match v with JNumber (PosInt n) => Some (Z.of_N n) | _ => None end.
Definition json_i64 (v : Json) : option Z :=
  match v with
  | JNumber (PosInt n) => if Z.of_N n <? 2 ^ 63 then Some (Z.of_N n) else None
  | JNumber (NegInt n) => Some n
  | _ => None
  end.

(** Errors are texts. *)
Abbreviation wire := (outcome string).
Definition ok_or {A} (o : option A) (why : string) : wire A := match o with Some a => Ok a | None => Err why end.

(** ** Values *)

(** [Fp] is [field_order]; the order of [Fq]. *)
Definition wrap_order : Z := 0x40000000000000000000000000000000224698fc0994a8dd8c46eb2100000001.

(** An affine point; [new_unchecked] clears [infinity]. *)
Record point := { px : Z; py : Z; infinity : bool }.
#[export] Instance point_eq_dec : EqDecision point.
Proof. solve_decision. Defined.
Definition new_unchecked (x y : Z) : point := {| px := x; py := y; infinity := false |}.

(** [LookupPatterns] and [FeatureFlags]. *)
Record LookupPatterns := { lp_xor : bool; lp_lookup : bool; lp_range_check : bool; lp_foreign_field_mul : bool }.
Record FeatureFlags := {
  range_check0 : bool;
  range_check1 : bool;
  foreign_field_add : bool;
  foreign_field_mul : bool;
  xor : bool;
  rot : bool;
  patterns : LookupPatterns;
  joint_lookup_used : bool;
  uses_runtime_tables : bool
}.

(** [LookupPatterns::joint_lookups_used] of the vendored Kimchi: the patterns
    whose [max_joint_size] is above one. *)
Definition joint_lookups_used (l : LookupPatterns) : bool := lp_xor l || lp_lookup l.

(** The libraries' part: [hex::decode], [Radix2EvaluationDomain::new] and
    Kimchi's [Shifts::new], which samples the shifts with BLAKE2. *)
Class WireCode := {
  hex_decode : string -> option bytes;
  radix2_domain : Type;
  radix2_new : Z -> option radix2_domain;
  permutation_shifts : radix2_domain -> list Z
}.

(** [is_on_curve] for [y^2 = x^3 + 5] (the Pallas parameters), and the
    subgroup check of a curve whose cofactor is one. *)
Definition is_on_curve (order : Z) (p : point) : bool :=
  infinity p || ((py p * py p) mod order =? (px p * px p * px p + 5) mod order).
Definition is_in_correct_subgroup_assuming_on_curve (p : point) : bool := true.

Definition STEP_IPA_ROUNDS : nat := 16.
Definition WRAP_IPA_ROUNDS : nat := 15.

Record PointEvaluations := { zeta_evals : list Z; zeta_omega_evals : list Z }.
(** [PolyComm]: its chunks. *)
Abbreviation poly_comm := (list point).

Record OpeningProof := { op_lr : list (point * point); op_delta : point; op_z1 : Z; op_z2 : Z; op_sg : point }.
Record RecursionChallenge := { rc_chals : list Z; rc_comm : poly_comm }.

(** The columns of a wrap proof; the optional ones are all absent. *)
Record ProofEvaluations := {
  pe_w : list PointEvaluations;
  pe_z : PointEvaluations;
  pe_s : list PointEvaluations;
  pe_coefficients : list PointEvaluations;
  pe_selectors : list PointEvaluations
}.
Record WrapProof := {
  w_comm : list poly_comm;
  z_comm : poly_comm;
  t_comm : poly_comm;
  wp_proof : OpeningProof;
  wp_evals : ProofEvaluations;
  wp_ft_eval1 : Z;
  wp_prev_challenges : list RecursionChallenge
}.

(** The fields the wire determines; the others are defaults until
    [Verifier::new] rebuilds them.  [vk_selector_comms] are [generic_comm],
    [psm_comm], [complete_add_comm], [mul_comm], [emul_comm] and
    [endomul_scalar_comm]. *)
Record WrapVerifierIndex `{WireCode} := {
  domain : radix2_domain;
  max_poly_size : Z;
  zk_rows : Z;
  public : Z;
  prev_challenges : Z;
  sigma_comm : list poly_comm;
  coefficients_comm : list poly_comm;
  selector_comms : list poly_comm;
  shift : list Z
}.

Record PlonkMinimal := {
  alpha : Z;
  beta : Z;
  gamma : Z;
  zeta : Z;
  joint_combiner : option Z;
  feature_flags : FeatureFlags
}.
Record BranchData := { domain_log2 : Z; proofs_verified_mask : bool * bool }.

(** [ChunkedAllEvals]; [ca_optional] are its [range_check0_selector],
    [range_check1_selector], [foreign_field_add_selector],
    [foreign_field_mul_selector], [xor_selector], [rot_selector],
    [lookup_aggregation], [lookup_table], [runtime_lookup_table],
    [runtime_lookup_table_selector], [xor_lookup_selector],
    [lookup_gate_lookup_selector], [range_check_lookup_selector] and
    [foreign_field_mul_lookup_selector]. *)
Record ChunkedAllEvals := {
  ca_ft_eval1 : Z;
  ca_public_evals : PointEvaluations;
  ca_z : PointEvaluations;
  ca_w : list PointEvaluations;
  ca_coefficients : list PointEvaluations;
  ca_s : list PointEvaluations;
  ca_index : list PointEvaluations;
  ca_optional : list (option PointEvaluations);
  ca_lookup_sorted : list (option PointEvaluations)
}.

Record OcamlProof := {
  raw_plonk : PlonkMinimal;
  raw_bulletproof_challenges : list Z;
  branch_data : BranchData;
  sponge_digest_before_evaluations : Z;
  challenge_polynomial_commitment : point;
  step_domain_log2 : Z;
  prev_evals : ChunkedAllEvals;
  p_eval0_chunks : list Z;
  prev_step_sgs : list point;
  prev_step_chals_raw : list (list Z);
  prev_wrap_chals_raw : list (list Z)
}.

(** ** Primitives *)

Section wire.
Context `{WireCode}.

(** [resize] truncates what is longer. *)
Definition field_from_le (order : Z) (le : bytes) : wire Z :=
  let value := from_be (rev (resize 32 Byte.x00 le)) in
  if value <? order then Ok value else Err "field deserialize: DeserializeBytes"%string.

Definition parse_field_be_hex (order : Z) (s : string) : wire Z :=
  bytes ← ok_or (hex_decode (default s (strip_prefix "0x" s))) "invalid hex";
  field_from_le order (rev bytes).

Definition field (v : Json) (k : string) : wire Json := ok_or (json_get v k) ("missing key `" ++ k ++ "`").
Definition as_vec (v : Json) : wire (list Json) := ok_or (json_array v) "expected array".
Definition arr (v : Json) : wire Json := match v with JArray _ => Ok v | _ => Err "expected array"%string end.
Definition be_hex (order : Z) (v : Json) : wire Z :=
  s ← ok_or (json_str v) "expected 0x-hex string"; parse_field_be_hex order s.

(** [as i64 as u64], then [to_le_bytes]. *)
Definition limb (v : Json) : wire bytes :=
  z ← ok_or (json_i64 v) "limb: not an int64"; mret (rev (to_be 8 (z mod 2 ^ 64))).
Definition combine_limbs_le (order : Z) (limbs : list Json) : wire Z :=
  le ← mapM limb limbs; field_from_le order (concat le).
Definition challenge (order : Z) (v : Json) : wire Z :=
  limbs ← match v with
          | JArray l => Ok l
          | _ => inner ← field v "inner"; ok_or (json_array inner) "scalar challenge: `inner` not an array"
          end;
  combine_limbs_le order limbs.

Definition affine (order : Z) (v : Json) : wire point :=
  a ← as_vec v;
  match a with
  | [x; y] => x ← be_hex order x; y ← be_hex order y; mret (new_unchecked x y)
  | _ => Err "affine: expected [x, y]"%string
  end.
Definition pallas (v : Json) : wire point :=
  p ← affine field_order v;
  ensure (is_on_curve field_order p && is_in_correct_subgroup_assuming_on_curve p)
    "Pallas point is not in the prime-order subgroup"%string;;
  mret p.
Definition pallas_comm (v : Json) : wire poly_comm := p ← pallas v; mret [p].

(** [usize] has 64 bits on the host. *)
Definition integer (v : Json) (name : string) : wire Z :=
  ok_or (json_u64 v) (name ++ ": expected a non-negative integer").

Definition schema_v1 (v : Json) (name : string) : wire unit :=
  version ← field v "schemaVersion"; version ← integer version "schemaVersion";
  ensure (version =? 1) (name ++ ": unsupported schemaVersion")%string.

(** [as_vec(v)?.iter().map(parse).collect()]. *)
Definition array_of {A} (parse : Json -> wire A) (v : Json) : wire (list A) :=
  values ← as_vec v; mapM parse values.

Definition fixed_map {A} (n : nat) (v : Json) (name : string) (parse : Json -> wire A) : wire (list A) :=
  values ← as_vec v;
  ensure (length values =? n)%nat (name ++ ": unexpected number of entries")%string;;
  mapM parse values.

Definition wrap_point_eval (v : Json) : wire PointEvaluations :=
  values ← as_vec v;
  match values with
  | [zeta; zeta_omega] =>
    zeta ← be_hex wrap_order zeta; zeta_omega ← be_hex wrap_order zeta_omega;
    mret {| zeta_evals := [zeta]; zeta_omega_evals := [zeta_omega] |}
  | _ => Err "wrap evaluation: expected [zeta, zeta_omega]"%string
  end.

(** [parse(field(v, k)?)?]. *)
Definition at_key {A} (v : Json) (k : string) (parse : Json -> wire A) : wire A := x ← field v k; parse x.

(** ** The wrap proof *)

Definition parse_lr (pair : Json) : wire (point * point) :=
  pair ← as_vec pair;
  match pair with
  | [l; r] => l ← pallas l; r ← pallas r; mret (l, r)
  | _ => Err "bulletproof lr: expected [left, right]"%string
  end.

Definition parse_prev_challenge (v : Json) : wire RecursionChallenge :=
  chals ← at_key v "challenges" (array_of (be_hex wrap_order));
  ensure (length chals =? WRAP_IPA_ROUNDS)%nat "previous challenge: unexpected number of challenges"%string;;
  comm ← at_key v "commitment" pallas_comm;
  mret {| rc_chals := chals; rc_comm := comm |}.

Definition selectors : list string :=
  ["generic_selector"; "poseidon_selector"; "complete_add_selector"; "mul_selector"; "emul_selector";
   "endomul_scalar_selector"]%string.

Definition parse_evaluations (evaluations : Json) : wire ProofEvaluations :=
  w ← at_key evaluations "w" (fun v => fixed_map 15 v "w evaluations" wrap_point_eval);
  coefficients ← at_key evaluations "coefficients"
    (fun v => fixed_map 15 v "coefficient evaluations" wrap_point_eval);
  s ← at_key evaluations "s" (fun v => fixed_map 6 v "s evaluations" wrap_point_eval);
  z ← at_key evaluations "z" wrap_point_eval;
  columns ← mapM (fun k => at_key evaluations k wrap_point_eval) selectors;
  mret {| pe_w := w; pe_z := z; pe_s := s; pe_coefficients := coefficients; pe_selectors := columns |}.

Definition parse_opening (bulletproof : Json) : wire OpeningProof :=
  lr ← at_key bulletproof "lr" (array_of parse_lr);
  ensure (length lr =? WRAP_IPA_ROUNDS)%nat "bulletproof lr: unexpected number of rounds"%string;;
  delta ← at_key bulletproof "delta" pallas;
  z1 ← at_key bulletproof "z_1" (be_hex wrap_order);
  z2 ← at_key bulletproof "z_2" (be_hex wrap_order);
  sg ← at_key bulletproof "challenge_polynomial_commitment" pallas;
  mret {| op_lr := lr; op_delta := delta; op_z1 := z1; op_z2 := z2; op_sg := sg |}.

Definition parse_ocaml_wrap_proof (wire : Json) : outcome string WrapProof :=
  schema_v1 wire "Pickles proof wire";;
  proof ← field wire "proof";
  commitments ← field proof "commitments";
  w ← at_key commitments "w_comm" (fun v => fixed_map 15 v "w_comm" pallas_comm);
  z ← at_key commitments "z_comm" pallas_comm;
  t ← at_key commitments "t_comm" (array_of pallas);
  ensure (length t =? 7)%nat "t_comm: unexpected number of chunks"%string;;
  evals ← at_key proof "evaluations" parse_evaluations;
  opening ← at_key proof "bulletproof" parse_opening;
  prev_challenges ← at_key wire "prevChallenges" (array_of parse_prev_challenge);
  ensure (length prev_challenges =? 2)%nat "previous challenges: expected 2 padded accumulators"%string;;
  ft_eval1 ← at_key proof "ft_eval1" (be_hex wrap_order);
  mret {| w_comm := w; z_comm := z; t_comm := t; wp_proof := opening; wp_evals := evals; wp_ft_eval1 := ft_eval1;
          wp_prev_challenges := prev_challenges |}.

(** ** The verification key *)

Definition selector_comm_keys : list string :=
  ["genericComm"; "psmComm"; "completeAddComm"; "mulComm"; "emulComm"; "endomulScalarComm"]%string.

(** [1usize.checked_shl]. *)
Definition checked_shl (bits : Z) : option Z := if bits <? 64 then Some (2 ^ bits) else None.

Definition parse_ocaml_wrap_vk (wire : Json) : outcome string WrapVerifierIndex :=
  schema_v1 wire "Pickles verification-key wire";;
  max_proofs_verified ← at_key wire "maxProofsVerified" (fun v => integer v "maxProofsVerified");
  actual_wrap_domain_size ← at_key wire "actualWrapDomainSize" (fun v => integer v "actualWrapDomainSize");
  wrap_domain_log2 ← at_key wire "wrapDomainLog2" (fun v => integer v "wrapDomainLog2");
  ensure (max_proofs_verified =? 2) "verification key: expected maxProofsVerified 2"%string;;
  ensure (actual_wrap_domain_size <=? 2) "verification key: actualWrapDomainSize must be in 0..=2"%string;;
  ensure (wrap_domain_log2 =? 13 + actual_wrap_domain_size) "verification key: domain log2 does not match"%string;;
  max_poly_size ← at_key wire "maxPolySize" (fun v => integer v "maxPolySize");
  ensure (max_poly_size =? 2 ^ Z.of_nat WRAP_IPA_ROUNDS) "verification key: unexpected maxPolySize"%string;;
  public ← at_key wire "publicInputs" (fun v => integer v "publicInputs");
  prev_challenges ← at_key wire "prevChallenges" (fun v => integer v "prevChallenges");
  ensure (prev_challenges =? 2) "verification key: expected 2 previous challenges"%string;;
  zk_rows ← at_key wire "zkRows" (fun v => integer v "zkRows");
  ensure (zk_rows =? 3) "verification key: expected 3 zero-knowledge rows"%string;;
  commitments ← field wire "commitments";
  sigma_comm ← at_key commitments "sigmaComm" (fun v => fixed_map 7 v "sigma commitments" pallas_comm);
  coefficients_comm ←
    at_key commitments "coefficientsComm" (fun v => fixed_map 15 v "coefficient commitments" pallas_comm);
  domain_size ← ok_or (checked_shl (wrap_domain_log2 mod 2 ^ 32)) "verification key: domain size overflow";
  domain ← ok_or (radix2_new domain_size) "verification key: invalid radix-2 domain";
  selector_comms ← mapM (fun k => at_key commitments k pallas_comm) selector_comm_keys;
  mret {| domain := domain; max_poly_size := max_poly_size; zk_rows := zk_rows; public := public;
          prev_challenges := prev_challenges; sigma_comm := sigma_comm; coefficients_comm := coefficients_comm;
          selector_comms := selector_comms; shift := permutation_shifts domain |}.

(** ** The skeleton of a proof *)

(** [a.first()]: further elements are ignored. *)
Definition parse_proofs_verified_mask (v : Json) : wire (bool * bool) :=
  a ← as_vec v;
  tag ← ok_or (t ← head a; json_str t) "proofs_verified: expected [tag]";
  if decide (tag = "N0"%string) then mret (false, false)
  else if decide (tag = "N1"%string) then mret (false, true)
  else if decide (tag = "N2"%string) then mret (true, true)
  else Err "proofs_verified: expected N0|N1|N2"%string.

(** [s.chars().next()], [c as u8]: strings are UTF-8, so the first character
    has the code point its first bytes encode, and the cast keeps the low
    byte. *)
Definition first_char (s : string) : option Z :=
  let byte c := Z.of_nat (Ascii.nat_of_ascii c) in
  match String.list_ascii_of_string s with
  | [] => None
  | a :: l =>
    let cont i := match l !! i with Some c => byte c mod 64 | None => 0 end in
    Some (if byte a <? 128 then byte a
          else if byte a <? 224 then byte a mod 32 * 64 + cont 0%nat
          else if byte a <? 240 then (byte a mod 16 * 64 + cont 0%nat) * 64 + cont 1%nat
          else ((byte a mod 8 * 64 + cont 0%nat) * 64 + cont 1%nat) * 64 + cont 2%nat)
  end.
Definition ocaml_byte (v : Json) : wire Z :=
  s ← ok_or (json_str v) "domain_log2: expected string";
  c ← ok_or (first_char s) "domain_log2: empty string";
  mret (c mod 2 ^ 8).

Definition bulletproof_vec (order : Z) (n : nat) (v : Json) : wire (list Z) :=
  a ← as_vec v;
  ensure (length a =? n)%nat "bulletproof: unexpected number of challenges"%string;;
  mapM (fun c => at_key c "prechallenge" (challenge order)) a.

Definition point_eval_flat (v : Json) : wire PointEvaluations :=
  a ← as_vec v;
  match a with
  | [zeta; omega] =>
    zeta ← be_hex field_order zeta; omega ← be_hex field_order omega;
    mret {| zeta_evals := [zeta]; zeta_omega_evals := [omega] |}
  | _ => Err "public_input: expected [zeta, omega]"%string
  end.

Definition point_eval_chunked (v : Json) : wire PointEvaluations :=
  a ← as_vec v;
  match a with
  | [zeta; omega] =>
    zeta ← array_of (be_hex field_order) zeta; omega ← array_of (be_hex field_order) omega;
    ensure (length zeta =? length omega)%nat "chunked eval: zeta/omega chunk count mismatch"%string;;
    mret {| zeta_evals := zeta; zeta_omega_evals := omega |}
  | _ => Err "chunked eval: expected [zeta_chunks, omega_chunks]"%string
  end.

Definition optional_point_eval_chunked (v : Json) : wire (option PointEvaluations) :=
  match v with JNull => mret None | _ => Some <$> point_eval_chunked v end.

Definition fixed_chunked (n : nat) (v : Json) : wire (list PointEvaluations) :=
  a ← as_vec v;
  ensure (length a =? n)%nat "evals: unexpected number of columns"%string;;
  mapM point_eval_chunked a.

Definition optional_columns : list string :=
  ["range_check0_selector"; "range_check1_selector"; "foreign_field_add_selector"; "foreign_field_mul_selector";
   "xor_selector"; "rot_selector"; "lookup_aggregation"; "lookup_table"; "runtime_lookup_table";
   "runtime_lookup_table_selector"; "xor_lookup_selector"; "lookup_gate_lookup_selector";
   "range_check_lookup_selector"; "foreign_field_mul_lookup_selector"]%string.

Definition parse_all_evals (v : Json) : wire ChunkedAllEvals :=
  ft_eval1 ← at_key v "ft_eval1" (be_hex field_order);
  evals_obj ← field v "evals";
  public_evals ← at_key evals_obj "public_input" point_eval_flat;
  inner ← field evals_obj "evals";
  z ← at_key inner "z" point_eval_chunked;
  w ← at_key inner "w" (fun v => v ← arr v; fixed_chunked 15 v);
  coefficients ← at_key inner "coefficients" (fun v => v ← arr v; fixed_chunked 15 v);
  s ← at_key inner "s" (fun v => v ← arr v; fixed_chunked 6 v);
  index ← mapM (fun k => at_key inner k point_eval_chunked) selectors;
  lookup_sorted ← at_key inner "lookup_sorted" (array_of optional_point_eval_chunked);
  ensure (length lookup_sorted =? 5)%nat "lookup_sorted: expected 5 columns"%string;;
  optional ← mapM (fun k => at_key inner k optional_point_eval_chunked) optional_columns;
  mret {| ca_ft_eval1 := ft_eval1; ca_public_evals := public_evals; ca_z := z; ca_w := w;
          ca_coefficients := coefficients; ca_s := s; ca_index := index; ca_optional := optional;
          ca_lookup_sorted := lookup_sorted |}.

Definition feature_flag (flags : Json) (name : string) : wire bool :=
  at_key flags name (fun v => ok_or (json_bool v) "plonk: feature flag is not boolean").
Definition parse_feature_flags (flags : Json) : wire FeatureFlags :=
  range_check0 ← feature_flag flags "range_check0"; range_check1 ← feature_flag flags "range_check1";
  foreign_field_add ← feature_flag flags "foreign_field_add";
  foreign_field_mul ← feature_flag flags "foreign_field_mul";
  xor ← feature_flag flags "xor"; rot ← feature_flag flags "rot";
  lookup ← feature_flag flags "lookup"; runtime_tables ← feature_flag flags "runtime_tables";
  let patterns := {| lp_xor := xor; lp_lookup := lookup; lp_range_check := range_check0 || range_check1 || rot;
                     lp_foreign_field_mul := foreign_field_mul |} in
  mret {| range_check0 := range_check0; range_check1 := range_check1; foreign_field_add := foreign_field_add;
          foreign_field_mul := foreign_field_mul; xor := xor; rot := rot; patterns := patterns;
          joint_lookup_used := joint_lookups_used patterns; uses_runtime_tables := runtime_tables |}.

Definition optional_challenge (order : Z) (v : Json) : wire (option Z) :=
  match v with JNull => mret None | _ => Some <$> challenge order v end.

Definition parse_plonk (plonk : Json) : wire PlonkMinimal :=
  flags ← at_key plonk "feature_flags" parse_feature_flags;
  joint_combiner ← at_key plonk "joint_combiner" (optional_challenge field_order);
  alpha ← at_key plonk "alpha" (challenge field_order);
  beta ← at_key plonk "beta" (challenge field_order);
  gamma ← at_key plonk "gamma" (challenge field_order);
  zeta ← at_key plonk "zeta" (challenge field_order);
  mret {| alpha := alpha; beta := beta; gamma := gamma; zeta := zeta; joint_combiner := joint_combiner;
          feature_flags := flags |}.

(** [OcamlProof::parse], after [serde_json::from_str]. *)
Definition parse_ocaml_proof (root : Json) : outcome string OcamlProof :=
  statement ← field root "statement";
  proof_state ← field statement "proof_state";
  deferred ← field proof_state "deferred_values";
  raw_plonk ← at_key deferred "plonk" parse_plonk;
  challenges ← at_key deferred "bulletproof_challenges" (bulletproof_vec field_order STEP_IPA_ROUNDS);
  branch_data_j ← field deferred "branch_data";
  log2 ← at_key branch_data_j "domain_log2" ocaml_byte;
  mask ← at_key branch_data_j "proofs_verified" parse_proofs_verified_mask;
  digest ← at_key proof_state "sponge_digest_before_evaluations" as_vec;
  digest ← combine_limbs_le field_order digest;
  msg_wrap ← field proof_state "messages_for_next_wrap_proof";
  sg ← at_key msg_wrap "challenge_polynomial_commitment" (affine wrap_order);
  msg_step ← field statement "messages_for_next_step_proof";
  sgs ← at_key msg_step "challenge_polynomial_commitments" (array_of (affine field_order));
  step_chals ← at_key msg_step "old_bulletproof_challenges" (array_of (bulletproof_vec field_order STEP_IPA_ROUNDS));
  wrap_chals ← at_key msg_wrap "old_bulletproof_challenges" (array_of (bulletproof_vec wrap_order WRAP_IPA_ROUNDS));
  evals ← at_key root "prev_evals" parse_all_evals;
  mret {| raw_plonk := raw_plonk; raw_bulletproof_challenges := challenges;
          branch_data := {| domain_log2 := fp_from log2; proofs_verified_mask := mask |};
          sponge_digest_before_evaluations := digest; challenge_polynomial_commitment := sg;
          step_domain_log2 := log2; prev_evals := evals; p_eval0_chunks := zeta_evals (ca_public_evals evals);
          prev_step_sgs := sgs; prev_step_chals_raw := step_chals; prev_wrap_chals_raw := wrap_chals |}.

(** ** The entry points, on parsed JSON *)

Definition parse_wrap_vk (legacy : Json -> outcome string WrapVerifierIndex) (value : Json)
    : outcome string WrapVerifierIndex :=
  match json_get value "schemaVersion" with Some _ => parse_ocaml_wrap_vk value | None => legacy value end.
Definition parse_wrap_proof (legacy : Json -> outcome string WrapProof) (value : Json) : outcome string WrapProof :=
  match json_get value "schemaVersion" with Some _ => parse_ocaml_wrap_proof value | None => legacy value end.

Definition parse_app_statement_fields (value : Json) : wire (list Z) :=
  match value with
  | JString s => x ← parse_field_be_hex field_order s; mret [x]
  | JArray values => mapM (be_hex field_order) values
  | _ => Err "app statement: expected a 0x-hex string or array"%string
  end.
Definition parse_app_statement (value : Json) : wire Z :=
  fields ← parse_app_statement_fields value;
  match fields with [x] => mret x | _ => Err "app statement: expected one field"%string end.

End wire.
