(* ===== verification/WireProperties.v ===== *)
(** * Properties of the Pickles wire: round trips and what is accepted

    [Accepts] says which values a parser of [Wire] can return, [Reads] that it
    reads back what a printer writes for them; the parsers of points,
    evaluations, openings, proofs, keys and skeletons are instances, built
    from those of their parts. *)

From S2P Require Import Prelude Field Wire.

#[local] Typeclasses Opaque be_hex affine pallas pallas_comm integer fixed_map array_of wrap_point_eval at_key arr
  parse_lr optional_challenge parse_prev_challenge parse_evaluations parse_opening challenge bulletproof_vec point_eval_flat
  point_eval_chunked optional_point_eval_chunked fixed_chunked parse_all_evals parse_feature_flags parse_plonk
  field_order wrap_order.

(** A parser accepts good values only; it reads back what a printer writes for
    good values. *)
Class Accepts {A} (parse : Json -> wire A) (good : A -> Prop) : Prop := accepts v a : parse v = Ok a -> good a.
Class Reads {A} (parse : Json -> wire A) (print : A -> Json) (good : A -> Prop) : Prop :=
  reads_print a : good a -> parse (print a) = Ok a.
Arguments accepts {A} parse {good _} v a.
Arguments reads_print {A} parse print {good _} a.

(** ** Objects *)

(** Steps of a parser over a printed object. *)
Lemma at_key_read {A B} (parse : Json -> wire A) print good `{!Reads parse print good} v k a (f : A -> wire B) r :
  json_get v k = Some (print a) -> good a -> f a = r -> (at_key v k parse ≫= f) = r.
Proof.
  intros Hk Ha <-. unfold at_key, field. rewrite Hk. cbn [ok_or]. by rewrite Ok_bind, (reads_print parse print a).
Qed.
Lemma field_read {B} v k x (f : Json -> wire B) r : json_get v k = Some x -> f x = r -> (field v k ≫= f) = r.
Proof. intros Hk <-. unfold field. by rewrite Hk. Qed.

Lemma at_key_Ok {A} v k (parse : Json -> wire A) a : at_key v k parse = Ok a -> exists x, parse x = Ok a.
Proof. unfold at_key. intros (x & _ & Hx)%bind_Ok. eauto. Qed.
Lemma at_key_good {A} v k (parse : Json -> wire A) good `{HA : !Accepts parse good} a :
  at_key v k parse = Ok a -> good a.
Proof. intros [x Hx]%at_key_Ok. by eapply HA. Qed.

Lemma ok_or_Ok {A} (o : option A) why a : ok_or o why = Ok a -> o = Some a.
Proof. destruct o; [by intros [= ->]|done]. Qed.
#[export] Instance at_key_accepts {A} k (parse : Json -> wire A) good `{HA : !Accepts parse good} :
  Accepts (fun v => at_key v k parse) good.
Proof. intros v a. apply at_key_good, HA. Qed.

(** ** Arrays and columns *)

Section accepted.
Context {A : Type} (parse : Json -> wire A) (good : A -> Prop) `{HA : !Accepts parse good}.

Lemma mapM_good vs l : mapM parse vs = Ok l -> Forall good l /\ length l = length vs.
Proof.
  intros H%mapM_Ok. split; [|by rewrite (Forall2_length _ _ _ H)].
  induction H as [|v a vs l Ha _ IH]; constructor; [by eapply HA|done].
Qed.
#[export] Instance array_accepts : Accepts (array_of parse) (Forall good).
Proof. intros v l. unfold array_of. intros (vs & _ & H)%bind_Ok. by apply mapM_good in H as [? _]. Qed.

#[export] Instance fixed_accepts n name :
  Accepts (fun v => fixed_map n v name parse) (fun l => length l = n /\ Forall good l).
Proof.
  intros v l. unfold fixed_map. intros (vs & _ & (? & Hn & H)%bind_Ok)%bind_Ok.
  apply ensure_Ok, Nat.eqb_eq in Hn. by apply mapM_good in H as [? ->].
Qed.

(** The columns an object holds under consecutive keys. *)
Lemma columns_good v keys l :
  mapM (fun k => at_key v k parse) keys = Ok l -> length l = length keys /\ Forall good l.
Proof.
  intros H%mapM_Ok. split; [by rewrite (Forall2_length _ _ _ H)|].
  induction H as [|k a ks l Ha _ IH]; constructor; [by eapply at_key_good|done].
Qed.

End accepted.

Section arrays.
Context {A : Type} (parse : Json -> wire A) (print : A -> Json) (good : A -> Prop) `{HR : !Reads parse print good}.

Lemma mapM_reads l : Forall good l -> mapM parse (print <$> l) = Ok l.
Proof.
  intros Hl. apply mapM_Ok, Forall2_fmap_l, Forall_Forall2_diag.
  eapply Forall_impl; [done|]. intros a. apply (reads_print parse print).
Qed.

#[export] Instance array_reads : Reads (array_of parse) (fun l => JArray (print <$> l)) (Forall good).
Proof. intros l Hl. cbn. by apply mapM_reads. Qed.
#[export] Instance fixed_reads n name :
  Reads (fun v => fixed_map n v name parse) (fun l => JArray (print <$> l)) (fun l => length l = n /\ Forall good l).
Proof.
  intros l [Hn Hl]. unfold fixed_map. cbn. rewrite length_map, Hn, Nat.eqb_refl. cbn. by apply mapM_reads.
Qed.

Lemma columns_read {B} v keys l (f : list A -> wire B) r :
  Forall2 (fun k a => json_get v k = Some (print a)) keys l -> Forall good l -> f l = r ->
  (mapM (fun k => at_key v k parse) keys ≫= f) = r.
Proof.
  intros Hk Hl <-. assert (mapM (fun k => at_key v k parse) keys = Ok l) as ->; [|done]. apply mapM_Ok.
  induction Hk as [|k a ks l Ha _ IH]; [done|]. apply Forall_cons in Hl as [Hg Hl]. constructor; [|by apply IH].
  unfold at_key, field. rewrite Ha. cbn [ok_or]. by rewrite Ok_bind, (reads_print parse print a).
Qed.

End arrays.

(** One step over a printed object, from the front. *)
Ltac read_step :=
  match goal with
  | |- (field _ _ ≫= _) = _ => eapply field_read; [reflexivity|]
  | |- (at_key _ _ _ ≫= _) = _ => eapply at_key_read; [apply _|reflexivity|first [by eauto|cbv beta; lia]|]
  | |- (ensure _ _ ≫= _) = _ =>
    rewrite ensure_true by first [by apply Nat.eqb_eq | by apply Z.eqb_eq | apply Z.leb_le; lia]
  end.

(** What a successful parser read. *)
Ltac read_back_step :=
  match goal with
  | H : at_key ?v ?k ?parse = Ok ?a |- _ =>
    let R := fresh in eassert (Accepts parse _) as R by apply _;
    let N := fresh in pose proof (@at_key_good _ v k parse _ R a H) as N; cbv beta in N; clear H R
  end.
Ltac read_columns :=
  match goal with
  | H : mapM _ ?keys = Ok ?l |- _ =>
    eapply columns_good in H as [? ?]; [|apply _]
  end.
Ltac read_back := inv_ok; bool_props; repeat read_back_step.

(** ** What the parsers accept *)

Section accepts.
Context `{WireCode}.

Definition in_field (order x : Z) : Prop := 0 <= x < order.
Definition affine_good (order : Z) (p : point) : Prop :=
  in_field order (px p) /\ in_field order (py p) /\ infinity p = false.
Definition pallas_good (p : point) : Prop :=
  affine_good field_order p /\
  (py p * py p) mod field_order = (px p * px p * px p + 5) mod field_order.
Definition comm_good (c : poly_comm) : Prop := exists p, c = [p] /\ pallas_good p.
Definition eval_good (e : PointEvaluations) : Prop :=
  exists a b, e = {| zeta_evals := [a]; zeta_omega_evals := [b] |} /\ in_field wrap_order a /\ in_field wrap_order b.
Definition prev_challenge_good (c : RecursionChallenge) : Prop :=
  length (rc_chals c) = WRAP_IPA_ROUNDS /\ Forall (in_field wrap_order) (rc_chals c) /\ comm_good (rc_comm c).
Definition opening_good (o : OpeningProof) : Prop :=
  length (op_lr o) = WRAP_IPA_ROUNDS /\ Forall (fun lr => pallas_good lr.1 /\ pallas_good lr.2) (op_lr o) /\
  pallas_good (op_delta o) /\ in_field wrap_order (op_z1 o) /\ in_field wrap_order (op_z2 o) /\ pallas_good (op_sg o).
Definition evaluations_good (e : ProofEvaluations) : Prop :=
  (length (pe_w e) = 15%nat /\ Forall eval_good (pe_w e)) /\
  (length (pe_coefficients e) = 15%nat /\ Forall eval_good (pe_coefficients e)) /\
  (length (pe_s e) = 6%nat /\ Forall eval_good (pe_s e)) /\
  eval_good (pe_z e) /\
  length (pe_selectors e) = 6%nat /\ Forall eval_good (pe_selectors e).
Definition wrap_proof_good (p : WrapProof) : Prop :=
  (length (w_comm p) = 15%nat /\ Forall comm_good (w_comm p)) /\
  comm_good (z_comm p) /\
  length (t_comm p) = 7%nat /\ Forall pallas_good (t_comm p) /\
  evaluations_good (wp_evals p) /\ opening_good (wp_proof p) /\
  length (wp_prev_challenges p) = 2%nat /\ Forall prev_challenge_good (wp_prev_challenges p) /\
  in_field wrap_order (wp_ft_eval1 p).
(** The key of the domain of [2 ^ (13 + n)] rows. *)
Definition vk_good (n : Z) (vk : WrapVerifierIndex) : Prop :=
  0 <= n <= 2 /\ radix2_new (2 ^ (13 + n)) = Some (domain vk) /\ shift vk = permutation_shifts (domain vk) /\
  max_poly_size vk = 2 ^ Z.of_nat WRAP_IPA_ROUNDS /\ 0 <= public vk /\ prev_challenges vk = 2 /\ zk_rows vk = 3 /\
  (length (sigma_comm vk) = 7%nat /\ Forall comm_good (sigma_comm vk)) /\
  (length (coefficients_comm vk) = 15%nat /\ Forall comm_good (coefficients_comm vk)) /\
  length (selector_comms vk) = 6%nat /\ Forall comm_good (selector_comms vk).
Definition challenges_good (n : nat) (order : Z) (l : list Z) : Prop := length l = n /\ Forall (in_field order) l.
(** One evaluation, in as many chunks at [zeta] as at [zeta * omega]. *)
Definition chunked_good (e : PointEvaluations) : Prop :=
  length (zeta_evals e) = length (zeta_omega_evals e) /\
  Forall (in_field field_order) (zeta_evals e) /\ Forall (in_field field_order) (zeta_omega_evals e).
Definition optional_good (e : option PointEvaluations) : Prop := forall x, e = Some x -> chunked_good x.
Definition all_evals_good (e : ChunkedAllEvals) : Prop :=
  in_field field_order (ca_ft_eval1 e) /\
  (chunked_good (ca_public_evals e) /\ length (zeta_evals (ca_public_evals e)) = 1%nat) /\
  chunked_good (ca_z e) /\
  (length (ca_w e) = 15%nat /\ Forall chunked_good (ca_w e)) /\
  (length (ca_coefficients e) = 15%nat /\ Forall chunked_good (ca_coefficients e)) /\
  (length (ca_s e) = 6%nat /\ Forall chunked_good (ca_s e)) /\
  (length (ca_index e) = 6%nat /\ Forall chunked_good (ca_index e)) /\
  (length (ca_optional e) = 14%nat /\ Forall optional_good (ca_optional e)) /\
  (length (ca_lookup_sorted e) = 5%nat /\ Forall optional_good (ca_lookup_sorted e)).
(** The lookup features are those of the other flags. *)
Definition flags_good (f : FeatureFlags) : Prop :=
  patterns f = {| lp_xor := xor f; lp_lookup := lp_lookup (patterns f);
                  lp_range_check := range_check0 f || range_check1 f || rot f;
                  lp_foreign_field_mul := foreign_field_mul f |} /\
  joint_lookup_used f = xor f || lp_lookup (patterns f).
Definition plonk_good (p : PlonkMinimal) : Prop :=
  Forall (in_field field_order) [alpha p; beta p; gamma p; zeta p] /\
  (forall j, joint_combiner p = Some j -> in_field field_order j) /\
  flags_good (feature_flags p).
Definition ocaml_proof_good (p : OcamlProof) : Prop :=
  plonk_good (raw_plonk p) /\
  challenges_good STEP_IPA_ROUNDS field_order (raw_bulletproof_challenges p) /\
  (domain_log2 (branch_data p) = step_domain_log2 p /\ 0 <= step_domain_log2 p < 256) /\
  in_field field_order (sponge_digest_before_evaluations p) /\
  affine_good wrap_order (challenge_polynomial_commitment p) /\
  all_evals_good (prev_evals p) /\
  p_eval0_chunks p = zeta_evals (ca_public_evals (prev_evals p)) /\
  Forall (affine_good field_order) (prev_step_sgs p) /\
  Forall (challenges_good STEP_IPA_ROUNDS field_order) (prev_step_chals_raw p) /\
  Forall (challenges_good WRAP_IPA_ROUNDS wrap_order) (prev_wrap_chals_raw p).

#[export] Instance integer_accepts name : Accepts (fun v => integer v name) (fun n => 0 <= n).
Proof. intros [| |[n| |]| | |] a; try discriminate. unfold integer. cbn. intros [= <-]. lia. Qed.

Lemma field_from_le_good order le x : field_from_le order le = Ok x -> in_field order x.
Proof.
  unfold field_from_le. destruct (_ <? order) eqn:E; [|done]. intros [= <-]. bool_props.
  split; [apply from_be_nonneg|done].
Qed.

#[export] Instance be_hex_accepts order : Accepts (be_hex order) (in_field order).
Proof.
  intros v x. unfold be_hex, parse_field_be_hex. intros (s & _ & (b & _ & Hb)%bind_Ok)%bind_Ok.
  by apply field_from_le_good in Hb.
Qed.
#[export] Instance affine_accepts order : Accepts (affine order) (affine_good order).
Proof.
  intros v p. unfold affine. intros (a & _ & Hp)%bind_Ok. destruct a as [|x [|y [|]]]; try discriminate.
  inv_ok. split; [|split; [|done]]; by eapply (be_hex_accepts order).
Qed.
#[export] Instance pallas_accepts : Accepts pallas pallas_good.
Proof.
  intros v p. unfold pallas. intros (p' & Hp & (? & Hc & [= <-])%bind_Ok)%bind_Ok.
  apply affine_accepts in Hp. split; [done|]. apply ensure_Ok, andb_true_iff in Hc as [Hc _].
  unfold is_on_curve in Hc. destruct Hp as (_ & _ & Hi). rewrite Hi in Hc. by apply Z.eqb_eq.
Qed.
#[export] Instance comm_accepts : Accepts pallas_comm comm_good.
Proof.
  intros v c. unfold pallas_comm. intros (p & Hp & [= <-])%bind_Ok. exists p. split; [done|].
  by eapply pallas_accepts.
Qed.
#[export] Instance eval_accepts : Accepts wrap_point_eval eval_good.
Proof.
  intros v e. unfold wrap_point_eval. intros (l & _ & He)%bind_Ok. destruct l as [|x [|y [|]]]; try discriminate.
  inv_ok. eexists _, _. split; [done|]. split; by eapply (be_hex_accepts wrap_order).
Qed.
#[export] Instance lr_accepts : Accepts parse_lr (fun lr => pallas_good lr.1 /\ pallas_good lr.2).
Proof.
  intros v lr. unfold parse_lr. intros (l & _ & He)%bind_Ok. destruct l as [|x [|y [|]]]; try discriminate.
  inv_ok. split; by eapply pallas_accepts.
Qed.

(** Records: what [read_back] finds is the goal. *)
Ltac by_reading_back := read_back; try read_columns; by hnf; destruct_and?; split_and!.

#[export] Instance prev_challenge_accepts : Accepts parse_prev_challenge prev_challenge_good.
Proof. intros v c Hv. unfold parse_prev_challenge in Hv. by_reading_back. Qed.
#[export] Instance opening_accepts : Accepts parse_opening opening_good.
Proof. intros v o Hv. unfold parse_opening in Hv. by_reading_back. Qed.
#[export] Instance evaluations_accepts : Accepts parse_evaluations evaluations_good.
Proof. intros v e Hv. unfold parse_evaluations in Hv. by_reading_back. Qed.
#[export] Instance wrap_proof_accepts : Accepts parse_ocaml_wrap_proof wrap_proof_good.
Proof. intros v p Hv. unfold parse_ocaml_wrap_proof in Hv. by_reading_back. Qed.

Lemma vk_accepted v vk : parse_ocaml_wrap_vk v = Ok vk -> exists n, vk_good n vk.
Proof.
  intros Hv. unfold parse_ocaml_wrap_vk in Hv. read_back. read_columns.
  repeat match goal with H : ok_or _ _ = Ok _ |- _ => apply ok_or_Ok in H end.
  lazymatch goal with
  | Hs : checked_shl (?log2 mod _) = Some _, Hl : ?log2 = 13 + ?n |- _ =>
    exists n; rewrite Hl, Z.mod_small in Hs by lia; unfold checked_shl in Hs;
    rewrite (proj2 (Z.ltb_lt _ _)) in Hs by lia; injection Hs as <-
  end.
  by hnf; destruct_and?; split_and!.
Qed.

(** The parts of a skeleton. *)
Lemma combine_good order limbs x : combine_limbs_le order limbs = Ok x -> in_field order x.
Proof. unfold combine_limbs_le. intros (? & _ & Hx)%bind_Ok. by apply field_from_le_good in Hx. Qed.
#[export] Instance challenge_accepts order : Accepts (challenge order) (in_field order).
Proof.
  intros v x. unfold challenge. intros (? & _ & Hx)%bind_Ok. by eapply combine_good.
Qed.
#[export] Instance bulletproof_accepts order n : Accepts (bulletproof_vec order n) (challenges_good n order).
Proof.
  intros v l. unfold bulletproof_vec. intros (a & _ & (? & Hn & Hl)%bind_Ok)%bind_Ok.
  apply ensure_Ok, Nat.eqb_eq in Hn. eapply mapM_good in Hl as [Hl Hlen]; [|apply _]. split; [congruence|done].
Qed.
#[export] Instance flat_accepts : Accepts point_eval_flat (fun e => chunked_good e /\ length (zeta_evals e) = 1%nat).
Proof.
  intros v e. unfold point_eval_flat. intros (a & _ & He)%bind_Ok. destruct a as [|? [|? [|]]]; try discriminate.
  inv_ok. repeat match goal with Hv : be_hex _ _ = Ok _ |- _ => apply be_hex_accepts in Hv end. split; [|done]. split; [done|]. split; cbn; apply Forall_singleton; assumption.
Qed.
#[export] Instance chunked_accepts : Accepts point_eval_chunked chunked_good.
Proof.
  intros v e. unfold point_eval_chunked. intros (a & _ & He)%bind_Ok. destruct a as [|? [|? [|]]]; try discriminate.
  inv_ok. bool_props. split; [done|]. cbn.
  repeat match goal with Hv : array_of _ _ = Ok _ |- _ => apply (array_accepts _ (in_field field_order)) in Hv end. done.
Qed.
#[export] Instance optional_accepts : Accepts optional_point_eval_chunked optional_good.
Proof.
  intros v e He x ->. assert (Some <$> point_eval_chunked v = Ok (Some x)) as (y & Hy & [= ->])%fmap_Ok
    by (by destruct v).
  eapply chunked_accepts; exact Hy.
Qed.
#[export] Instance fixed_chunked_accepts n :
  Accepts (fun v => v ← arr v; fixed_chunked n v) (fun l => length l = n /\ Forall chunked_good l).
Proof.
  intros v l. unfold fixed_chunked. intros (a & _ & (? & _ & (? & Hn & Hl)%bind_Ok)%bind_Ok)%bind_Ok.
  apply ensure_Ok, Nat.eqb_eq in Hn. eapply mapM_good in Hl as [Hl Hlen]; [|apply _]. split; [congruence|done].
Qed.

#[export] Instance all_evals_accepts : Accepts parse_all_evals all_evals_good.
Proof.
  intros v e Hv. unfold parse_all_evals in Hv. read_back. do 2 read_columns.
  by hnf; destruct_and?; split_and!.
Qed.

#[export] Instance flags_accepts : Accepts parse_feature_flags flags_good.
Proof. intros v f Hv. unfold parse_feature_flags in Hv. inv_ok. done. Qed.
#[export] Instance joint_accepts order :
  Accepts (optional_challenge order)
    (fun o => forall j, o = Some j -> in_field order j).
Proof.
  intros v o Hv j ->. assert (Some <$> challenge order v = Ok (Some j)) as (y & Hy & [= ->])%fmap_Ok by (by destruct v).
  eapply challenge_accepts; exact Hy.
Qed.
#[export] Instance plonk_accepts : Accepts parse_plonk plonk_good.
Proof.
  intros v p Hv. unfold parse_plonk in Hv. read_back.
  hnf; split_and!; [|done|done]. by rewrite !Forall_cons, Forall_nil.
Qed.
#[export] Instance byte_accepts : Accepts ocaml_byte (fun b => 0 <= b < 256).
Proof. intros v b Hv. unfold ocaml_byte in Hv. inv_ok. by apply Z.mod_pos_bound. Qed.

#[export] Instance ocaml_proof_accepts : Accepts parse_ocaml_proof ocaml_proof_good.
Proof.
  intros v p Hv. unfold parse_ocaml_proof in Hv. read_back.
  match goal with Hc : combine_limbs_le _ _ = Ok _ |- _ => apply combine_good in Hc end.
  hnf; destruct_and?; split_and!; try done. cbn.
  unfold fp_from. apply Z.mod_small. split; [done|]. trans 256; [done|by vm_compute].
Qed.

End accepts.

(** ** Printers and round trips *)

Definition integer_json (n : Z) : Json := JNumber (PosInt (Z.to_N n)).
#[export] Instance integer_reads name : Reads (fun v => integer v name) integer_json (fun n => 0 <= n).
Proof. intros n Hn. unfold integer, integer_json. cbn. by rewrite Z2N.id. Qed.

Lemma field_order_bound : field_order <= 256 ^ Z.of_nat 32.
Proof. by vm_compute. Qed.
Lemma wrap_order_bound : wrap_order <= 256 ^ Z.of_nat 32.
Proof. by vm_compute. Qed.

Section prints.
Context `{WireCode} (hex_encode : bytes -> string).

Definition field_json (x : Z) : Json := JString ("0x" ++ hex_encode (to_be 32 x)).
Definition point_json (p : point) : Json := JArray [field_json (px p); field_json (py p)].
Definition comm_json (c : poly_comm) : Json :=
  match c with [p] => point_json p | _ => JNull end.
Definition eval_json (e : PointEvaluations) : Json :=
  match zeta_evals e, zeta_omega_evals e with [a], [b] => JArray [field_json a; field_json b] | _, _ => JNull end.
Definition lr_json (lr : point * point) : Json := JArray [point_json lr.1; point_json lr.2].
Definition prev_challenge_json (c : RecursionChallenge) : Json :=
  JObject [("challenges", JArray (field_json <$> rc_chals c)); ("commitment", comm_json (rc_comm c))]%string.

Definition opening_json (o : OpeningProof) : Json :=
  JObject [("lr", JArray (lr_json <$> op_lr o)); ("delta", point_json (op_delta o)); ("z_1", field_json (op_z1 o));
           ("z_2", field_json (op_z2 o)); ("challenge_polynomial_commitment", point_json (op_sg o))]%string.
Definition evaluations_json (e : ProofEvaluations) : Json :=
  JObject ([("w", JArray (eval_json <$> pe_w e)); ("coefficients", JArray (eval_json <$> pe_coefficients e));
            ("s", JArray (eval_json <$> pe_s e)); ("z", eval_json (pe_z e))]%string ++
           zip selectors (eval_json <$> pe_selectors e)).
Definition proof_wire (p : WrapProof) : Json :=
  JObject [
    ("schemaVersion", integer_json 1);
    ("proof", JObject [
      ("commitments", JObject [
        ("w_comm", JArray (comm_json <$> w_comm p)); ("z_comm", comm_json (z_comm p));
        ("t_comm", JArray (point_json <$> t_comm p))]);
      ("evaluations", evaluations_json (wp_evals p)); ("bulletproof", opening_json (wp_proof p));
      ("ft_eval1", field_json (wp_ft_eval1 p))]);
    ("prevChallenges", JArray (prev_challenge_json <$> wp_prev_challenges p))]%string.
Definition vk_wire (actual_wrap_domain_size : Z) (vk : WrapVerifierIndex) : Json :=
  JObject [
    ("schemaVersion", integer_json 1);
    ("maxProofsVerified", integer_json 2);
    ("actualWrapDomainSize", integer_json actual_wrap_domain_size);
    ("wrapDomainLog2", integer_json (13 + actual_wrap_domain_size));
    ("maxPolySize", integer_json (max_poly_size vk));
    ("publicInputs", integer_json (public vk));
    ("prevChallenges", integer_json (prev_challenges vk));
    ("zkRows", integer_json (zk_rows vk));
    ("commitments", JObject ([
      ("sigmaComm", JArray (comm_json <$> sigma_comm vk));
      ("coefficientsComm", JArray (comm_json <$> coefficients_comm vk))] ++
      zip selector_comm_keys (comm_json <$> selector_comms vk)))]%string.

Hypothesis Hhex : forall b, hex_decode (hex_encode b) = Some b.

Lemma parse_hex_field order x :
  order <= 256 ^ Z.of_nat 32 -> in_field order x -> parse_field_be_hex order ("0x" ++ hex_encode (to_be 32 x)) = Ok x.
Proof.
  intros Ho [Hx Hlt]. unfold parse_field_be_hex. rewrite strip_hex_prefix. cbn [default from_option id].
  rewrite Hhex. cbn [ok_or mbind outcome_bind]. unfold field_from_le.
  rewrite resize_all_alt by (by rewrite length_rev, length_to_be). rewrite rev_involutive, from_be_to_be_small by lia.
  by rewrite (proj2 (Z.ltb_lt _ _)).
Qed.

Lemma be_hex_reads order : order <= 256 ^ Z.of_nat 32 -> Reads (be_hex order) field_json (in_field order).
Proof.
  intros Ho x Hx. unfold be_hex, field_json. cbn [json_str ok_or mbind outcome_bind]. by apply parse_hex_field.
Qed.
#[export] Instance fp_reads : Reads (be_hex field_order) field_json (in_field field_order).
Proof. apply be_hex_reads, field_order_bound. Qed.
#[export] Instance fq_reads : Reads (be_hex wrap_order) field_json (in_field wrap_order).
Proof. apply be_hex_reads, wrap_order_bound. Qed.

#[export] Instance pallas_reads : Reads pallas point_json pallas_good.
Proof.
  intros [x y i] [(Hx & Hy & [= ->]) Hc]. unfold pallas, affine, point_json.
  cbn [as_vec json_array ok_or mbind outcome_bind px py] in *.
  rewrite (reads_print (be_hex field_order) field_json x), Ok_bind by done.
  rewrite (reads_print (be_hex field_order) field_json y), Ok_bind by done.
  apply ensure_true. unfold is_on_curve. apply andb_true_iff; split; [|done].
  apply orb_true_iff. right. by apply Z.eqb_eq.
Qed.
#[export] Instance comm_reads : Reads pallas_comm comm_json comm_good.
Proof. intros c (p & -> & Hp). unfold pallas_comm. cbn [comm_json]. by rewrite (reads_print pallas point_json p). Qed.
#[export] Instance eval_reads : Reads wrap_point_eval eval_json eval_good.
Proof.
  intros e (a & b & -> & Ha & Hb). unfold wrap_point_eval, eval_json.
  cbn [as_vec json_array ok_or mbind outcome_bind zeta_evals zeta_omega_evals].
  rewrite (reads_print (be_hex wrap_order) field_json a), Ok_bind by done.
  by rewrite (reads_print (be_hex wrap_order) field_json b) by done.
Qed.
#[export] Instance lr_reads : Reads parse_lr lr_json (fun lr => pallas_good lr.1 /\ pallas_good lr.2).
Proof.
  intros [l r] [Hl Hr]. unfold parse_lr, lr_json. cbn [as_vec json_array ok_or mbind outcome_bind fst snd] in *.
  rewrite (reads_print pallas point_json l), Ok_bind by done. by rewrite (reads_print pallas point_json r) by done.
Qed.
#[export] Instance prev_challenge_reads : Reads parse_prev_challenge prev_challenge_json prev_challenge_good.
Proof. intros [chals comm] (Hn & Hc & Hm). unfold parse_prev_challenge, prev_challenge_json. by repeat read_step. Qed.
#[export] Instance opening_reads : Reads parse_opening opening_json opening_good.
Proof. intros [] (Hn & Hlr & Hd & H1 & H2 & Hs). unfold parse_opening. by repeat read_step. Qed.
#[export] Instance evaluations_reads : Reads parse_evaluations evaluations_json evaluations_good.
Proof.
  intros [w z s co sel] (Hw & Hc & Hs & Hz & Hn & Hsel). unfold parse_evaluations, evaluations_json. cbn in Hn.
  destruct sel as [|? [|? [|? [|? [|? [|? [|]]]]]]]; try discriminate Hn.
  do 4 read_step. eapply columns_read; [apply _| |exact Hsel|done]. by repeat constructor.
Qed.

Lemma schema_v1_read v name : json_get v "schemaVersion" = Some (integer_json 1) -> schema_v1 v name = Ok tt.
Proof. intros Hv. unfold schema_v1, field. by rewrite Hv. Qed.

#[export] Instance wrap_proof_reads : Reads parse_ocaml_wrap_proof proof_wire wrap_proof_good.
Proof.
  intros [] (Hw & Hz & Hnt & Ht & He & Ho & Hnp & Hp & Hf). unfold parse_ocaml_wrap_proof.
  rewrite schema_v1_read, Ok_bind by reflexivity. by repeat read_step.
Qed.
Lemma vk_read n vk : vk_good n vk -> parse_ocaml_wrap_vk (vk_wire n vk) = Ok vk.
Proof.
  destruct vk as [d mps zk pub prev sig co sel sh].
  intros (Hn & Hd & Hsh & Hm & Hp & Hpr & Hz & Hs & Hc & Hl & Hsel). cbn in *. subst.
  destruct sel as [|? [|? [|? [|? [|? [|? [|]]]]]]]; try discriminate Hl.
  unfold parse_ocaml_wrap_vk. rewrite schema_v1_read, Ok_bind by reflexivity.
  repeat read_step.
  rewrite Z.mod_small by lia. unfold checked_shl. rewrite (proj2 (Z.ltb_lt _ _)) by lia.
  cbn [ok_or]. rewrite Ok_bind, Hd. cbn [ok_or]. rewrite Ok_bind.
  eapply columns_read; [apply _| |exact Hsel|done]. by repeat constructor.
Qed.

End prints.

(** ** The properties of the wire *)

(** C1. A wrap proof, and the verification key of a domain of [2^13] to
    [2^15] rows, survive the versioned JSON: the parsers read back, component
    for component, what the OCaml side exports, for every value whose points
    lie on Pallas and whose scalars are reduced. *)
Theorem wrap_wire_roundtrip {C : WireCode} (hex_encode : bytes -> string) :
  (forall b, hex_decode (hex_encode b) = Some b) ->
  (forall p, wrap_proof_good p -> parse_ocaml_wrap_proof (proof_wire hex_encode p) = Ok p) /\
  (forall n vk, vk_good n vk -> parse_ocaml_wrap_vk (vk_wire hex_encode n vk) = Ok vk).
Proof.
  intros Hhex. split; [apply (wrap_proof_reads hex_encode Hhex)|apply (vk_read hex_encode Hhex)].
Qed.

(** C1. What the host accepts is well formed: in a wrap proof and in a
    verification key every commitment is one point of Pallas with reduced
    coordinates, every scalar is below the order of its field, and the numbers
    of commitments, evaluations, rounds and accumulators are the protocol's;
    a key is for one of the three wrap domains, with the fixed polynomial
    size, zero-knowledge rows and accumulators.  A proof skeleton has reduced
    field elements, as many chunks at both points of every evaluation, all
    its columns, full vectors of challenges and lookup features that agree
    with its feature flags. *)
Theorem wire_accepts_well_formed {C : WireCode} v :
  (forall p, parse_ocaml_wrap_proof v = Ok p -> wrap_proof_good p) /\
  (forall vk, parse_ocaml_wrap_vk v = Ok vk -> exists n, vk_good n vk) /\
  (forall p, parse_ocaml_proof v = Ok p -> ocaml_proof_good p).
Proof.
  split; [|split].
  - intros p. apply (accepts parse_ocaml_wrap_proof).
  - intros vk. apply vk_accepted.
  - intros p. apply (accepts parse_ocaml_proof).
Qed.

(** ** Examples *)

#[local] Instance example_wire : WireCode := {|
  hex_decode := example_hex_decode;
  radix2_domain := Z;
  radix2_new := fun size => Some size;
  permutation_shifts := fun domain => [1; 7; 11; 13; 17; 19; domain]
|}.

(** The point [(-1, 2)] of Pallas. *)
Definition one_point : point := new_unchecked (field_order - 1) 2.
Definition one_eval : PointEvaluations := {| zeta_evals := [3]; zeta_omega_evals := [wrap_order - 1] |}.
Definition one_proof : WrapProof := {|
  w_comm := replicate 15 [one_point]; z_comm := [one_point]; t_comm := replicate 7 one_point;
  wp_proof := {| op_lr := replicate 15 (one_point, one_point); op_delta := one_point; op_z1 := 1; op_z2 := 2;
                 op_sg := one_point |};
  wp_evals := {| pe_w := replicate 15 one_eval; pe_z := one_eval; pe_s := replicate 6 one_eval;
                 pe_coefficients := replicate 15 one_eval; pe_selectors := replicate 6 one_eval |};
  wp_ft_eval1 := 5;
  wp_prev_challenges := replicate 2 {| rc_chals := replicate 15 9; rc_comm := [one_point] |}
|}.
Definition one_vk : WrapVerifierIndex := {|
  domain := 2 ^ 14; max_poly_size := 2 ^ 15; zk_rows := 3; public := 40; prev_challenges := 2;
  sigma_comm := replicate 7 [one_point]; coefficients_comm := replicate 15 [one_point];
  selector_comms := replicate 6 [one_point]; shift := [1; 7; 11; 13; 17; 19; 2 ^ 14]
|}.

Lemma in_field_b order x : (0 <=? x) && (x <? order) = true -> in_field order x.
Proof. intros Hx. bool_props. done. Qed.
Lemma one_point_good : pallas_good one_point.
Proof. split; [split; [|split; [|done]]; by apply in_field_b|by vm_compute]. Qed.
Lemma one_comm_good : comm_good [one_point].
Proof. exists one_point. split; [done|apply one_point_good]. Qed.
Lemma one_eval_good : eval_good one_eval.
Proof. exists 3, (wrap_order - 1). split; [done|]. split; by apply in_field_b. Qed.
#[local] Hint Resolve one_point_good one_comm_good one_eval_good Forall_replicate : core.
#[local] Hint Extern 1 (in_field _ _) => apply in_field_b; reflexivity : core.

Lemma copies_good {A} (P : A -> Prop) n x : P x -> length (replicate n x) = n /\ Forall P (replicate n x).
Proof. intros Hx. split; [apply length_replicate|by apply Forall_replicate]. Qed.

Lemma one_proof_good : wrap_proof_good one_proof.
Proof.
  split; [by apply copies_good|]. split; [auto|]. split; [done|]. split; [by apply Forall_replicate|].
  split; [|split; [|split; [done|split; [|auto]]]].
  - split; [|split; [|split; [|split; [auto|]]]]; by apply copies_good.
  - split; [done|]. split; [by apply (Forall_replicate _ 15)|]. auto.
  - apply (Forall_replicate _ 2). split; [done|]. split; [|auto]. apply (Forall_replicate _ 15). auto.
Qed.
Lemma one_vk_good : vk_good 1 one_vk.
Proof.
  do 7 (split; [done|]). do 2 (split; [by apply copies_good|]). by apply copies_good.
Qed.

Lemma wrap_wire_roundtrip_witness :
  parse_ocaml_wrap_proof (proof_wire example_hex_encode one_proof) = Ok one_proof /\
  parse_ocaml_wrap_vk (vk_wire example_hex_encode 1 one_vk) = Ok one_vk.
Proof.
  destruct (wrap_wire_roundtrip (C := example_wire) example_hex_encode example_hex_decode_encode) as [Hp Hvk].
  split; [apply Hp, one_proof_good|apply Hvk, one_vk_good].
Defined.

(** A skeleton without previous proofs. *)
Definition one_limbs : Json := JArray [integer_json 3; JNumber (NegInt (-1))].
Definition one_challenge : Json := JObject [("inner", one_limbs)]%string.
Definition one_prechallenges (n : nat) : Json := JArray (replicate n (JObject [("prechallenge", one_challenge)]%string)).
Definition one_hex : Json := JString "0x05".
Definition one_chunked : Json := JArray [JArray [one_hex]; JArray [one_hex]].
Definition one_skeleton : Json := JObject [
  ("statement", JObject [
    ("proof_state", JObject [
      ("deferred_values", JObject [
        ("plonk", JObject [
          ("alpha", one_challenge); ("beta", one_limbs); ("gamma", one_limbs); ("zeta", one_challenge);
          ("joint_combiner", JNull);
          ("feature_flags", JObject [
            ("range_check0", JBool true); ("range_check1", JBool false); ("foreign_field_add", JBool false);
            ("foreign_field_mul", JBool false); ("xor", JBool true); ("rot", JBool false); ("lookup", JBool false);
            ("runtime_tables", JBool false)])]);
        ("bulletproof_challenges", one_prechallenges 16);
        ("branch_data", JObject [("domain_log2", JString (String (Ascii.ascii_of_nat 15) "")); ("proofs_verified", JArray [JString "N0"])])]);
      ("sponge_digest_before_evaluations", JArray [integer_json 1; integer_json 2; integer_json 3; integer_json 4]);
      ("messages_for_next_wrap_proof", JObject [
        ("challenge_polynomial_commitment", JArray [one_hex; one_hex]); ("old_bulletproof_challenges", JArray [])])]);
    ("messages_for_next_step_proof", JObject [
      ("challenge_polynomial_commitments", JArray []); ("old_bulletproof_challenges", JArray [])])]);
  ("prev_evals", JObject [
    ("ft_eval1", one_hex);
    ("evals", JObject [
      ("public_input", JArray [one_hex; one_hex]);
      ("evals", JObject ([
        ("z", one_chunked); ("w", JArray (replicate 15 one_chunked)); ("coefficients", JArray (replicate 15 one_chunked));
        ("s", JArray (replicate 6 one_chunked)); ("lookup_sorted", JArray (replicate 5 JNull))] ++
        ((fun k => (k, one_chunked)) <$> selectors) ++ ((fun k => (k, JNull)) <$> optional_columns)))])])]%string.

Lemma wire_accepts_well_formed_witness :
  (exists p, parse_ocaml_proof one_skeleton = Ok p /\ ocaml_proof_good p) /\
  (exists p, parse_ocaml_wrap_proof (proof_wire example_hex_encode one_proof) = Ok p /\ wrap_proof_good p) /\
  (exists vk, parse_ocaml_wrap_vk (vk_wire example_hex_encode 1 one_vk) = Ok vk /\ exists n, vk_good n vk).
Proof.
  assert (is_ok (parse_ocaml_proof one_skeleton) = true) as Hs by (vm_compute; reflexivity).
  assert (is_ok (parse_ocaml_wrap_proof (proof_wire example_hex_encode one_proof)) = true) as Hp
    by (vm_compute; reflexivity).
  assert (is_ok (parse_ocaml_wrap_vk (vk_wire example_hex_encode 1 one_vk)) = true) as Hk by (vm_compute; reflexivity).
  apply is_ok_Ok in Hs as [s Hs], Hp as [p Hp], Hk as [k Hk].
  split; [|split].
  - exists s. split; [exact Hs|]. exact (proj2 (proj2 (wire_accepts_well_formed (C := example_wire) _)) s Hs).
  - exists p. split; [exact Hp|]. exact (proj1 (wire_accepts_well_formed (C := example_wire) _) p Hp).
  - exists k. split; [exact Hk|]. exact (proj1 (proj2 (wire_accepts_well_formed (C := example_wire) _)) k Hk).
Defined.

(** The point [(1, 1)] is not on the curve; a proof that holds it is refused,
    as the test [zeko_ocaml_wire_rejects_invalid_curve_point] expects. *)
Example invalid_curve_point_refused :
  is_ok (parse_ocaml_wrap_proof (proof_wire example_hex_encode
    {| w_comm := w_comm one_proof; z_comm := [new_unchecked 1 1]; t_comm := t_comm one_proof;
       wp_proof := wp_proof one_proof; wp_evals := wp_evals one_proof; wp_ft_eval1 := 5;
       wp_prev_challenges := wp_prev_challenges one_proof |})) = false.
Proof. by vm_compute. Qed.

(** Two statement fields, as the test of [parse_app_statement_fields]. *)
Example two_statement_fields : parse_app_statement_fields (JArray [JString "0x01"; JString "0x02"]) = Ok [1; 2].
Proof. by vm_compute. Qed.

(** [resize] drops what exceeds the size of a field: a longer text is read as
    its low 32 bytes, and limbs beyond the fourth are ignored; and the
    challenges documented as 128-bit values may have four limbs. *)
Lemma oversized_field_truncated order le extra :
  length le = 32%nat -> field_from_le order (le ++ extra) = field_from_le order le.
Proof. intros Hl. unfold field_from_le. by rewrite resize_app_le, !resize_all_alt by lia. Qed.
Example oversized_hex : parse_field_be_hex field_order ("0x01" ++ example_hex_encode (to_be 32 7)) = Ok 7.
Proof. by vm_compute. Qed.
Example wide_challenge : challenge field_order (JArray [integer_json 0; integer_json 0; integer_json 1]) = Ok (2 ^ 128).
Proof. by vm_compute. Qed.
