(* ===== verification/BridgeGuest.v ===== *)
(** * The bridge guest ([program/bridge/src/main.rs])

    [derive_bridge_transition] replays a batch of Ethereum deposits: it
    validates each one, extends the Keccak deposit chain of the Ethereum
    bridge and the Poseidon action chain of the Zeko outer account, and emits
    the five-field action of every deposit.  A failed check is a [Panic], and
    then no proof exists. *)

From S2P Require Import Prelude Hashing InnerActionTree PublicValues BridgeValues Field.

(** ** Data *)

Definition WEI_PER_ZEKO_UNIT : Z := 1000000000.
Definition INFINITE_TIMEOUT : Z := u32_MAX.

Record BridgeDeposit := {
  bd_token : bytes;
  bd_asset_id : bytes;
  bd_encoding_version : Z;
  bd_registry_index : Z;
  bd_record_commitment : bytes;
  bd_amount : bytes;
  bd_zeko_amount : option Z;
  bd_zeko_recipient : bytes;
  bd_timeout : Z
}.

Record EthereumBridgeState := {
  chain_id : Z;
  bridge_address : bytes;
  deposit_nonce : Z;
  deposit_state : bytes
}.

Record ZekoBridgeState := { action_state : bytes; action_state_length : Z }.

Record BridgeTransitionInput := {
  ethereum : EthereumBridgeState;
  zeko : ZekoBridgeState;
  deposits : list BridgeDeposit
}.

(** The variables the loop over the deposits updates. *)
Record loop_state := {
  ethereum_state : bytes;
  zeko_action_state : Z;
  next_nonce : Z;
  emitted_actions : list BridgeOuterActionV2
}.

(** ** Field helpers *)

Definition fp_from_address (address : bytes) : Z := fp_from (from_be (zeros 12 ++ address)).
Definition fp_from_u256 (value : Z) : Z := fp_from (from_be (to_be 32 value)).
Definition fp_from_bool (b : bool) : Z := if b then 1 else 0.

(** The low 255 bits are the x coordinate, the top bit its parity. *)
Definition unpack_zeko_address (address : bytes) : guest (Z * bool) :=
  let x := Z.land (from_be address) (2 ^ 255 - 1) in
  let is_odd := negb (Z.land (byte_val (nth 0 address Byte.x00)) 0x80 =? 0) in
  assert_ (x <? field_order) "invalid zeko address field";;
  Ok (x, is_odd).

Definition is_native (d : BridgeDeposit) : bool := bool_decide (bd_token d = zeros 20).

(** The checks on the amount and on the registry identity, on both branches. *)
Definition deposit_zeko_amount (d : BridgeDeposit) : guest Z :=
  let ethereum_amount := from_be (bd_amount d) in
  assert_ (0 <? ethereum_amount) "zero deposit";;
  if is_native d then
    assert_ (bd_encoding_version d =? 0) "native deposit encoding version must be zero";;
    assert_ (bool_decide (bd_asset_id d = zeros 32)) "native asset id must be zero";;
    assert_ (bd_registry_index d =? 0) "native deposit has a registry index";;
    assert_ (bool_decide (bd_record_commitment d = zeros 32)) "native deposit has a record commitment";;
    assert_ (ethereum_amount mod WEI_PER_ZEKO_UNIT =? 0) "native deposit must have 1 gwei granularity";;
    let amount := ethereum_amount / WEI_PER_ZEKO_UNIT in
    assert_ (amount <=? u64_MAX) "native deposit exceeds Mina amount";;
    match bd_zeko_amount d with
    | Some supplied => assert_ (amount =? supplied) "native Zeko amount mismatch"
    | None => Ok tt
    end;;
    Ok amount
  else
    assert_ (negb (bool_decide (bd_asset_id d = zeros 32))) "ERC20 asset id must be non-zero";;
    assert_ (bd_timeout d =? INFINITE_TIMEOUT) "canonical ERC20 deposit must use infinite timeout";;
    assert_ (bd_encoding_version d =? ERC20_ACTION_ENCODING_V2)
      "unsupported ERC20 deposit encoding version";;
    assert_ (negb (bool_decide (bd_record_commitment d = zeros 32)))
      "registry ERC20 deposit record commitment is zero";;
    field_from_bytes (bd_record_commitment d);;
    assert_ (ethereum_amount <=? u64_MAX) "ERC20 deposit exceeds Mina amount";;
    supplied ← expect (bd_zeko_amount d) "canonical ERC20 deposit is missing Zeko amount";
    assert_ (ethereum_amount =? supplied) "canonical ERC20 deposit must preserve base units";;
    Ok supplied.

Section guest.
Context `{Keccak} `{Poseidon}.

(** ** The Ethereum deposit chain *)

Definition ethereum_deposit_encoded (chain_id : Z) (bridge_address token zeko_recipient : bytes)
    (zeko_amount timeout nonce : Z) : bytes :=
  concat [keccak256 (ascii "ZEKO_BRIDGE_DEPOSIT_LEAF_V1"); u64_word chain_id;
          address_word bridge_address; address_word token; zeko_recipient;
          to_be 32 zeko_amount; u64_word timeout; u64_word nonce].

Definition compute_ethereum_deposit_leaf chain_id bridge_address token zeko_recipient
    zeko_amount timeout nonce : bytes :=
  keccak256 (ethereum_deposit_encoded chain_id bridge_address token zeko_recipient zeko_amount
               timeout nonce).

Definition ethereum_erc20_deposit_encoded (chain_id : Z) (bridge_address token : bytes)
    (registry_index : Z) (record_commitment asset_id zeko_recipient : bytes)
    (zeko_amount timeout nonce : Z) : bytes :=
  concat [keccak256 (ascii "ZEKO_ERC20_DEPOSIT_LEAF_V3"); u64_word chain_id;
          address_word bridge_address; address_word token; u32_word ERC20_ACTION_ENCODING_V2;
          u32_word registry_index; record_commitment; asset_id; zeko_recipient;
          to_be 32 zeko_amount; u64_word timeout; u64_word nonce].

Definition compute_ethereum_erc20_deposit_leaf_v2 chain_id bridge_address token registry_index
    record_commitment asset_id zeko_recipient zeko_amount timeout nonce : bytes :=
  keccak256 (ethereum_erc20_deposit_encoded chain_id bridge_address token registry_index
               record_commitment asset_id zeko_recipient zeko_amount timeout nonce).

Definition ethereum_state_encoded (previous_state deposit_leaf : bytes) : bytes :=
  keccak256 (ascii "ZEKO_BRIDGE_DEPOSIT_STATE_V1") ++ previous_state ++ deposit_leaf.

Definition compute_ethereum_state (previous_state deposit_leaf : bytes) : bytes :=
  keccak256 (ethereum_state_encoded previous_state deposit_leaf).

(** ** The Zeko outer action *)

Definition compute_deposit_aux (holder_account_l1 : bytes) (zeko_amount zeko_recipient_x : Z)
    (zeko_recipient_is_odd : bool) (timeout : Z) : guest Z :=
  hash_with_prefix "Ethereum deposit V1"
    [0; fp_from_address holder_account_l1; 0; fp_from_u256 zeko_amount;
     fp_from_u256 zeko_recipient_x; fp_from_bool zeko_recipient_is_odd; fp_from timeout].

Definition compute_erc20_deposit_aux_v2 (registry_index : Z)
    (record_commitment asset_id holder_account_l1 : bytes) (zeko_amount zeko_recipient_x : Z)
    (zeko_recipient_is_odd : bool) (timeout : Z) : guest Z :=
  let asset_high := from_be (take 16 asset_id) in
  let asset_low := from_be (drop 16 asset_id) in
  record_commitment ← field_from_bytes record_commitment;
  hash_with_prefix "Ethereum ERC20 deposit V2"
    [fp_from ERC20_ACTION_ENCODING_V2; fp_from registry_index; record_commitment;
     fp_from_u256 asset_high; fp_from_u256 asset_low; 0; fp_from_address holder_account_l1; 0;
     fp_from_u256 zeko_amount; fp_from_u256 zeko_recipient_x;
     fp_from_bool zeko_recipient_is_odd; fp_from timeout].

Definition compute_zeko_outer_witness_fields (aux children_digest slot_range_lower slot_range_upper : Z)
    : list Z :=
  [1; aux; children_digest; fp_from slot_range_lower; fp_from slot_range_upper].

Definition action_list_add_fields (list_hash : Z) (action_fields : list Z) : guest Z :=
  event_hash ← hash_with_prefix "MinaZkappEvent******" action_fields;
  hash_with_prefix "MinaZkappSeqEvents**" [list_hash; event_hash].

Definition merkle_actions_add (hash actions_hash : Z) : guest Z :=
  hash_with_prefix "MinaZkappSeqEvents**" [hash; actions_hash].

(** ** One iteration of the loop *)

Definition ethereum_deposit_leaf (eth : EthereumBridgeState) (d : BridgeDeposit)
    (zeko_amount nonce : Z) : bytes :=
  if is_native d then
    compute_ethereum_deposit_leaf (chain_id eth) (bridge_address eth) (bd_token d)
      (bd_zeko_recipient d) zeko_amount (bd_timeout d) nonce
  else
    compute_ethereum_erc20_deposit_leaf_v2 (chain_id eth) (bridge_address eth) (bd_token d)
      (bd_registry_index d) (bd_record_commitment d) (bd_asset_id d) (bd_zeko_recipient d)
      zeko_amount (bd_timeout d) nonce.

Definition deposit_aux (eth : EthereumBridgeState) (d : BridgeDeposit) (zeko_amount x : Z)
    (is_odd : bool) : guest Z :=
  if is_native d then
    compute_deposit_aux (bridge_address eth) zeko_amount x is_odd (bd_timeout d)
  else
    compute_erc20_deposit_aux_v2 (bd_registry_index d) (bd_record_commitment d) (bd_asset_id d)
      (bridge_address eth) zeko_amount x is_odd (bd_timeout d).

Definition process_deposit (eth : EthereumBridgeState) (empty_action_list_hash : Z)
    (st : loop_state) (d : BridgeDeposit) : guest loop_state :=
  '(zeko_recipient_x, zeko_recipient_is_odd) ← unpack_zeko_address (bd_zeko_recipient d);
  zeko_amount ← deposit_zeko_amount d;
  let next_nonce := wrapping_add_u64 (next_nonce st) 1 in
  let leaf := ethereum_deposit_leaf eth d zeko_amount next_nonce in
  let ethereum_state := compute_ethereum_state (ethereum_state st) leaf in
  aux ← deposit_aux eth d zeko_amount zeko_recipient_x zeko_recipient_is_odd;
  let action_fields := compute_zeko_outer_witness_fields aux 0 0 INFINITE_TIMEOUT in
  zeko_action_list_hash ← action_list_add_fields empty_action_list_hash action_fields;
  zeko_action_state ← merkle_actions_add (zeko_action_state st) zeko_action_list_hash;
  Ok {| ethereum_state := ethereum_state;
        zeko_action_state := zeko_action_state;
        next_nonce := next_nonce;
        emitted_actions := emitted_actions st ++
          [{| ba_fields := map field_to_bytes action_fields;
              ba_state_after := field_to_bytes zeko_action_state |}] |}.

(** ** The whole guest *)

Definition derive_bridge_transition (input : BridgeTransitionInput)
    : guest BridgeTransitionPublicValuesV2 :=
  assert_ (Z.of_nat (length (deposits input)) <=? u32_MAX) "too many deposits";;
  assert_ (negb (bool_decide (deposits input = []))) "empty deposit batch";;
  initial_state ← field_from_bytes (action_state (zeko input));
  empty_action_list_hash ← empty_hash_with_prefix "MinaZkappActionsEmpty";
  st ← foldM (process_deposit (ethereum input) empty_action_list_hash)
         {| ethereum_state := deposit_state (ethereum input);
            zeko_action_state := initial_state;
            next_nonce := deposit_nonce (ethereum input);
            emitted_actions := [] |} (deposits input);
  before ← field_from_bytes (action_state (zeko input));
  length_after ← expect (checked_add_u32 (action_state_length (zeko input))
                           (Z.of_nat (length (deposits input)) mod 2 ^ 32))
                   "outer action-state length overflow";
  Ok {| ethereum_state_before := deposit_state (ethereum input);
        ethereum_state_after := ethereum_state st;
        ethereum_nonce_before := deposit_nonce (ethereum input);
        ethereum_nonce_after := next_nonce st;
        zeko_action_state_before := field_to_bytes before;
        zeko_action_state_after := field_to_bytes (zeko_action_state st);
        zeko_action_state_length_before := action_state_length (zeko input);
        zeko_action_state_length_after := length_after;
        actions := emitted_actions st |}.

(** [main]: the committed bytes. *)
Definition bridge_main (input : BridgeTransitionInput) : guest bytes :=
  public_values ← derive_bridge_transition input;
  BridgeValues.encode public_values.

(** ** Specification: the valid batches and the state after them *)

Definition typed_deposit (d : BridgeDeposit) : Prop :=
  length (bd_token d) = 20%nat /\ length (bd_asset_id d) = 32%nat /\
  is_u32 (bd_encoding_version d) /\ is_u32 (bd_registry_index d) /\
  length (bd_record_commitment d) = 32%nat /\ length (bd_amount d) = 32%nat /\
  match bd_zeko_amount d with Some a => is_u64 a | None => True end /\
  length (bd_zeko_recipient d) = 32%nat /\ is_u64 (bd_timeout d).

Definition typed_input (input : BridgeTransitionInput) : Prop :=
  is_u64 (chain_id (ethereum input)) /\ length (bridge_address (ethereum input)) = 20%nat /\
  is_u64 (deposit_nonce (ethereum input)) /\ length (deposit_state (ethereum input)) = 32%nat /\
  length (action_state (zeko input)) = 32%nat /\ is_u32 (action_state_length (zeko input)) /\
  Forall typed_deposit (deposits input).

Definition zeko_amount_of (d : BridgeDeposit) : Z :=
  if is_native d then from_be (bd_amount d) / WEI_PER_ZEKO_UNIT else from_be (bd_amount d).
Definition recipient_x (d : BridgeDeposit) : Z := Z.land (from_be (bd_zeko_recipient d)) (2 ^ 255 - 1).
Definition recipient_is_odd (d : BridgeDeposit) : bool :=
  negb (Z.land (byte_val (nth 0 (bd_zeko_recipient d) Byte.x00)) 0x80 =? 0).

Definition amount_ok (d : BridgeDeposit) : bool :=
  let amount := from_be (bd_amount d) in
  (0 <? amount) && (zeko_amount_of d <=? u64_MAX) &&
  if is_native d then
    (bd_encoding_version d =? 0) && bool_decide (bd_asset_id d = zeros 32) &&
    (bd_registry_index d =? 0) && bool_decide (bd_record_commitment d = zeros 32) &&
    (amount mod WEI_PER_ZEKO_UNIT =? 0) &&
    match bd_zeko_amount d with Some supplied => zeko_amount_of d =? supplied | None => true end
  else
    negb (bool_decide (bd_asset_id d = zeros 32)) && (bd_timeout d =? u32_MAX) &&
    (bd_encoding_version d =? 2) && negb (bool_decide (bd_record_commitment d = zeros 32)) &&
    (from_be (bd_record_commitment d) <? field_order) &&
    match bd_zeko_amount d with Some supplied => amount =? supplied | None => false end.

Definition deposit_ok (d : BridgeDeposit) : bool := (recipient_x d <? field_order) && amount_ok d.

Definition input_ok (input : BridgeTransitionInput) : bool :=
  (0 <? Z.of_nat (length (deposits input))) &&
  (from_be (action_state (zeko input)) <? field_order) &&
  (action_state_length (zeko input) + Z.of_nat (length (deposits input)) <=? u32_MAX) &&
  forallb deposit_ok (deposits input).

Definition aux_of (eth : EthereumBridgeState) (d : BridgeDeposit) : Z :=
  let tail := [0; fp_from_address (bridge_address eth); 0; fp_from_u256 (zeko_amount_of d);
               fp_from_u256 (recipient_x d); fp_from_bool (recipient_is_odd d);
               fp_from (bd_timeout d)] in
  if is_native d then phash "Ethereum deposit V1" tail
  else phash "Ethereum ERC20 deposit V2"
         ([2; fp_from (bd_registry_index d); from_be (bd_record_commitment d);
           fp_from_u256 (from_be (take 16 (bd_asset_id d)));
           fp_from_u256 (from_be (drop 16 (bd_asset_id d)))] ++ tail).

(** The action of a deposit and the state of the outer account after it. *)
Definition action_fields_of (eth : EthereumBridgeState) (d : BridgeDeposit) : list Z :=
  [1; aux_of eth d; 0; 0; u32_MAX].
Definition list_hash_of (fields : list Z) : Z :=
  phash "MinaZkappSeqEvents**"
    [phash_empty "MinaZkappActionsEmpty"; phash "MinaZkappEvent******" fields].
Definition next_action_state (eth : EthereumBridgeState) (state : Z) (d : BridgeDeposit) : Z :=
  phash "MinaZkappSeqEvents**" [state; list_hash_of (action_fields_of eth d)].

(** The leaf of the [i]th deposit of a batch that starts at nonce [n]. *)
Definition leaf_encoded (eth : EthereumBridgeState) (d : BridgeDeposit) (nonce : Z) : bytes :=
  if is_native d then
    ethereum_deposit_encoded (chain_id eth) (bridge_address eth) (bd_token d)
      (bd_zeko_recipient d) (zeko_amount_of d) (bd_timeout d) nonce
  else
    ethereum_erc20_deposit_encoded (chain_id eth) (bridge_address eth) (bd_token d)
      (bd_registry_index d) (bd_record_commitment d) (bd_asset_id d) (bd_zeko_recipient d)
      (zeko_amount_of d) (bd_timeout d) nonce.
Definition nonce_at (n : Z) (i : nat) : Z := (n + 1 + Z.of_nat i) mod 2 ^ 64.
Definition leaf_messages (eth : EthereumBridgeState) (ds : list BridgeDeposit) : list bytes :=
  imap (fun i d => leaf_encoded eth d (nonce_at (deposit_nonce eth) i)) ds.

Definition advance (eth : EthereumBridgeState) (st : loop_state) (d : BridgeDeposit) : loop_state :=
  let nonce := wrapping_add_u64 (next_nonce st) 1 in
  let state := next_action_state eth (zeko_action_state st) d in
  {| ethereum_state := compute_ethereum_state (ethereum_state st) (keccak256 (leaf_encoded eth d nonce));
     zeko_action_state := state;
     next_nonce := nonce;
     emitted_actions := emitted_actions st ++
       [{| ba_fields := map field_to_bytes (action_fields_of eth d);
           ba_state_after := field_to_bytes state |}] |}.

(** The emitted actions and the final action state, as a recursion on the batch. *)
Fixpoint replay (eth : EthereumBridgeState) (state : Z) (ds : list BridgeDeposit)
    : list BridgeOuterActionV2 * Z :=
  match ds with
  | [] => ([], state)
  | d :: ds =>
    let state := next_action_state eth state d in
    let '(acts, final) := replay eth state ds in
    ({| ba_fields := map field_to_bytes (action_fields_of eth d);
        ba_state_after := field_to_bytes state |} :: acts, final)
  end.

Definition output (input : BridgeTransitionInput) : BridgeTransitionPublicValuesV2 :=
  let eth := ethereum input in
  let n := Z.of_nat (length (deposits input)) in
  let '(acts, final) := replay eth (from_be (action_state (zeko input))) (deposits input) in
  {| ethereum_state_before := deposit_state eth;
     ethereum_state_after := foldl compute_ethereum_state (deposit_state eth)
                               (map keccak256 (leaf_messages eth (deposits input)));
     ethereum_nonce_before := deposit_nonce eth;
     ethereum_nonce_after := (deposit_nonce eth + n) mod 2 ^ 64;
     zeko_action_state_before := action_state (zeko input);
     zeko_action_state_after := field_to_bytes final;
     zeko_action_state_length_before := action_state_length (zeko input);
     zeko_action_state_length_after := action_state_length (zeko input) + n;
     actions := acts |}.

(** ** Lemmas: one deposit *)

Lemma unpack_zeko_address_eq d :
  unpack_zeko_address (bd_zeko_recipient d) =
    if recipient_x d <? field_order then Ok (recipient_x d, recipient_is_odd d)
    else Panic "invalid zeko address field".
Proof. unfold unpack_zeko_address, assert_. fold (recipient_x d). by destruct (_ <? _). Qed.

(** Decide the next check: a failed one is a panic that falsifies the
    conjunction. *)
Ltac check :=
  match goal with
  | |- context[match assert_ ?b _ ≫= _ with _ => _ end] =>
    destruct b; cbn [assert_ mbind outcome_bind negb];
    [|by rewrite ?andb_false_r, ?andb_false_l]
  | |- context[match assert_ (negb ?b) _ ≫= _ with _ => _ end] =>
    destruct b; cbn [assert_ mbind outcome_bind negb];
    [by rewrite ?andb_false_r, ?andb_false_l|]
  end.

Lemma deposit_zeko_amount_spec d :
  length (bd_record_commitment d) = 32%nat ->
  match deposit_zeko_amount d with
  | Ok a => amount_ok d = true /\ a = zeko_amount_of d
  | Err _ => False
  | Panic _ => amount_ok d = false
  end.
Proof.
  intros Hrc. unfold deposit_zeko_amount, amount_ok, zeko_amount_of.
  destruct (is_native d) eqn:Hn.
  - repeat check. destruct (bd_zeko_amount d) as [supplied|]; [|done]. unfold assert_.
    by destruct (_ =? supplied).
  - change INFINITE_TIMEOUT with u32_MAX. change ERC20_ACTION_ENCODING_V2 with 2. repeat check.
    pose proof (field_from_bytes_be (bd_record_commitment d) (from_be (bd_record_commitment d))) as Hiff.
    unfold canonical in Hiff. pose proof (from_be_nonneg (bd_record_commitment d)).
    destruct (from_be (bd_record_commitment d) <? field_order) eqn:Hlt; bool_props.
    + rewrite (proj2 Hiff) by done. cbn [mbind outcome_bind]. check.
      destruct (bd_zeko_amount d) as [supplied|]; [|done]. cbn [expect mbind outcome_bind].
      unfold assert_. destruct (Z.eqb_spec (from_be (bd_amount d)) supplied) as [<-|]; done.
    + destruct (field_from_bytes _) as [rc|[]|w] eqn:Hf; cbn [mbind outcome_bind].
      * apply field_from_bytes_be in Hf as (_ & <- & ?). unfold canonical in *. lia.
      * by rewrite ?andb_false_r.
Qed.

Lemma deposit_aux_eq eth d :
  amount_ok d = true -> length (bd_record_commitment d) = 32%nat ->
  deposit_aux eth d (zeko_amount_of d) (recipient_x d) (recipient_is_odd d) = Ok (aux_of eth d).
Proof.
  intros Ha Hrc. unfold deposit_aux, aux_of. revert Ha. unfold amount_ok.
  destruct (is_native d); intros Ha.
  - by rewrite <- hash_with_prefix_Ok by (vm_compute; lia).
  - unfold compute_erc20_deposit_aux_v2.
    rewrite (proj2 (field_from_bytes_be _ (from_be (bd_record_commitment d)))).
    2:{ split_and!; [done..|]. unfold canonical.
        pose proof (from_be_nonneg (bd_record_commitment d)). bool_props. done. }
    rewrite Ok_bind, <- hash_with_prefix_Ok by (vm_compute; lia). done.
Qed.

Lemma process_deposit_eq eth st d :
  length (bd_record_commitment d) = 32%nat ->
  process_deposit eth (phash_empty "MinaZkappActionsEmpty") st d =
    if deposit_ok d then Ok (advance eth st d)
    else process_deposit eth (phash_empty "MinaZkappActionsEmpty") st d.
Proof.
  intros Hrc. destruct (deposit_ok d) eqn:Hd; [|done].
  unfold deposit_ok in Hd. bool_props. unfold process_deposit.
  rewrite unpack_zeko_address_eq, (proj2 (Z.ltb_lt _ _)), Ok_bind by done.
  pose proof (deposit_zeko_amount_spec d Hrc) as Hs.
  destruct (deposit_zeko_amount d) as [a|[]|w]; [|congruence]. destruct Hs as [Ha ->].
  rewrite Ok_bind. cbv zeta. rewrite deposit_aux_eq, Ok_bind by done.
  unfold action_list_add_fields, merkle_actions_add.
  do 3 (rewrite hash_with_prefix_Ok, Ok_bind by (vm_compute; lia)).
  unfold advance, ethereum_deposit_leaf, leaf_encoded. destruct (is_native d); done.
Qed.

Lemma process_deposit_Ok eth st d st' :
  length (bd_record_commitment d) = 32%nat ->
  process_deposit eth (phash_empty "MinaZkappActionsEmpty") st d = Ok st' <->
  deposit_ok d = true /\ st' = advance eth st d.
Proof.
  intros Hrc. split.
  - intros Hp. assert (deposit_ok d = true) as Hd.
    { unfold process_deposit in Hp. rewrite unpack_zeko_address_eq in Hp. unfold deposit_ok.
      apply bind_Ok in Hp as ([x o] & Hx & (a & Ha & _)%bind_Ok).
      destruct (_ <? _); [|done].
      pose proof (deposit_zeko_amount_spec d Hrc) as Hs. rewrite Ha in Hs. apply Hs. }
    split; [done|]. rewrite process_deposit_eq, Hd in Hp by done. by injection Hp.
  - intros [Hd ->]. by rewrite process_deposit_eq, Hd by done.
Qed.

(** ** Lemmas: the loop *)

Lemma process_deposits_Ok eth st ds st' :
  Forall typed_deposit ds ->
  foldM (process_deposit eth (phash_empty "MinaZkappActionsEmpty")) st ds = Ok st' <->
  forallb deposit_ok ds = true /\ st' = foldl (advance eth) st ds.
Proof.
  intros Ht. revert st. induction Ht as [|d ds Hd Hds IH]; intros st; simpl.
  - split; [by intros [= ->]|by intros [_ ->]].
  - rewrite bind_Ok, andb_true_iff. split.
    + intros (st1 & [H1 ->]%process_deposit_Ok & [H2 ->]%IH); [done|apply Hd].
    + intros [[H1 H2] ->]. eexists. split; [by apply process_deposit_Ok; [apply Hd|]|by apply IH].
Qed.

Lemma wrapping_nonce n i : wrapping_add_u64 ((n + Z.of_nat i) mod 2 ^ 64) 1 = (n + Z.of_nat (S i)) mod 2 ^ 64.
Proof.
  unfold wrapping_add_u64. rewrite Zplus_mod_idemp_l. f_equal. lia.
Qed.

Lemma advance_all eth st i ds :
  next_nonce st = (deposit_nonce eth + Z.of_nat i) mod 2 ^ 64 ->
  foldl (advance eth) st ds =
    {| ethereum_state := foldl compute_ethereum_state (ethereum_state st)
         (map keccak256 (imap (fun j d => leaf_encoded eth d (nonce_at (deposit_nonce eth) (i + j))) ds));
       zeko_action_state := (replay eth (zeko_action_state st) ds).2;
       next_nonce := (deposit_nonce eth + Z.of_nat (i + length ds)) mod 2 ^ 64;
       emitted_actions := emitted_actions st ++ (replay eth (zeko_action_state st) ds).1 |}.
Proof.
  revert st i. induction ds as [|d ds IH]; intros st i Hn; simpl.
  - rewrite app_nil_r, Nat.add_0_r, <- Hn. by destruct st.
  - rewrite (IH _ (S i)) by (simpl; by rewrite Hn, wrapping_nonce).
    simpl. rewrite Hn, wrapping_nonce, Nat.add_0_r, <- app_assoc.
    destruct (replay eth _ ds) as [acts final]. simpl.
    replace (i + S (length ds))%nat with (S (i + length ds)) by lia.
    replace (nonce_at (deposit_nonce eth) i) with ((deposit_nonce eth + Z.of_nat (S i)) mod 2 ^ 64)
      by (unfold nonce_at; f_equal; lia).
    rewrite (imap_ext ((fun j d' => leaf_encoded eth d' (nonce_at (deposit_nonce eth) (i + j))) ∘ S)
      (fun j d' => leaf_encoded eth d' (nonce_at (deposit_nonce eth) (S i + j))) ds);
      [reflexivity|]. intros j d' _. simpl. do 2 f_equal. lia.
Qed.

Lemma replay_app eth state ds es :
  replay eth state (ds ++ es) =
    ((replay eth state ds).1 ++ (replay eth (replay eth state ds).2 es).1,
     (replay eth (replay eth state ds).2 es).2).
Proof.
  revert state. induction ds as [|d ds IH]; intros state; simpl; [by destruct (replay eth state es)|].
  rewrite IH. by destruct (replay eth _ ds).
Qed.

Lemma replay_canonical eth state ds : canonical state -> canonical (replay eth state ds).2.
Proof.
  revert state. induction ds as [|d ds IH]; intros state Hs; simpl; [done|].
  pose proof (IH (next_action_state eth state d) (phash_canonical _ _)). by destruct (replay _ _ ds).
Qed.

Lemma length_replay eth state ds : length (replay eth state ds).1 = length ds.
Proof.
  revert state. induction ds as [|d ds IH]; intros state; simpl; [done|].
  pose proof (IH (next_action_state eth state d)). destruct (replay _ _ ds). simpl in *. congruence.
Qed.

Lemma replay_typed eth state ds : Forall action_typed (replay eth state ds).1.
Proof.
  revert state. induction ds as [|d ds IH]; intros state; simpl; [done|].
  pose proof (IH (next_action_state eth state d)) as Hr. destruct (replay _ _ ds).
  constructor; [|done]. split; [done|]. split; [|apply length_field_to_bytes].
  repeat constructor; apply length_field_to_bytes.
Qed.

(** ** Lemmas: the guest *)

Lemma derive_Ok input v :
  typed_input input ->
  derive_bridge_transition input = Ok v <-> input_ok input = true /\ v = output input.
Proof.
  intros (Hc & Hb & Hn & Hs & Ha & Hlen & Hds). unfold derive_bridge_transition, input_ok, output.
  pose proof (field_from_bytes_be (action_state (zeko input)) (from_be (action_state (zeko input)))) as Hf.
  pose proof (from_be_nonneg (action_state (zeko input))) as Hge. unfold canonical in Hf.
  set (n := Z.of_nat (length (deposits input))).
  assert (bool_decide (deposits input = []) = negb (0 <? n)) as ->.
  { unfold n. destruct (deposits input); [done|].
    transitivity false; [by apply bool_decide_eq_false_2|done]. }
  rewrite negb_involutive.
  rewrite empty_hash_with_prefix_Ok by (vm_compute; lia).
  unfold is_u32, u32_MAX, checked_add_u32 in *.
  split.
  - intros Hv. inv_ok. bool_props.
    match goal with H : field_from_bytes _ = Ok _, H' : field_from_bytes _ = Ok _ |- _ =>
      rewrite H in H'; injection H' as <- end.
    match goal with H : field_from_bytes _ = Ok ?x |- _ =>
      pose proof H as Hx; apply field_from_bytes_be in H as (_ & <- & [_ Hlt]);
      apply field_from_bytes_Ok in Hx as [<- _] end.
    match goal with H : foldM _ _ _ = Ok _ |- _ =>
      apply process_deposits_Ok in H as [Hok ->]; [|done] end.
    rewrite (advance_all _ _ 0) in * by (simpl; rewrite Z.add_0_r, Z.mod_small; [done|apply Hn]).
    cbn [ethereum_state next_nonce zeko_action_state emitted_actions app] in *.
    rewrite (Z.mod_small n) in * by lia.
    case_match eqn:Hle; [|done]. match goal with H : Some _ = Some _ |- _ => injection H as <- end.
    bool_props. rewrite Hok. split.
    + rewrite !andb_true_iff, !Z.ltb_lt, Z.leb_le. split_and!; first [done|lia].
    + destruct (replay _ _ _). done.
  - intros [Hok ->]. bool_props.
    rewrite assert_true by (apply Z.leb_le; lia). rewrite assert_true by (by apply Z.ltb_lt).
    rewrite (proj2 Hf) by done. rewrite !Ok_bind.
    rewrite (proj2 (process_deposits_Ok _ _ _ _ Hds)) by (split; [done|reflexivity]).
    rewrite (advance_all _ _ 0) by (simpl; rewrite Z.add_0_r, Z.mod_small; [done|apply Hn]).
    rewrite !Ok_bind. rewrite (Z.mod_small n) by lia.
    rewrite (proj2 (Z.ltb_lt _ _)) by lia. cbn [expect]. rewrite Ok_bind.
    unfold field_to_bytes at 1. rewrite to_be_from_be_n by done.
    cbn [ethereum_state next_nonce zeko_action_state emitted_actions app].
    destruct (replay _ _ _). done.
Qed.

Lemma output_typed input : typed_input input -> input_ok input = true -> typed (output input).
Proof.
  intros (Hc & Hb & Hn & Hs & Ha & Hlen & Hds) Hok. unfold input_ok, u32_MAX in Hok. bool_props.
  unfold output.
  pose proof (length_replay (ethereum input) (from_be (action_state (zeko input))) (deposits input)) as Hl.
  pose proof (replay_typed (ethereum input) (from_be (action_state (zeko input))) (deposits input)) as Ht.
  destruct (replay _ _ _) as [acts final]. cbn [fst] in Hl, Ht.
  unfold typed, is_u64, is_u32 in *.
  cbn [ethereum_state_before ethereum_state_after ethereum_nonce_before ethereum_nonce_after
    zeko_action_state_before zeko_action_state_after zeko_action_state_length_before
    zeko_action_state_length_after actions]. rewrite Hl.
  split_and!; try first [assumption|apply length_field_to_bytes|apply Z.mod_pos_bound; done|lia].
  destruct (map keccak256 _) using rev_ind; [done|]. rewrite foldl_app. apply keccak256_length.
Qed.

(** Two consecutive batches. *)
Definition continue_from (input : BridgeTransitionInput) (v : BridgeTransitionPublicValuesV2)
    (more : list BridgeDeposit) : BridgeTransitionInput :=
  {| ethereum := {| chain_id := chain_id (ethereum input);
                    bridge_address := bridge_address (ethereum input);
                    deposit_nonce := ethereum_nonce_after v;
                    deposit_state := ethereum_state_after v |};
     zeko := {| action_state := zeko_action_state_after v;
                action_state_length := zeko_action_state_length_after v |};
     deposits := more |}.

Definition with_deposits (input : BridgeTransitionInput) (ds : list BridgeDeposit) :=
  {| ethereum := ethereum input; zeko := zeko input; deposits := ds |}.

Definition join (a b : BridgeTransitionPublicValuesV2) : BridgeTransitionPublicValuesV2 :=
  {| ethereum_state_before := ethereum_state_before a;
     ethereum_state_after := ethereum_state_after b;
     ethereum_nonce_before := ethereum_nonce_before a;
     ethereum_nonce_after := ethereum_nonce_after b;
     zeko_action_state_before := zeko_action_state_before a;
     zeko_action_state_after := zeko_action_state_after b;
     zeko_action_state_length_before := zeko_action_state_length_before a;
     zeko_action_state_length_after := zeko_action_state_length_after b;
     actions := actions a ++ actions b |}.

Lemma next_action_state_nominal eth eth' state d :
  bridge_address eth = bridge_address eth' ->
  next_action_state eth state d = next_action_state eth' state d /\
  action_fields_of eth d = action_fields_of eth' d.
Proof. intros He. unfold next_action_state, action_fields_of, aux_of. by rewrite He. Qed.

Lemma replay_nominal eth eth' state ds :
  bridge_address eth = bridge_address eth' -> replay eth state ds = replay eth' state ds.
Proof.
  intros He. revert state. induction ds as [|d ds IH]; intros state; cbn [replay]; [done|].
  destruct (next_action_state_nominal eth eth' state d He) as [-> ->]. by rewrite IH.
Qed.

Lemma leaf_messages_app eth ds es :
  leaf_messages eth (ds ++ es) = leaf_messages eth ds ++
    leaf_messages {| chain_id := chain_id eth; bridge_address := bridge_address eth;
                     deposit_nonce := (deposit_nonce eth + Z.of_nat (length ds)) mod 2 ^ 64;
                     deposit_state := deposit_state eth |} es.
Proof.
  unfold leaf_messages. rewrite imap_app. f_equal. apply imap_ext. intros j d _. simpl.
  unfold leaf_encoded, nonce_at. simpl.
  rewrite <- !Z.add_assoc, Zplus_mod_idemp_l.
  by replace (deposit_nonce eth + (1 + Z.of_nat (length ds + j))) with
    (deposit_nonce eth + Z.of_nat (length ds) + (1 + Z.of_nat j)) by lia.
Qed.

Lemma output_app input ds es :
  canonical (from_be (action_state (zeko input))) ->
  let a := output (with_deposits input ds) in
  output (with_deposits input (ds ++ es)) = join a (output (continue_from input a es)).
Proof.
  intros Hs a. unfold output at 1, join. cbn [with_deposits ethereum zeko deposits].
  rewrite replay_app, leaf_messages_app, map_app, foldl_app, length_app.
  subst a. unfold output. cbn [with_deposits ethereum zeko deposits].
  pose proof (replay_canonical (ethereum input) _ ds Hs) as Hc.
  destruct (replay (ethereum input) (from_be (action_state (zeko input))) ds) as [acts final].
  cbn [fst snd] in *. unfold continue_from.
  cbn [ethereum zeko deposits action_state zeko_action_state_after ethereum_nonce_after
       ethereum_state_after zeko_action_state_length_after action_state_length chain_id
       bridge_address deposit_nonce deposit_state].
  rewrite from_be_field by done.
  rewrite (replay_nominal (Build_EthereumBridgeState _ _ _ _) (ethereum input)) by done.
  destruct (replay (ethereum input) final es) as [acts2 final2]. simpl.
  rewrite Zplus_mod_idemp_l, Nat2Z.inj_add, !Z.add_assoc. reflexivity.
Qed.

Lemma input_ok_app input ds es :
  typed_input (with_deposits input ds) ->
  input_ok (with_deposits input (ds ++ es)) && (0 <? Z.of_nat (length ds)) &&
    (0 <? Z.of_nat (length es)) =
  input_ok (with_deposits input ds) && input_ok (continue_from input (output (with_deposits input ds)) es).
Proof.
  intros (Hc & Hb & Hn & Hs & Ha & [Hlen _] & Hds). unfold input_ok. simpl.
  destruct (from_be (action_state (zeko input)) <? field_order) eqn:Hst;
    [|by rewrite ?andb_false_r].
  assert (canonical (from_be (action_state (zeko input)))) as Hcan.
  { split; [apply from_be_nonneg|by apply Z.ltb_lt]. }
  assert (zeko_action_state_length_after (output (with_deposits input ds)) =
    action_state_length (zeko input) + Z.of_nat (length ds)) as ->.
  { unfold output. simpl. by destruct (replay _ _ ds). }
  assert ((from_be (zeko_action_state_after (output (with_deposits input ds))) <? field_order) = true) as ->.
  { unfold output. simpl. pose proof (replay_canonical (ethereum input) _ ds Hcan) as Hr.
    destruct (replay _ _ ds) as [acts final]. simpl in *. apply Z.ltb_lt.
    rewrite from_be_field by done. apply Hr. }
  rewrite forallb_app, length_app. simpl in *. apply eq_iff_eq_true.
  rewrite !andb_true_iff, !Z.leb_le, !Z.ltb_lt. intuition lia.
Qed.

(** ** What the Ethereum state binds *)

(** The chain step messages of a batch, and all messages it hashes. *)
Fixpoint state_messages (state : bytes) (leaves : list bytes) : list bytes :=
  match leaves with
  | [] => []
  | leaf :: leaves =>
    ethereum_state_encoded state leaf :: state_messages (compute_ethereum_state state leaf) leaves
  end.
Definition hashed_messages (input : BridgeTransitionInput) : list bytes :=
  let leaves := leaf_messages (ethereum input) (deposits input) in
  leaves ++ state_messages (deposit_state (ethereum input)) (map keccak256 leaves).

(** A deposit with its optional, redundant amount filled in. *)
Definition normalise (d : BridgeDeposit) : BridgeDeposit :=
  {| bd_token := bd_token d; bd_asset_id := bd_asset_id d;
     bd_encoding_version := bd_encoding_version d; bd_registry_index := bd_registry_index d;
     bd_record_commitment := bd_record_commitment d; bd_amount := bd_amount d;
     bd_zeko_amount := Some (zeko_amount_of d); bd_zeko_recipient := bd_zeko_recipient d;
     bd_timeout := bd_timeout d |}.

Lemma ethereum_state_chain_inj Q l1 l2 s1 s2 :
  length l1 = length l2 -> length s1 = 32%nat -> length s2 = 32%nat ->
  no_collision Q -> state_messages s1 l1 ⊆ Q -> state_messages s2 l2 ⊆ Q ->
  foldl compute_ethereum_state s1 l1 = foldl compute_ethereum_state s2 l2 ->
  s1 = s2 /\ l1 = l2.
Proof.
  revert l2 s1 s2. induction l1 as [|a l1 IH]; intros [|b l2] s1 s2 Hl Hs1 Hs2 HQ H1 H2 He;
    simpl in *; try done.
  destruct (IH l2 (compute_ethereum_state s1 a) (compute_ethereum_state s2 b)) as [Hc ->];
    [lia|apply keccak256_length|apply keccak256_length|done|set_solver|set_solver|done|].
  apply (no_collision_elim Q) in Hc; [|done|set_solver|set_solver].
  unfold ethereum_state_encoded in Hc. apply app_inv_head in Hc.
  apply app_inj_1 in Hc as [-> ->]; [done|congruence].
Qed.

Lemma leaves_inj Q l1 l2 :
  no_collision Q -> l1 ⊆ Q -> l2 ⊆ Q -> map keccak256 l1 = map keccak256 l2 -> l1 = l2.
Proof.
  intros HQ. revert l2. induction l1 as [|a l1 IH]; intros [|b l2] H1 H2 He; simpl in *; try done.
  apply list_cons_eq_inv in He as [Ha He]. f_equal.
  - apply (no_collision_elim Q); [done|set_solver|set_solver|done].
  - apply IH; [set_solver|set_solver|done].
Qed.

Definition deposit_words (eth : EthereumBridgeState) (d : BridgeDeposit) (nonce : Z) : list bytes :=
  let head domain := [keccak256 (ascii domain); u64_word (chain_id eth);
                      address_word (bridge_address eth); address_word (bd_token d)] in
  let tail := [bd_zeko_recipient d; to_be 32 (zeko_amount_of d); u64_word (bd_timeout d);
               u64_word nonce] in
  if is_native d then head "ZEKO_BRIDGE_DEPOSIT_LEAF_V1"%string ++ tail
  else head "ZEKO_ERC20_DEPOSIT_LEAF_V3"%string ++
       [u32_word 2; u32_word (bd_registry_index d); bd_record_commitment d; bd_asset_id d] ++ tail.

Lemma leaf_encoded_words eth d n : leaf_encoded eth d n = concat (deposit_words eth d n).
Proof. unfold leaf_encoded, deposit_words. by destruct (is_native d). Qed.

Lemma deposit_words_typed eth d n :
  typed_deposit d -> length (bridge_address eth) = 20%nat ->
  Forall (fun w => length w = 32%nat) (deposit_words eth d n).
Proof.
  intros (Ht & Hid & _ & _ & Hrc & _ & _ & Hr & _) Hb. unfold deposit_words.
  destruct (is_native d); repeat constructor;
    try first [apply keccak256_length|apply length_u64_word|apply length_u32_word
              |by apply length_address_word|apply length_to_be|assumption].
Qed.

(** The fields a valid native deposit determines. *)
Lemma native_deposit_fields d :
  amount_ok d = true -> is_native d = true ->
  bd_token d = zeros 20 /\ bd_encoding_version d = 0 /\ bd_asset_id d = zeros 32 /\
  bd_registry_index d = 0 /\ bd_record_commitment d = zeros 32 /\
  from_be (bd_amount d) = WEI_PER_ZEKO_UNIT * zeko_amount_of d.
Proof.
  unfold amount_ok, zeko_amount_of. intros Ha Hn. rewrite Hn in *. bool_props.
  unfold is_native in Hn. bool_props. split_and!; try done.
  pose proof (Z.div_mod (from_be (bd_amount d)) WEI_PER_ZEKO_UNIT ltac:(done)). lia.
Qed.

Lemma zeko_amount_range d : amount_ok d = true -> 0 <= zeko_amount_of d < 256 ^ Z.of_nat 32.
Proof.
  unfold amount_ok. intros Ha. apply andb_true_iff in Ha as [Ha _]. bool_props.
  pose proof (from_be_nonneg (bd_amount d)). split.
  - unfold zeko_amount_of. destruct (is_native d); [apply Z.div_pos; done|done].
  - eapply Z.le_lt_trans; [eassumption|done].
Qed.

Lemma leaf_encoded_inj e1 e2 d1 d2 n1 n2 :
  typed_deposit d1 -> typed_deposit d2 -> amount_ok d1 = true -> amount_ok d2 = true ->
  is_u64 (chain_id e1) -> is_u64 (chain_id e2) ->
  length (bridge_address e1) = 20%nat -> length (bridge_address e2) = 20%nat ->
  is_u64 n1 -> is_u64 n2 ->
  leaf_encoded e1 d1 n1 = leaf_encoded e2 d2 n2 ->
  chain_id e1 = chain_id e2 /\ bridge_address e1 = bridge_address e2 /\ n1 = n2 /\
  normalise d1 = normalise d2.
Proof.
  intros Ht1 Ht2 Ha1 Ha2 Hc1 Hc2 Hb1 Hb2 Hn1 Hn2 He. rewrite !leaf_encoded_words in He.
  apply (concat_inj_length 32) in He; [|lia|by apply deposit_words_typed|by apply deposit_words_typed].
  pose proof (zeko_amount_range d1 Ha1). pose proof (zeko_amount_range d2 Ha2).
  pose proof Ht1 as (_ & _ & _ & Hr1 & _ & Hl1 & _ & _ & Hm1).
  pose proof Ht2 as (_ & _ & _ & Hr2 & _ & Hl2 & _ & _ & Hm2).
  unfold deposit_words in He.
  destruct (is_native d1) eqn:N1, (is_native d2) eqn:N2; cbn [app] in He; cons_props; word_props;
    match goal with H : to_be 32 _ = to_be 32 _ |- _ => apply to_be_inj in H; [|done..] end.
  - destruct (native_deposit_fields d1 Ha1 N1) as (T1 & E1 & I1 & R1 & C1 & A1).
    destruct (native_deposit_fields d2 Ha2 N2) as (_ & E2 & I2 & R2 & C2 & A2).
    assert (bd_amount d1 = bd_amount d2) by (apply from_be_inj; congruence).
    split_and!; try done. unfold normalise. congruence.
  - unfold amount_ok in Ha1, Ha2. rewrite N1 in Ha1. rewrite N2 in Ha2. bool_props.
    assert (bd_amount d1 = bd_amount d2).
    { apply from_be_inj; [congruence|]. unfold zeko_amount_of in *. by rewrite N1, N2 in *. }
    split_and!; try done. unfold normalise. congruence.
Qed.

Lemma nonce_at_inj n m i : is_u64 n -> is_u64 m -> nonce_at n i = nonce_at m i -> n = m.
Proof.
  unfold nonce_at. intros Hn Hm He.
  assert ((n - m) mod 2 ^ 64 = 0) as Hz.
  { rewrite <- (Z.mod_0_l (2 ^ 64)) by done.
    replace (n - m) with ((n + 1 + Z.of_nat i) - (m + 1 + Z.of_nat i)) by lia.
    rewrite Zminus_mod, He, Z.sub_diag. done. }
  unfold is_u64 in *. apply Z.mod_divide in Hz as [k Hk]; [|done].
  assert (k = 0) by lia. lia.
Qed.

Lemma nonce_at_u64 n i : is_u64 (nonce_at n i).
Proof. apply Z.mod_pos_bound. done. Qed.

Lemma deposits_valid input d :
  typed_input input -> input_ok input = true -> d ∈ deposits input ->
  typed_deposit d /\ amount_ok d = true.
Proof.
  intros (_ & _ & _ & _ & _ & _ & Hds) Hok Hd. unfold input_ok in Hok.
  apply andb_true_iff in Hok as [_ Hok].
  split; [by eapply list.Forall_forall in Hds|].
  rewrite forallb_forall in Hok. specialize (Hok d). rewrite <- list_elem_of_In in Hok.
  apply Hok, andb_true_iff in Hd as [_ ?]. done.
Qed.

Lemma leaf_messages_inj i1 i2 :
  typed_input i1 -> typed_input i2 -> input_ok i1 = true -> input_ok i2 = true ->
  length (deposits i1) = length (deposits i2) ->
  deposit_state (ethereum i1) = deposit_state (ethereum i2) ->
  leaf_messages (ethereum i1) (deposits i1) = leaf_messages (ethereum i2) (deposits i2) ->
  ethereum i1 = ethereum i2 /\ map normalise (deposits i1) = map normalise (deposits i2).
Proof.
  intros Ht1 Ht2 Hok1 Hok2 Hl Hst Hm.
  assert (forall k d1 d2, deposits i1 !! k = Some d1 -> deposits i2 !! k = Some d2 ->
    chain_id (ethereum i1) = chain_id (ethereum i2) /\
    bridge_address (ethereum i1) = bridge_address (ethereum i2) /\
    deposit_nonce (ethereum i1) = deposit_nonce (ethereum i2) /\ normalise d1 = normalise d2) as Hk.
  { intros k d1 d2 H1 H2. pose proof (f_equal (fun l => l !! k) Hm) as Hmk.
    unfold leaf_messages in Hmk. rewrite !list_lookup_imap, H1, H2 in Hmk. simpl in Hmk.
    injection Hmk as Hmk.
    destruct (deposits_valid i1 d1) as [T1 A1]; [done..|by eapply list_elem_of_lookup_2|].
    destruct (deposits_valid i2 d2) as [T2 A2]; [done..|by eapply list_elem_of_lookup_2|].
    apply leaf_encoded_inj in Hmk as (-> & -> & Hn & ->);
      try first [done|apply Ht1|apply Ht2|apply nonce_at_u64].
    split_and!; try done. eapply nonce_at_inj; [apply Ht1|apply Ht2|done]. }
  split.
  - destruct (deposits i1) as [|d1 ds1] eqn:E1; [by unfold input_ok in Hok1; rewrite E1 in Hok1|].
    destruct (deposits i2) as [|d2 ds2] eqn:E2; [done|].
    destruct (Hk 0%nat d1 d2) as (Hc & Hb & Hn & _); [done..|].
    destruct (ethereum i1), (ethereum i2). simpl in *. congruence.
  - apply list_eq_same_length with (length (deposits i1)); rewrite ?length_map; [done..|].
    intros k x y _ H1 H2. rewrite !list_lookup_fmap in H1, H2.
    apply fmap_Some in H1 as (d1 & H1 & ->). apply fmap_Some in H2 as (d2 & H2 & ->).
    by destruct (Hk k d1 d2) as (_ & _ & _ & ?).
Qed.

Lemma ethereum_state_after_output i :
  ethereum_state_after (output i) = foldl compute_ethereum_state
    (deposit_state (ethereum i)) (map keccak256 (leaf_messages (ethereum i) (deposits i))).
Proof. unfold output. by destruct (replay _ _ _). Qed.

Lemma output_action_fields i :
  map ba_fields (actions (output i)) =
    map (fun d => map field_to_bytes (action_fields_of (ethereum i) d)) (map normalise (deposits i)).
Proof.
  rewrite map_map. unfold output. generalize (from_be (action_state (zeko i))) as st. generalize (ethereum i) as eth.
  assert (forall eth st ds, map ba_fields (replay eth st ds).1 =
    map (fun d => map field_to_bytes (action_fields_of eth (normalise d))) ds) as Hr.
  { intros eth st ds. revert st. induction ds as [|d ds IH]; intros st; cbn [replay]; [done|].
    pose proof (IH (next_action_state eth st d)) as IHd. destruct (replay eth _ ds).
    cbn [map fst ba_fields] in *. f_equal. done. }
  intros eth st. pose proof (Hr eth st (deposits i)). by destruct (replay _ _ _).
Qed.

Lemma recipient_ok_at input k d :
  input_ok input = true -> deposits input !! k = Some d -> canonical (recipient_x d).
Proof.
  intros Hok Hk. unfold input_ok in Hok. apply andb_true_iff in Hok as [_ Hok].
  rewrite forallb_forall in Hok. specialize (Hok d). rewrite <- list_elem_of_In in Hok.
  apply list_elem_of_lookup_2, Hok in Hk. unfold deposit_ok in Hk. bool_props.
  split; [|done]. apply Z.land_nonneg. right. done.
Qed.

Lemma amount_exact d :
  amount_ok d = true ->
  from_be (bd_amount d) = (if is_native d then WEI_PER_ZEKO_UNIT else 1) * zeko_amount_of d /\
  0 < zeko_amount_of d <= u64_MAX.
Proof.
  intros Ha. unfold amount_ok in Ha. apply andb_true_iff in Ha as [Hp Hr]. bool_props.
  unfold zeko_amount_of in *. destruct (is_native d); [|lia]. bool_props.
  pose proof (Z.div_mod (from_be (bd_amount d)) WEI_PER_ZEKO_UNIT ltac:(done)) as Hd.
  assert (0 < from_be (bd_amount d) / WEI_PER_ZEKO_UNIT) by (unfold WEI_PER_ZEKO_UNIT in *; lia). lia.
Qed.

Lemma fp_from_u256_small n : canonical n -> fp_from_u256 n = n.
Proof.
  intros Hn. unfold fp_from_u256. rewrite from_be_to_be_small by by apply canonical_word.
  by apply fp_from_small.
Qed.

Lemma aux_exact eth d :
  length (bridge_address eth) = 20%nat -> typed_deposit d -> amount_ok d = true ->
  canonical (recipient_x d) ->
  aux_of eth d =
    phash (if is_native d then "Ethereum deposit V1" else "Ethereum ERC20 deposit V2")
      ((if is_native d then []
        else [2; bd_registry_index d; from_be (bd_record_commitment d);
              from_be (take 16 (bd_asset_id d)); from_be (drop 16 (bd_asset_id d))]) ++
       [0; from_be (bridge_address eth); 0; zeko_amount_of d; recipient_x d;
        if recipient_is_odd d then 1 else 0; bd_timeout d]).
Proof.
  intros Hb (Ht & Hid & He & Hri & Hrc & Ham & Hza & Hr & Hto) Ha Hx. unfold aux_of.
  pose proof (amount_exact d Ha) as [_ Hz].
  unfold fp_from_address. rewrite from_be_zeros, (fp_from_small (from_be (bridge_address eth)))
    by (eapply from_be_short; [done|lia]).
  rewrite (fp_from_u256_small (zeko_amount_of d))
    by (apply field_order_u64; unfold is_u64, u64_MAX in *; lia).
  rewrite (fp_from_u256_small (recipient_x d)) by done.
  rewrite (fp_from_u256_small (from_be (take 16 _))), (fp_from_u256_small (from_be (drop 16 _)))
    by (apply (from_be_short _ 16); rewrite ?length_take, ?length_drop, ?Hid; lia).
  rewrite (fp_from_small (bd_timeout d)) by (apply field_order_u64; exact Hto).
  rewrite (fp_from_small (bd_registry_index d)) by (apply field_order_u32; exact Hri).
  unfold fp_from_bool. by destruct (is_native d).
Qed.

(** ** Properties *)

(** C12. The guest produces a receipt exactly for the valid batches: a
    non-empty batch of valid deposits over a canonical action state whose
    length does not overflow; its receipt is the specified one, and any other
    batch panics. *)
Theorem bridge_guest_accepts input :
  typed_input input ->
  if input_ok input then derive_bridge_transition input = Ok (output input)
  else exists why, derive_bridge_transition input = Panic why.
Proof.
  intros Ht. destruct (input_ok input) eqn:Hok; [by apply derive_Ok|].
  destruct (derive_bridge_transition input) as [v|[]|w] eqn:Hv; [|by eexists].
  apply derive_Ok in Hv as [Hv _]; [congruence|done].
Qed.

(** C31. Everything the guest commits is a receipt the gateway decodes: the
    bytes have the length of the format and decode to the derived receipt. *)
Theorem bridge_guest_commits_decodable input b :
  typed_input input -> bridge_main input = Ok b ->
  BridgeValues.decode b = Ok (output input) /\
  length b = (BRIDGE_PUBLIC_VALUES_V2_HEADER_LENGTH +
              length (deposits input) * BRIDGE_ACTION_V2_LENGTH)%nat.
Proof.
  intros Ht (v & [Hok ->]%derive_Ok & He)%bind_Ok; [|done].
  pose proof (output_typed input Ht Hok) as Hty. rewrite encode_wire in He by done.
  injection He as <-. split; [by apply decode_wire|]. rewrite length_wire by done.
  unfold output. pose proof (length_replay (ethereum input) (from_be (action_state (zeko input))) (deposits input)) as Hl.
  destruct (replay _ _ _). simpl in *. by rewrite Hl.
Qed.

(** Batching is associative: proving a batch at once gives exactly the
    receipt obtained by proving a prefix and then the rest from the states of
    the first receipt, and one succeeds exactly when the other does. *)
Theorem bridge_batches_compose input ds es v :
  typed_input (with_deposits input ds) -> Forall typed_deposit es -> ds <> [] -> es <> [] ->
  derive_bridge_transition (with_deposits input (ds ++ es)) = Ok v <->
  exists a b, derive_bridge_transition (with_deposits input ds) = Ok a /\
    derive_bridge_transition (continue_from input a es) = Ok b /\ v = join a b.
Proof.
  intros Ht Hes Hd He.
  assert (typed_input (with_deposits input (ds ++ es))) as Hte.
  { unfold typed_input in *. simpl in *. rewrite Forall_app. tauto. }
  pose proof (input_ok_app input ds es Ht) as Hok.
  rewrite (proj2 (Z.ltb_lt 0 (Z.of_nat (length ds)))), (proj2 (Z.ltb_lt 0 (Z.of_nat (length es)))),
    !andb_true_r in Hok by (destruct ds, es; simpl; (done || lia)).
  assert (input_ok (with_deposits input ds) = true ->
    canonical (from_be (action_state (zeko input))) /\
    typed_input (continue_from input (output (with_deposits input ds)) es)) as Hcan.
  { intros Ha. pose proof (output_typed _ Ht Ha) as Hty. split.
    - split; [apply from_be_nonneg|]. unfold input_ok in Ha. bool_props. done.
    - unfold typed_input, typed in *. simpl in *. destruct_and?. auto 10. }
  rewrite derive_Ok by done. rewrite Hok. split.
  - intros [Hab ->]. apply andb_true_iff in Hab as [Ha Hb]. destruct (Hcan Ha) as [Hcs Htc].
    eexists _, _. split; [by apply derive_Ok|]. split; [by apply derive_Ok|]. by apply output_app.
  - intros (a & b & [Ha ->]%derive_Ok & Hb & ->); [|done]. destruct (Hcan Ha) as [Hcs Htc].
    apply derive_Ok in Hb as [Hb ->]; [|done]. rewrite Ha, Hb. split; [done|].
    symmetry. by apply output_app.
Qed.


(** C33. No amount, recipient or timeout is reduced, scaled or truncated on
    the way into the Zeko action: the action at position [k] carries the hash
    of exactly the integers of deposit [k], and the Zeko amount is a positive
    64-bit value worth exactly the locked amount (10^9 wei per unit of the
    native asset, one base unit per unit of an ERC-20). *)
Theorem deposit_action_exact input v k d :
  typed_input input -> derive_bridge_transition input = Ok v -> deposits input !! k = Some d ->
  exists a, actions v !! k = Some a /\
    ba_fields a = map field_to_bytes
      [1;
       phash (if is_native d then "Ethereum deposit V1" else "Ethereum ERC20 deposit V2")
         ((if is_native d then []
           else [2; bd_registry_index d; from_be (bd_record_commitment d);
                 from_be (take 16 (bd_asset_id d)); from_be (drop 16 (bd_asset_id d))]) ++
          [0; from_be (bridge_address (ethereum input)); 0; zeko_amount_of d; recipient_x d;
           if recipient_is_odd d then 1 else 0; bd_timeout d]);
       0; 0; u32_MAX] /\
    from_be (bd_amount d) = (if is_native d then WEI_PER_ZEKO_UNIT else 1) * zeko_amount_of d /\
    0 < zeko_amount_of d <= u64_MAX.
Proof.
  intros Ht [Hok ->]%derive_Ok Hk; [|done].
  destruct (deposits_valid input d) as [Htd Ha]; [done..|by eapply list_elem_of_lookup_2|].
  pose proof (output_action_fields input) as Hf.
  apply (f_equal (fun l => l !! k)) in Hf. rewrite !list_lookup_fmap, Hk in Hf.
  destruct (actions (output input) !! k) as [a|]; [|done]. simpl in Hf. injection Hf as Hf.
  exists a. split; [done|]. split.
  - rewrite Hf. change (aux_of (ethereum input) (normalise d)) with (aux_of (ethereum input) d).
    rewrite aux_exact; [done|apply Ht|done|done|by eapply recipient_ok_at].
  - by apply amount_exact.
Qed.

End guest.

(** ** Witnesses *)

Module Examples.
Definition native : BridgeDeposit := {|
  bd_token := zeros 20; bd_asset_id := zeros 32; bd_encoding_version := 0; bd_registry_index := 0;
  bd_record_commitment := zeros 32; bd_amount := to_be 32 5000000000; bd_zeko_amount := None;
  bd_zeko_recipient := to_be 32 77; bd_timeout := 900 |}.
Definition erc20 : BridgeDeposit := {|
  bd_token := to_be 20 9; bd_asset_id := to_be 32 31; bd_encoding_version := 2;
  bd_registry_index := 3; bd_record_commitment := to_be 32 41; bd_amount := to_be 32 123;
  bd_zeko_amount := Some 123; bd_zeko_recipient := to_be 32 (2 ^ 255 + 5); bd_timeout := 2 ^ 32 - 1 |}.
Definition start (ds : list BridgeDeposit) : BridgeTransitionInput := {|
  ethereum := {| chain_id := 11155111; bridge_address := to_be 20 17; deposit_nonce := 4;
                 deposit_state := to_be 32 1 |};
  zeko := {| action_state := to_be 32 99; action_state_length := 7 |};
  deposits := ds |}.
Lemma native_typed : typed_deposit native.
Proof. unfold typed_deposit, is_u64, is_u32; simpl. split_and!; try lia; done. Qed.
Lemma erc20_typed : typed_deposit erc20.
Proof. unfold typed_deposit, is_u64, is_u32; simpl. split_and!; try lia; done. Qed.
Lemma start_typed ds : Forall typed_deposit ds -> typed_input (start ds).
Proof.
  intros Hds. unfold typed_input, is_u64, is_u32; simpl. split_and!; try lia; done.
Qed.
Definition both : BridgeTransitionInput := start [native; erc20].
Lemma both_typed : typed_input both.
Proof. apply start_typed. exact (Forall_cons_2 _ _ _ native_typed (Forall_cons_2 _ _ _ erc20_typed (Forall_nil_2 _))). Qed.
End Examples.

Definition receipt_of (input : BridgeTransitionInput) : guest BridgeTransitionPublicValuesV2 :=
  derive_bridge_transition (H := checksum_keccak) (H0 := mix_poseidon) input.

Lemma bridge_guest_accepts_witness :
  input_ok Examples.both = true /\
  receipt_of Examples.both =
    Ok (output (H := checksum_keccak) (H0 := mix_poseidon)
          Examples.both).
Proof.
  split; [vm_compute; reflexivity|].
  exact (bridge_guest_accepts (H := checksum_keccak) (H0 := mix_poseidon) _ Examples.both_typed).
Defined.

Lemma bridge_guest_commits_decodable_witness :
  exists b, BridgeValues.decode b = Ok (output (H := checksum_keccak) (H0 := mix_poseidon)
    Examples.both) /\ length b = 548%nat.
Proof.
  eexists. refine (bridge_guest_commits_decodable (H := checksum_keccak) (H0 := mix_poseidon)
    _ _ Examples.both_typed _). vm_compute. reflexivity.
Defined.

Lemma bridge_batches_compose_witness :
  exists a b,
    receipt_of (Examples.start [Examples.native]) = Ok a /\
    receipt_of (continue_from (Examples.start []) a [Examples.erc20]) = Ok b /\
    receipt_of Examples.both = Ok (join a b).
Proof.
  destruct (proj1 (bridge_batches_compose (H := checksum_keccak) (H0 := mix_poseidon)
    (Examples.start []) [Examples.native] [Examples.erc20]
    (output (H := checksum_keccak) (H0 := mix_poseidon) Examples.both)
    (Examples.start_typed [Examples.native] (Forall_cons_2 _ _ _ Examples.native_typed (Forall_nil_2 _)))
    (Forall_cons_2 _ _ _ Examples.erc20_typed (Forall_nil_2 _))
    ltac:(done) ltac:(done)) ltac:(vm_compute; reflexivity)) as (a & b & Ha & Hb & Hj).
  exists a, b. split; [exact Ha|]. split; [exact Hb|]. rewrite <- Hj. vm_compute. reflexivity.
Defined.


Lemma deposit_action_exact_witness :
  zeko_amount_of Examples.native = 5 /\
  from_be (bd_amount Examples.native) = WEI_PER_ZEKO_UNIT * zeko_amount_of Examples.native.
Proof.
  split; [vm_compute; reflexivity|].
  destruct (deposit_action_exact (H := checksum_keccak) (H0 := mix_poseidon)
    Examples.both
    (output (H := checksum_keccak) (H0 := mix_poseidon) Examples.both)
    0 Examples.native Examples.both_typed ltac:(vm_compute; reflexivity) ltac:(reflexivity))
    as (a & _ & _ & He & _). exact He.
Defined.
