(* ===== verification/Merkle.v ===== *)
(** * Perfect binary hash trees

    The abstract specification that the registry tree (Poseidon nodes) and
    the asset batch tree (Keccak nodes) of the settlement guest implement: a
    tree over a function from leaf positions, the sibling path of a position,
    the climb from a leaf along a path, updates of one leaf, and binding of a
    path under the absence of collisions among the nodes involved. *)

From S2P Require Import Prelude.

Section merkle.
Context {A : Type} (node : A -> A -> A).

(** The node at height [k] and position [i] over the leaves [f]. *)
Fixpoint node_at (f : nat -> A) (k i : nat) : A :=
  match k with
  | O => f i
  | S k => node (node_at f k (2 * i)) (node_at f k (2 * i + 1))
  end.

(** The ancestor position [k] levels up. *)
Fixpoint up (k i : nat) : nat :=
  match k with O => i | S k => up k (Nat.div2 i) end.

Definition sibling (i : nat) : nat := if Nat.even i then i + 1 else i - 1.

(** The sibling path of the node at height [l] and position [i]. *)
Fixpoint siblings (f : nat -> A) (l k i : nat) : list A :=
  match k with
  | O => []
  | S k => node_at f l (sibling i) :: siblings f (S l) k (Nat.div2 i)
  end.

Definition ordered (x s : A) (i : nat) : A * A := if Nat.even i then (x, s) else (s, x).
Definition join_pair (p : A * A) : A := node p.1 p.2.

(** Hash from a node along a path, and the node messages hashed. *)
Fixpoint climb (x : A) (i : nat) (path : list A) : A :=
  match path with
  | [] => x
  | s :: path => climb (join_pair (ordered x s i)) (Nat.div2 i) path
  end.
Fixpoint climb_nodes (x : A) (i : nat) (path : list A) : list (A * A) :=
  match path with
  | [] => []
  | s :: path => ordered x s i :: climb_nodes (join_pair (ordered x s i)) (Nat.div2 i) path
  end.

Definition no_node_collision (Q : list (A * A)) : Prop :=
  Forall (fun x => Forall (fun y => join_pair x = join_pair y -> x = y) Q) Q.

Definition set_leaf (f : nat -> A) (j : nat) (x : A) (i : nat) : A := if (i =? j)%nat then x else f i.

(** [chunks_exact(2).map(node)]: a trailing odd element is dropped. *)
Fixpoint reduce_exact (level : list A) : list A :=
  match level with
  | a :: b :: level => node a b :: reduce_exact level
  | _ => []
  end.

Lemma up_S k i : up (S k) i = Nat.div2 (up k i).
Proof. revert i. induction k as [|k IH]; intros i; [done|]. simpl in *. by rewrite IH. Qed.

Lemma half_cases i : i = (2 * Nat.div2 i + if Nat.even i then 0 else 1)%nat.
Proof.
  pose proof (Nat.div2_odd i) as H. rewrite <- Nat.negb_even in H.
  destruct (Nat.even i); simpl Nat.b2n in H; simpl negb in H; lia.
Qed.

Lemma node_at_parent f l i :
  node_at f (S l) (Nat.div2 i) = join_pair (ordered (node_at f l i) (node_at f l (sibling i)) i).
Proof.
  cbn [node_at]. unfold ordered, sibling, join_pair. pose proof (half_cases i) as Hi.
  destruct (Nat.even i); cbn [fst snd]; do 2 f_equal; lia.
Qed.

Lemma climb_siblings f l k i :
  climb (node_at f l i) i (siblings f l k i) = node_at f (l + k) (up k i).
Proof.
  revert l i. induction k as [|k IH]; intros l i; cbn [siblings climb up].
  - by rewrite Nat.add_0_r.
  - rewrite <- node_at_parent, IH. f_equal. lia.
Qed.

Lemma length_siblings f l k i : length (siblings f l k i) = k.
Proof. revert l i. induction k as [|k IH]; intros l i; simpl; auto. Qed.

Lemma node_at_set_other f j x l m : m <> up l j -> node_at (set_leaf f j x) l m = node_at f l m.
Proof.
  revert m. induction l as [|l IH]; intros m Hm.
  - unfold set_leaf. simpl in *. by rewrite (proj2 (Nat.eqb_neq _ _) Hm).
  - rewrite up_S in Hm. pose proof (half_cases (up l j)). cbn [node_at].
    rewrite !IH; [done|destruct (Nat.even (up l j)); lia..].
Qed.

Lemma sibling_neq i : sibling i <> i.
Proof. unfold sibling. destruct i as [|i]; [done|]. destruct (Nat.even (S i)); lia. Qed.

Lemma siblings_set f j x l k :
  siblings (set_leaf f j x) l k (up l j) = siblings f l k (up l j).
Proof.
  revert l. induction k as [|k IH]; intros l; cbn [siblings]; [done|].
  rewrite node_at_set_other by apply sibling_neq.
  f_equal. rewrite <- up_S. apply IH.
Qed.

(** Replacing one leaf changes the root to the climb of the new leaf. *)
Lemma climb_update f j x k : climb x j (siblings f 0 k j) = node_at (set_leaf f j x) k (up k j).
Proof.
  pose proof (climb_siblings (set_leaf f j x) 0 k j) as Hc.
  change j with (up 0 j) in Hc at 5. rewrite (siblings_set f j x 0 k) in Hc.
  cbn in Hc. rewrite <- Hc. unfold set_leaf at 1. by rewrite Nat.eqb_refl.
Qed.

Lemma ordered_inj x s y t i : ordered x s i = ordered y t i -> x = y /\ s = t.
Proof. unfold ordered. destruct (Nat.even i); by intros [= -> ->]. Qed.

Lemma no_node_collision_elim Q x y :
  no_node_collision Q -> x ∈ Q -> y ∈ Q -> join_pair x = join_pair y -> x = y.
Proof.
  intros HQ Hx Hy. unfold no_node_collision in HQ.
  pose proof (proj1 (list.Forall_forall _ _) HQ x Hx) as HQ'.
  exact (proj1 (list.Forall_forall _ _) HQ' y Hy).
Qed.

Lemma no_node_collision_subset P Q : P ⊆ Q -> no_node_collision Q -> no_node_collision P.
Proof.
  intros Hsub HQ. unfold no_node_collision. apply list.Forall_forall; intros x Hx.
  apply list.Forall_forall; intros y Hy He. eapply no_node_collision_elim; eauto.
Qed.

(** A check that hashes every message once. *)
Definition collision_free_b `{EqDecision A} (Q : list (A * A)) : bool :=
  let hashed := map (fun p => (p, join_pair p)) Q in
  forallb (fun x => forallb (fun y => negb (bool_decide (x.2 = y.2)) || bool_decide (x.1 = y.1)) hashed) hashed.

Lemma collision_free_check `{EqDecision A} (Q : list (A * A)) : collision_free_b Q = true -> no_node_collision Q.
Proof.
  unfold collision_free_b. rewrite forallb_forall. intros HQ.
  apply list.Forall_forall; intros x Hx. apply list.Forall_forall; intros y Hy He.
  specialize (HQ (x, join_pair x) ltac:(apply in_map_iff; exists x; split; [done|by apply list_elem_of_In])).
  rewrite forallb_forall in HQ.
  specialize (HQ (y, join_pair y) ltac:(apply in_map_iff; exists y; split; [done|by apply list_elem_of_In])).
  simpl in HQ. rewrite (bool_decide_eq_true_2 _ He) in HQ. by apply bool_decide_eq_true in HQ.
Qed.

(** A path that climbs to the node of the tree is the tree's own path. *)
Lemma climb_binding f l k i x path Q :
  length path = k -> climb x i path = node_at f (l + k) (up k i) ->
  no_node_collision Q -> climb_nodes x i path ⊆ Q ->
  climb_nodes (node_at f l i) i (siblings f l k i) ⊆ Q ->
  x = node_at f l i /\ path = siblings f l k i.
Proof.
  intros Hl Hc HQ. revert l i x path Hl Hc.
  induction k as [|k IH]; intros l i x [|s path] Hl Hc H1 H2; try done.
  - cbn in Hc. by rewrite Nat.add_0_r in Hc.
  - cbn [climb climb_nodes siblings up] in *.
    rewrite <- node_at_parent in H2.
    destruct (IH (S l) (Nat.div2 i) (join_pair (ordered x s i)) path) as [He ->];
      [simpl in Hl; lia|rewrite Hc; f_equal; lia|clear IH; set_solver|clear IH; set_solver|].
    rewrite node_at_parent in He.
    apply (no_node_collision_elim Q) in He; [|done|clear IH; set_solver|clear IH; set_solver].
    apply ordered_inj in He as [-> ->]. done.
Qed.

(** ** Levels as lists *)

Lemma reduce_exact_level f l n :
  reduce_exact (map (node_at f l) (seq 0 (2 * n))) = map (node_at f (S l)) (seq 0 n).
Proof.
  assert (forall s, reduce_exact (map (node_at f l) (seq (2 * s) (2 * n))) =
    map (node_at f (S l)) (seq s n)) as Hs; [|apply (Hs 0%nat)].
  induction n as [|n IH]; intros s; [done|].
  replace (2 * S n)%nat with (S (S (2 * n))) by lia. cbn [seq map reduce_exact].
  replace (S (S (2 * s))) with (2 * S s)%nat by lia. rewrite IH. cbn [node_at].
  do 3 f_equal. lia.
Qed.

Lemma reduce_exact_root f k :
  Nat.iter k reduce_exact (map f (seq 0 (2 ^ k))) = [node_at f k 0].
Proof.
  assert (forall j, (j <= k)%nat ->
    Nat.iter j reduce_exact (map f (seq 0 (2 ^ k))) = map (node_at f j) (seq 0 (2 ^ (k - j)))) as Hj.
  { induction j as [|j IH]; intros Hle; [by rewrite Nat.sub_0_r|].
    change (Nat.iter (S j) reduce_exact ?l) with (reduce_exact (Nat.iter j reduce_exact l)).
    rewrite IH by lia. replace (k - j)%nat with (S (k - S j)) by lia.
    rewrite Nat.pow_succ_r'. apply reduce_exact_level. }
  rewrite Hj by lia. by rewrite Nat.sub_diag.
Qed.

End merkle.

(** Positions below the capacity climb to the root. *)
Lemma up_root k i : (i < 2 ^ k)%nat -> up k i = 0%nat.
Proof.
  revert i. induction k as [|k IH]; intros i Hi; cbn [up]; [simpl in Hi; lia|].
  apply IH. rewrite Nat.pow_succ_r' in Hi. pose proof (half_cases i). destruct (Nat.even i); lia.
Qed.

Lemma Z_even_nat i : Z.even (Z.of_nat i) = Nat.even i.
Proof.
  enough (Z.even (Z.of_nat i) = Nat.even i /\ Z.odd (Z.of_nat i) = Nat.odd i) by tauto.
  induction i as [|i [He Ho]]; [done|].
  by rewrite Nat2Z.inj_succ, Z.even_succ, Z.odd_succ, Nat.even_succ, Nat.odd_succ.
Qed.

(** The bit test of the guests' climbing loop. *)
Lemma land_bit_even index level :
  (Z.land (Z.of_nat index) (Z.shiftl 1 (Z.of_nat level)) =? 0) = Nat.even (up level index).
Proof.
  assert ((Z.land (Z.of_nat index) (Z.shiftl 1 (Z.of_nat level)) =? 0) =
    negb (Z.testbit (Z.of_nat index) (Z.of_nat level))) as ->.
  { destruct (Z.testbit _ _) eqn:Hb; simpl.
    - apply Z.eqb_neq. intros Hz. apply (f_equal (fun z => Z.testbit z (Z.of_nat level))) in Hz.
      rewrite Z.land_spec, Hb, Z.shiftl_spec, Z.sub_diag, Z.bits_0 in Hz by lia. done.
    - apply Z.eqb_eq. apply Z.bits_inj'. intros k Hk.
      rewrite Z.land_spec, Z.bits_0, Z.shiftl_spec by lia.
      destruct (Z.eq_dec k (Z.of_nat level)) as [->|]; [by rewrite Hb|].
      destruct (Z.testbit (Z.of_nat index) k); [|done]. simpl.
      destruct (Z.ltb_spec k (Z.of_nat level)); [by apply Z.testbit_neg_r; lia|].
      rewrite Z.bits_above_log2; [done|lia|]. change (Z.log2 1) with 0. lia. }
  revert index. induction level as [|level IH]; intros index.
  - change (Z.of_nat 0) with 0. rewrite Z.bit0_odd, Z.negb_odd. cbn [up].
    apply Z_even_nat.
  - cbn [up]. rewrite <- IH, Nat2Z.inj_succ. f_equal.
    by rewrite Nat2Z.inj_div2, Z.div2_div, Z.div2_bits by lia.
Qed.
