(* ===== verification/Registry.v ===== *)
(** * The asset registry checks of the settlement guest
      ([program/settlement/src/receipt.rs])

    Canonical asset records, their Keccak identity and their Poseidon leaf;
    the depth-8 Poseidon registry tree, to which a checkpoint appends dense
    records one by one (V4) or exactly one (V3); and the depth-8 Keccak tree
    over the records of a batch. *)

From Stdlib Require Import Strings.Byte.
From S2P Require Import Prelude Hashing Field Merkle.

(** ** Data *)

Definition ASSET_REGISTRY_TREE_DEPTH : nat := 8.
Definition MAX_ASSET_RECORDS : Z := Z.shiftl 1 (Z.of_nat ASSET_REGISTRY_TREE_DEPTH).
Definition ASSET_RECORD_BATCH_LEAF_DOMAIN : string := "ZEKO_ASSET_RECORD_BATCH_LEAF_V2".
Definition ASSET_RECORD_BATCH_NODE_DOMAIN : string := "ZEKO_ASSET_RECORD_BATCH_NODE_V1".

Record CanonicalAssetRecordV1 := {
  ar_schema_version : Z;
  ar_registry_index : Z;
  ar_asset_id : bytes;
  ar_ethereum_token : bytes;
  ar_token_owner_l2 : bytes;
  ar_token_id_l2 : bytes;
  ar_decimals : Z;
  ar_inventory_cap : Z;
  ar_mft_standard_vk_id : bytes;
  ar_vault_public_key : bytes;
  ar_universal_bridge_vk_id : bytes
}.

Record AssetRegistryAppendV1 := { aa_record : CanonicalAssetRecordV1; aa_append_path : list bytes }.

Record AssetRegistryCheckpointV3 := {
  c3_checkpoint_version : Z;
  c3_registry_public_key : bytes;
  c3_root : bytes;
  c3_count : Z;
  c3_schema_version : Z;
  c3_record_hash : bytes;
  c3_record : CanonicalAssetRecordV1;
  c3_append_path : list bytes;
  c3_old_root : bytes;
  c3_old_count : Z
}.

Record AssetRegistryBatchCheckpointV4 := {
  c4_checkpoint_version : Z;
  c4_registry_public_key : bytes;
  c4_root : bytes;
  c4_count : Z;
  c4_schema_version : Z;
  c4_old_root : bytes;
  c4_old_count : Z;
  c4_appends : list AssetRegistryAppendV1
}.

(** ** Packed public keys and addresses *)

Definition unpack_public_key (packed : bytes) : guest (Z * Z) :=
  let is_odd := negb (Z.land (byte_val (nth 0 packed Byte.x00)) 0x80 =? 0) in
  let x := <[0%nat := byte_of (Z.land (byte_val (nth 0 packed Byte.x00)) 0x7f)]> packed in
  x ← field_from_bytes x;
  Ok (x, fp_from (if is_odd then 1 else 0)).

Definition field_from_address (address : bytes) : guest Z := field_from_bytes (zeros 12 ++ address).

Section registry.
Context `{Keccak} `{Poseidon}.

(** ** Record identities *)

Definition asset_id_encoded (r : CanonicalAssetRecordV1) (chain_id : Z) (bridge_address : bytes) : bytes :=
  concat [keccak256 (ascii "ZEKO_ERC20_ASSET_V1"); u64_word chain_id; address_word bridge_address;
          address_word (ar_ethereum_token r); ar_token_owner_l2 r; ar_token_id_l2 r;
          u64_word (ar_decimals r)].
Definition compute_asset_id r chain_id bridge_address : bytes :=
  keccak256 (asset_id_encoded r chain_id bridge_address).

Definition asset_record_encoded (r : CanonicalAssetRecordV1) : bytes :=
  concat [keccak256 (ascii "ZEKO_ERC20_ASSET_RECORD_V1"); u32_word (ar_schema_version r);
          u32_word (ar_registry_index r); ar_asset_id r; address_word (ar_ethereum_token r);
          ar_token_owner_l2 r; ar_token_id_l2 r; u64_word (ar_decimals r);
          u64_word (ar_inventory_cap r); ar_mft_standard_vk_id r; ar_vault_public_key r;
          ar_universal_bridge_vk_id r].
Definition hash_canonical_asset_record (r : CanonicalAssetRecordV1) : bytes :=
  keccak256 (asset_record_encoded r).

Definition hash_registry_record_leaf (r : CanonicalAssetRecordV1) : guest Z :=
  let asset_high := zeros 16 ++ take 16 (ar_asset_id r) in
  let asset_low := zeros 16 ++ drop 16 (ar_asset_id r) in
  '(owner_x, owner_is_odd) ← unpack_public_key (ar_token_owner_l2 r);
  '(vault_x, vault_is_odd) ← unpack_public_key (ar_vault_public_key r);
  asset_high ← field_from_bytes asset_high;
  asset_low ← field_from_bytes asset_low;
  token ← field_from_address (ar_ethereum_token r);
  token_id ← field_from_bytes (ar_token_id_l2 r);
  mft_vk ← field_from_bytes (ar_mft_standard_vk_id r);
  bridge_vk ← field_from_bytes (ar_universal_bridge_vk_id r);
  hash_with_prefix "Ethereum asset registry leaf V1"
    [fp_from (ar_schema_version r); fp_from (ar_registry_index r); asset_high; asset_low; token;
     owner_x; owner_is_odd; token_id; fp_from (ar_decimals r); fp_from (ar_inventory_cap r);
     mft_vk; vault_x; vault_is_odd; bridge_vk].

(** ** The registry tree *)

(** One level of the climb; [1u32 << level] masks its shift in release. *)
Definition implied_root_step (index : Z) (current : Z) (entry : nat * bytes) : guest Z :=
  let '(level, sibling) := entry in
  sibling ← field_from_bytes sibling;
  if Z.land index (Z.shiftl 1 (Z.of_nat level mod 32)) =? 0
  then hash_with_prefix "Ethereum asset registry node V1" [current; sibling]
  else hash_with_prefix "Ethereum asset registry node V1" [sibling; current].

Definition registry_implied_root (leaf index : Z) (path : list bytes) : guest Z :=
  foldM (implied_root_step index) leaf (imap pair path).

Definition validate_canonical_asset_record (r : CanonicalAssetRecordV1) (chain_id : Z)
    (bridge_address : bytes) : guest unit :=
  assert_ (ar_decimals r <=? 9) "asset decimals exceed the Zeko maximum";;
  assert_ (negb (bool_decide (ar_ethereum_token r = zeros 20))) "asset token is zero";;
  assert_ (negb (bool_decide (ar_asset_id r = zeros 32))) "asset ID is zero";;
  assert_ (negb (bool_decide (ar_token_owner_l2 r = zeros 32))) "asset owner is zero";;
  assert_ (negb (bool_decide (ar_token_id_l2 r = zeros 32))) "asset token ID is zero";;
  assert_ (negb (ar_inventory_cap r =? 0)) "asset inventory cap is zero";;
  assert_ (negb (bool_decide (ar_mft_standard_vk_id r = zeros 32))) "asset MFT standard VK is zero";;
  assert_ (negb (bool_decide (ar_vault_public_key r = zeros 32))) "asset vault public key is zero";;
  assert_ (negb (bool_decide (ar_universal_bridge_vk_id r = zeros 32)))
    "asset universal bridge VK is zero";;
  assert_ (negb (bool_decide (ar_token_owner_l2 r = ar_vault_public_key r)))
    "asset owner and shared vault must differ";;
  assert_ (bool_decide (compute_asset_id r chain_id bridge_address = ar_asset_id r))
    "canonical Ethereum asset ID mismatch".

Definition validate_registry_append (append : AssetRegistryAppendV1) (expected_index : Z)
    (old_root : bytes) (schema_version chain_id : Z) (bridge_address : bytes) : guest bytes :=
  let record := aa_record append in
  assert_ (length (aa_append_path append) =? ASSET_REGISTRY_TREE_DEPTH)%nat "invalid registry append path";;
  assert_ (ar_schema_version record =? schema_version) "asset and registry schema mismatch";;
  assert_ (ar_registry_index record =? expected_index) "asset record is not a dense ordered append";;
  validate_canonical_asset_record record chain_id bridge_address;;
  implied_old_root ← registry_implied_root 0 expected_index (aa_append_path append);
  assert_ (bool_decide (field_to_bytes implied_old_root = old_root))
    "registry append slot is not empty under the running root";;
  leaf ← hash_registry_record_leaf record;
  new_root ← registry_implied_root leaf expected_index (aa_append_path append);
  Ok (field_to_bytes new_root).

(** The loop over the appends threads the running root and the identities. *)
Definition batch_step (checkpoint : AssetRegistryBatchCheckpointV4) (chain_id : Z)
    (bridge_address : bytes) (st : bytes * list (Z * bytes * bytes))
    (entry : nat * AssetRegistryAppendV1) : guest (bytes * list (Z * bytes * bytes)) :=
  let '(running_root, record_identities) := st in
  let '(offset, append) := entry in
  assert_ (Z.of_nat offset <=? u32_MAX) "batch offset fits u32";;
  expected_index ← expect (checked_add_u32 (c4_old_count checkpoint) (Z.of_nat offset))
                     "asset registry index overflow";
  running_root ← validate_registry_append append expected_index running_root
                   (c4_schema_version checkpoint) chain_id bridge_address;
  leaf ← hash_registry_record_leaf (aa_record append);
  Ok (running_root, record_identities ++
        [(expected_index, hash_canonical_asset_record (aa_record append), field_to_bytes leaf)]).

Definition validate_registry_batch (checkpoint : AssetRegistryBatchCheckpointV4) (chain_id : Z)
    (bridge_address : bytes) : guest (list (Z * bytes * bytes)) :=
  let appends := c4_appends checkpoint in
  assert_ (c4_schema_version checkpoint =? 1) "unsupported asset registry schema";;
  assert_ (negb (bool_decide (c4_root checkpoint = zeros 32))) "asset registry root is zero";;
  assert_ (negb (length appends =? 0)%nat) "asset registry batch is empty";;
  assert_ (Z.of_nat (length appends) <=? MAX_ASSET_RECORDS) "asset registry batch exceeds capacity";;
  assert_ (Z.of_nat (length appends) <=? u32_MAX) "asset registry batch length fits u32";;
  count ← expect (checked_add_u32 (c4_old_count checkpoint) (Z.of_nat (length appends)))
            "asset registry count overflow";
  assert_ (c4_count checkpoint =? count) "asset registry count does not match batch length";;
  assert_ (c4_count checkpoint <=? MAX_ASSET_RECORDS) "asset registry count exceeds capacity";;
  '(running_root, record_identities) ←
    foldM (batch_step checkpoint chain_id bridge_address) (c4_old_root checkpoint, [])
      (imap pair appends);
  assert_ (bool_decide (running_root = c4_root checkpoint))
    "registry appends do not produce the settled root";;
  Ok record_identities.

Definition validate_registry_transition (checkpoint : AssetRegistryCheckpointV3) (chain_id : Z)
    (bridge_address : bytes) : guest unit :=
  let record := c3_record checkpoint in
  assert_ (length (c3_append_path checkpoint) =? 8)%nat "invalid registry append path";;
  assert_ (ar_schema_version record =? 1) "unsupported canonical asset schema";;
  assert_ (ar_schema_version record =? c3_schema_version checkpoint) "asset and registry schema mismatch";;
  assert_ (ar_registry_index record =? c3_old_count checkpoint)
    "asset record is not appended at the committed count";;
  count ← expect (checked_add_u32 (c3_old_count checkpoint) 1) "asset registry count overflow";
  assert_ (c3_count checkpoint =? count) "asset registry count must increase exactly once";;
  assert_ (c3_count checkpoint <=? MAX_ASSET_RECORDS) "asset registry count exceeds capacity";;
  validate_canonical_asset_record record chain_id bridge_address;;
  assert_ (bool_decide (hash_canonical_asset_record record = c3_record_hash checkpoint))
    "canonical asset record hash mismatch";;
  old_root ← registry_implied_root 0 (ar_registry_index record) (c3_append_path checkpoint);
  assert_ (bool_decide (field_to_bytes old_root = c3_old_root checkpoint))
    "registry append slot is not empty under the old root";;
  leaf ← hash_registry_record_leaf record;
  new_root ← registry_implied_root leaf (ar_registry_index record) (c3_append_path checkpoint);
  assert_ (bool_decide (field_to_bytes new_root = c3_root checkpoint))
    "registry append does not produce the settled root".

(** ** The batch tree *)

Definition asset_record_batch_leaf_encoded (record_hash record_commitment : bytes) : bytes :=
  keccak256 (ascii ASSET_RECORD_BATCH_LEAF_DOMAIN) ++ record_hash ++ record_commitment.
Definition asset_record_batch_leaf (record_hash record_commitment : bytes) : bytes :=
  keccak256 (asset_record_batch_leaf_encoded record_hash record_commitment).

Definition batch_node (left right : bytes) : bytes :=
  keccak256 (keccak256 (ascii ASSET_RECORD_BATCH_NODE_DOMAIN) ++ left ++ right).

Definition place_record (level : list bytes) (identity : Z * bytes * bytes) : guest (list bytes) :=
  let '(index, record_hash, record_commitment) := identity in
  assert_ (index <? MAX_ASSET_RECORDS) "asset registry index exceeds capacity";;
  assert_ (bool_decide (level !!! Z.to_nat index = zeros 32)) "duplicate asset record batch index";;
  Ok (<[Z.to_nat index := asset_record_batch_leaf record_hash record_commitment]> level).

Definition asset_record_batch_root (record_identities : list (Z * bytes * bytes)) : guest bytes :=
  level ← foldM place_record (replicate (Z.to_nat MAX_ASSET_RECORDS) (zeros 32)) record_identities;
  Ok (Nat.iter ASSET_REGISTRY_TREE_DEPTH (reduce_exact batch_node) level !!! 0%nat).

(** ** Specification *)

Definition typed_record (r : CanonicalAssetRecordV1) : Prop :=
  is_u32 (ar_schema_version r) /\ is_u32 (ar_registry_index r) /\ length (ar_asset_id r) = 32%nat /\
  length (ar_ethereum_token r) = 20%nat /\ length (ar_token_owner_l2 r) = 32%nat /\
  length (ar_token_id_l2 r) = 32%nat /\ is_u8 (ar_decimals r) /\ is_u64 (ar_inventory_cap r) /\
  length (ar_mft_standard_vk_id r) = 32%nat /\ length (ar_vault_public_key r) = 32%nat /\
  length (ar_universal_bridge_vk_id r) = 32%nat.

Definition key_x (packed : bytes) : Z :=
  from_be (<[0%nat := byte_of (Z.land (byte_val (nth 0 packed Byte.x00)) 0x7f)]> packed).
Definition key_is_odd (packed : bytes) : Z :=
  if Z.land (byte_val (nth 0 packed Byte.x00)) 0x80 =? 0 then 0 else 1.

(** The records whose leaf exists: every packed field is canonical. *)
Definition leaf_ok (r : CanonicalAssetRecordV1) : bool :=
  (key_x (ar_token_owner_l2 r) <? field_order) && (key_x (ar_vault_public_key r) <? field_order) &&
  (from_be (ar_token_id_l2 r) <? field_order) && (from_be (ar_mft_standard_vk_id r) <? field_order) &&
  (from_be (ar_universal_bridge_vk_id r) <? field_order).

Definition record_leaf (r : CanonicalAssetRecordV1) : Z :=
  phash "Ethereum asset registry leaf V1"
    [ar_schema_version r; ar_registry_index r; from_be (take 16 (ar_asset_id r));
     from_be (drop 16 (ar_asset_id r)); from_be (ar_ethereum_token r);
     key_x (ar_token_owner_l2 r); key_is_odd (ar_token_owner_l2 r); from_be (ar_token_id_l2 r);
     ar_decimals r; ar_inventory_cap r; from_be (ar_mft_standard_vk_id r);
     key_x (ar_vault_public_key r); key_is_odd (ar_vault_public_key r);
     from_be (ar_universal_bridge_vk_id r)].

Definition record_ok (r : CanonicalAssetRecordV1) (chain_id : Z) (bridge_address : bytes) : Prop :=
  ar_decimals r <= 9 /\ ar_ethereum_token r <> zeros 20 /\ ar_asset_id r <> zeros 32 /\
  ar_token_owner_l2 r <> zeros 32 /\ ar_token_id_l2 r <> zeros 32 /\ ar_inventory_cap r <> 0 /\
  ar_mft_standard_vk_id r <> zeros 32 /\ ar_vault_public_key r <> zeros 32 /\
  ar_universal_bridge_vk_id r <> zeros 32 /\ ar_token_owner_l2 r <> ar_vault_public_key r /\
  compute_asset_id r chain_id bridge_address = ar_asset_id r.

Definition registry_node (a b : Z) : Z := phash "Ethereum asset registry node V1" [a; b].

(** The registry after writing records from position [i] on. *)
Fixpoint append_all (f : nat -> Z) (i : nat) (appends : list AssetRegistryAppendV1) : nat -> Z :=
  match appends with
  | [] => f
  | a :: appends => append_all (set_leaf f i (record_leaf (aa_record a))) (S i) appends
  end.

(** Every append is valid, lands on an empty slot of the registry as it is
    then, and carries that slot's sibling path. *)
Fixpoint appends_ok (chain_id : Z) (bridge_address : bytes) (f : nat -> Z) (i : nat)
    (appends : list AssetRegistryAppendV1) : Prop :=
  match appends with
  | [] => True
  | a :: appends =>
    ar_schema_version (aa_record a) = 1 /\ ar_registry_index (aa_record a) = Z.of_nat i /\
    record_ok (aa_record a) chain_id bridge_address /\ leaf_ok (aa_record a) = true /\
    f i = 0 /\
    aa_append_path a = map field_to_bytes (siblings registry_node f 0 ASSET_REGISTRY_TREE_DEPTH i) /\
    appends_ok chain_id bridge_address (set_leaf f i (record_leaf (aa_record a))) (S i) appends
  end.

Fixpoint identities (i : nat) (appends : list AssetRegistryAppendV1) : list (Z * bytes * bytes) :=
  match appends with
  | [] => []
  | a :: appends =>
    (Z.of_nat i, hash_canonical_asset_record (aa_record a), field_to_bytes (record_leaf (aa_record a)))
      :: identities (S i) appends
  end.

(** The node messages that must not collide. *)
Fixpoint batch_nodes (f : nat -> Z) (i : nat) (appends : list AssetRegistryAppendV1) : list (Z * Z) :=
  match appends with
  | [] => []
  | a :: appends =>
    climb_nodes registry_node 0 i (map from_be (aa_append_path a)) ++
    climb_nodes registry_node (f i) i (siblings registry_node f 0 ASSET_REGISTRY_TREE_DEPTH i) ++
    batch_nodes (set_leaf f i (record_leaf (aa_record a))) (S i) appends
  end.

(** The slots of the batch tree. *)
Definition batch_slots (ids : list (Z * bytes * bytes)) : nat -> bytes :=
  foldl (fun f '(index, h, c) => set_leaf f (Z.to_nat index) (asset_record_batch_leaf h c))
    (fun _ => zeros 32) ids.

(** The depth is folded away: unifying trees of depth 8 would unfold them. *)
Lemma depth_8 : ASSET_REGISTRY_TREE_DEPTH = 8%nat.
Proof. done. Qed.
#[local] Opaque ASSET_REGISTRY_TREE_DEPTH.

(** ** Lemmas: records *)

Lemma unpack_public_key_Ok packed p :
  length packed = 32%nat ->
  unpack_public_key packed = Ok p <->
  key_x packed < field_order /\ p = (key_x packed, key_is_odd packed).
Proof.
  intros Hl. unfold unpack_public_key. fold (key_x packed).
  rewrite bind_Ok. split.
  - intros (x & (_ & <- & [_ Hx])%field_from_bytes_be & [= <-]). split; [done|].
    unfold key_x, key_is_odd. f_equal. by destruct (_ =? 0).
  - intros [Hx ->]. exists (key_x packed). split.
    + apply field_from_bytes_be. rewrite length_insert. split_and!; [done..|].
      split; [apply from_be_nonneg|done].
    + unfold key_is_odd. by destruct (_ =? 0).
Qed.

Lemma unpack_public_key_eq packed :
  length packed = 32%nat -> key_x packed < field_order ->
  unpack_public_key packed = Ok (key_x packed, key_is_odd packed).
Proof. intros Hl Hx. by apply unpack_public_key_Ok. Qed.

Lemma field_from_padded_Ok n l x :
  (n + length l)%nat = 32%nat -> (length l <= 31)%nat ->
  field_from_bytes (zeros n ++ l) = Ok x <-> x = from_be l.
Proof.
  intros Hn Hl. rewrite field_from_bytes_be, length_app, length_zeros, from_be_zeros.
  pose proof (from_be_short l (length l) eq_refl Hl). unfold canonical in *.
  split; [by intros (_ & <- & _)|by intros ->].
Qed.

Lemma field_from_padded_eq n l :
  (n + length l)%nat = 32%nat -> (length l <= 31)%nat -> field_from_bytes (zeros n ++ l) = Ok (from_be l).
Proof. intros. by apply field_from_padded_Ok. Qed.

Lemma hash_registry_record_leaf_Ok r z :
  typed_record r ->
  hash_registry_record_leaf r = Ok z <-> leaf_ok r = true /\ z = record_leaf r.
Proof.
  intros (Hs & Hi & Ha & Ht & Ho & Hid & Hd & Hc & Hm & Hv & Hu).
  unfold hash_registry_record_leaf, leaf_ok, field_from_address.
  assert (is_u64 (ar_decimals r)) by (unfold is_u8, is_u64 in *; lia).
  rewrite !(fp_from_small (ar_schema_version r)), !(fp_from_small (ar_registry_index r)),
    !(fp_from_small (ar_decimals r)), !(fp_from_small (ar_inventory_cap r))
    by first [by apply field_order_u32|by apply field_order_u64].
  rewrite !andb_true_iff, !Z.ltb_lt. split.
  - intros ([? ?] & [Hk1 [= -> ->]]%unpack_public_key_Ok & Hz)%bind_Ok; [|done].
    apply bind_Ok in Hz as ([? ?] & [Hk2 [= -> ->]]%unpack_public_key_Ok & Hz); [|done].
    apply bind_Ok in Hz as (? & ->%field_from_padded_Ok & Hz); [|rewrite length_take; lia..].
    apply bind_Ok in Hz as (? & ->%field_from_padded_Ok & Hz); [|rewrite length_drop; lia..].
    apply bind_Ok in Hz as (? & ->%field_from_padded_Ok & Hz); [|lia..].
    do 3 apply bind_Ok in Hz as (? & (_ & <- & [_ ?])%field_from_bytes_be & Hz).
    rewrite hash_with_prefix_Ok in Hz by (vm_compute; lia). injection Hz as <-. done.
  - intros [Hok ->]. destruct_and?.
    rewrite !unpack_public_key_eq by done. cbn [mbind outcome_bind].
    rewrite (field_from_padded_eq 16 (take 16 _)) by (rewrite length_take; lia).
    rewrite (field_from_padded_eq 16 (drop 16 _)) by (rewrite length_drop; lia).
    rewrite field_from_padded_eq by lia. cbn [mbind outcome_bind].
    do 3 (rewrite field_from_bytes_eq by done; cbn [mbind outcome_bind]).
    by rewrite hash_with_prefix_Ok by (vm_compute; lia).
Qed.

Lemma validate_canonical_asset_record_Ok r chain_id bridge_address u :
  validate_canonical_asset_record r chain_id bridge_address = Ok u <->
  record_ok r chain_id bridge_address.
Proof.
  unfold validate_canonical_asset_record, record_ok. split.
  - intros Hv. inv_ok. bool_props. auto 12.
  - intros (? & ? & ? & ? & ? & ? & ? & ? & ? & ? & Hid). destruct u.
    repeat (rewrite assert_true; [|first [by apply Z.leb_le
      | by apply negb_true_iff, bool_decide_eq_false | by apply negb_true_iff, Z.eqb_neq]]).
    unfold assert_. by rewrite bool_decide_eq_true_2.
Qed.

(** ** Lemmas: the registry tree *)

Lemma implied_root_step_eq i k x s y :
  (k < 32)%nat ->
  implied_root_step (Z.of_nat i) x (k, s) = Ok y <->
  exists sv, s = field_to_bytes sv /\ canonical sv /\
    y = join_pair registry_node (ordered x sv (up k i)).
Proof.
  intros Hk. unfold implied_root_step. rewrite Z.mod_small, land_bit_even by lia.
  unfold ordered, join_pair, registry_node. rewrite bind_Ok. split.
  - intros (sv & [-> Hs]%field_from_bytes_Ok & Hy). exists sv. split_and!; [done..|].
    destruct (Nat.even _); rewrite hash_with_prefix_Ok in Hy by (vm_compute; lia);
      by injection Hy as <-.
  - intros (sv & -> & Hs & ->). exists sv. split; [by apply field_from_to_bytes|].
    destruct (Nat.even _); by rewrite hash_with_prefix_Ok by (vm_compute; lia).
Qed.

Lemma up_add k l i : up (k + l) i = up l (up k i).
Proof. revert i. induction k as [|k IH]; intros i; simpl; auto. Qed.

Lemma registry_implied_root_from k i x path y :
  (k + length path <= 32)%nat ->
  foldM (implied_root_step (Z.of_nat i)) x (imap (fun l s => ((k + l)%nat, s)) path) = Ok y <->
  exists ps, path = map field_to_bytes ps /\ Forall canonical ps /\
    y = climb registry_node x (up k i) ps.
Proof.
  revert k x. induction path as [|s path IH]; intros k x Hk.
  - simpl. split; [intros [= ->]; by exists []|].
    intros (ps & Hps & _ & ->). symmetry in Hps. apply map_eq_nil in Hps as ->. done.
  - cbn [imap foldM]. rewrite Nat.add_0_r, bind_Ok. simpl in Hk.
    rewrite (imap_ext _ (fun l s => ((S k + l)%nat, s))) by (intros ? ? _; simpl; f_equal; lia).
    split.
    + intros (x1 & Hx & Hy). apply implied_root_step_eq in Hx as (sv & -> & Hs & ->); [|lia].
      apply IH in Hy as (ps & -> & Hps & ->); [|lia].
      exists (sv :: ps). split; [done|]. split; [by constructor|]. cbn [climb]. by rewrite up_S.
    + intros ([|sv ps] & Hp & Hps & ->); [done|]. injection Hp as -> ->.
      inversion Hps; subst. eexists. split; [apply implied_root_step_eq; [lia|eauto]|].
      apply IH; [lia|]. exists ps. split; [done|]. split; [done|]. cbn [climb]. by rewrite up_S.
Qed.

Lemma registry_implied_root_Ok i x path y :
  (length path <= 32)%nat ->
  registry_implied_root x (Z.of_nat i) path = Ok y <->
  exists ps, path = map field_to_bytes ps /\ Forall canonical ps /\ y = climb registry_node x i ps.
Proof. intros Hl. exact (registry_implied_root_from 0 i x path y Hl). Qed.

Lemma registry_implied_root_eq i x ps :
  (length ps <= 32)%nat -> Forall canonical ps ->
  registry_implied_root x (Z.of_nat i) (map field_to_bytes ps) = Ok (climb registry_node x i ps).
Proof. intros Hl Hps. apply registry_implied_root_Ok; [by rewrite length_map|]. by exists ps. Qed.

Lemma registry_node_canonical a b : canonical (registry_node a b).
Proof. apply phash_canonical. Qed.

Lemma climb_canonical x i ps : canonical x -> canonical (climb registry_node x i ps).
Proof.
  revert x i. induction ps as [|p ps IH]; intros x i Hx; [done|]. cbn [climb].
  apply IH, registry_node_canonical.
Qed.

Lemma node_at_canonical f k i : (forall j, canonical (f j)) -> canonical (node_at registry_node f k i).
Proof. intros Hf. destruct k; [apply Hf|apply registry_node_canonical]. Qed.

Lemma siblings_canonical f l k i :
  (forall j, canonical (f j)) -> Forall canonical (siblings registry_node f l k i).
Proof.
  intros Hf. revert l i. induction k as [|k IH]; intros l i; constructor; [by apply node_at_canonical|done].
Qed.

Lemma set_leaf_canonical f i r : (forall j, canonical (f j)) -> forall j, canonical (set_leaf f i (record_leaf r) j).
Proof. intros Hf j. unfold set_leaf. destruct (_ =? _)%nat; [apply phash_canonical|done]. Qed.

Lemma map_from_be_fields ps : Forall canonical ps -> map from_be (map field_to_bytes ps) = ps.
Proof. induction 1 as [|p ps Hp _ IH]; [done|]. simpl. by rewrite from_be_field, IH. Qed.

(** One append against a registry tree [f]. *)
Lemma validate_registry_append_Ok a f i schema chain_id bridge_address r' :
  typed_record (aa_record a) -> (forall j, canonical (f j)) ->
  (i < 2 ^ ASSET_REGISTRY_TREE_DEPTH)%nat ->
  no_node_collision registry_node
    (climb_nodes registry_node 0 i (map from_be (aa_append_path a)) ++
     climb_nodes registry_node (f i) i (siblings registry_node f 0 ASSET_REGISTRY_TREE_DEPTH i)) ->
  validate_registry_append a (Z.of_nat i)
      (field_to_bytes (node_at registry_node f ASSET_REGISTRY_TREE_DEPTH 0)) schema chain_id
      bridge_address = Ok r' <->
  (ar_schema_version (aa_record a) = schema /\ ar_registry_index (aa_record a) = Z.of_nat i /\
   record_ok (aa_record a) chain_id bridge_address /\ leaf_ok (aa_record a) = true /\ f i = 0 /\
   aa_append_path a = map field_to_bytes (siblings registry_node f 0 ASSET_REGISTRY_TREE_DEPTH i)) /\
  r' = field_to_bytes (node_at registry_node (set_leaf f i (record_leaf (aa_record a)))
                         ASSET_REGISTRY_TREE_DEPTH 0).
Proof.
  intros Ht Hf Hi HQ. unfold validate_registry_append.
  assert (forall j x, climb registry_node x i (siblings registry_node j 0 ASSET_REGISTRY_TREE_DEPTH i) =
    node_at registry_node (set_leaf j i x) ASSET_REGISTRY_TREE_DEPTH 0) as Hup.
  { intros j x. rewrite climb_update. by rewrite up_root. }
  split.
  - intros ([] & Hl%assert_Ok & Hv)%bind_Ok. apply Nat.eqb_eq in Hl.
    apply bind_Ok in Hv as ([] & Hs%assert_Ok & Hv). apply bind_Ok in Hv as ([] & Hx%assert_Ok & Hv).
    bool_props.
    apply bind_Ok in Hv as ([] & Hr%validate_canonical_asset_record_Ok & Hv).
    apply bind_Ok in Hv as (o & Ho & Hv).
    apply registry_implied_root_Ok in Ho as (ps & Hp & Hps & ->);
      [|rewrite Hl, depth_8; lia].
    apply bind_Ok in Hv as ([] & He%assert_Ok & Hv). apply bool_decide_eq_true in He.
    apply bind_Ok in Hv as (z & [Hlf ->]%hash_registry_record_leaf_Ok & Hv); [|done].
    apply bind_Ok in Hv as (n & Hn & [= <-]).
    apply registry_implied_root_Ok in Hn as (ps' & Hp' & Hps' & ->);
      [|rewrite Hl, depth_8; lia].
    assert (ps' = ps) as -> by (rewrite <- (map_from_be_fields ps), <- Hp, Hp', map_from_be_fields; done).
    apply field_to_bytes_inj in He; [|by apply climb_canonical|by apply node_at_canonical].
    assert (climb registry_node 0 i ps =
      node_at registry_node f (0 + ASSET_REGISTRY_TREE_DEPTH) (up ASSET_REGISTRY_TREE_DEPTH i)) as Hb
      by (by rewrite up_root).
    rewrite Hp, map_from_be_fields in HQ by done.
    eapply climb_binding in Hb as [H0i ->]; [|rewrite <- Hl, Hp, length_map; reflexivity|exact HQ|intros ? ?; apply elem_of_app; auto|intros ? ?; apply elem_of_app; auto].
    split; [|by rewrite Hup]. by split_and!.
  - intros [(Hs & Hx & Hr & Hlf & H0i & Hp) ->].
    pose proof (siblings_canonical f 0 ASSET_REGISTRY_TREE_DEPTH i Hf) as Hsc.
    pose proof (length_siblings registry_node f 0 ASSET_REGISTRY_TREE_DEPTH i) as Hl.
    assert (climb registry_node 0 i (siblings registry_node f 0 ASSET_REGISTRY_TREE_DEPTH i) =
      node_at registry_node f ASSET_REGISTRY_TREE_DEPTH 0) as H0c.
    { pose proof (climb_siblings registry_node f 0 ASSET_REGISTRY_TREE_DEPTH i) as Hc.
      rewrite up_root in Hc by done. cbn [node_at Nat.add] in Hc. by rewrite H0i in Hc. }
    assert (length (siblings registry_node f 0 ASSET_REGISTRY_TREE_DEPTH i) <= 32)%nat as Hl32
      by (rewrite Hl, depth_8; lia).
    rewrite Hp, length_map. rewrite assert_true by (by apply Nat.eqb_eq).
    do 2 rewrite assert_true by (by apply Z.eqb_eq).
    rewrite (proj2 (validate_canonical_asset_record_Ok _ _ _ tt) Hr), Ok_bind.
    rewrite registry_implied_root_eq, Ok_bind, H0c, assert_true by first [done|by apply bool_decide_eq_true].
    rewrite (proj2 (hash_registry_record_leaf_Ok _ _ Ht) (conj Hlf eq_refl)), Ok_bind.
    by rewrite registry_implied_root_eq, Ok_bind, Hup.
Qed.

(** ** Lemmas: the loop over the appends *)

Lemma checked_add_ok a b : a + b < 2 ^ 32 -> checked_add_u32 a b = Some (a + b).
Proof. intros Hlt. unfold checked_add_u32. by rewrite (proj2 (Z.ltb_lt _ _)). Qed.

Lemma batch_loop c chain_id bridge_address f i k appends ids r ids' :
  Forall (fun a => typed_record (aa_record a)) appends -> (forall j, canonical (f j)) ->
  c4_schema_version c = 1 -> c4_old_count c + Z.of_nat k = Z.of_nat i ->
  (k <= i)%nat -> (i + length appends <= 2 ^ ASSET_REGISTRY_TREE_DEPTH)%nat ->
  no_node_collision registry_node (batch_nodes f i appends) ->
  foldM (batch_step c chain_id bridge_address)
    (field_to_bytes (node_at registry_node f ASSET_REGISTRY_TREE_DEPTH 0), ids)
    (imap (fun l a => ((k + l)%nat, a)) appends) = Ok (r, ids') <->
  appends_ok chain_id bridge_address f i appends /\
  r = field_to_bytes (node_at registry_node (append_all f i appends) ASSET_REGISTRY_TREE_DEPTH 0) /\
  ids' = ids ++ identities i appends.
Proof.
  intros Ht Hf Hs. revert f i k ids Hf. induction Ht as [|a appends Ha Ht IH]; intros f i k ids Hf Hki Hle Hi HQ.
  - cbn [imap foldM appends_ok append_all identities]. rewrite app_nil_r.
    split; [by intros [= -> ->]|by intros (_ & -> & ->)].
  - cbn [imap foldM appends_ok append_all identities]. rewrite Nat.add_0_r. simpl length in Hi.
    rewrite (imap_ext _ (fun l s => ((S k + l)%nat, s))) by (intros ? ? _; simpl; f_equal; lia).
    cbn [batch_nodes] in HQ. rewrite app_assoc in HQ.
    assert (2 ^ ASSET_REGISTRY_TREE_DEPTH = 256)%nat as H256 by (by rewrite depth_8).
    assert (batch_step c chain_id bridge_address
        (field_to_bytes (node_at registry_node f ASSET_REGISTRY_TREE_DEPTH 0), ids) (k, a) =
      (r ← validate_registry_append a (Z.of_nat i)
             (field_to_bytes (node_at registry_node f ASSET_REGISTRY_TREE_DEPTH 0)) 1 chain_id bridge_address;
       leaf ← hash_registry_record_leaf (aa_record a);
       Ok (r, ids ++ [(Z.of_nat i, hash_canonical_asset_record (aa_record a), field_to_bytes leaf)])))
      as Hstep.
    { unfold batch_step. rewrite assert_true by (apply Z.leb_le; unfold u32_MAX; lia).
      rewrite checked_add_ok by lia. cbn [expect]. by rewrite Ok_bind, Hki, Hs. }
    rewrite Hstep. clear Hstep.
    pose proof (validate_registry_append_Ok a f i 1 chain_id bridge_address) as Hone.
    assert (no_node_collision registry_node (batch_nodes (set_leaf f i (record_leaf (aa_record a))) (S i) appends))
      as HQ' by (eapply no_node_collision_subset; [|exact HQ]; intros ? ?; apply elem_of_app; auto).
    eapply no_node_collision_subset in HQ; [|intros ? ?; apply elem_of_app; left; eassumption].
    specialize (IH (set_leaf f i (record_leaf (aa_record a))) (S i) (S k)).
    split.
    + intros ([r1 ids1] & Hfirst & Hrest)%bind_Ok.
      apply bind_Ok in Hfirst as (r2 & Hv & Hfirst). apply Hone in Hv as [Hok ->]; [|try done; lia..].
      apply bind_Ok in Hfirst as (z & Hz & [= <- <-]).
      apply hash_registry_record_leaf_Ok in Hz as [_ ->]; [|done].
      apply IH in Hrest as (Hoks & -> & ->); [|by apply set_leaf_canonical|lia..|done].
      rewrite <- app_assoc. by destruct_and?; split_and!.
    + intros ((Hsv & Hri & Hr & Hlf & Hz & Hp & Hoks) & -> & ->).
      rewrite (proj2 (Hone _ Ha Hf ltac:(lia) HQ) (conj (conj Hsv (conj Hri (conj Hr (conj Hlf (conj Hz Hp))))) eq_refl)).
      rewrite !Ok_bind.
      rewrite (proj2 (hash_registry_record_leaf_Ok _ _ Ha) (conj Hlf eq_refl)), !Ok_bind.
      apply IH; [by apply set_leaf_canonical|lia..|done|]. by rewrite <- app_assoc.
Qed.

(** ** Lemmas: the batch tree *)

Definition index_of (id : Z * bytes * bytes) : Z := id.1.1.

Lemma insert_level f n j (x : bytes) :
  (j < n)%nat -> <[j := x]> (map f (seq 0 n)) = map (set_leaf f j x) (seq 0 n).
Proof.
  intros Hj. apply list_eq. intros k. rewrite !list_lookup_fmap.
  destruct (decide (k = j)) as [->|Hkj].
  - rewrite list_lookup_insert_eq by (by rewrite length_map, length_seq).
    rewrite lookup_seq_lt by done. simpl. unfold set_leaf. by rewrite Nat.eqb_refl.
  - rewrite list_lookup_insert_ne, list_lookup_fmap by done.
    destruct (decide (k < n)%nat) as [Hk|Hk].
    + rewrite lookup_seq_lt by done. simpl. unfold set_leaf. by rewrite (proj2 (Nat.eqb_neq _ _)).
    + by rewrite lookup_seq_ge by lia.
Qed.

Lemma place_records f ids :
  Forall (fun id => 0 <= index_of id < 256) ids -> NoDup (map index_of ids) ->
  (forall id, id ∈ ids -> f (Z.to_nat (index_of id)) = zeros 32) ->
  foldM place_record (map f (seq 0 256)) ids =
    Ok (map (foldl (fun f '(index, h, c) => set_leaf f (Z.to_nat index) (asset_record_batch_leaf h c)) f ids)
          (seq 0 256)).
Proof.
  intros Hr. revert f. induction Hr as [|[[index h] c] ids Hi Hr IH]; intros f Hn Hz; [done|].
  cbn [foldM foldl map index_of fst] in *. apply NoDup_cons in Hn as [Hni Hn].
  assert (place_record (map f (seq 0 256)) (index, h, c) =
    Ok (map (set_leaf f (Z.to_nat index) (asset_record_batch_leaf h c)) (seq 0 256))) as ->.
  { unfold place_record. change MAX_ASSET_RECORDS with 256.
    rewrite assert_true by (apply Z.ltb_lt; lia). rewrite assert_true; [by rewrite insert_level by lia|].
    apply bool_decide_eq_true. apply list_lookup_total_correct.
    rewrite list_lookup_fmap, lookup_seq_lt by lia. simpl.
    f_equal. apply (Hz (index, h, c)), list_elem_of_here. }
  rewrite Ok_bind. apply IH; [done..|].
  intros id Hid. unfold set_leaf. rewrite (proj2 (Nat.eqb_neq _ _)).
  - apply Hz. by apply list_elem_of_further.
  - intros He. apply Hni. apply list_elem_of_fmap. exists id. split; [|done].
    pose proof (proj1 (list.Forall_forall _ _) Hr id Hid). simpl in *. unfold index_of in *. lia.
Qed.

Lemma batch_slots_other f ids k :
  (forall id, id ∈ ids -> Z.to_nat (index_of id) <> k) ->
  foldl (fun f '(index, h, c) => set_leaf f (Z.to_nat index) (asset_record_batch_leaf h c)) f ids k = f k.
Proof.
  revert f. induction ids as [|[[index h] c] ids IH]; intros f Hk; [done|]. simpl.
  rewrite IH by (intros id Hid; apply Hk; by apply list_elem_of_further).
  unfold set_leaf. rewrite (proj2 (Nat.eqb_neq _ _)); [done|].
  apply not_eq_sym. apply (Hk (index, h, c)), list_elem_of_here.
Qed.

Lemma batch_slots_at f ids index h c :
  Forall (fun id => 0 <= index_of id < 256) ids -> NoDup (map index_of ids) -> (index, h, c) ∈ ids ->
  foldl (fun f '(index, h, c) => set_leaf f (Z.to_nat index) (asset_record_batch_leaf h c)) f ids
    (Z.to_nat index) = asset_record_batch_leaf h c.
Proof.
  intros Hr. revert f. induction Hr as [|[[j h'] c'] ids Hi Hr IH]; intros f Hn Hin; [by apply elem_of_nil in Hin|].
  cbn [map index_of fst foldl] in *. apply NoDup_cons in Hn as [Hni Hn].
  apply elem_of_cons in Hin as [[= <- <- <-]|Hin]; [|by apply IH].
  rewrite batch_slots_other; [unfold set_leaf; by rewrite Nat.eqb_refl|].
  intros id Hid He. apply Hni. apply list_elem_of_fmap. exists id. split; [|done].
  pose proof (proj1 (list.Forall_forall _ _) Hr id Hid). simpl in *. unfold index_of in *. lia.
Qed.

Lemma batch_indices c chain_id bridge_address k appends st st' :
  foldM (batch_step c chain_id bridge_address) st (imap (fun l a => ((k + l)%nat, a)) appends) = Ok st' ->
  map index_of st'.2 = map index_of st.2 ++
    map (fun l => c4_old_count c + Z.of_nat l) (seq k (length appends)).
Proof.
  revert k st. induction appends as [|a appends IH]; intros k st; cbn [imap foldM length seq map].
  - intros [= <-]. by rewrite app_nil_r.
  - rewrite Nat.add_0_r, (imap_ext _ (fun l s => ((S k + l)%nat, s))) by (intros ? ? _; simpl; f_equal; lia).
    intros (st1 & H1 & H2%IH)%bind_Ok. rewrite H2. destruct st as [r ids]. unfold batch_step in H1.
    apply bind_Ok in H1 as (_ & _ & (e & He%expect_Ok & H1)%bind_Ok).
    unfold checked_add_u32 in He. case_match; [|done]. injection He as <-.
    apply bind_Ok in H1 as (r1 & _ & (z & _ & [= <-])%bind_Ok). cbn [snd].
    rewrite map_app, <- app_assoc. done.
Qed.

(** The indices a validated batch returns. *)
Lemma validated_indices c chain_id bridge_address ids :
  0 <= c4_old_count c -> validate_registry_batch c chain_id bridge_address = Ok ids ->
  Forall (fun id => 0 <= index_of id < 256) ids /\ NoDup (map index_of ids).
Proof.
  intros Hold Hv. unfold validate_registry_batch in Hv.
  do 5 (apply bind_Ok in Hv as ([] & _ & Hv)).
  apply bind_Ok in Hv as (n & Hn%expect_Ok & Hv). unfold checked_add_u32 in Hn. case_match; [|done].
  injection Hn as <-.
  do 2 (apply bind_Ok in Hv as ([] & ?%assert_Ok & Hv)). bool_props.
  change MAX_ASSET_RECORDS with 256 in *.
  apply bind_Ok in Hv as ([r ids1] & Hf & Hv). apply bind_Ok in Hv as ([] & _ & [= ->]).
  assert (imap (fun l a => ((0 + l)%nat, a)) (c4_appends c) = imap pair (c4_appends c)) as Himap
    by (apply imap_ext; done).
  rewrite <- Himap in Hf. apply batch_indices in Hf. cbn [snd map app] in Hf. split.
  - apply list.Forall_forall. intros id Hid.
    assert (index_of id ∈ map index_of ids) as Hin by (apply list_elem_of_fmap; by exists id).
    rewrite Hf in Hin. apply list_elem_of_fmap in Hin as (l & -> & [_ Hl]%elem_of_seq).
    simpl in Hl. lia.
  - rewrite Hf. apply NoDup_fmap_2; [intros ? ? ?; lia|apply NoDup_seq].
Qed.

(** The placing loop and the pairwise reduction give the root of the sparse
    tree of the records. *)
Lemma asset_record_batch_root_eq ids :
  Forall (fun id => 0 <= index_of id < 256) ids -> NoDup (map index_of ids) ->
  asset_record_batch_root ids = Ok (node_at batch_node (batch_slots ids) ASSET_REGISTRY_TREE_DEPTH 0).
Proof.
  intros Hr Hn. unfold asset_record_batch_root. change (Z.to_nat MAX_ASSET_RECORDS) with 256%nat.
  assert (replicate 256 (zeros 32) = map (fun _ => zeros 32) (seq 0 256)) as -> by done.
  rewrite place_records, Ok_bind by done.
  replace 256%nat with (2 ^ ASSET_REGISTRY_TREE_DEPTH)%nat by (by rewrite depth_8).
  by rewrite reduce_exact_root.
Qed.

Lemma length_asset_record_batch_root c chain_id bridge_address ids root :
  0 <= c4_old_count c -> validate_registry_batch c chain_id bridge_address = Ok ids ->
  asset_record_batch_root ids = Ok root -> length root = 32%nat.
Proof.
  intros Hold [Hr Hn]%validated_indices; [|done]. rewrite asset_record_batch_root_eq by done.
  intros [= <-]. rewrite depth_8. apply keccak256_length.
Qed.

(** ** Properties *)

(** C34. A V4 checkpoint is accepted exactly when it describes consecutive
    appends to the registry: against any registry contents whose root is the
    old root (and unless two of the hashed nodes collide), validation
    succeeds iff the header counts agree, every record is valid and lands, in
    order, on the next slot, that slot is still empty, its path is the slot's
    sibling path in the registry as it is at that moment, and the settled
    root is the root of the registry after all the writes.  The returned
    identities are the dense indices with the record hash and commitment. *)
Theorem registry_batch_appends c chain_id bridge_address f i ids :
  Forall (fun a => typed_record (aa_record a)) (c4_appends c) -> (forall j, canonical (f j)) ->
  c4_old_count c = Z.of_nat i ->
  c4_old_root c = field_to_bytes (node_at registry_node f ASSET_REGISTRY_TREE_DEPTH 0) ->
  no_node_collision registry_node (batch_nodes f i (c4_appends c)) ->
  validate_registry_batch c chain_id bridge_address = Ok ids <->
  c4_schema_version c = 1 /\ c4_root c <> zeros 32 /\ c4_appends c <> [] /\
  c4_count c = Z.of_nat (i + length (c4_appends c)) /\ c4_count c <= MAX_ASSET_RECORDS /\
  appends_ok chain_id bridge_address f i (c4_appends c) /\
  c4_root c = field_to_bytes (node_at registry_node (append_all f i (c4_appends c))
                                ASSET_REGISTRY_TREE_DEPTH 0) /\
  ids = identities i (c4_appends c).
Proof.
  intros Ht Hf Hi Hroot HQ.
  assert (MAX_ASSET_RECORDS = 256) as Hmax by (unfold MAX_ASSET_RECORDS; by rewrite depth_8).
  assert (2 ^ ASSET_REGISTRY_TREE_DEPTH = 256)%nat as H256 by (by rewrite depth_8).
  unfold validate_registry_batch. rewrite Hmax, Hroot, Hi.
  pose proof (fun r => batch_loop c chain_id bridge_address f i 0 (c4_appends c) [] r ids Ht Hf) as Hloop.
  assert (imap (fun l a => ((0 + l)%nat, a)) (c4_appends c) = imap pair (c4_appends c)) as Himap
    by (apply imap_ext; done).
  rewrite Himap, Hi in Hloop. clear Himap.
  split.
  - intros Hv.
    do 5 (apply bind_Ok in Hv as ([] & ?%assert_Ok & Hv)).
    apply bind_Ok in Hv as (n & Hn%expect_Ok & Hv). unfold checked_add_u32 in Hn. case_match eqn:Hlt; [|done].
    injection Hn as <-.
    do 2 (apply bind_Ok in Hv as ([] & ?%assert_Ok & Hv)). bool_props.
    apply bind_Ok in Hv as ([r ids1] & Hfold & Hv).
    apply bind_Ok in Hv as ([] & Heq%assert_Ok & [= ->]). apply bool_decide_eq_true in Heq as ->.
    apply Hloop in Hfold as (Hoks & Hnew & ->); [|done|lia..|done].
    split_and!; try done; [intros Hnil; by rewrite Hnil in *|lia].
  - intros (Hs & Hr & Hne & Hc & Hle & Hoks & Hnew & ->).
    rewrite assert_true by (by apply Z.eqb_eq).
    rewrite assert_true by (by rewrite bool_decide_eq_false_2).
    rewrite assert_true by (by destruct (c4_appends c)).
    rewrite assert_true by (apply Z.leb_le; lia).
    rewrite assert_true by (apply Z.leb_le; unfold u32_MAX; lia).
    rewrite checked_add_ok by lia. cbn [expect]. rewrite Ok_bind.
    rewrite assert_true by (apply Z.eqb_eq; lia). rewrite assert_true by (apply Z.leb_le; lia).
    rewrite (proj2 (Hloop (c4_root c) ltac:(done) ltac:(lia) ltac:(lia) ltac:(lia) HQ))
      by (split_and!; done).
    rewrite Ok_bind. by rewrite assert_true by (by apply bool_decide_eq_true).
Qed.

(** Run a computation whose guards and calls are all known to succeed. *)
Ltac run :=
  repeat (cbn [mbind outcome_bind expect app];
    first [ rewrite assert_true by first [by apply Z.eqb_eq|by apply Nat.eqb_eq|apply Z.leb_le; lia|by apply bool_decide_eq_true
              |by rewrite bool_decide_eq_false_2|done]
          | match goal with |- context[if ?a <? ?b then _ else _] =>
              rewrite (proj2 (Z.ltb_lt a b)) by lia end
          | match goal with H : ?m = Ok _ |- context[?m] => rewrite H end
          | match goal with |- assert_ _ _ = Ok _ => apply assert_Ok, bool_decide_eq_true end ]).

(** The V4 checkpoint that carries the same data. *)
Definition as_batch (c : AssetRegistryCheckpointV3) : AssetRegistryBatchCheckpointV4 := {|
  c4_checkpoint_version := c3_checkpoint_version c;
  c4_registry_public_key := c3_registry_public_key c;
  c4_root := c3_root c; c4_count := c3_count c; c4_schema_version := c3_schema_version c;
  c4_old_root := c3_old_root c; c4_old_count := c3_old_count c;
  c4_appends := [{| aa_record := c3_record c; aa_append_path := c3_append_path c |}] |}.

(** A V3 checkpoint is a V4 batch of one append: with a non-zero root,
    validating the transition succeeds exactly when the one-append batch does
    and returns the committed record hash at the old count. *)
Theorem registry_transition_is_single_append c chain_id bridge_address :
  validate_registry_transition c chain_id bridge_address = Ok tt /\ c3_root c <> zeros 32 <->
  exists commitment,
    validate_registry_batch (as_batch c) chain_id bridge_address =
      Ok [(c3_old_count c, c3_record_hash c, commitment)].
Proof.
  unfold validate_registry_batch, validate_registry_transition, validate_registry_append, as_batch.
  cbn [c4_schema_version c4_root c4_appends c4_old_count c4_count c4_old_root length imap foldM].
  unfold batch_step, validate_registry_append.
  cbn [aa_record aa_append_path c4_old_count c4_schema_version c4_root].
  unfold checked_add_u32. rewrite Z.add_0_r, depth_8. split.
  - intros [Hv Hr]. inv_ok. bool_props. case_match eqn:Hlt; [|done].
    match goal with H : Some _ = Some _ |- _ => injection H as <- end. bool_props.
    match goal with H : hash_registry_record_leaf _ = Ok ?z |- _ => exists (field_to_bytes z); rewrite H end.
    repeat match goal with H : ?x = c3_schema_version c |- _ => rewrite <- H
                        | H : ar_registry_index _ = c3_old_count c |- _ => rewrite <- H in *
                        | H : c3_count c = _ |- _ => rewrite H in * end.
    run. congruence.
  - intros [com Hv]. inv_ok. bool_props.
    repeat match goal with
    | H : (if ?b then _ else _) = Some _ |- _ => destruct b eqn:?; [|discriminate H]; injection H as <-
    | p : (_ * _)%type |- _ => destruct p
    end. inv_ok. bool_props.
    split; [|done]. change (Z.of_nat 1) with 1 in *.
    match goal with H : ar_registry_index _ = _ |- _ => rewrite H end.
    assert (ar_schema_version (c3_record c) = 1) by congruence.
    match goal with H : hash_registry_record_leaf _ = Ok ?a, H' : hash_registry_record_leaf _ = Ok ?b |- _ =>
      assert (b = a) as -> by congruence end.
    run. congruence.
Qed.

(** The batch root of a validated checkpoint always exists: it is the
    root of the depth-8 Keccak tree that holds the leaf of every returned
    identity at its index and the zero word elsewhere, and each identity has
    its eight-sibling membership proof under that root. *)
Theorem batch_root_membership c chain_id bridge_address ids :
  0 <= c4_old_count c -> validate_registry_batch c chain_id bridge_address = Ok ids ->
  asset_record_batch_root ids = Ok (node_at batch_node (batch_slots ids) ASSET_REGISTRY_TREE_DEPTH 0) /\
  (forall k, Z.of_nat k ∉ map index_of ids -> batch_slots ids k = zeros 32) /\
  (forall index h commitment, (index, h, commitment) ∈ ids ->
    batch_slots ids (Z.to_nat index) = asset_record_batch_leaf h commitment /\
    climb batch_node (asset_record_batch_leaf h commitment) (Z.to_nat index)
      (siblings batch_node (batch_slots ids) 0 ASSET_REGISTRY_TREE_DEPTH (Z.to_nat index)) =
      node_at batch_node (batch_slots ids) ASSET_REGISTRY_TREE_DEPTH 0).
Proof.
  intros Hold Hv. destruct (validated_indices c chain_id bridge_address ids Hold Hv) as [Hr Hn].
  split_and!.
  - by apply asset_record_batch_root_eq.
  - intros k Hk. unfold batch_slots. rewrite batch_slots_other; [done|].
    intros id Hid <-. apply Hk. apply list_elem_of_fmap. exists id. split; [|done].
    pose proof (proj1 (list.Forall_forall _ _) Hr id Hid). simpl in *. lia.
  - intros index h com Hin.
    assert (batch_slots ids (Z.to_nat index) = asset_record_batch_leaf h com) as Hat
      by (by apply batch_slots_at).
    split; [done|].
    pose proof (climb_siblings batch_node (batch_slots ids) 0 ASSET_REGISTRY_TREE_DEPTH (Z.to_nat index)) as Hc.
    rewrite up_root in Hc.
    + cbn [node_at Nat.add] in Hc. by rewrite Hat in Hc.
    + pose proof (proj1 (list.Forall_forall _ _) Hr _ Hin) as Hb. unfold index_of in Hb. cbn [fst] in Hb.
      rewrite depth_8. change (2 ^ 8)%nat with 256%nat. lia.
Qed.

End registry.

(** ** Witnesses *)

Module Examples.
#[local] Existing Instance checksum_keccak.
#[local] Existing Instance mix_poseidon.
Definition bridge : bytes := to_be 20 17.
Definition draft : CanonicalAssetRecordV1 := {|
  ar_schema_version := 1; ar_registry_index := 5; ar_asset_id := zeros 32;
  ar_ethereum_token := to_be 20 9; ar_token_owner_l2 := to_be 32 (2 ^ 255 + 1001);
  ar_token_id_l2 := to_be 32 1002; ar_decimals := 6; ar_inventory_cap := 1000000;
  ar_mft_standard_vk_id := to_be 32 1003; ar_vault_public_key := to_be 32 1004;
  ar_universal_bridge_vk_id := to_be 32 1005 |}.
Definition record : CanonicalAssetRecordV1 := {|
  ar_schema_version := 1; ar_registry_index := 5; ar_asset_id := compute_asset_id draft 11155111 bridge;
  ar_ethereum_token := to_be 20 9; ar_token_owner_l2 := to_be 32 (2 ^ 255 + 1001);
  ar_token_id_l2 := to_be 32 1002; ar_decimals := 6; ar_inventory_cap := 1000000;
  ar_mft_standard_vk_id := to_be 32 1003; ar_vault_public_key := to_be 32 1004;
  ar_universal_bridge_vk_id := to_be 32 1005 |}.
(** Five records are already present. *)
Definition slots (i : nat) : Z := if (i <? 5)%nat then 100 + Z.of_nat i else 0.
Definition path : list bytes := Eval vm_compute in
  map field_to_bytes (siblings registry_node slots 0 ASSET_REGISTRY_TREE_DEPTH 5).
Definition checkpoint : AssetRegistryBatchCheckpointV4 := {|
  c4_checkpoint_version := 2; c4_registry_public_key := to_be 32 3;
  c4_root := field_to_bytes (climb registry_node (record_leaf record) 5 (map from_be path));
  c4_count := 6; c4_schema_version := 1;
  c4_old_root := field_to_bytes (climb registry_node 0 5 (map from_be path));
  c4_old_count := 5; c4_appends := [{| aa_record := record; aa_append_path := path |}] |}.
Definition ids : list (Z * bytes * bytes) :=
  [(5, hash_canonical_asset_record record, field_to_bytes (record_leaf record))].
Lemma typed : Forall (fun a => typed_record (aa_record a)) (c4_appends checkpoint).
Proof.
  repeat constructor; simpl; unfold is_u32, is_u64, is_u8; try lia; try done.
Qed.
Lemma slots_canonical j : canonical (slots j).
Proof. unfold slots, canonical, field_order. destruct (Nat.ltb_spec j 5); lia. Qed.
Lemma old_root :
  c4_old_root checkpoint = field_to_bytes (node_at registry_node slots ASSET_REGISTRY_TREE_DEPTH 0).
Proof.
  pose proof (climb_siblings registry_node slots 0 ASSET_REGISTRY_TREE_DEPTH 5) as Hc.
  rewrite up_root in Hc by (rewrite depth_8; simpl; lia).
  assert (map from_be path = siblings registry_node slots 0 ASSET_REGISTRY_TREE_DEPTH 5) as Hp
    by (vm_compute; reflexivity).
  rewrite <- Hp in Hc. cbn [Nat.add] in Hc. rewrite <- Hc. reflexivity.
Qed.
End Examples.

Lemma registry_batch_appends_witness :
  appends_ok (H := checksum_keccak) (H0 := mix_poseidon) 11155111 Examples.bridge Examples.slots 5
    (c4_appends Examples.checkpoint).
Proof.
  refine (proj1 (proj2 (proj2 (proj2 (proj2 (proj2 (proj1
    (registry_batch_appends (H := checksum_keccak) (H0 := mix_poseidon) Examples.checkpoint
       11155111 Examples.bridge Examples.slots 5 Examples.ids Examples.typed Examples.slots_canonical
       eq_refl Examples.old_root (collision_free_check _ _ _)) _))))))).
  - vm_compute. reflexivity.
  - vm_compute. reflexivity.
Defined.

Lemma batch_root_membership_witness :
  asset_record_batch_root (H := checksum_keccak) Examples.ids =
    Ok (node_at (batch_node (H := checksum_keccak)) (batch_slots (H := checksum_keccak) Examples.ids)
          ASSET_REGISTRY_TREE_DEPTH 0).
Proof.
  refine (proj1 (batch_root_membership (H := checksum_keccak) (H0 := mix_poseidon) Examples.checkpoint
    11155111 Examples.bridge Examples.ids _ _)).
  - vm_compute. discriminate.
  - vm_compute. reflexivity.
Defined.
