(* ===== verification/ActionBatch.v ===== *)
(** * Inner-action batches of the settlement guest
      ([derive_v2_receipt] of [program/settlement/src/receipt.rs])

    The guest replays the ordered inner actions of a settlement from the
    proof-bound action state, checks every clear withdrawal against the
    Poseidon preimage inside its action, and commits the Keccak claim tree. *)

From S2P Require Import Prelude Hashing InnerActionTree PublicValues Field Registry.

(** ** Data *)

Definition INNER_ACTION_FIELDS : nat := 3.

Record InnerActionWitnessV2 := {
  ia_fields : list bytes;
  ia_withdrawal : option NativeWithdrawalV2;
  ia_token_withdrawal : option TokenWithdrawalV3
}.

Record InnerActionBatchWitnessV2 := {
  ib_bridge_address : bytes;
  ib_actions : list InnerActionWitnessV2
}.

(** ** Operations *)

Section batch.
Context `{Keccak} `{Poseidon}.

Definition assert_native_withdrawal_preimage (fields : list Z) (withdrawal : NativeWithdrawalV2)
    : guest unit :=
  assert_ (0 <? nw_amount withdrawal) "native withdrawal amount must be non-zero";;
  recipient_x ← field_from_address (nw_recipient withdrawal);
  expected_aux ← hash_with_prefix "Withdrawal_params - qFB3jXP*)"
                   [0; fp_from (nw_amount withdrawal); recipient_x; 0];
  assert_ (fields !!! 1%nat =? expected_aux) "withdrawal preimage does not match action aux".

Definition assert_erc20_withdrawal_preimage (fields : list Z) (withdrawal : TokenWithdrawalV3)
    : guest unit :=
  assert_ (negb (bool_decide (tw_token withdrawal = zeros 20))) "ERC20 withdrawal token is zero";;
  assert_ (negb (bool_decide (tw_asset_id withdrawal = zeros 32))) "ERC20 withdrawal asset id is zero";;
  assert_ (0 <? tw_amount withdrawal) "ERC20 withdrawal amount must be non-zero";;
  params ← fields_from_bytes (tw_params_fields withdrawal);
  assert_ (9 <=? length params)%nat "registry ERC20 withdrawal parameter preimage is truncated";;
  assert_ (tw_encoding_version withdrawal =? ERC20_ACTION_ENCODING_V2)
    "unsupported ERC20 withdrawal encoding version";;
  assert_ (negb (bool_decide (tw_record_commitment withdrawal = zeros 32)))
    "registry ERC20 withdrawal record commitment is zero";;
  assert_ (params !!! 0%nat =? fp_from ERC20_ACTION_ENCODING_V2)
    "ERC20 withdrawal encoding version mismatch";;
  assert_ (params !!! 1%nat =? fp_from (tw_registry_index withdrawal))
    "ERC20 withdrawal registry index mismatch";;
  record_commitment ← field_from_bytes (tw_record_commitment withdrawal);
  assert_ (params !!! 2%nat =? record_commitment) "ERC20 withdrawal record commitment mismatch";;
  asset_high ← field_from_bytes (zeros 16 ++ take 16 (tw_asset_id withdrawal));
  assert_ (params !!! 3%nat =? asset_high) "ERC20 withdrawal asset high limb mismatch";;
  asset_low ← field_from_bytes (zeros 16 ++ drop 16 (tw_asset_id withdrawal));
  assert_ (params !!! 4%nat =? asset_low) "ERC20 withdrawal asset low limb mismatch";;
  let base := (length params - 4)%nat in
  assert_ (params !!! (base + 1)%nat =? fp_from (tw_amount withdrawal)) "ERC20 withdrawal amount mismatch";;
  recipient ← field_from_address (tw_recipient withdrawal);
  assert_ (params !!! (base + 2)%nat =? recipient) "ERC20 withdrawal recipient mismatch";;
  assert_ (params !!! (base + 3)%nat =? 0) "ERC20 withdrawal recipient parity must be even";;
  expected_aux ← hash_with_prefix "Ethereum ERC20 withdrawal V2" params;
  assert_ (fields !!! 1%nat =? expected_aux) "ERC20 withdrawal preimage does not match action aux".

(** The leaf of one action, after its withdrawal is checked. *)
Definition inner_action_leaf (chain_id : Z) (bridge_address : bytes) (global_index : Z)
    (fields : list Z) (action_fields_hash : bytes) (action : InnerActionWitnessV2) : guest bytes :=
  match ia_withdrawal action, ia_token_withdrawal action with
  | Some withdrawal, None =>
    assert_native_withdrawal_preimage fields withdrawal;;
    Ok (native_withdrawal_leaf chain_id bridge_address global_index withdrawal action_fields_hash)
  | None, Some withdrawal =>
    assert_erc20_withdrawal_preimage fields withdrawal;;
    erc20_withdrawal_leaf chain_id bridge_address global_index withdrawal action_fields_hash
  | None, None => Ok (raw_inner_action_leaf chain_id bridge_address global_index action_fields_hash)
  | Some _, Some _ => Panic "inner action has multiple withdrawal preimages"
  end.

(** One iteration: the replayed state and the leaves so far. *)
Definition inner_action_step (chain_id : Z) (bridge_address : bytes) (start_index : Z)
    (empty_action_list_hash : Z) (st : Z * list bytes) (entry : nat * InnerActionWitnessV2)
    : guest (Z * list bytes) :=
  let '(replayed_state, leaves) := st in
  let '(offset, action) := entry in
  assert_ (length (ia_fields action) =? INNER_ACTION_FIELDS)%nat "invalid Zeko inner action width";;
  fields ← fields_from_bytes (ia_fields action);
  assert_ (fields !!! 0%nat =? 0) "invalid inner action tag";;
  event_hash ← hash_with_prefix "MinaZkappEvent******" fields;
  action_list_hash ← hash_with_prefix "MinaZkappSeqEvents**" [empty_action_list_hash; event_hash];
  replayed_state ← hash_with_prefix "MinaZkappSeqEvents**" [replayed_state; action_list_hash];
  assert_ (Z.of_nat offset <=? u32_MAX) "offset fits u32";;
  global_index ← expect (checked_add_u32 start_index (Z.of_nat offset)) "inner action index overflow";
  fields_hash ← action_fields_hash (ia_fields action);
  leaf ← inner_action_leaf chain_id bridge_address global_index fields fields_hash action;
  Ok (replayed_state, leaves ++ [leaf]).

Definition derive_v2_receipt (settlement : V1.SettlementPublicValuesV1)
    (batch : InnerActionBatchWitnessV2) : guest V2.SettlementPublicValuesV2 :=
  assert_ (Z.of_nat (length (ib_actions batch)) <=? MAX_LEAVES) "too many inner actions";;
  state_before ← field_from_bytes (inner_action_state (V1.state_before settlement));
  state_after ← field_from_bytes (inner_action_state (V1.state_after settlement));
  start_index ← field_bytes_to_u32 (inner_action_state_length (V1.state_before settlement));
  end_index ← field_bytes_to_u32 (inner_action_state_length (V1.state_after settlement));
  assert_ (Z.of_nat (length (ib_actions batch)) <=? u32_MAX) "inner action count fits u32";;
  let count := Z.of_nat (length (ib_actions batch)) in
  assert_ (bool_decide (checked_sub_u32 end_index start_index = Some count))
    "inner action count does not match committed length transition";;
  empty_action_list_hash ← empty_hash_with_prefix "MinaZkappActionsEmpty";
  '(replayed_state, leaves) ←
    foldM (inner_action_step (V1.chain_id settlement) (ib_bridge_address batch) start_index
             empty_action_list_hash)
      (state_before, []) (imap pair (ib_actions batch));
  assert_ (replayed_state =? state_after) "inner actions do not reach proof-bound action state";;
  root ← root leaves;
  Ok {| V2.settlement := settlement;
        V2.bridge_address := ib_bridge_address batch;
        V2.inner_action_root := root;
        V2.inner_action_start_index := start_index;
        V2.inner_action_count := count |}.

(** ** Specification *)

Definition canonical_bytes (b : bytes) : Prop := length b = 32%nat /\ from_be b < field_order.

Definition fields_of (a : InnerActionWitnessV2) : list Z := map from_be (ia_fields a).

(** The preimages the two withdrawal kinds must have inside the action. *)
Definition native_valid (fields : list Z) (w : NativeWithdrawalV2) : Prop :=
  0 < nw_amount w /\
  fields !!! 1%nat =
    phash "Withdrawal_params - qFB3jXP*)" [0; nw_amount w; from_be (nw_recipient w); 0].

Definition erc20_valid (fields : list Z) (w : TokenWithdrawalV3) : Prop :=
  tw_token w <> zeros 20 /\ tw_asset_id w <> zeros 32 /\ 0 < tw_amount w /\
  tw_encoding_version w = 2 /\ tw_record_commitment w <> zeros 32 /\
  canonical_bytes (tw_record_commitment w) /\
  exists children params,
    children <> [] /\
    params = [2; tw_registry_index w; from_be (tw_record_commitment w);
              from_be (take 16 (tw_asset_id w)); from_be (drop 16 (tw_asset_id w))] ++
             children ++ [tw_amount w; from_be (tw_recipient w); 0] /\
    tw_params_fields w = map field_to_bytes params /\ Forall canonical params /\
    fields !!! 1%nat = phash "Ethereum ERC20 withdrawal V2" params.

Definition typed_action (a : InnerActionWitnessV2) : Prop :=
  match ia_withdrawal a with Some w => native_typed w | None => True end /\
  match ia_token_withdrawal a with Some w => token_typed w | None => True end.

Definition action_valid (a : InnerActionWitnessV2) : Prop :=
  length (ia_fields a) = 3%nat /\ Forall canonical_bytes (ia_fields a) /\ fields_of a !!! 0%nat = 0 /\
  match ia_withdrawal a, ia_token_withdrawal a with
  | Some w, None => native_valid (fields_of a) w
  | None, Some w => erc20_valid (fields_of a) w
  | None, None => True
  | Some _, Some _ => False
  end.

(** The leaf data of an action and its digest. *)
Definition leaf_of (chain_id : Z) (bridge : bytes) (index : Z) (a : InnerActionWitnessV2) : leaf_data :=
  let h := keccak256 (action_fields_encoded (ia_fields a)) in
  match ia_withdrawal a, ia_token_withdrawal a with
  | Some w, None => NativeLeaf chain_id bridge index w h
  | None, Some w => Erc20Leaf chain_id bridge index w h
  | _, _ => RawLeaf chain_id bridge index h
  end.
Definition leaf_digest (d : leaf_data) : bytes := keccak256 (leaf_message d).
Definition batch_leaves (chain_id : Z) (bridge : bytes) (start : Z) (l : list InnerActionWitnessV2)
    : list bytes :=
  imap (fun i a => leaf_digest (leaf_of chain_id bridge (start + Z.of_nat i) a)) l.

(** The Mina action-state transition of one action. *)
Definition action_hash (fields : list Z) : Z :=
  phash "MinaZkappSeqEvents**"
    [phash_empty "MinaZkappActionsEmpty"; phash "MinaZkappEvent******" fields].
Definition next_state (state : Z) (fields : list Z) : Z :=
  phash "MinaZkappSeqEvents**" [state; action_hash fields].
Definition replay_actions (state : Z) (l : list InnerActionWitnessV2) : Z :=
  foldl next_state state (map fields_of l).

(** The batches accepted for a settlement receipt, with their start index. *)
Definition batch_valid (s : V1.SettlementPublicValuesV1) (b : InnerActionBatchWitnessV2) (start : Z)
    : Prop :=
  let n := Z.of_nat (length (ib_actions b)) in
  n <= MAX_LEAVES /\ is_u32 start /\ is_u32 (start + n) /\
  inner_action_state_length (V1.state_before s) = u32_word start /\
  inner_action_state_length (V1.state_after s) = u32_word (start + n) /\
  canonical_bytes (inner_action_state (V1.state_before s)) /\
  canonical_bytes (inner_action_state (V1.state_after s)) /\
  Forall action_valid (ib_actions b) /\
  replay_actions (from_be (inner_action_state (V1.state_before s))) (ib_actions b) =
    from_be (inner_action_state (V1.state_after s)).

Definition v2_receipt (s : V1.SettlementPublicValuesV1) (b : InnerActionBatchWitnessV2) (start : Z)
    : V2.SettlementPublicValuesV2 := {|
  V2.settlement := s;
  V2.bridge_address := ib_bridge_address b;
  V2.inner_action_root :=
    subtree (batch_leaves (V1.chain_id s) (ib_bridge_address b) start (ib_actions b)) TREE_DEPTH 0;
  V2.inner_action_start_index := start;
  V2.inner_action_count := Z.of_nat (length (ib_actions b)) |}.

(** ** Lemmas: one action *)

Lemma canonical_bytes_Ok b x : field_from_bytes b = Ok x <-> canonical_bytes b /\ x = from_be b.
Proof.
  rewrite field_from_bytes_be. unfold canonical_bytes, canonical. pose proof (from_be_nonneg b).
  split; [intros (? & <- & _ & ?)|intros ([? ?] & ->)]; auto.
Qed.

Lemma canonical_list_Ok l xs :
  fields_from_bytes l = Ok xs <-> Forall canonical_bytes l /\ xs = map from_be l.
Proof.
  unfold fields_from_bytes. rewrite mapM_Ok. split.
  - induction 1 as [|b x l xs Hb _ [IH ->]]; [done|].
    apply canonical_bytes_Ok in Hb as [Hb ->]. split; [by constructor|done].
  - intros [Hl ->]. induction Hl; constructor; [by apply canonical_bytes_Ok|done].
Qed.

Lemma address_Ok a x : length a = 20%nat -> field_from_address a = Ok x <-> x = from_be a.
Proof. intros Ha. unfold field_from_address. apply field_from_padded_Ok; lia. Qed.

Lemma native_preimage_Ok fields w u :
  native_typed w -> assert_native_withdrawal_preimage fields w = Ok u <-> native_valid fields w.
Proof.
  intros [Hr Ha]. unfold assert_native_withdrawal_preimage, native_valid.
  rewrite (fp_from_small (nw_amount w)) by (by apply field_order_u64).
  split.
  - intros (_ & Hp%assert_Ok & Hf)%bind_Ok. apply bind_Ok in Hf as (x & ->%address_Ok & Hf); [|done].
    rewrite hash_with_prefix_Ok, Ok_bind in Hf by (vm_compute; lia).
    apply assert_Ok in Hf. bool_props. done.
  - intros [Hp Hf]. rewrite assert_true by (by apply Z.ltb_lt).
    rewrite (proj2 (address_Ok _ _ Hr)), Ok_bind by done.
    rewrite hash_with_prefix_Ok, Ok_bind by (vm_compute; lia). apply assert_Ok. by apply Z.eqb_eq.
Qed.

(** A parameter list of at least nine fields, cut where the guest reads it. *)
Lemma params_shape (p : list Z) :
  (9 <= length p)%nat ->
  exists a b c d e children x y z, children <> [] /\
    p = [a; b; c; d; e] ++ children ++ [x; y; z] /\ (length p - 4 = 4 + length children)%nat.
Proof.
  intros Hl. destruct p as [|a [|b [|c [|d [|e p]]]]]; simpl in Hl; try lia.
  destruct p as [|z p _] using rev_ind; [simpl in Hl; lia|].
  destruct p as [|y p _] using rev_ind; [simpl in Hl; lia|].
  destruct p as [|x p _] using rev_ind; [simpl in Hl; lia|].
  exists a, b, c, d, e, p, x, y, z. rewrite !length_app in Hl. simpl in Hl.
  split; [intros ->; simpl in Hl; lia|]. split; [by rewrite <- !app_assoc|].
  simpl. rewrite !length_app. simpl. lia.
Qed.

Lemma tail_at (h ch t : list Z) k :
  length h = 5%nat -> (h ++ ch ++ t) !!! (4 + length ch + S k)%nat = t !!! k.
Proof.
  intros Hh. rewrite lookup_total_app_r by lia. rewrite lookup_total_app_r by lia. f_equal. lia.
Qed.

Lemma erc20_preimage_Ok fields w u :
  token_typed w -> assert_erc20_withdrawal_preimage fields w = Ok u <-> erc20_valid fields w.
Proof.
  intros (Hev & Hri & Hrc & Htok & Hid & Hrec & Ham). unfold assert_erc20_withdrawal_preimage, erc20_valid.
  rewrite (fp_from_small (tw_amount w)) by (by apply field_order_u64).
  rewrite (fp_from_small (tw_registry_index w)) by (by apply field_order_u32).
  change (fp_from ERC20_ACTION_ENCODING_V2) with 2. change ERC20_ACTION_ENCODING_V2 with 2.
  assert (forall l, length l = 16%nat -> field_from_bytes (zeros 16 ++ l) = Ok (from_be l)) as H16
    by (intros; apply field_from_padded_eq; lia).
  rewrite (H16 (take 16 _)) by (rewrite length_take; lia).
  rewrite (H16 (drop 16 _)) by (rewrite length_drop; lia).
  rewrite (proj2 (address_Ok _ _ Hrec) eq_refl).
  split.
  - intros Hv. do 3 (apply bind_Ok in Hv as ([] & ?%assert_Ok & Hv)).
    apply bind_Ok in Hv as (params & Hps & Hv). apply fields_from_bytes_Ok in Hps as [Hpf Hpc].
    apply bind_Ok in Hv as ([] & Hlen%assert_Ok%Nat.leb_le & Hv).
    destruct (params_shape params Hlen) as (a & b & c & d & e & ch & x & y & z & Hch & -> & Hbase).
    rewrite Hbase in Hv.
    do 4 (apply bind_Ok in Hv as ([] & ?%assert_Ok & Hv)).
    apply bind_Ok in Hv as (rc & [Hrcc ->]%canonical_bytes_Ok & Hv).
    apply bind_Ok in Hv as ([] & ?%assert_Ok & Hv). rewrite Ok_bind in Hv.
    apply bind_Ok in Hv as ([] & ?%assert_Ok & Hv). rewrite Ok_bind in Hv.
    do 2 (apply bind_Ok in Hv as ([] & ?%assert_Ok & Hv)). rewrite Ok_bind in Hv.
    do 2 (apply bind_Ok in Hv as ([] & ?%assert_Ok & Hv)).
    rewrite hash_with_prefix_Ok, Ok_bind in Hv by (vm_compute; lia). apply assert_Ok in Hv.
    bool_props.
    rewrite !tail_at in * by done. cbn in *. subst. split_and!; try done. exists ch. eexists.
    by split_and!.
  - intros (Ht & Ha & Hp & He & Hrz & Hrcc & ch & params & Hch & -> & Hpf & Hpc & Hf).
    rewrite Hpf, (proj2 (fields_from_bytes_Ok _ _) (conj eq_refl Hpc)).
    set (params := _ ++ ch ++ _) in *.
    assert (9 <= length params)%nat as Hlen.
    { unfold params. rewrite !length_app. simpl. destruct ch; [done|simpl; lia]. }
    assert (length params - 4 = 4 + length ch)%nat as Hbase
      by (unfold params; rewrite !length_app; simpl; lia).
    do 2 rewrite assert_true by (by rewrite bool_decide_eq_false_2).
    rewrite assert_true by (by apply Z.ltb_lt). rewrite Ok_bind.
    rewrite assert_true by (by apply Nat.leb_le).
    rewrite Hbase. rewrite (proj2 (canonical_bytes_Ok _ _) (conj Hrcc eq_refl)).
    unfold params. rewrite !tail_at by done.
    repeat (rewrite assert_true by first [by rewrite bool_decide_eq_false_2|by apply Z.eqb_eq]; rewrite ?Ok_bind).
    rewrite hash_with_prefix_Ok, Ok_bind by (vm_compute; lia). apply assert_Ok. by apply Z.eqb_eq.
Qed.

Lemma inner_action_leaf_Ok c b i a l :
  typed_action a ->
  inner_action_leaf c b i (fields_of a) (keccak256 (action_fields_encoded (ia_fields a))) a = Ok l <->
  match ia_withdrawal a, ia_token_withdrawal a with
  | Some w, None => native_valid (fields_of a) w
  | None, Some w => erc20_valid (fields_of a) w
  | None, None => True
  | Some _, Some _ => False
  end /\ l = leaf_digest (leaf_of c b i a).
Proof.
  intros [Hn Ht]. unfold inner_action_leaf, leaf_digest, leaf_of.
  destruct (ia_withdrawal a) as [w|], (ia_token_withdrawal a) as [t|]; cbn [leaf_message].
  - split; [done|by intros [[] _]].
  - split.
    + intros ([] & Hv%native_preimage_Ok & [= <-])%bind_Ok; done.
    + intros [Hv ->]. by rewrite (proj2 (native_preimage_Ok _ _ tt Hn) Hv).
  - split.
    + intros ([] & Hv%erc20_preimage_Ok & Hl)%bind_Ok; [|done]. split; [done|].
      unfold erc20_withdrawal_leaf in Hl. by inv_ok.
    + intros [Hv ->]. rewrite (proj2 (erc20_preimage_Ok _ _ tt Ht) Hv), Ok_bind.
      unfold erc20_withdrawal_leaf. rewrite assert_true; [done|]. apply Z.eqb_eq. apply Hv.
  - split; [by intros [= <-]|by intros [_ ->]].
Qed.

Lemma inner_action_step_Ok c b start s leaves k a st' :
  typed_action a -> start + Z.of_nat k < 2 ^ 32 -> 0 <= start ->
  inner_action_step c b start (phash_empty "MinaZkappActionsEmpty") (s, leaves) (k, a) = Ok st' <->
  action_valid a /\
  st' = (next_state s (fields_of a), leaves ++ [leaf_digest (leaf_of c b (start + Z.of_nat k) a)]).
Proof.
  intros Ht Hk Hs. unfold inner_action_step, action_valid, action_fields_hash.
  change INNER_ACTION_FIELDS with 3%nat. rewrite checked_add_ok by done. cbn [expect]. split.
  - intros ([] & Hl%assert_Ok%Nat.eqb_eq & Hv)%bind_Ok.
    apply bind_Ok in Hv as (fs & [Hc ->]%canonical_list_Ok & Hv).
    apply bind_Ok in Hv as ([] & Htag%assert_Ok%Z.eqb_eq & Hv).
    do 3 (rewrite hash_with_prefix_Ok, Ok_bind in Hv by (vm_compute; lia)).
    apply bind_Ok in Hv as ([] & _ & Hv). rewrite Ok_bind in Hv.
    apply bind_Ok in Hv as (h & Hh & Hv). inv_ok.
    match goal with H : inner_action_leaf _ _ _ _ _ _ = Ok _ |- _ =>
      apply inner_action_leaf_Ok in H as [Hw ->]; [|done] end. done.
  - intros ((Hl & Hc & Htag & Hw) & ->).
    rewrite assert_true by (by apply Nat.eqb_eq).
    rewrite (proj2 (canonical_list_Ok _ _) (conj Hc eq_refl)), Ok_bind.
    rewrite assert_true by (by apply Z.eqb_eq).
    do 3 (rewrite hash_with_prefix_Ok, Ok_bind by (vm_compute; lia)).
    rewrite assert_true by (apply Z.leb_le; unfold u32_MAX; lia). rewrite Ok_bind.
    rewrite assert_true by (apply Z.leb_le; rewrite Hl; done). rewrite Ok_bind.
    by rewrite (proj2 (inner_action_leaf_Ok c b _ a _ Ht) (conj Hw eq_refl)).
Qed.

Lemma inner_actions_loop c b start k s leaves l st' :
  Forall typed_action l -> 0 <= start -> start + Z.of_nat k + Z.of_nat (length l) <= 2 ^ 32 ->
  foldM (inner_action_step c b start (phash_empty "MinaZkappActionsEmpty")) (s, leaves)
    (imap (fun j a => ((k + j)%nat, a)) l) = Ok st' <->
  Forall action_valid l /\
  st' = (replay_actions s l,
         leaves ++ imap (fun j a => leaf_digest (leaf_of c b (start + Z.of_nat (k + j)) a)) l).
Proof.
  intros Ht Hs. revert k s leaves. induction Ht as [|a l Ha Ht IH]; intros k s leaves Hk.
  - cbn. rewrite app_nil_r. split; [by intros [= <-]|by intros [_ ->]].
  - cbn [imap foldM]. simpl length in Hk. rewrite Nat.add_0_r, bind_Ok.
    rewrite (imap_ext _ (fun j a => ((S k + j)%nat, a))) by (intros ? ? _; simpl; f_equal; lia).
    rewrite (imap_ext _ (fun j a => leaf_digest (leaf_of c b (start + Z.of_nat (S k + j)) a)) l)
      by (intros ? ? _; simpl; do 3 f_equal; lia).
    unfold replay_actions. cbn [map foldl]. rewrite Forall_cons. split.
    + intros (st1 & [Hv ->]%inner_action_step_Ok & [Hvs ->]%IH); try done; try lia.
      split; [done|]. by rewrite <- app_assoc.
    + intros [[Hv Hvs] ->]. eexists. split; [exact (proj2 (inner_action_step_Ok c b start s leaves k a _ Ha ltac:(lia) Hs) (conj Hv eq_refl))|].
      apply IH; [lia|]. split; [done|]. by rewrite <- app_assoc.
Qed.

Lemma state_field_length s k :
  V1.state_typed s -> (k < 8)%nat -> length (os_fields s !!! k) = 32%nat.
Proof.
  intros [Hl Hf] Hk. eapply (list.Forall_lookup_1 _ _ k) in Hf; [done|].
  apply list_lookup_lookup_total_lt. lia.
Qed.

(** The guest accepts exactly the valid batches. *)
Lemma derive_v2_Ok s b r :
  V1.typed s -> Forall typed_action (ib_actions b) ->
  derive_v2_receipt s b = Ok r <-> exists start, batch_valid s b start /\ r = v2_receipt s b start.
Proof.
  intros Hs Hb. assert (V1.state_typed (V1.state_before s) /\ V1.state_typed (V1.state_after s)) as [Hsb Hsa]
    by (unfold V1.typed in Hs; tauto).
  pose proof (fun n => field_bytes_to_u32_Ok _ n (state_field_length _ 4 Hsb ltac:(lia))) as Hlb.
  pose proof (fun n => field_bytes_to_u32_Ok _ n (state_field_length _ 4 Hsa ltac:(lia))) as Hla.
  assert (imap (fun j a => ((0 + j)%nat, a)) (ib_actions b) = imap pair (ib_actions b)) as Himap
    by (apply imap_ext; done).
  assert (MAX_LEAVES = 65536) as Hmax by done.
  unfold derive_v2_receipt, batch_valid, inner_action_state_length.
  rewrite empty_hash_with_prefix_Ok by (vm_compute; lia). rewrite <- Himap.
  set (n := Z.of_nat (length (ib_actions b))). split.
  - intros ([] & Hn%assert_Ok%Z.leb_le & Hv)%bind_Ok.
    apply bind_Ok in Hv as (sb & [Hcb ->]%canonical_bytes_Ok & Hv).
    apply bind_Ok in Hv as (sa & [Hca ->]%canonical_bytes_Ok & Hv).
    apply bind_Ok in Hv as (start & [Hlbe Hstart]%Hlb & Hv).
    apply bind_Ok in Hv as (end_ & [Hlae Hend]%Hla & Hv).
    apply bind_Ok in Hv as ([] & _ & Hv).
    apply bind_Ok in Hv as ([] & Hc%assert_Ok%bool_decide_eq_true & Hv). rewrite Ok_bind in Hv.
    unfold checked_sub_u32 in Hc. case_match eqn:Hle; [|done]. injection Hc as Hc. bool_props.
    assert (end_ = start + n) as -> by lia. unfold is_u32 in *.
    apply bind_Ok in Hv as ([st leaves] & [Hval [= -> ->]]%inner_actions_loop & Hv); [|done|lia..].
    apply bind_Ok in Hv as ([] & Hr%assert_Ok%Z.eqb_eq & Hv).
    cbn [Nat.add app] in Hv. fold (batch_leaves (V1.chain_id s) (ib_bridge_address b) start (ib_actions b)) in Hv.
    rewrite root_ok_eq in Hv by (unfold batch_leaves; by rewrite length_imap). injection Hv as <-.
    exists start. split; [|done]. split_and!; try done; try lia.
  - intros (start & (Hn & Hstart & Hend & Hlbe & Hlae & Hcb & Hca & Hval & Hr) & ->).
    unfold is_u32 in *.
    rewrite assert_true by (by apply Z.leb_le).
    rewrite (proj2 (canonical_bytes_Ok _ _) (conj Hcb eq_refl)), Ok_bind.
    rewrite (proj2 (canonical_bytes_Ok _ _) (conj Hca eq_refl)), Ok_bind.
    rewrite (proj2 (Hlb start) (conj Hlbe Hstart)), Ok_bind, (proj2 (Hla (start + n)) (conj Hlae Hend)), Ok_bind.
    rewrite assert_true by (apply Z.leb_le; unfold u32_MAX; lia).
    rewrite assert_true.
    2:{ apply bool_decide_eq_true. unfold checked_sub_u32. rewrite (proj2 (Z.leb_le _ _)) by lia.
        f_equal. lia. }
    rewrite Ok_bind.
    rewrite (proj2 (inner_actions_loop _ _ start 0 _ [] (ib_actions b) _ Hb ltac:(lia) ltac:(lia)) (conj Hval eq_refl)).
    rewrite Ok_bind. rewrite assert_true by (by apply Z.eqb_eq).
    cbn [Nat.add app]. fold (batch_leaves (V1.chain_id s) (ib_bridge_address b) start (ib_actions b)).
    rewrite root_ok_eq by (unfold batch_leaves; by rewrite length_imap). done.
Qed.

(** ** What the action state binds *)

Definition withdrawal_message (a : InnerActionWitnessV2) : list (string * list Z) :=
  match ia_withdrawal a with
  | Some w => [("Withdrawal_params - qFB3jXP*)"%string, [0; nw_amount w; from_be (nw_recipient w); 0])]
  | None => []
  end.

(** The Poseidon messages of a replay. *)
Fixpoint replay_messages (state : Z) (l : list InnerActionWitnessV2) : list (string * list Z) :=
  match l with
  | [] => []
  | a :: l =>
    [("MinaZkappSeqEvents**"%string, [state; action_hash (fields_of a)]);
     ("MinaZkappSeqEvents**"%string,
      [phash_empty "MinaZkappActionsEmpty"; phash "MinaZkappEvent******" (fields_of a)]);
     ("MinaZkappEvent******"%string, fields_of a)] ++
    withdrawal_message a ++ replay_messages (next_state state (fields_of a)) l
  end.
Definition batch_messages (s : V1.SettlementPublicValuesV1) (b : InnerActionBatchWitnessV2)
    : list (string * list Z) :=
  replay_messages (from_be (inner_action_state (V1.state_before s))) (ib_actions b).

Lemma phash_inj Q p x q y :
  no_hash_collision Q -> (p, x) ∈ Q -> (q, y) ∈ Q -> phash p x = phash q y -> x = y.
Proof.
  intros HQ Hx Hy He. by pose proof (no_hash_collision_elim Q (p, x) (q, y) HQ Hx Hy He) as [= _ ->].
Qed.

Lemma replay_inj Q l1 l2 s1 s2 :
  length l1 = length l2 -> no_hash_collision Q ->
  replay_messages s1 l1 ⊆ Q -> replay_messages s2 l2 ⊆ Q ->
  replay_actions s1 l1 = replay_actions s2 l2 -> s1 = s2 /\ map fields_of l1 = map fields_of l2.
Proof.
  unfold replay_actions. revert l2 s1 s2.
  induction l1 as [|a l1 IH]; intros [|b l2] s1 s2 Hl HQ H1 H2 He; try done.
  cbn [map foldl replay_messages] in *.
  destruct (IH l2 (next_state s1 (fields_of a)) (next_state s2 (fields_of b))) as [Hn ->];
    [by injection Hl|done|clear - H1; set_solver|clear - H2; set_solver|done|].
  apply (phash_inj Q) in Hn; [|done|clear - H1; set_solver|clear - H2; set_solver].
  injection Hn as -> Hn. unfold action_hash in Hn.
  apply (phash_inj Q) in Hn; [|done|clear - H1; set_solver|clear - H2; set_solver].
  injection Hn as Hn.
  apply (phash_inj Q) in Hn; [|done|clear - H1; set_solver|clear - H2; set_solver].
  by rewrite Hn.
Qed.

Lemma withdrawal_messages s l k a :
  l !! k = Some a -> withdrawal_message a ⊆ replay_messages s l.
Proof.
  revert s k. induction l as [|c l IH]; intros s [|k] Hk; simplify_eq/=.
  - set_solver.
  - pose proof (IH (next_state s (fields_of c)) k Hk). set_solver.
Qed.

Lemma fields_of_inj a b :
  Forall canonical_bytes (ia_fields a) -> Forall canonical_bytes (ia_fields b) ->
  fields_of a = fields_of b -> ia_fields a = ia_fields b.
Proof.
  unfold fields_of. generalize (ia_fields a), (ia_fields b). intros l k Hl. revert k.
  induction Hl as [|x l [Hx _] Hl IH]; intros k Hk He.
  - by destruct k.
  - destruct Hk as [|y k [Hy _] Hk]; [done|]. injection He as Hxy He.
    f_equal; [apply from_be_inj; congruence|by apply IH].
Qed.

(** ** Properties *)

(** C35. The guest emits a V2 receipt exactly for the valid batches, and the
    receipt is determined: it counts the actions, starts at the committed
    index and carries the root of the perfect depth-16 tree over the leaves
    of the actions in order. *)
Theorem v2_receipt_exact s b r :
  V1.typed s -> Forall typed_action (ib_actions b) ->
  derive_v2_receipt s b = Ok r <-> exists start, batch_valid s b start /\ r = v2_receipt s b start.
Proof. apply derive_v2_Ok. Qed.

(** Every action of an accepted batch is claimable: the membership proof
    built from the batch's leaves makes the verifier accept, under the root of
    the receipt and at the action's position, the leaf that names the chain,
    the bridge, the global index and the clear withdrawal of that action. *)
Theorem v2_actions_claimable s b r k a :
  V1.typed s -> Forall typed_action (ib_actions b) ->
  derive_v2_receipt s b = Ok r -> ib_actions b !! k = Some a ->
  let start := V2.inner_action_start_index r in
  exists proof,
    merkle_proof (batch_leaves (V1.chain_id s) (V2.bridge_address r) start (ib_actions b)) (Z.of_nat k)
      = Some proof /\
    verify_merkle_proof
      (leaf_digest (leaf_of (V1.chain_id s) (V2.bridge_address r) (start + Z.of_nat k) a))
      (Z.of_nat k) proof (V2.inner_action_root r) = true.
Proof.
  intros Hs Hb (start & Hv & ->)%derive_v2_Ok Hk; [|done..]. cbn [V2.inner_action_start_index V2.bridge_address v2_receipt V2.inner_action_root].
  set (leaves := batch_leaves _ _ _ _).
  assert (length leaves = length (ib_actions b)) as Hll by (unfold leaves, batch_leaves; by rewrite length_imap).
  assert (Z.of_nat (length leaves) <= MAX_LEAVES) as Hle by (rewrite Hll; apply Hv).
  pose proof (merkle_proof_accepts leaves (Z.of_nat k) Hle ltac:(lia)) as Hp.
  rewrite Nat2Z.id in Hp. unfold leaves in Hp at 1. unfold batch_leaves in Hp at 1.
  rewrite list_lookup_imap, Hk in Hp. cbn [fmap option_fmap option_map] in Hp.
  destruct Hp as (proof & rt & Hp & _ & Hr & Hver). rewrite root_ok_eq in Hr by done. injection Hr as <-.
  by exists proof.
Qed.


End batch.

(** ** Witnesses *)

Module Examples.
#[local] Existing Instance checksum_keccak.
#[local] Existing Instance mix_poseidon.
Definition w : NativeWithdrawalV2 := {| nw_recipient := to_be 20 500; nw_amount := 9 |}.
Definition raw : InnerActionWitnessV2 :=
  {| ia_fields := map field_to_bytes [0; 10; 20]; ia_withdrawal := None; ia_token_withdrawal := None |}.
Definition native : InnerActionWitnessV2 := {|
  ia_fields := map field_to_bytes [0; phash "Withdrawal_params - qFB3jXP*)" [0; 9; 500; 0]; 3];
  ia_withdrawal := Some w; ia_token_withdrawal := None |}.
Definition batch : InnerActionBatchWitnessV2 :=
  {| ib_bridge_address := to_be 20 17; ib_actions := [raw; native] |}.
Definition outer (inner_state inner_length : Z) : OuterStateV1 :=
  {| os_fields := map (to_be 32) [1; 0; 3; inner_state; inner_length; 6; 7; 8] |}.
Definition settlement : V1.SettlementPublicValuesV1 := {|
  V1.da_mode := Multisig; V1.chain_id := 11155111; V1.settlement_contract := to_be 20 16;
  V1.batch_sequence := 1; V1.vk_hash := to_be 32 34; V1.app_statement := to_be 32 51;
  V1.mina_transaction_hash := to_be 32 68; V1.state_before := outer 77 40;
  V1.state_after := outer (replay_actions 77 (ib_actions batch)) 42;
  V1.outer_action_state_before := to_be 32 85; V1.outer_action_state_after := to_be 32 102;
  V1.outer_action_state_length_before := 7; V1.outer_action_state_length_after := 8;
  V1.synchronized_outer_action_state := to_be 32 119;
  V1.synchronized_outer_action_state_length := 6; V1.slot_lower := 100; V1.slot_upper := 120 |}.
Lemma settlement_typed : V1.typed settlement.
Proof.
  unfold V1.typed, V1.state_typed, is_u64, is_u32; simpl. split_and!; try lia; try done; repeat constructor.
Qed.
Lemma actions_typed : Forall typed_action (ib_actions batch).
Proof.
  repeat constructor; simpl; unfold is_u64; try lia; done.
Qed.
Lemma receipt_header :
  (fun r => (V2.bridge_address r, V2.inner_action_start_index r, V2.inner_action_count r))
    <$> derive_v2_receipt settlement batch = Ok (to_be 20 17, 40, 2).
Proof. vm_compute. reflexivity. Qed.
Lemma receipt_derived : exists r, derive_v2_receipt settlement batch = Ok r /\
  V2.bridge_address r = to_be 20 17 /\ V2.inner_action_start_index r = 40 /\ V2.inner_action_count r = 2.
Proof.
  destruct (proj1 (fmap_Ok _ _ _) receipt_header) as (r & Hr & [= Hb Hs Hc]).
  exists r. split; [exact Hr|]. split; [symmetry; exact Hb|]. split; symmetry; [exact Hs|exact Hc].
Qed.
End Examples.

Lemma v2_receipt_exact_witness :
  exists start, batch_valid (H0 := mix_poseidon) Examples.settlement Examples.batch start.
Proof.
  destruct Examples.receipt_derived as (r & Hr & _).
  destruct (proj1 (v2_receipt_exact (H := checksum_keccak) (H0 := mix_poseidon) Examples.settlement
    Examples.batch r Examples.settlement_typed Examples.actions_typed) Hr) as (start & Hv & _).
  exists start. exact Hv.
Defined.

Lemma v2_actions_claimable_witness :
  exists r proof, derive_v2_receipt (H := checksum_keccak) (H0 := mix_poseidon) Examples.settlement
      Examples.batch = Ok r /\
    verify_merkle_proof (H := checksum_keccak)
      (leaf_digest (H := checksum_keccak) (NativeLeaf 11155111 (to_be 20 17) 41 Examples.w
         (keccak256 (Keccak := checksum_keccak)
            (action_fields_encoded (H := checksum_keccak) (ia_fields Examples.native)))))
      1 proof (V2.inner_action_root r) = true.
Proof.
  destruct Examples.receipt_derived as (r & Hr & Hb & Hs & _).
  destruct (v2_actions_claimable (H := checksum_keccak) (H0 := mix_poseidon) Examples.settlement
    Examples.batch r 1 Examples.native Examples.settlement_typed Examples.actions_typed Hr eq_refl)
    as (proof & _ & Hp).
  exists r, proof. split; [exact Hr|]. rewrite Hb, Hs in Hp. exact Hp.
Defined.

