(* ===== verification/SettlementGuest.v ===== *)
(** * The settlement guest ([program/settlement/src/receipt.rs] and [main.rs])

    The guest recomputes the account-update body hash of the verified Pickles
    statement, decodes the outer commit action, checks the registry
    checkpoint against the authenticated child calls, and commits a receipt of
    the version the witness asks for. *)

From S2P Require Import Prelude Hashing InnerActionTree Codec PublicValues Field Merkle Registry ActionBatch.

(** ** Data *)

Definition BODY_UPDATE_STATE_START : nat := 2.
Definition BODY_ACTIONS_HASH : nat := 15.
Definition BODY_CALL_DATA : nat := 16.
Definition BODY_PRECONDITION_STATE_START : nat := 28.
Definition BODY_PRECONDITION_ACTION_STATE : nat := 36.
Definition OUTER_COMMIT_ACTION_FIELDS : nat := 8.
Definition ACCOUNT_UPDATE_NODE_PREFIX : string := "MinaAcctUpdateNode**".
Definition ACCOUNT_UPDATE_CONS_PREFIX : string := "MinaAcctUpdateCons**".
Definition ASSET_REGISTRY_CHECKPOINT_VERSION : Z := 2.
Definition ASSET_REGISTRY_CHECKPOINT_DOMAIN : string := "Zeko registry checkpoint V2".
(** [StepField::MODULUS_BIT_SIZE]. *)
Definition MODULUS_BIT_SIZE : Z := 255.

Inductive MinaSignatureKindV1 := Mainnet | Testnet.

Record PackedFieldV1 := { pf_value : bytes; pf_bits : Z }.

Record ChunkedRandomOracleInputV1 := {
  ro_field_elements : list bytes;
  ro_packed : list PackedFieldV1
}.

Inductive CallForestNodeV3 :=
| CallNode (account_update_body : ChunkedRandomOracleInputV1) (calls : list CallForestNodeV3).

Record SettlementBindingV1 := {
  mina_signature_kind : MinaSignatureKindV1;
  account_update_body : ChunkedRandomOracleInputV1;
  sb_actions : list (list bytes);
  sb_state_before : OuterStateV1;
  call_forest : list CallForestNodeV3
}.

Record SettlementContextV1 := {
  sc_chain_id : Z;
  sc_settlement_contract : bytes;
  sc_batch_sequence : Z;
  sc_mina_transaction_hash : bytes;
  sc_outer_action_state_length_before : Z
}.

Record SettlementWitnessV1 := {
  binding : SettlementBindingV1;
  context : SettlementContextV1;
  sw_inner_action_batch : option InnerActionBatchWitnessV2;
  sw_asset_registry_checkpoint : option AssetRegistryCheckpointV3;
  sw_asset_registry_batch : option AssetRegistryBatchCheckpointV4
}.

(** ** Account-update bodies *)

(** [BigInteger::num_bits]. *)
Definition num_bits (value : Z) : Z := if value =? 0 then 0 else Z.log2 value + 1.

(** The variables of the packing loop. *)
Record pack_state := { packed_fields : list Z; accumulator : Z; accumulator_bits : Z }.

Definition pack_step (st : pack_state) (chunk : PackedFieldV1) : guest pack_state :=
  let bits := pf_bits chunk in
  assert_ (0 <? bits) "packed field width must be non-zero";;
  assert_ (bits <? MODULUS_BIT_SIZE) "packed field width exceeds Mina field capacity";;
  value ← field_from_bytes (pf_value chunk);
  assert_ (num_bits value <=? bits) "packed field does not fit declared width";;
  Ok (if accumulator_bits st + bits <? MODULUS_BIT_SIZE then
        {| packed_fields := packed_fields st;
           accumulator := fp_add (fp_mul (accumulator st) (pow2 (Z.to_nat bits))) value;
           accumulator_bits := accumulator_bits st + bits |}
      else
        {| packed_fields := packed_fields st ++ [accumulator st];
           accumulator := value; accumulator_bits := bits |}).

(** The fields after the loop, with the last accumulator if it is non-empty. *)
Definition pack_fields (packed : list PackedFieldV1) : guest (list Z) :=
  st ← foldM pack_step {| packed_fields := []; accumulator := 0; accumulator_bits := 0 |} packed;
  Ok (if 0 <? accumulator_bits st then packed_fields st ++ [accumulator st] else packed_fields st).

Definition body_prefix (signature_kind : MinaSignatureKindV1) : string :=
  match signature_kind with
  | Mainnet => "MainnetZkappBody****"
  | Testnet => "TestnetZkappBody****"
  end.

Section guest.
Context `{Keccak} `{Poseidon}.

Definition hash_account_update_body (signature_kind : MinaSignatureKindV1)
    (input : ChunkedRandomOracleInputV1) : guest Z :=
  hash_input ← fields_from_bytes (ro_field_elements input);
  packed ← pack_fields (ro_packed input);
  hash_with_prefix (body_prefix signature_kind) (hash_input ++ packed).

(** ** Child calls *)

Definition hash_call_forest_node (account_update calls tail : Z) : guest Z :=
  tree ← hash_with_prefix ACCOUNT_UPDATE_NODE_PREFIX [account_update; calls];
  hash_with_prefix ACCOUNT_UPDATE_CONS_PREFIX [tree; tail].

(** [forest.iter().rev().fold(0, ...)]. *)
Definition fold_rev {A} (f : A -> Z -> guest Z) : list A -> guest Z :=
  fix go l := match l with
  | [] => Ok 0
  | node :: l => tail ← go l; f node tail
  end.

Fixpoint hash_call_tree (signature_kind : MinaSignatureKindV1) (node : CallForestNodeV3) (tail : Z)
    : guest Z :=
  match node with
  | CallNode body calls =>
    account_update ← hash_account_update_body signature_kind body;
    calls ← fold_rev (hash_call_tree signature_kind) calls;
    hash_call_forest_node account_update calls tail
  end.

Definition hash_call_forest (signature_kind : MinaSignatureKindV1) (forest : list CallForestNodeV3)
    : guest Z := fold_rev (hash_call_tree signature_kind) forest.

Definition registry_checkpoint_call_data (registry_public_key root : bytes) (count schema_version : Z)
    : guest bytes :=
  '(registry_x, registry_is_odd) ← unpack_public_key registry_public_key;
  root ← field_from_bytes root;
  digest ← hash_with_prefix ASSET_REGISTRY_CHECKPOINT_DOMAIN
             [registry_x; registry_is_odd; root; fp_from count; fp_from schema_version];
  Ok (field_to_bytes digest).

(** A body carries the expected call data. *)
Definition call_matches (expected_call_data : bytes) (body : ChunkedRandomOracleInputV1) : bool :=
  (BODY_CALL_DATA <? length (ro_field_elements body))%nat &&
  bool_decide (ro_field_elements body !!! BODY_CALL_DATA = expected_call_data).

Fixpoint count_matching_calls (expected_call_data : bytes) (node : CallForestNodeV3) : nat :=
  match node with
  | CallNode body calls =>
    (if call_matches expected_call_data body then 1 else 0) +
    sum_list_with (count_matching_calls expected_call_data) calls
  end.

(** Every recursive call recomputes the same expected data, so it is
    computed once here. *)
Definition count_registry_checkpoint_calls (forest : list CallForestNodeV3)
    (registry_public_key root : bytes) (count schema_version : Z) : guest nat :=
  expected_call_data ← registry_checkpoint_call_data registry_public_key root count schema_version;
  Ok (sum_list_with (count_matching_calls expected_call_data) forest).

Definition hash_actions (actions : list (list Z)) : guest Z :=
  result ← empty_hash_with_prefix "MinaZkappActionsEmpty";
  foldM (fun result event =>
           event_hash ← hash_with_prefix "MinaZkappEvent******" event;
           hash_with_prefix "MinaZkappSeqEvents**" [result; event_hash])
    result (rev actions).

(** ** The V1 receipt *)

(** The checks shared by the V3 and V4 checkpoint branches. *)
Definition check_registry_calls (forest : list CallForestNodeV3) (checkpoint_version : Z)
    (registry_public_key root : bytes) (count schema_version : Z) (why : string) : guest unit :=
  assert_ (checkpoint_version =? ASSET_REGISTRY_CHECKPOINT_VERSION)
    "unsupported registry checkpoint commitment version";;
  matching_registry_calls ←
    count_registry_checkpoint_calls forest registry_public_key root count schema_version;
  assert_ (matching_registry_calls =? 1)%nat why.

(** The registry part of [derive_receipt_for_app_state]. *)
Definition check_registry_binding (app_state : list Z) (witness : SettlementWitnessV1) : guest unit :=
  let bind := binding witness in
  (if bool_decide (is_Some (sw_asset_registry_checkpoint witness)) ||
      bool_decide (is_Some (sw_asset_registry_batch witness)) then
     forest_hash ← hash_call_forest (mina_signature_kind bind) (call_forest bind);
     assert_ (forest_hash =? app_state !!! 1%nat)
       "child call forest does not match the verified Pickles statement"
   else Ok tt);;
  match sw_asset_registry_checkpoint witness with
  | Some c => check_registry_calls (call_forest bind) (c3_checkpoint_version c)
                (c3_registry_public_key c) (c3_root c) (c3_count c) (c3_schema_version c)
                "registry checkpoint must match exactly one authenticated child call"
  | None => Ok tt
  end;;
  match sw_asset_registry_batch witness with
  | Some c => check_registry_calls (call_forest bind) (c4_checkpoint_version c)
                (c4_registry_public_key c) (c4_root c) (c4_count c) (c4_schema_version c)
                "registry batch must match exactly one authenticated child call"
  | None => Ok tt
  end.

(** [for index in 1..8 { assert_eq!(...) }]. *)
Definition check_preconditions (state_before_fields body_fields : list Z) : guest unit :=
  foldM (fun _ index =>
           assert_ (state_before_fields !!! index =? body_fields !!! (BODY_PRECONDITION_STATE_START + index)%nat)
             "source outer state does not match account preconditions") tt (seq 1 7).

(** [for index in [1, 2, 3, 4, 7]]: the fields the update sets. *)
Definition update_state (state_before_fields body_fields : list Z) : list Z :=
  foldl (fun st index => <[index := body_fields !!! (BODY_UPDATE_STATE_START + index)%nat]> st)
    state_before_fields [1; 2; 3; 4; 7]%nat.

Definition derive_receipt_for_app_state (app_state : list Z) (witness : SettlementWitnessV1)
    (vk_hash : bytes) : guest V1.SettlementPublicValuesV1 :=
  assert_ (length app_state =? 2)%nat "Zeko settlement statement must contain body and calls digests";;
  let bind := binding witness in
  let ctx := context witness in
  body_fields ← fields_from_bytes (ro_field_elements (account_update_body bind));
  assert_ (BODY_PRECONDITION_ACTION_STATE <? length body_fields)%nat
    "account-update body input is missing Zeko binding fields";;
  body_hash ← hash_account_update_body (mina_signature_kind bind) (account_update_body bind);
  assert_ (body_hash =? app_state !!! 0%nat)
    "account-update body does not match the verified Pickles statement";;
  check_registry_binding app_state witness;;
  actions ← mapM fields_from_bytes (sb_actions bind);
  assert_ (length actions =? 1)%nat "outer commit must emit exactly one action";;
  let action := actions !!! 0%nat in
  assert_ (length action =? OUTER_COMMIT_ACTION_FIELDS)%nat "invalid Zeko outer commit action width";;
  assert_ (action !!! 0%nat =? 0) "outer action is not a commit";;
  actions_hash ← hash_actions actions;
  assert_ (actions_hash =? body_fields !!! BODY_ACTIONS_HASH)
    "actions do not match the verified account-update body";;
  state_before_fields ← fields_from_bytes (os_fields (sb_state_before bind));
  check_preconditions state_before_fields body_fields;;
  assert_ (state_before_fields !!! 1%nat =? 0)
    "multisig commit source must not be paused or in emergency mode";;
  let state_after_fields := update_state state_before_fields body_fields in
  assert_ (action !!! 1%nat =? state_after_fields !!! 2%nat) "commit ledger mismatch";;
  assert_ (action !!! 2%nat =? state_after_fields !!! 3%nat) "commit inner action state mismatch";;
  assert_ (action !!! 3%nat =? state_after_fields !!! 4%nat) "commit inner action length mismatch";;
  assert_ (state_after_fields !!! 1%nat =? 0) "multisig commit must clear paused/emergency flags";;
  let outer_action_state_before := body_fields !!! BODY_PRECONDITION_ACTION_STATE in
  outer_action_state_after ←
    hash_with_prefix "MinaZkappSeqEvents**" [outer_action_state_before; actions_hash];
  let before_length := sc_outer_action_state_length_before ctx in
  after_length ← expect (checked_add_u32 before_length 1) "outer action-state length overflow";
  synchronized_length ← field_to_u32 (action !!! 5%nat);
  slot_lower ← field_to_u32 (action !!! 6%nat);
  slot_upper ← field_to_u32 (action !!! 7%nat);
  Ok {| V1.da_mode := Multisig;
        V1.chain_id := sc_chain_id ctx;
        V1.settlement_contract := sc_settlement_contract ctx;
        V1.batch_sequence := sc_batch_sequence ctx;
        V1.vk_hash := vk_hash;
        V1.app_statement := field_to_bytes (app_state !!! 0%nat);
        V1.mina_transaction_hash := sc_mina_transaction_hash ctx;
        V1.state_before := {| os_fields := map field_to_bytes state_before_fields |};
        V1.state_after := {| os_fields := map field_to_bytes state_after_fields |};
        V1.outer_action_state_before := field_to_bytes outer_action_state_before;
        V1.outer_action_state_after := field_to_bytes outer_action_state_after;
        V1.outer_action_state_length_before := before_length;
        V1.outer_action_state_length_after := after_length;
        V1.synchronized_outer_action_state := field_to_bytes (action !!! 4%nat);
        V1.synchronized_outer_action_state_length := synchronized_length;
        V1.slot_lower := slot_lower;
        V1.slot_upper := slot_upper |}.

(** ** Versions *)

Definition derive_v3_receipt (v1 : V1.SettlementPublicValuesV1) (chain_id : Z)
    (batch : InnerActionBatchWitnessV2) (checkpoint : AssetRegistryCheckpointV3)
    : guest V3.SettlementPublicValuesV3 :=
  validate_registry_transition checkpoint chain_id (ib_bridge_address batch);;
  assert_ (negb (bool_decide (c3_root checkpoint = zeros 32))) "asset registry root is zero";;
  assert_ (0 <? c3_count checkpoint) "asset registry count is zero";;
  assert_ (c3_schema_version checkpoint =? 1) "unsupported asset registry schema";;
  assert_ (negb (bool_decide (c3_record_hash checkpoint = zeros 32))) "asset registry record hash is zero";;
  v2 ← derive_v2_receipt v1 batch;
  leaf ← hash_registry_record_leaf (c3_record checkpoint);
  Ok {| V3.settlement := v2;
        V3.asset_registry_root := c3_root checkpoint;
        V3.asset_registry_count := c3_count checkpoint;
        V3.asset_registry_schema_version := c3_schema_version checkpoint;
        V3.asset_record_hash := c3_record_hash checkpoint;
        V3.asset_record_commitment := field_to_bytes leaf |}.

Definition derive_v4_receipt (v1 : V1.SettlementPublicValuesV1) (chain_id : Z)
    (batch : InnerActionBatchWitnessV2) (checkpoint : AssetRegistryBatchCheckpointV4)
    : guest V4.SettlementPublicValuesV4 :=
  record_identities ← validate_registry_batch checkpoint chain_id (ib_bridge_address batch);
  batch_root ← asset_record_batch_root record_identities;
  v2 ← derive_v2_receipt v1 batch;
  assert_ (Z.of_nat (length record_identities) <=? u32_MAX) "asset record batch length fits u32";;
  Ok {| V4.settlement := v2;
        V4.asset_registry_root := c4_root checkpoint;
        V4.asset_registry_count := c4_count checkpoint;
        V4.asset_registry_schema_version := c4_schema_version checkpoint;
        V4.asset_record_batch_root := batch_root;
        V4.asset_record_batch_count := Z.of_nat (length record_identities) |}.

(** The receipt before encoding. *)
Definition derive_values (app_state : list Z) (witness : SettlementWitnessV1) (vk_hash : bytes)
    : guest SettlementPublicValues :=
  let chain_id := sc_chain_id (context witness) in
  v1 ← derive_receipt_for_app_state app_state witness vk_hash;
  match sw_inner_action_batch witness, sw_asset_registry_checkpoint witness,
        sw_asset_registry_batch witness with
  | None, None, None => Ok (PV1 v1)
  | Some batch, None, None => v2 ← derive_v2_receipt v1 batch; Ok (PV2 v2)
  | Some batch, Some checkpoint, None => v3 ← derive_v3_receipt v1 chain_id batch checkpoint; Ok (PV3 v3)
  | Some batch, None, Some checkpoint => v4 ← derive_v4_receipt v1 chain_id batch checkpoint; Ok (PV4 v4)
  | None, Some _, None | None, None, Some _ =>
    Panic "asset registry checkpoint requires a V2 inner-action batch"
  | _, Some _, Some _ => Panic "V3 and V4 asset registry checkpoints are mutually exclusive"
  end.

Definition derive_receipt_bytes (app_state : list Z) (witness : SettlementWitnessV1) (vk_hash : bytes)
    : guest bytes :=
  values ← derive_values app_state witness vk_hash;
  encode_values values.

(** ** [main] *)

Definition commit_zkapp_public_values (vk_hash : bytes) (proof_valid : bool) : bytes :=
  let empty_state := replicate 8 (zeros 32) in
  let empty_action_state := zeros 32 in
  [byte_of (if proof_valid then 1 else 0)] ++ vk_hash ++ concat empty_state ++ concat empty_state ++
  empty_action_state.

(** [proof_valid] is the value [verify(&verifier, &proof)] returned. *)
Definition settlement_main (proof_valid : bool) (app_state : list Z)
    (settlement : option SettlementWitnessV1) (vk_hash : bytes) : guest bytes :=
  assert_ proof_valid "Pickles proof verification failed";;
  match settlement with
  | Some witness => derive_receipt_bytes app_state witness vk_hash
  | None => Ok (commit_zkapp_public_values vk_hash proof_valid)
  end.

(** ** Specification: packing *)

Definition chunk_valid (c : PackedFieldV1) : Prop :=
  0 < pf_bits c < 255 /\ length (pf_value c) = 32%nat /\ from_be (pf_value c) < 2 ^ pf_bits c.

(** The packing loop in the integers, without reduction. *)
Definition pack_exact (st : pack_state) (c : PackedFieldV1) : pack_state :=
  if accumulator_bits st + pf_bits c <? 255 then
    {| packed_fields := packed_fields st;
       accumulator := accumulator st * 2 ^ pf_bits c + from_be (pf_value c);
       accumulator_bits := accumulator_bits st + pf_bits c |}
  else
    {| packed_fields := packed_fields st ++ [accumulator st];
       accumulator := from_be (pf_value c); accumulator_bits := pf_bits c |}.

Definition pack_start : pack_state :=
  {| packed_fields := []; accumulator := 0; accumulator_bits := 0 |}.
Definition packed_exact (l : list PackedFieldV1) : list Z :=
  let st := foldl pack_exact pack_start l in
  if 0 <? accumulator_bits st then packed_fields st ++ [accumulator st] else packed_fields st.

(** What the body hash absorbs, and the bodies it accepts. *)
Definition body_input (i : ChunkedRandomOracleInputV1) : list Z :=
  map from_be (ro_field_elements i) ++ packed_exact (ro_packed i).
Definition body_valid (i : ChunkedRandomOracleInputV1) : Prop :=
  Forall canonical_bytes (ro_field_elements i) /\ Forall chunk_valid (ro_packed i).

(** ** Lemmas: packing *)

Definition pack_inv (st : pack_state) : Prop :=
  0 <= accumulator_bits st < 255 /\ 0 <= accumulator st < 2 ^ accumulator_bits st.

Lemma num_bits_le v b : 0 <= v -> 0 <= b -> num_bits v <= b <-> v < 2 ^ b.
Proof.
  intros Hv Hb. unfold num_bits. destruct (Z.eqb_spec v 0) as [->|Hz].
  - pose proof (Z.pow_pos_nonneg 2 b ltac:(lia) Hb). lia.
  - rewrite Z.log2_lt_pow2 by lia. lia.
Qed.

Lemma pow2_254 b : 0 <= b < 255 -> 2 ^ b <= 2 ^ 254.
Proof. intros. apply Z.pow_le_mono_r; lia. Qed.

Lemma small_canonical v b : 0 <= v < 2 ^ b -> 0 <= b < 255 -> canonical v.
Proof. intros Hv Hb. pose proof (pow2_254 b Hb). unfold canonical, field_order. lia. Qed.

Lemma pack_exact_inv st c : pack_inv st -> chunk_valid c -> pack_inv (pack_exact st c).
Proof.
  intros [Hb Ha] (Hw & _ & Hv). unfold pack_exact, pack_inv. pose proof (from_be_nonneg (pf_value c)).
  destruct (Z.ltb_spec (accumulator_bits st + pf_bits c) 255); cbn; [|lia].
  rewrite Z.pow_add_r by lia.
  pose proof (Z.pow_pos_nonneg 2 (pf_bits c) ltac:(lia) ltac:(lia)). nia.
Qed.

Lemma pack_step_Ok st c st' :
  pack_inv st -> pack_step st c = Ok st' <-> chunk_valid c /\ st' = pack_exact st c.
Proof.
  intros [Hb Ha]. unfold pack_step, chunk_valid. change MODULUS_BIT_SIZE with 255.
  pose proof (from_be_nonneg (pf_value c)) as Hnn.
  assert (chunk_valid c -> (if accumulator_bits st + pf_bits c <? 255 then
        {| packed_fields := packed_fields st;
           accumulator := fp_add (fp_mul (accumulator st) (pow2 (Z.to_nat (pf_bits c)))) (from_be (pf_value c));
           accumulator_bits := accumulator_bits st + pf_bits c |}
      else {| packed_fields := packed_fields st ++ [accumulator st];
              accumulator := from_be (pf_value c); accumulator_bits := pf_bits c |}) = pack_exact st c) as Hex.
  { intros Hc. pose proof (pack_exact_inv st c (conj Hb Ha) Hc) as [Hb' Ha'].
    destruct Hc as (Hw & _ & Hv). unfold pack_exact in *.
    destruct (Z.ltb_spec (accumulator_bits st + pf_bits c) 255); [|done]. cbn in *. f_equal.
    rewrite pow2_small by lia. rewrite Z2Nat.id by lia.
    unfold fp_add, fp_mul. rewrite Zplus_mod_idemp_l.
    apply Z.mod_small. exact (small_canonical _ _ Ha' Hb'). }
  split.
  - intros ([] & Hb0%assert_Ok%Z.ltb_lt & Hp)%bind_Ok.
    apply bind_Ok in Hp as ([] & Hb1%assert_Ok%Z.ltb_lt & Hp).
    apply bind_Ok in Hp as (v & [[Hl _] ->]%canonical_bytes_Ok & Hp).
    apply bind_Ok in Hp as ([] & Hn%assert_Ok%Z.leb_le & Hp). apply num_bits_le in Hn; [|lia..].
    assert (chunk_valid c) as Hc by done. rewrite Hex in Hp by done. by injection Hp as <-.
  - intros [(Hw & Hl & Hv) ->].
    rewrite assert_true by (apply Z.ltb_lt; lia). rewrite assert_true by (apply Z.ltb_lt; lia).
    rewrite (proj2 (canonical_bytes_Ok _ _) (conj (conj Hl (proj2 (small_canonical _ _ (conj Hnn Hv) ltac:(lia)))) eq_refl)).
    rewrite Ok_bind, assert_true by (apply Z.leb_le, num_bits_le; lia).
    by rewrite Hex.
Qed.

Lemma pack_loop st l st' :
  pack_inv st -> foldM pack_step st l = Ok st' <-> Forall chunk_valid l /\ st' = foldl pack_exact st l.
Proof.
  revert st. induction l as [|c l IH]; intros st Hst; cbn [foldM foldl].
  - split; [by intros [= ->]|by intros [_ ->]].
  - rewrite bind_Ok, Forall_cons. split.
    + intros (st1 & [Hc ->]%pack_step_Ok & [Hl ->]%IH); [done|by apply pack_exact_inv|done].
    + intros [[Hc Hl] ->]. exists (pack_exact st c). split; [by apply pack_step_Ok|].
      apply IH; [by apply pack_exact_inv|done].
Qed.

Lemma pack_start_inv : pack_inv pack_start.
Proof. unfold pack_inv, pack_start. cbn. lia. Qed.

Lemma pack_fields_Ok l fs : pack_fields l = Ok fs <-> Forall chunk_valid l /\ fs = packed_exact l.
Proof.
  unfold pack_fields, packed_exact. fold pack_start. rewrite bind_Ok. split.
  - intros (st & [Hl ->]%pack_loop & [= <-]); [done|apply pack_start_inv].
  - intros [Hl ->]. eexists. split; [by apply pack_loop; [apply pack_start_inv|]|done].
Qed.

Lemma body_prefix_short k : (length (ascii (body_prefix k)) < 32)%nat.
Proof. destruct k; vm_compute; lia. Qed.

Lemma hash_body_Ok k i h :
  hash_account_update_body k i = Ok h <-> body_valid i /\ h = phash (body_prefix k) (body_input i).
Proof.
  unfold hash_account_update_body, body_valid, body_input. split.
  - intros (fs & [Hf ->]%canonical_list_Ok & Hp)%bind_Ok.
    apply bind_Ok in Hp as (ps & [Hl ->]%pack_fields_Ok & Hp).
    rewrite hash_with_prefix_Ok in Hp by apply body_prefix_short. by injection Hp as <-.
  - intros [[Hf Hl] ->]. rewrite (proj2 (canonical_list_Ok _ _) (conj Hf eq_refl)), Ok_bind.
    rewrite (proj2 (pack_fields_Ok _ _) (conj Hl eq_refl)), Ok_bind.
    by rewrite hash_with_prefix_Ok by apply body_prefix_short.
Qed.

(** One step is injective once the widths are known. *)
Lemma pack_exact_inj st1 st2 c1 c2 :
  accumulator_bits st1 = accumulator_bits st2 -> pf_bits c1 = pf_bits c2 ->
  chunk_valid c1 -> chunk_valid c2 -> pack_inv st1 -> pack_inv st2 ->
  pack_exact st1 c1 = pack_exact st2 c2 -> st1 = st2 /\ c1 = c2.
Proof.
  intros Hb Hw (Hr1 & Hl1 & Hv1) (Hr2 & Hl2 & Hv2) _ _. unfold pack_exact. rewrite Hb, Hw in *.
  pose proof (from_be_nonneg (pf_value c1)). pose proof (from_be_nonneg (pf_value c2)).
  assert (from_be (pf_value c1) = from_be (pf_value c2) -> accumulator st1 = accumulator st2 ->
    packed_fields st1 = packed_fields st2 -> st1 = st2 /\ c1 = c2) as Hfin.
  { intros Hv Hac Hpf. destruct st1, st2, c1, c2; simpl in *.
    apply from_be_inj in Hv; [by subst|congruence]. }
  destruct (_ <? 255).
  - intros [= Hpf He]. apply Hfin; [| |done].
    + rewrite <- (Z.mod_small (from_be (pf_value c1)) (2 ^ pf_bits c2)),
        <- (Z.mod_small (from_be (pf_value c2)) (2 ^ pf_bits c2)) by done.
      rewrite <- (Z.mod_add (from_be (pf_value c1)) (accumulator st1)),
        <- (Z.mod_add (from_be (pf_value c2)) (accumulator st2)) by lia. f_equal. lia.
    + nia.
  - intros [= Hpf Hv]. apply app_inj_2 in Hpf as [Hpf [= Hac]]; [|done]. by apply Hfin.
Qed.

Lemma pack_bits st1 st2 l1 l2 :
  accumulator_bits st1 = accumulator_bits st2 -> map pf_bits l1 = map pf_bits l2 ->
  accumulator_bits (foldl pack_exact st1 l1) = accumulator_bits (foldl pack_exact st2 l2).
Proof.
  revert st1 st2 l2. induction l1 as [|c l1 IH]; intros st1 st2 [|c2 l2] Hst Hw; try done.
  cbn [map] in Hw. apply list_cons_eq_inv in Hw as [Hc Hw]. cbn [foldl]. apply IH; [|done].
  unfold pack_exact. rewrite Hst, Hc. by destruct (_ <? 255).
Qed.

Lemma pack_foldl_inv l : Forall chunk_valid l -> pack_inv (foldl pack_exact pack_start l).
Proof.
  induction l as [|c l IH] using rev_ind; [intros _; apply pack_start_inv|].
  intros [Hl Hc]%Forall_app. rewrite foldl_app. apply pack_exact_inv; [by apply IH|by inversion Hc].
Qed.

Lemma pack_foldl_inj l1 l2 :
  Forall chunk_valid l1 -> Forall chunk_valid l2 -> map pf_bits l1 = map pf_bits l2 ->
  foldl pack_exact pack_start l1 = foldl pack_exact pack_start l2 -> l1 = l2.
Proof.
  revert l2. induction l1 as [|c1 l1 IH] using rev_ind; intros l2 H1 H2 Hw He.
  - by destruct l2.
  - destruct l2 as [|c2 l2 _] using rev_ind; [by destruct l1|].
    rewrite !map_app in Hw. apply app_inj_2 in Hw as [Hw [= Hb]]; [|done].
    apply Forall_app in H1 as [H1 Hc1]. apply Forall_app in H2 as [H2 Hc2].
    rewrite !foldl_app in He. cbn [foldl] in He.
    apply pack_exact_inj in He as [He ->]; [|by apply pack_bits|done|by inversion Hc1|by inversion Hc2
      |by apply pack_foldl_inv|by apply pack_foldl_inv].
    f_equal. by apply IH.
Qed.

Lemma packed_exact_inj l1 l2 :
  Forall chunk_valid l1 -> Forall chunk_valid l2 -> map pf_bits l1 = map pf_bits l2 ->
  packed_exact l1 = packed_exact l2 -> l1 = l2.
Proof.
  intros H1 H2 Hw He. apply pack_foldl_inj; try done.
  pose proof (pack_bits pack_start pack_start l1 l2 eq_refl Hw) as Hb. unfold packed_exact in He. rewrite Hb in He.
  destruct (0 <? accumulator_bits (foldl pack_exact pack_start l2)) eqn:Hpos.
  - apply app_inj_2 in He as [Hp [= Ha]]; [|done].
    destruct (foldl pack_exact pack_start l1), (foldl pack_exact pack_start l2). simpl in *. congruence.
  - pose proof (pack_foldl_inv l1 H1) as [Hb1 Ha1]. pose proof (pack_foldl_inv l2 H2) as [Hb2 Ha2].
    bool_props. rewrite Hb in *.
    assert (accumulator_bits (foldl pack_exact pack_start l2) = 0) as Hz by lia. rewrite Hz in *.
    destruct (foldl pack_exact pack_start l1), (foldl pack_exact pack_start l2). simpl in *.
    f_equal; [done|lia|congruence].
Qed.

Lemma canonical_list_inj l1 l2 :
  Forall canonical_bytes l1 -> Forall canonical_bytes l2 -> map from_be l1 = map from_be l2 -> l1 = l2.
Proof.
  intros H1. revert l2. induction H1 as [|b l1 [Hb _] H1 IH]; intros [|c l2] H2 He; try done.
  inversion H2 as [|? ? [Hc _] H2']; subst. cbn [map] in He. apply list_cons_eq_inv in He as [Hv He].
  f_equal; [apply from_be_inj; congruence|by apply IH].
Qed.

(** ** Lemmas: the call forest *)

(** The bodies of a forest in preorder. *)
Fixpoint tree_bodies (node : CallForestNodeV3) : list ChunkedRandomOracleInputV1 :=
  match node with CallNode body calls => body :: concat (map tree_bodies calls) end.
Definition forest_bodies (forest : list CallForestNodeV3) : list ChunkedRandomOracleInputV1 :=
  concat (map tree_bodies forest).

(** Induction on nodes with the hypothesis for every child. *)
Lemma node_ind (P : CallForestNodeV3 -> Prop) :
  (forall body calls, Forall P calls -> P (CallNode body calls)) -> forall node, P node.
Proof.
  intros HP. fix IH 1. intros [body calls]. apply HP.
  induction calls as [|node calls IHc]; constructor; [apply IH|exact IHc].
Qed.

Lemma count_matching_filter d node :
  count_matching_calls d node = length (filter (fun b => call_matches d b = true) (tree_bodies node)).
Proof.
  induction node as [body calls IH] using node_ind. cbn [count_matching_calls tree_bodies].
  assert (sum_list_with (count_matching_calls d) calls =
    length (filter (fun b => call_matches d b = true) (concat (map tree_bodies calls)))) as ->.
  { induction IH as [|node calls Hn _ IHc]; [done|]. cbn [sum_list_with map concat].
    by rewrite filter_app, length_app, Hn, IHc. }
  rewrite filter_cons. destruct (call_matches d body) eqn:Hm; by case_decide.
Qed.

Lemma count_forest_filter d forest :
  sum_list_with (count_matching_calls d) forest =
    length (filter (fun b => call_matches d b = true) (forest_bodies forest)).
Proof.
  unfold forest_bodies. induction forest as [|node forest IH]; [done|].
  cbn [sum_list_with map concat]. by rewrite filter_app, length_app, count_matching_filter, IH.
Qed.

(** ** Specification: the call forest *)

(** The forest hash as a function, and the messages it hashes. *)
Fixpoint tree_hash (k : MinaSignatureKindV1) (node : CallForestNodeV3) (tail : Z) : Z :=
  match node with
  | CallNode body calls =>
    phash ACCOUNT_UPDATE_CONS_PREFIX
      [phash ACCOUNT_UPDATE_NODE_PREFIX
         [phash (body_prefix k) (body_input body); foldr (tree_hash k) 0 calls]; tail]
  end.
Definition forest_hash (k : MinaSignatureKindV1) (forest : list CallForestNodeV3) : Z :=
  foldr (tree_hash k) 0 forest.

Definition tails_messages (h : CallForestNodeV3 -> Z -> Z)
    (f : CallForestNodeV3 -> Z -> list (string * list Z)) : list CallForestNodeV3 -> list (string * list Z) :=
  fix go l := match l with
  | [] => []
  | node :: l => f node (foldr h 0 l) ++ go l
  end.

Fixpoint tree_messages (k : MinaSignatureKindV1) (node : CallForestNodeV3) (tail : Z)
    : list (string * list Z) :=
  match node with
  | CallNode body calls =>
    let digest := phash (body_prefix k) (body_input body) in
    let node := [digest; forest_hash k calls] in
    [(ACCOUNT_UPDATE_CONS_PREFIX, [phash ACCOUNT_UPDATE_NODE_PREFIX node; tail]);
     (ACCOUNT_UPDATE_NODE_PREFIX, node); (body_prefix k, body_input body)] ++
    tails_messages (tree_hash k) (tree_messages k) calls
  end.
Definition forest_messages (k : MinaSignatureKindV1) : list CallForestNodeV3 -> list (string * list Z) :=
  tails_messages (tree_hash k) (tree_messages k).

(** The field elements every body contributes, in preorder. *)
Definition forest_inputs (forest : list CallForestNodeV3) : list (list Z) :=
  map body_input (forest_bodies forest).

(** ** Lemmas: the forest hash *)

Lemma fold_rev_Ok (f : CallForestNodeV3 -> Z -> guest Z) (g : CallForestNodeV3 -> Z -> Z) P l h :
  Forall (fun node => forall tail h, f node tail = Ok h <-> P node /\ h = g node tail) l ->
  fold_rev f l = Ok h <-> Forall P l /\ h = foldr g 0 l.
Proof.
  intros Hl. revert h. induction Hl as [|node l Hn Hl IH]; intros h; cbn [fold_rev foldr].
  - split; [by intros [= <-]|by intros [_ ->]].
  - rewrite bind_Ok, Forall_cons. split.
    + intros (t & [Ht ->]%IH & [Hp ->]%Hn). done.
    + intros [[Hp Ht] ->]. eexists. split; [by apply IH|by apply Hn].
Qed.

Lemma hash_call_forest_node_eq a c t :
  hash_call_forest_node a c t =
    Ok (phash ACCOUNT_UPDATE_CONS_PREFIX [phash ACCOUNT_UPDATE_NODE_PREFIX [a; c]; t]).
Proof.
  unfold hash_call_forest_node. rewrite hash_with_prefix_Ok, Ok_bind by (vm_compute; lia).
  by rewrite hash_with_prefix_Ok by (vm_compute; lia).
Qed.

Lemma forall_forest_bodies (P : ChunkedRandomOracleInputV1 -> Prop) l :
  Forall P (forest_bodies l) <-> Forall (fun node => Forall P (tree_bodies node)) l.
Proof. unfold forest_bodies. by rewrite Forall_concat, Forall_map. Qed.

Lemma hash_call_tree_Ok k node tail h :
  hash_call_tree k node tail = Ok h <-> Forall body_valid (tree_bodies node) /\ h = tree_hash k node tail.
Proof.
  revert tail h. induction node as [body calls IH] using node_ind. intros tail h.
  pose proof (fun h => fold_rev_Ok (hash_call_tree k) (tree_hash k) _ calls h IH) as Hc.
  cbn [hash_call_tree tree_bodies tree_hash]. rewrite Forall_cons.
  fold (forest_bodies calls). rewrite forall_forest_bodies. split.
  - intros (a & [Hb ->]%hash_body_Ok & (c & [Hf ->]%Hc & Hh)%bind_Ok)%bind_Ok.
    rewrite hash_call_forest_node_eq in Hh. by injection Hh as <-.
  - intros [[Hb Hf] ->]. rewrite (proj2 (hash_body_Ok _ _ _) (conj Hb eq_refl)), Ok_bind.
    rewrite (proj2 (Hc _) (conj Hf eq_refl)), Ok_bind. apply hash_call_forest_node_eq.
Qed.

Lemma hash_call_forest_Ok k forest h :
  hash_call_forest k forest = Ok h <-> Forall body_valid (forest_bodies forest) /\ h = forest_hash k forest.
Proof.
  rewrite forall_forest_bodies. unfold hash_call_forest, forest_hash. apply fold_rev_Ok.
  apply list.Forall_forall. intros node _ tail h'. apply hash_call_tree_Ok.
Qed.

Lemma hash_nonzero_check (Q : list (string * list Z)) :
  forallb (fun m => negb (phash m.1 m.2 =? 0)) Q = true -> Forall (fun m => phash m.1 m.2 <> 0) Q.
Proof.
  rewrite forallb_forall, list.Forall_forall. intros HQ m Hm%list_elem_of_In.
  specialize (HQ m Hm). by bool_props.
Qed.

Lemma tree_hash_in k node tail : exists a c,
  tree_hash k node tail = phash ACCOUNT_UPDATE_CONS_PREFIX [a; c] /\
  (ACCOUNT_UPDATE_CONS_PREFIX, [a; c]) ∈ tree_messages k node tail.
Proof. destruct node as [body calls]. do 2 eexists. split; [done|]. left. Qed.

Section binding.
Variables (k : MinaSignatureKindV1) (Q : list (string * list Z)).
Hypothesis HQ : no_hash_collision Q.
Hypothesis Hzero : Forall (fun m => phash m.1 m.2 <> 0) Q.

Lemma collide (p q : string) l m :
  (p, l) ∈ Q -> (q, m) ∈ Q -> phash p l = phash q m -> l = m.
Proof.
  intros Hp Hq He. pose proof (no_hash_collision_elim Q (p, l) (q, m) HQ Hp Hq He) as Heq. congruence.
Qed.

Definition tree_binds (node : CallForestNodeV3) : Prop := forall node' tail tail',
  tree_messages k node tail ⊆ Q -> tree_messages k node' tail' ⊆ Q ->
  tree_hash k node tail = tree_hash k node' tail' ->
  tail = tail' /\ map body_input (tree_bodies node) = map body_input (tree_bodies node').

Lemma tree_nonzero node tail : tree_messages k node tail ⊆ Q -> tree_hash k node tail <> 0.
Proof.
  intros Hs. destruct (tree_hash_in k node tail) as (a & c & -> & Hin).
  exact (proj1 (list.Forall_forall _ _) Hzero _ (Hs _ Hin)).
Qed.

Lemma forest_binds l l' :
  Forall tree_binds l -> forest_messages k l ⊆ Q -> forest_messages k l' ⊆ Q ->
  forest_hash k l = forest_hash k l' -> forest_inputs l = forest_inputs l'.
Proof.
  unfold forest_messages, forest_hash, forest_inputs, forest_bodies.
  intros Hl. revert l'. induction Hl as [|node l Hn Hl IH]; intros [|node' l']; cbn [foldr tails_messages];
    intros Hs Hs' He; [done| | |].
  - destruct (tree_nonzero node' (foldr (tree_hash k) 0 l')); [set_solver|done].
  - destruct (tree_nonzero node (foldr (tree_hash k) 0 l)); [set_solver|done].
  - apply Hn in He as [Ht Hb]; [|set_solver..]. cbn [map concat]. rewrite !map_app, Hb. f_equal.
    apply IH; [set_solver..|done].
Qed.

Lemma node_binds node : tree_binds node.
Proof.
  induction node as [body calls IH] using node_ind. intros [body' calls'] tail tail' Hs Hs' He.
  cbn [tree_messages tree_hash tree_bodies] in *. cbv zeta in *.
  fold (forest_hash k calls) in *. fold (forest_hash k calls') in *.
  fold (forest_messages k calls) in *. fold (forest_messages k calls') in *.
  apply collide in He as [= Hn ->]; [|set_solver..].
  apply collide in Hn as [= Hb Hf]; [|set_solver..].
  apply collide in Hb; [|set_solver..].
  split; [done|]. cbn [map]. f_equal; [done|].
  apply (forest_binds calls calls'); [done|set_solver..|done].
Qed.

End binding.

(** ** Specification: the V1 receipt *)

Definition typed_context (c : SettlementContextV1) : Prop :=
  is_u64 (sc_chain_id c) /\ length (sc_settlement_contract c) = 20%nat /\
  is_u64 (sc_batch_sequence c) /\ length (sc_mina_transaction_hash c) = 32%nat /\
  is_u32 (sc_outer_action_state_length_before c).

Definition binding_valid (app_state : list Z) (w : SettlementWitnessV1) (act before : list Z) : Prop :=
  let b := binding w in
  let body := map from_be (ro_field_elements (account_update_body b)) in
  length app_state = 2%nat /\ body_valid (account_update_body b) /\ (36 < length body)%nat /\
  phash (body_prefix (mina_signature_kind b)) (body_input (account_update_body b)) = app_state !!! 0%nat /\
  sb_actions b = [map field_to_bytes act] /\ Forall canonical act /\ length act = 8%nat /\
  act !!! 0%nat = 0 /\ body !!! 15%nat = action_hash act /\
  os_fields (sb_state_before b) = map field_to_bytes before /\ Forall canonical before /\
  (forall k, (1 <= k < 8)%nat -> before !!! k = body !!! (28 + k)%nat) /\
  before !!! 1%nat = 0 /\ body !!! 3%nat = 0 /\
  act !!! 1%nat = body !!! 4%nat /\ act !!! 2%nat = body !!! 5%nat /\ act !!! 3%nat = body !!! 6%nat /\
  sc_outer_action_state_length_before (context w) + 1 <= u32_MAX /\
  is_u32 (act !!! 5%nat) /\ is_u32 (act !!! 6%nat) /\ is_u32 (act !!! 7%nat).

Definition v1_receipt (app_state : list Z) (w : SettlementWitnessV1) (vk_hash : bytes) (act before : list Z)
    : V1.SettlementPublicValuesV1 :=
  let c := context w in
  let body := map from_be (ro_field_elements (account_update_body (binding w))) in
  {| V1.da_mode := Multisig;
     V1.chain_id := sc_chain_id c;
     V1.settlement_contract := sc_settlement_contract c;
     V1.batch_sequence := sc_batch_sequence c;
     V1.vk_hash := vk_hash;
     V1.app_statement := field_to_bytes (app_state !!! 0%nat);
     V1.mina_transaction_hash := sc_mina_transaction_hash c;
     V1.state_before := sb_state_before (binding w);
     V1.state_after := {| os_fields := map field_to_bytes
       [before !!! 0%nat; 0; act !!! 1%nat; act !!! 2%nat; act !!! 3%nat; before !!! 5%nat;
        before !!! 6%nat; body !!! 9%nat] |};
     V1.outer_action_state_before := field_to_bytes (body !!! 36%nat);
     V1.outer_action_state_after := field_to_bytes (phash "MinaZkappSeqEvents**" [body !!! 36%nat; action_hash act]);
     V1.outer_action_state_length_before := sc_outer_action_state_length_before c;
     V1.outer_action_state_length_after := sc_outer_action_state_length_before c + 1;
     V1.synchronized_outer_action_state := field_to_bytes (act !!! 4%nat);
     V1.synchronized_outer_action_state_length := act !!! 5%nat;
     V1.slot_lower := act !!! 6%nat;
     V1.slot_upper := act !!! 7%nat |}.

(** ** Lemmas: the V1 receipt *)

Lemma asserts_Ok {A} (f : A -> bool) why l u :
  foldM (fun (_ : unit) a => assert_ (E := Empty_set) (f a) why) tt l = Ok u <-> Forall (fun a => f a = true) l.
Proof.
  destruct u. induction l as [|a l IH]; cbn [foldM]; [done|]. rewrite Forall_cons, <- IH. split.
  - by intros ([] & ?%assert_Ok & ?)%bind_Ok.
  - intros [-> Hl]. done.
Qed.

Lemma check_preconditions_Ok before body u :
  check_preconditions before body = Ok u <->
  forall k, (1 <= k < 8)%nat -> before !!! k = body !!! (28 + k)%nat.
Proof.
  unfold check_preconditions. rewrite asserts_Ok, list.Forall_forall. split.
  - intros Hf k Hk. apply Z.eqb_eq. apply (Hf k), elem_of_seq. lia.
  - intros Hf k Hk%elem_of_seq. apply Z.eqb_eq. apply (Hf k). lia.
Qed.

Lemma hash_actions_single act : hash_actions [act] = Ok (action_hash act).
Proof.
  unfold hash_actions. rewrite empty_hash_with_prefix_Ok, Ok_bind by (vm_compute; lia).
  cbn [rev app foldM]. by do 2 (rewrite hash_with_prefix_Ok, ?Ok_bind by (vm_compute; lia)).
Qed.

Lemma update_state_eq before body :
  length before = 8%nat ->
  update_state before body =
    [before !!! 0%nat; body !!! 3%nat; body !!! 4%nat; body !!! 5%nat; body !!! 6%nat;
     before !!! 5%nat; before !!! 6%nat; body !!! 9%nat].
Proof. do 9 (destruct before as [|? before]; try done). Qed.

Lemma map_field_inj l k : Forall canonical l -> Forall canonical k ->
  map field_to_bytes l = map field_to_bytes k -> l = k.
Proof.
  intros Hl Hk He. apply (f_equal (map from_be)) in He.
  by rewrite !map_from_be_fields in He.
Qed.

Lemma canonical_map_fields l : Forall canonical_bytes l -> l = map field_to_bytes (map from_be l) /\ Forall canonical (map from_be l).
Proof.
  intros Hl. apply fields_from_bytes_Ok. by apply canonical_list_Ok.
Qed.

Lemma canonical_at (l : list Z) k : Forall canonical l -> (k < length l)%nat -> canonical (l !!! k).
Proof. intros Hl Hk. eapply list.Forall_lookup_1; [exact Hl|by apply list_lookup_lookup_total_lt]. Qed.

(** The guest derives exactly the receipt of a valid binding. *)
Lemma derive_v1_Ok app_state w vk_hash v :
  length (os_fields (sb_state_before (binding w))) = 8%nat ->
  derive_receipt_for_app_state app_state w vk_hash = Ok v <->
  check_registry_binding app_state w = Ok tt /\
  exists act before, binding_valid app_state w act before /\ v = v1_receipt app_state w vk_hash act before.
Proof.
  intros Hst. unfold derive_receipt_for_app_state, binding_valid, checked_add_u32. split.
  - intros ([] & Hap%assert_Ok%Nat.eqb_eq & Hd)%bind_Ok.
    apply bind_Ok in Hd as (body & [Hbc ->]%canonical_list_Ok & Hd).
    apply bind_Ok in Hd as ([] & Hbl%assert_Ok%Nat.ltb_lt & Hd).
    apply bind_Ok in Hd as (h & [Hbv ->]%hash_body_Ok & Hd).
    apply bind_Ok in Hd as ([] & Hbh%assert_Ok%Z.eqb_eq & Hd).
    apply bind_Ok in Hd as ([] & Hreg & Hd). split; [done|].
    apply bind_Ok in Hd as (acts & Hacts & Hd).
    apply bind_Ok in Hd as ([] & Hal%assert_Ok%Nat.eqb_eq & Hd).
    destruct acts as [|act [|]]; try done. change ([act] !!! 0%nat) with act in Hd. cbv zeta in Hd.
    apply mapM_Ok in Hacts. inversion Hacts as [|ab ? ls ? Hact Hnil Hsa]; subst. inversion Hnil; subst.
    apply fields_from_bytes_Ok in Hact as [-> Hac].
    apply bind_Ok in Hd as ([] & Hl8%assert_Ok%Nat.eqb_eq & Hd).
    apply bind_Ok in Hd as ([] & Ha0%assert_Ok%Z.eqb_eq & Hd).
    rewrite hash_actions_single, Ok_bind in Hd.
    apply bind_Ok in Hd as ([] & Hah%assert_Ok%Z.eqb_eq & Hd).
    apply bind_Ok in Hd as (before & [Hbe Hbec]%fields_from_bytes_Ok & Hd).
    assert (length before = 8%nat) as Hb8 by (by rewrite Hbe, length_map in Hst).
    apply bind_Ok in Hd as ([] & Hpre & Hd). pose proof (proj1 (check_preconditions_Ok _ _ _) Hpre) as Hpk.
    apply bind_Ok in Hd as ([] & Hb1%assert_Ok%Z.eqb_eq & Hd).
    rewrite (update_state_eq before) in Hd by done.
    cbn [lookup_total list_lookup_total] in Hd.
    do 4 (apply bind_Ok in Hd as ([] & ?%assert_Ok%Z.eqb_eq & Hd)).
    rewrite hash_with_prefix_Ok, Ok_bind in Hd by (vm_compute; lia).
    case_match eqn:Hlen; [|done]. apply Z.ltb_lt in Hlen. cbn [expect] in Hd. rewrite Ok_bind in Hd.
    do 3 (apply bind_Ok in Hd as (? & [<- ?]%field_to_u32_Ok & Hd);
      [|apply canonical_at; [done|unfold OUTER_COMMIT_ACTION_FIELDS in Hl8; lia]]).
    injection Hd as <-. exists act, before. split.
    + split_and!; try done. unfold u32_MAX. lia.
    + unfold v1_receipt. destruct (sb_state_before (binding w)) as [fs]. cbn in Hbe. subst fs.
      rewrite H1, H2, H3, H4. done.
  - intros (Hreg & act & before & Hv & ->).
    destruct Hv as (Hap & Hbv & Hbl & Hbh & Hsa & Hac & Hl8 & Ha0 & Hah & Hbe & Hbec & Hpre & Hb1 & Hb3 &
      Hc1 & Hc2 & Hc3 & Hlen & Hu5 & Hu6 & Hu7).
    assert (length before = 8%nat) as Hb8 by (by rewrite Hbe, length_map in Hst).
    rewrite assert_true by (by apply Nat.eqb_eq).
    rewrite (proj2 (canonical_list_Ok _ _) (conj (proj1 Hbv) eq_refl)), Ok_bind.
    rewrite assert_true by (by apply Nat.ltb_lt).
    rewrite (proj2 (hash_body_Ok _ _ _) (conj Hbv eq_refl)), Ok_bind.
    rewrite assert_true by (by apply Z.eqb_eq).
    rewrite Hreg, Ok_bind, Hsa. cbn [mapM].
    rewrite (proj2 (fields_from_bytes_Ok _ _) (conj eq_refl Hac)).
    change (Ok act ≫= _) with (Ok (E := Empty_set) [act]). rewrite Ok_bind.
    rewrite assert_true by done. change ([act] !!! 0%nat) with act. cbv zeta.
    rewrite assert_true by (by apply Nat.eqb_eq). rewrite assert_true by (by apply Z.eqb_eq).
    rewrite hash_actions_single, Ok_bind. rewrite assert_true by (apply Z.eqb_eq; by rewrite <- Hah).
    rewrite (proj2 (fields_from_bytes_Ok _ _) (conj Hbe Hbec)), Ok_bind.
    rewrite (proj2 (check_preconditions_Ok _ _ tt) Hpre), Ok_bind.
    rewrite assert_true by (by apply Z.eqb_eq).
    rewrite (update_state_eq before) by done. cbn [lookup_total list_lookup_total].
    do 4 (rewrite assert_true by (by apply Z.eqb_eq)).
    rewrite hash_with_prefix_Ok, Ok_bind by (vm_compute; lia).
    unfold u32_MAX in Hlen. rewrite (proj2 (Z.ltb_lt _ _)) by lia. cbn [expect]. rewrite Ok_bind.
    rewrite (proj2 (field_to_u32_Ok (act !!! 5%nat) _ (canonical_at act 5 Hac ltac:(lia))) (conj eq_refl Hu5)), Ok_bind.
    rewrite (proj2 (field_to_u32_Ok (act !!! 6%nat) _ (canonical_at act 6 Hac ltac:(lia))) (conj eq_refl Hu6)), Ok_bind.
    rewrite (proj2 (field_to_u32_Ok (act !!! 7%nat) _ (canonical_at act 7 Hac ltac:(lia))) (conj eq_refl Hu7)), Ok_bind.
    unfold v1_receipt. destruct (sb_state_before (binding w)) as [fs]. cbn in Hbe. subst fs.
    rewrite Hc1, Hc2, Hc3, Hb3. done.
Qed.

(** ** Lemmas: typed receipts *)

Definition typed_checkpoint3 (c : AssetRegistryCheckpointV3) : Prop :=
  length (c3_root c) = 32%nat /\ is_u32 (c3_count c) /\ is_u32 (c3_schema_version c) /\
  length (c3_record_hash c) = 32%nat.
Definition typed_checkpoint4 (c : AssetRegistryBatchCheckpointV4) : Prop :=
  length (c4_root c) = 32%nat /\ is_u32 (c4_count c) /\ is_u32 (c4_schema_version c) /\
  is_u32 (c4_old_count c).
Definition typed_batch (b : InnerActionBatchWitnessV2) : Prop :=
  length (ib_bridge_address b) = 20%nat /\ Forall typed_action (ib_actions b).

(** The types of the witness in the source (fixed-size arrays, integers). *)
Definition typed_witness (w : SettlementWitnessV1) : Prop :=
  typed_context (context w) /\
  length (os_fields (sb_state_before (binding w))) = 8%nat /\
  match sw_inner_action_batch w with Some b => typed_batch b | None => True end /\
  match sw_asset_registry_checkpoint w with Some c => typed_checkpoint3 c | None => True end /\
  match sw_asset_registry_batch w with Some c => typed_checkpoint4 c | None => True end.

Lemma fields_typed (l : list Z) : length l = 8%nat -> V1.state_typed {| os_fields := map field_to_bytes l |}.
Proof.
  intros Hl. split; cbn; [by rewrite length_map|]. apply list.Forall_forall.
  intros b (x & -> & _)%list_elem_of_fmap. apply length_field_to_bytes.
Qed.

Lemma v1_receipt_typed app_state w vk_hash act before :
  typed_context (context w) -> length vk_hash = 32%nat ->
  length (os_fields (sb_state_before (binding w))) = 8%nat ->
  binding_valid app_state w act before -> V1.typed (v1_receipt app_state w vk_hash act before).
Proof.
  intros (Hc & Hsc & Hbs & Htx & Hlen) Hvk Hst Hv.
  destruct Hv as (_ & _ & _ & _ & _ & _ & _ & _ & _ & Hbe & _ & _ & _ & _ & _ & _ & _ & Hle & H5 & H6 & H7).
  assert (V1.state_typed (sb_state_before (binding w))) as Hsb.
  { destruct (sb_state_before (binding w)) as [fs]. cbn in *. subst fs. apply fields_typed.
    by rewrite length_map in Hst. }
  unfold V1.typed, v1_receipt, is_u32, u32_MAX in *.
  cbn [V1.chain_id V1.settlement_contract V1.batch_sequence V1.vk_hash V1.app_statement
    V1.mina_transaction_hash V1.state_before V1.state_after V1.outer_action_state_before
    V1.outer_action_state_after V1.outer_action_state_length_before V1.outer_action_state_length_after
    V1.synchronized_outer_action_state V1.synchronized_outer_action_state_length V1.slot_lower V1.slot_upper].
  split_and!; try first [assumption|apply length_field_to_bytes|by apply fields_typed|lia].
Qed.

Lemma v2_receipt_typed s b start :
  V1.typed s -> length (ib_bridge_address b) = 20%nat -> batch_valid s b start -> V2.typed (v2_receipt s b start).
Proof.
  intros Hs Hb (Hn & Hst & _). unfold V2.typed, v2_receipt. cbn. split_and!; try done.
  - unfold subtree. change TREE_DEPTH with 16%nat. apply keccak256_length.
  - unfold is_u32. change MAX_LEAVES with 65536 in Hn. lia.
Qed.

Lemma derive_v1_typed app_state w vk_hash v :
  typed_witness w -> length vk_hash = 32%nat ->
  derive_receipt_for_app_state app_state w vk_hash = Ok v -> V1.typed v.
Proof.
  intros (Hc & Hst & _) Hvk (_ & act & before & Hv & ->)%derive_v1_Ok; [|done].
  by apply v1_receipt_typed.
Qed.

Lemma derive_v2_typed s b r :
  V1.typed s -> typed_batch b -> derive_v2_receipt s b = Ok r -> V2.typed r /\ V2.settlement r = s.
Proof.
  intros Hs [Hb Ha] (start & Hv & ->)%derive_v2_Ok; [|done..].
  split; [by apply v2_receipt_typed|done].
Qed.

(** The version the witness asks for. *)
Definition requested_version (w : SettlementWitnessV1) : Z :=
  match sw_inner_action_batch w, sw_asset_registry_checkpoint w, sw_asset_registry_batch w with
  | None, _, _ => 1
  | Some _, None, None => 2
  | Some _, Some _, _ => 3
  | Some _, None, Some _ => 4
  end.

Lemma derive_values_typed app_state w vk_hash v :
  typed_witness w -> length vk_hash = 32%nat -> derive_values app_state w vk_hash = Ok v ->
  typed v /\ version_of v = requested_version w /\
  derive_receipt_for_app_state app_state w vk_hash = Ok (settlement_of v).
Proof.
  intros Hw Hvk (v1 & Hv1 & Hv)%bind_Ok. pose proof (derive_v1_typed app_state w vk_hash v1 Hw Hvk Hv1) as Ht1.
  destruct Hw as (_ & _ & Hb & H3 & H4). unfold requested_version.
  destruct (sw_inner_action_batch w) as [b|], (sw_asset_registry_checkpoint w) as [c|],
    (sw_asset_registry_batch w) as [d|]; try done.
  - apply bind_Ok in Hv as (v3 & Hv3 & [= <-]). unfold derive_v3_receipt in Hv3. inv_ok.
    match goal with H : derive_v2_receipt _ _ = Ok _ |- _ => apply derive_v2_typed in H as [Ht2 <-]; [|done..] end.
    unfold typed_checkpoint3 in H3. destruct_and?. cbn. unfold V3.typed. cbn. split_and!; try done; apply length_field_to_bytes.
  - apply bind_Ok in Hv as (v4 & Hv4 & [= <-]). unfold derive_v4_receipt in Hv4.
    apply bind_Ok in Hv4 as (ids & Hids & (root & Hroot & Hv4)%bind_Ok).
    apply bind_Ok in Hv4 as (v2 & [Ht2 <-]%derive_v2_typed & Hv4); [|done..].
    apply bind_Ok in Hv4 as ([] & Hlen%assert_Ok%Z.leb_le & [= <-]).
    destruct H4 as (Hr & Hc & Hs & Ho). unfold is_u32, u32_MAX in *.
    pose proof (length_asset_record_batch_root d _ _ ids root ltac:(lia) Hids Hroot).
    cbn. unfold V4.typed, is_u32. cbn. split_and!; try done; lia.
  - apply bind_Ok in Hv as (v2 & Hv2 & [= <-]). apply derive_v2_typed in Hv2 as [Ht2 <-]; done.
  - by injection Hv as <-.
Qed.

(** The checkpoint a receipt exposes: registry key, root, count and schema. *)
Definition exposed_checkpoint (w : SettlementWitnessV1) (v : SettlementPublicValues)
    : option (bytes * bytes * Z * Z) :=
  match v with
  | PV1 _ | PV2 _ => None
  | PV3 r => c ← sw_asset_registry_checkpoint w;
      Some (c3_registry_public_key c, V3.asset_registry_root r, V3.asset_registry_count r,
            V3.asset_registry_schema_version r)
  | PV4 r => c ← sw_asset_registry_batch w;
      Some (c4_registry_public_key c, V4.asset_registry_root r, V4.asset_registry_count r,
            V4.asset_registry_schema_version r)
  end.

(** ** Lemmas: the registry checkpoint *)

Lemma check_registry_calls_Ok forest version key root count schema why u :
  check_registry_calls forest version key root count schema why = Ok u ->
  version = ASSET_REGISTRY_CHECKPOINT_VERSION /\
  exists data, registry_checkpoint_call_data key root count schema = Ok data /\
    length (filter (fun b => call_matches data b = true) (forest_bodies forest)) = 1%nat.
Proof.
  intros ([] & Hv%assert_Ok%Z.eqb_eq & Hc)%bind_Ok. split; [done|].
  apply bind_Ok in Hc as (n & (data & Hd & [= <-])%bind_Ok & Hn%assert_Ok%Nat.eqb_eq).
  exists data. by rewrite <- count_forest_filter.
Qed.

Lemma check_binding_forest app_state w :
  check_registry_binding app_state w = Ok tt ->
  sw_asset_registry_checkpoint w <> None \/ sw_asset_registry_batch w <> None ->
  hash_call_forest (mina_signature_kind (binding w)) (call_forest (binding w)) = Ok (app_state !!! 1%nat).
Proof.
  intros ([] & Hh & _)%bind_Ok Hs.
  assert (bool_decide (is_Some (sw_asset_registry_checkpoint w)) ||
    bool_decide (is_Some (sw_asset_registry_batch w)) = true) as Hb.
  { apply orb_true_iff. rewrite !bool_decide_eq_true, <- !not_eq_None_Some. done. }
  rewrite Hb in Hh. apply bind_Ok in Hh as (h & -> & <-%assert_Ok%Z.eqb_eq). done.
Qed.

Lemma check_binding_calls app_state w :
  check_registry_binding app_state w = Ok tt ->
  (forall c, sw_asset_registry_checkpoint w = Some c ->
    exists why, check_registry_calls (call_forest (binding w)) (c3_checkpoint_version c)
      (c3_registry_public_key c) (c3_root c) (c3_count c) (c3_schema_version c) why = Ok tt) /\
  (forall c, sw_asset_registry_batch w = Some c ->
    exists why, check_registry_calls (call_forest (binding w)) (c4_checkpoint_version c)
      (c4_registry_public_key c) (c4_root c) (c4_count c) (c4_schema_version c) why = Ok tt).
Proof.
  intros ([] & _ & ([] & H3 & H4)%bind_Ok)%bind_Ok. split; intros c Hc; rewrite Hc in *; eauto.
Qed.

(** ** Properties *)

(** C2. The guest derives a settlement receipt exactly when the witness is a
    valid binding of the verified statement: body and hash match, the single
    outer-commit action is the one the body hashes, every state precondition
    equals the source state, neither state is paused, the commit agrees with
    the updated ledger and inner action state, and the integer fields fit;
    the receipt is then fully determined, field by field. *)
Theorem settlement_receipt_exact app_state w vk_hash v :
  length (os_fields (sb_state_before (binding w))) = 8%nat ->
  derive_receipt_for_app_state app_state w vk_hash = Ok v <->
  check_registry_binding app_state w = Ok tt /\
  exists act before, binding_valid app_state w act before /\ v = v1_receipt app_state w vk_hash act before.
Proof. apply derive_v1_Ok. Qed.

(** C37. What the settlement guest commits always decodes, to the receipt it
    derived, in exactly the version the witness asks for; the Pickles check
    comes first, and without a settlement witness the guest commits the legacy
    577-byte record, which no settlement decoder accepts. *)
Theorem settlement_commits_decodable proof_valid app_state sw vk_hash b :
  (forall w, sw = Some w -> typed_witness w) -> length vk_hash = 32%nat ->
  settlement_main proof_valid app_state sw vk_hash = Ok b ->
  proof_valid = true /\
  match sw with
  | Some w => exists v, derive_values app_state w vk_hash = Ok v /\ version_of v = requested_version w /\
      derive_receipt_for_app_state app_state w vk_hash = Ok (settlement_of v) /\
      decode_values b = Ok v /\ length_of_version (requested_version w) = Some (length b)
  | None => decode_values b = Err (UnsupportedLength 577)
  end.
Proof.
  intros Hw Hvk ([] & Hp%assert_Ok & Hb)%bind_Ok. split; [done|]. destruct sw as [w|].
  - specialize (Hw w eq_refl). apply bind_Ok in Hb as (v & Hv & Hb). exists v.
    destruct (derive_values_typed app_state w vk_hash v Hw Hvk Hv) as (Ht & Hver & Hr).
    rewrite encode_frame in Hb by done. injection Hb as <-.
    rewrite <- Hver, length_typed_frame, decode_values_frame by done. done.
  - assert (length b = 577%nat) as Hl.
    { injection Hb as <-. unfold commit_zkapp_public_values.
      by rewrite !length_app, !(length_concat_n 32), !length_replicate, length_zeros, Hvk
        by (apply Forall_replicate, length_zeros). }
    unfold decode_values. by rewrite Hl.
Qed.

(** C14. A V3 or V4 receipt exposes only an authenticated registry
    checkpoint: the child-call forest hashes to the calls digest of the
    verified statement, and exactly one call of it, at any depth, carries the
    commitment to the registry key and to the root, count and schema version
    the receipt shows. *)
Theorem registry_checkpoint_authenticated app_state w vk_hash v key root count schema :
  derive_values app_state w vk_hash = Ok v ->
  exposed_checkpoint w v = Some (key, root, count, schema) ->
  let b := binding w in
  hash_call_forest (mina_signature_kind b) (call_forest b) = Ok (app_state !!! 1%nat) /\
  exists data, registry_checkpoint_call_data key root count schema = Ok data /\
    length (filter (fun c => call_matches data c = true) (forest_bodies (call_forest b))) = 1%nat.
Proof.
  intros (v1 & Hv1 & Hv)%bind_Ok He.
  assert (check_registry_binding app_state w = Ok tt) as Hreg.
  { do 5 (apply bind_Ok in Hv1 as (? & ? & Hv1)). by apply bind_Ok in Hv1 as ([] & Hreg & _). }
  pose proof (check_binding_forest app_state w Hreg) as Hf.
  pose proof (check_binding_calls app_state w Hreg) as [H3 H4].
  destruct (sw_inner_action_batch w) as [b|], (sw_asset_registry_checkpoint w) as [c|] eqn:Ec,
    (sw_asset_registry_batch w) as [d|] eqn:Ed; try done;
    try (injection Hv as <-; discriminate He); apply bind_Ok in Hv as (r & Hr & [= <-]); try done;
    cbn in He; rewrite ?Ec, ?Ed in He; injection He as <- <- <- <-.
  - destruct (H3 c eq_refl) as (why & [_ Hc]%check_registry_calls_Ok).
    do 5 (apply bind_Ok in Hr as ([] & _ & Hr)). do 2 (apply bind_Ok in Hr as (? & _ & Hr)).
    injection Hr as <-. split; [apply Hf; auto|exact Hc].
  - destruct (H4 d eq_refl) as (why & [_ Hc]%check_registry_calls_Ok).
    do 3 (apply bind_Ok in Hr as (? & _ & Hr)). apply bind_Ok in Hr as ([] & _ & Hr).
    injection Hr as <-. split; [apply Hf; auto|exact Hc].
Qed.


(** The body hash pins the account-update body down: two bodies of the
    same shape (field-element count and packed widths) with the same digest
    are equal, byte for byte, unless their two messages collide. *)
Theorem body_hash_binds k i1 i2 h :
  hash_account_update_body k i1 = Ok h -> hash_account_update_body k i2 = Ok h ->
  length (ro_field_elements i1) = length (ro_field_elements i2) ->
  map pf_bits (ro_packed i1) = map pf_bits (ro_packed i2) ->
  no_hash_collision [(body_prefix k, body_input i1); (body_prefix k, body_input i2)] -> i1 = i2.
Proof.
  intros [[Hf1 Hp1] ->]%hash_body_Ok [[Hf2 Hp2] He]%hash_body_Ok Hl Hw HQ.
  pose proof (no_hash_collision_elim _ (body_prefix k, body_input i1) (body_prefix k, body_input i2) HQ
    ltac:(set_solver) ltac:(set_solver) He) as [= Hi].
  apply app_inj_1 in Hi as [Hf Hp]; [|by rewrite !length_map].
  apply canonical_list_inj in Hf; [|done..]. apply packed_exact_inj in Hp; [|done..].
  destruct i1, i2. simpl in *. by subst.
Qed.

End guest.

Module Examples.
#[local] Existing Instance checksum_keccak.
#[local] Existing Instance mix_poseidon.
Definition batch : InnerActionBatchWitnessV2 :=
  {| ib_bridge_address := Registry.Examples.bridge; ib_actions := [ActionBatch.Examples.raw; ActionBatch.Examples.native] |}.
Definition inner_after : Z := Eval vm_compute in replay_actions 77 (ib_actions batch).
Definition act : list Z := [0; 1000; inner_after; 42; 119; 6; 100; 120].
Definition before : list Z := [1; 0; 3; 77; 40; 6; 7; 8].
Definition body : ChunkedRandomOracleInputV1 := Eval vm_compute in {|
  ro_field_elements := map field_to_bytes
    ([9; 9; 0; 0; 1000; inner_after; 42; 0; 0; 88; 0; 0; 0; 0; 0; action_hash act] ++ replicate 12 0 ++ before ++ [85]);
  ro_packed := [{| pf_value := to_be 32 7; pf_bits := 8 |}; {| pf_value := to_be 32 1; pf_bits := 1 |}] |}.
Definition checkpoint : AssetRegistryBatchCheckpointV4 := Registry.Examples.checkpoint.
Definition call_data : Z := Eval vm_compute in
  match registry_checkpoint_call_data (c4_registry_public_key checkpoint) (c4_root checkpoint)
    (c4_count checkpoint) (c4_schema_version checkpoint) with Ok d => from_be d | _ => 0 end.
Definition call (data : Z) (calls : list CallForestNodeV3) : CallForestNodeV3 :=
  CallNode {| ro_field_elements := map field_to_bytes (replicate 16 0 ++ [data]); ro_packed := [] |} calls.
Definition forest : list CallForestNodeV3 := [call 5 [call call_data []]; call 6 []].
Definition app_state : list Z := Eval vm_compute in
  [phash (body_prefix Testnet) (body_input body); forest_hash Testnet forest].
Definition w : SettlementWitnessV1 := {|
  binding := {| mina_signature_kind := Testnet; account_update_body := body;
                sb_actions := [map field_to_bytes act];
                sb_state_before := {| os_fields := map field_to_bytes before |}; call_forest := forest |};
  context := {| sc_chain_id := 11155111; sc_settlement_contract := to_be 20 16; sc_batch_sequence := 1;
                sc_mina_transaction_hash := to_be 32 68; sc_outer_action_state_length_before := 7 |};
  sw_inner_action_batch := Some batch;
  sw_asset_registry_checkpoint := None;
  sw_asset_registry_batch := Some checkpoint |}.
Lemma w_typed : typed_witness w.
Proof.
  unfold typed_witness, typed_context, typed_batch, typed_checkpoint4, typed_action, is_u32, is_u64; simpl.
  split_and!; try lia; try done; repeat constructor; simpl; unfold is_u64; try lia; done.
Qed.
Lemma w_typed_some w' : Some w = Some w' -> typed_witness w'.
Proof. intros [= <-]. exact w_typed. Qed.
End Examples.

Lemma settlement_receipt_exact_witness :
  exists act before, binding_valid (H0 := mix_poseidon) Examples.app_state Examples.w act before.
Proof.
  assert (is_ok (derive_receipt_for_app_state (H0 := mix_poseidon) Examples.app_state Examples.w (to_be 32 34)) = true)
    as Hok by (vm_compute; reflexivity).
  destruct (is_ok_Ok _ Hok) as [v Hv].
  destruct (proj2 (proj1 (settlement_receipt_exact (H0 := mix_poseidon) Examples.app_state Examples.w
    (to_be 32 34) v eq_refl) Hv)) as (act & before & Hb & _).
  exists act, before. exact Hb.
Defined.

Lemma settlement_commits_decodable_witness : exists b v,
  settlement_main (H := checksum_keccak) (H0 := mix_poseidon) true Examples.app_state (Some Examples.w)
    (to_be 32 34) = Ok b /\ decode_values b = Ok v /\ version_of v = 4.
Proof.
  assert (is_ok (settlement_main (H := checksum_keccak) (H0 := mix_poseidon) true Examples.app_state
    (Some Examples.w) (to_be 32 34)) = true) as Hok by (vm_compute; reflexivity).
  destruct (is_ok_Ok _ Hok) as [b Hb]. exists b.
  destruct (settlement_commits_decodable (H := checksum_keccak) (H0 := mix_poseidon) true Examples.app_state
    (Some Examples.w) (to_be 32 34) b Examples.w_typed_some eq_refl Hb) as (_ & v & _ & Hver & _ & Hd & _).
  exists v. split; [exact Hb|]. split; [exact Hd|exact Hver].
Defined.

Lemma registry_checkpoint_authenticated_witness :
  hash_call_forest (H0 := mix_poseidon) Testnet Examples.forest = Ok (Examples.app_state !!! 1%nat).
Proof.
  assert ((exposed_checkpoint Examples.w <$> derive_values (H := checksum_keccak) (H0 := mix_poseidon)
    Examples.app_state Examples.w (to_be 32 34)) =
    Ok (Some (c4_registry_public_key Examples.checkpoint, c4_root Examples.checkpoint, 6, 1))) as Hok
    by (vm_compute; reflexivity).
  destruct (proj1 (fmap_Ok _ _ _) Hok) as (v & Hv & He).
  exact (proj1 (registry_checkpoint_authenticated (H := checksum_keccak) (H0 := mix_poseidon)
    Examples.app_state Examples.w (to_be 32 34) v _ _ _ _ Hv (eq_sym He))).
Defined.


Lemma body_hash_binds_witness : Examples.body = Examples.body.
Proof.
  refine (body_hash_binds (H0 := mix_poseidon) Testnet Examples.body Examples.body
    (Examples.app_state !!! 0%nat) _ _ eq_refl eq_refl (hash_collision_free_check _ _)).
  - vm_compute. reflexivity.
  - vm_compute. reflexivity.
  - vm_compute. reflexivity.
Defined.
