(* ===== verification/Rpc.v ===== *)
(** * Errors and the RPC transport ([api/src/rpc.rs])

    The error chains the gateway inspects, their classification, and the retry
    loop of the Ethereum transport: what an attempt answered is an argument,
    and [execute] decides whether the request is sent again. *)

From S2P Require Import Prelude.

(** ** Strings *)

Definition ascii_lowercase (c : Ascii.ascii) : Ascii.ascii :=
  let n := Ascii.nat_of_ascii c in
  if ((65 <=? n) && (n <=? 90))%nat then Ascii.ascii_of_nat (n + 32) else c.

(** [str::to_ascii_lowercase]. *)
Fixpoint to_ascii_lowercase (s : string) : string :=
  match s with
  | EmptyString => EmptyString
  | String c s => String (ascii_lowercase c) (to_ascii_lowercase s)
  end.

(** [str::contains] and [str::starts_with]. *)
Fixpoint contains (pattern s : string) : bool :=
  String.prefix pattern s ||
  match s with
  | EmptyString => false
  | String _ s => contains pattern s
  end.
Definition starts_with (pattern s : string) : bool := String.prefix pattern s.

(** ** Error chains *)

(** What the gateway asks of a [TransportError]: the JSON-RPC error response
    or the HTTP status it carries. *)
Inductive TransportError :=
| ErrorResp (code : Z) (message : string)
| HttpError (status : Z)
| OtherTransport.

Inductive SqlxError :=
| SqlxIo | SqlxPoolTimedOut | SqlxPoolClosed | SqlxWorkerCrashed
| SqlxDatabase (code : option string)
| SqlxOther.

(** One error of an [anyhow] chain with the text it displays; [Coordination]
    is [CoordinationError], whose text is [code: message]. *)
Inductive cause :=
| Coordination (code message : string)
| SnapshotUnavailableError (display : string)
| RpcUnavailable (display : string)
| Reqwest (display : string) (is_timeout is_connect is_request is_body : bool)
| Transport (display : string) (error : TransportError)
| Sqlx (display : string) (error : SqlxError)
| Other (display : string).

(** [anyhow::Error]: the outermost context first. *)
Abbreviation error := (list cause).

Definition display (c : cause) : string :=
  match c with
  | Coordination code message => (code ++ ": " ++ message)%string
  | SnapshotUnavailableError d | RpcUnavailable d | Reqwest d _ _ _ _ | Transport d _ | Sqlx d _ | Other d => d
  end.

(** [format!("{error:#}")]. *)
Definition error_message (e : error) : string := String.concat ": " (map display e).

(** [anyhow!], [bail!], [ensure!] and [context]. *)
Definition message (text : string) : error := [Other text].
Definition with_context {A} (o : outcome error A) (why : string) : outcome error A :=
  match o with Err e => Err (message why ++ e) | o => o end.

Inductive FailureKind := KindSnapshotUnavailable | KindTransient | KindInsufficientFunds | KindOther.

#[export] Instance FailureKind_eq_dec : EqDecision FailureKind.
Proof. solve_decision. Defined.

Definition transient_rpc_error (code : Z) (msg : string) : bool :=
  let msg := to_ascii_lowercase msg in
  (code =? 429) || (code =? -32005) || (code =? -32007) || contains "rate limit" msg ||
  contains "too many requests" msg || contains "temporarily unavailable" msg.

Definition transient_http_status (status : Z) : bool :=
  (status =? 408) || (status =? 429) || (status =? 500) || (status =? 502) || (status =? 503) ||
  (status =? 504).

(** [rpc_error]: the transport error a cause is or wraps. *)
Definition rpc_error (c : cause) : option TransportError :=
  match c with Transport _ error => Some error | _ => None end.

Definition rate_limited (e : TransportError) : bool :=
  match e with
  | HttpError status => status =? 429
  | ErrorResp code msg =>
    (code =? 429) || (code =? -32005) || (code =? -32007) ||
    contains "rate limit" (to_ascii_lowercase msg) || contains "too many requests" (to_ascii_lowercase msg)
  | OtherTransport => false
  end.

Definition is_rate_limited (e : error) : bool := existsb (fun c => from_option rate_limited false (rpc_error c)) e.

(** One round of the loop of [classify]: an early return, or the next cause. *)
Definition classify_cause (c : cause) : option FailureKind :=
  match c with
  | SnapshotUnavailableError _ => Some KindSnapshotUnavailable
  | RpcUnavailable _ => Some KindTransient
  | Reqwest _ is_timeout is_connect is_request is_body =>
    if is_timeout || is_connect || is_request || is_body then Some KindTransient else None
  | Transport _ (ErrorResp code msg) =>
    if contains "insufficient funds" (to_ascii_lowercase msg) then Some KindInsufficientFunds
    else if transient_rpc_error code msg then Some KindTransient else None
  | Transport _ (HttpError status) => if transient_http_status status then Some KindTransient else None
  | _ => None
  end.

Fixpoint rpc_classify (e : error) : FailureKind :=
  match e with
  | [] => KindOther
  | c :: e => match classify_cause c with Some k => k | None => rpc_classify e end
  end.

(** ** Snapshots at a pinned block *)

(** The UTF-8 encodings of the characters with the property [White_Space]. *)
Definition white_space : list (list Ascii.ascii) :=
  map (map Ascii.ascii_of_nat)
    (map (fun c => [c]) [9; 10; 11; 12; 13; 32]%nat ++ [[194; 133]; [194; 160]; [225; 154; 128]]%nat ++
     map (fun c => [226; 128; 128 + c]%nat) (seq 0 11) ++
     [[226; 128; 168]; [226; 128; 169]; [226; 128; 175]; [226; 129; 159]; [227; 128; 128]]%nat).

#[local] Instance ascii_eq_dec : EqDecision Ascii.ascii := Ascii.ascii_dec.

Fixpoint trim_front (spaces : list (list Ascii.ascii)) (fuel : nat) (l : list Ascii.ascii) : list Ascii.ascii :=
  match fuel with
  | O => l
  | S fuel =>
    match list_find (fun space => space `prefix_of` l) spaces with
    | Some (_, space) => trim_front spaces fuel (drop (length space) l)
    | None => l
    end
  end.

(** [str::trim]: every round removes a byte at least. *)
Definition trim (s : string) : string :=
  let l := list_ascii_of_string s in
  let l := trim_front white_space (length l) l in
  string_of_list_ascii (rev (trim_front (map (@rev _) white_space) (length l) (rev l))).

Definition snapshot_messages : list string :=
  ["hash is not currently canonical"; "block is not canonical"; "block not canonical"; "block hash is not canonical";
   "header for hash not found"; "header not found"; "block not found"; "unknown block"; "resource not found"]%string.
Definition snapshot_error (c : cause) : bool :=
  match rpc_error c with
  | Some (ErrorResp code msg) =>
    bool_decide (code ∈ [-32000; -32001; -32603]) && bool_decide (to_ascii_lowercase (trim msg) ∈ snapshot_messages)
  | _ => false
  end.

Definition read_pinned_snapshot {A} (block_hash : string) (read : outcome error A) : outcome error A :=
  match read with
  | Err e =>
    if existsb snapshot_error e then
      Err (SnapshotUnavailableError ("Ethereum snapshot " ++ block_hash ++
             " is unavailable; retry the stage with a fresh canonical block: " ++ from_option display ""%string (head e))%string :: e)
    else Err e
  | result => result
  end.

Lemma read_pinned_snapshot_Ok {A} block_hash (read : outcome error A) a :
  read_pinned_snapshot block_hash read = Ok a <-> read = Ok a.
Proof. unfold read_pinned_snapshot. destruct read as [| e|]; [done| |done]. by destruct (existsb snapshot_error e). Qed.

(** A failed read is classified as an unavailable snapshot exactly when the
    node said so, or when it was classified so before. *)
Lemma read_pinned_snapshot_classified {A} block_hash (read : outcome error A) e e' :
  read = Err e -> read_pinned_snapshot block_hash read = Err e' ->
  rpc_classify e' = if existsb snapshot_error e then KindSnapshotUnavailable else rpc_classify e.
Proof. intros ->. cbn. by destruct (existsb snapshot_error e); intros [= <-]. Qed.

Example snapshot_message_is_trimmed :
  snapshot_error (Transport "" (ErrorResp (-32000) (" Header for hash NOT found" ++ String (Ascii.ascii_of_nat 10) "")%string)) &&
  negb (snapshot_error (Transport "" (ErrorResp (-32000) "execution reverted: header not found"))) = true.
Proof. vm_compute. reflexivity. Qed.

(** ** The retry loop *)

Record RpcConfig := {
  requests_per_second : Z;
  max_concurrent : Z;
  max_retries : Z;
  initial_backoff : Z;
  max_backoff : Z;
  request_timeout : Z;
  operation_timeout : Z
}.

Definition validate (c : RpcConfig) : outcome error unit :=
  ensure ((0 <? requests_per_second c) && (0 <? max_concurrent c))
    (message "Ethereum RPC rate and concurrency limits must be positive");;
  ensure (negb (initial_backoff c =? 0) && (initial_backoff c <=? max_backoff c))
    (message "invalid Ethereum RPC backoff bounds");;
  ensure (negb (request_timeout c =? 0) && (request_timeout c <=? operation_timeout c))
    (message "invalid Ethereum RPC timeout bounds").

(** [Duration::MAX] in nanoseconds. *)
Definition duration_MAX : Z := (2 ^ 64 - 1) * 1000000000 + 999999999.

(** The ceiling [backoff] jitters below. *)
Definition backoff_ceiling (c : RpcConfig) (retry : Z) : Z :=
  let factor := if retry <? 32 then 2 ^ retry else u32_MAX in
  Z.min (Z.min (initial_backoff c * factor) duration_MAX) (max_backoff c).

Definition is_read_method (method : string) : bool :=
  bool_decide (method ∈ ["eth_call"; "eth_estimateGas"; "eth_chainId"; "eth_blockNumber"; "eth_gasPrice";
    "eth_maxPriorityFeePerGas"; "eth_feeHistory"; "net_version"; "eth_getBlockByNumber"; "eth_getBlockByHash";
    "eth_getTransactionByHash"; "eth_getTransactionReceipt"; "eth_getTransactionCount"; "eth_getLogs";
    "eth_getBalance"; "eth_getCode"; "eth_getStorageAt"; "eth_getProof"; "eth_getBlockReceipts"]%string).

(** What one attempt of the HTTP client answered. *)
Inductive reply :=
| SendFailed (is_timeout is_connect is_request is_body : bool)
| BodyFailed
| BadStatus (status : Z)
| BadBody
| Packet (errors : list (Z * string)).

(** The result [execute] builds from a reply, and the final failure of a read
    whose retries are exhausted. *)
Inductive execute_result :=
| Answer (packet : reply)
| Failed (error : reply)
| Unavailable (last : reply).

Definition reply_result (r : reply) : execute_result :=
  match r with Packet _ => Answer r | _ => Failed r end.

Definition reply_transient (r : reply) : bool :=
  match r with
  | SendFailed is_timeout is_connect is_request is_body => is_timeout || is_connect || is_request || is_body
  | BodyFailed => true
  | BadStatus status => transient_http_status status
  | BadBody => false
  | Packet errors => existsb (fun '(code, msg) => transient_rpc_error code msg) errors
  end.

(** The loop [for attempt in 0..=max_retries]: [remaining] attempts follow
    this one; the result and the number of times the request was sent. *)
Fixpoint execute_loop (read_only : bool) (replies : nat -> reply) (attempt remaining : nat)
    : execute_result * nat :=
  let r := replies attempt in
  if negb (reply_transient r) || negb read_only then (reply_result r, S attempt)
  else match remaining with
  | O => (Unavailable r, S attempt)
  | S remaining => execute_loop read_only replies (S attempt) remaining
  end.

Definition execute (c : RpcConfig) (methods : list string) (replies : nat -> reply) : execute_result * nat :=
  execute_loop (forallb is_read_method methods) replies 0 (Z.to_nat (max_retries c)).
