(* ===== verification/Pickles.v ===== *)
(** * The Pickles verifier ([crates/pickles-verifier/src]) and its host

    [statement.rs], [lib.rs], [deferred.rs] and [types.rs]: the guest's
    verifier, whose three stages are the binding of the application statement
    and the accumulator check, the expansion of the deferred values into the
    public input of the wrap proof, and one Kimchi verification of the batch.
    [convert.rs]: what the host makes of a parsed proof.  [script/src/lib.rs]:
    the native preflight of a settlement.

    Kimchi and arkworks are parameters ([KimchiCode]): the verification of a
    batch, the replay of the transcript, the linearization, the
    multi-scalar multiplication and the sponge of [Fq].  The sponge of [Fp]
    is that of [Field.v] and [Kimchi.v], and the expansion of challenges and
    the challenge polynomial are the vendored code. *)

From Stdlib Require Import Strings.Byte DecimalString.
From stdpp Require Import gmap.
From S2P Require Import Prelude Hashing PublicValues Field Merkle Registry ActionBatch SettlementGuest Wire Rpc.

(** ** Values ([types.rs]) *)

(** An SRS: its generators, the blinder and the cached Lagrange bases. *)
Record Srs := { srs_g : list point; srs_h : point; lagrange_bases : gmap Z (list poly_comm) }.

Section values.
Context `{WireCode}.

(** The linearizations a [Verifier] also holds are functions of constants. *)
Record Verifier := {
  wrap_vk : WrapVerifierIndex;
  wrap_srs : Srs;
  vesta_srs : Srs;
  step_zk_rows : Z;
  step_srs_length_log2 : nat;
  step_endo : Z
}.

Record VerifiableProof := {
  wrap_proof : WrapProof;
  vp_raw_plonk : PlonkMinimal;
  vp_raw_bulletproof_challenges : list Z;
  vp_branch_data : BranchData;
  vp_sponge_digest_before_evaluations : Z;
  vp_prev_evals : ChunkedAllEvals;
  vp_p_eval0_chunks : list Z;
  old_bulletproof_challenges : list (list Z);
  app_state : list Z;
  vp_prev_step_sgs : list point;
  vp_challenge_polynomial_commitment : point;
  messages_for_next_step_proof_digest : Z;
  messages_for_next_wrap_proof_digest : Z;
  vp_step_domain_log2 : Z
}.
End values.

(** ** Challenges (vendored [mina-poseidon/src/sponge.rs]) *)

(** One round of [to_field_with_length]: bits [2i] and [2i + 1]. *)
Definition endo_step (order rep : Z) (ab : Z * Z) (i : Z) : Z * Z :=
  let '(a, b) := (2 * ab.1, 2 * ab.2) in
  let s := if Z.testbit rep (2 * i) then 1 else -1 in
  if Z.testbit rep (2 * i + 1) then ((a + s) mod order, b mod order) else (a mod order, (b + s) mod order).
Definition to_field_with_length (order : Z) (length_in_bits : nat) (endo_coeff rep : Z) : Z :=
  let ab := foldl (endo_step order rep) (2, 2) (rev (Z.of_nat <$> seq 0 (length_in_bits / 2))) in
  (ab.1 * endo_coeff + ab.2) mod order.
(** [CHALLENGE_LENGTH_IN_LIMBS] is 2. *)
Definition to_field (order endo_coeff rep : Z) : Z := to_field_with_length order 128 endo_coeff rep.

(** ** The challenge polynomial (vendored [poly-commitment/src/commitment.rs]) *)

Definition b_poly (order : Z) (chals : list Z) (x : Z) : Z :=
  let pow_twos := foldl (fun l _ => l ++ [(default 0 (last l) * default 0 (last l)) mod order]) [x]
                    (seq 1 (length chals - 1)) in
  foldl (fun acc i => acc * (1 + chals !!! i * pow_twos !!! (length chals - 1 - i)%nat) mod order) 1
    (seq 0 (length chals)).

Record coefficients_state := { cs_s : list Z; cs_k : nat; cs_pow : nat }.
Definition coefficients_step (order : Z) (chals : list Z) (st : coefficients_state) (i : nat) : coefficients_state :=
  let hit := (i =? cs_pow st)%nat in
  let k := (cs_k st + if hit then 1 else 0)%nat in
  let pow := (if hit then 2 * cs_pow st else cs_pow st)%nat in
  {| cs_s := <[i := (cs_s st !!! (i - pow / 2)%nat * chals !!! (length chals - 1 - (k - 1))%nat) mod order]> (cs_s st);
     cs_k := k; cs_pow := pow |}.
Definition b_poly_coefficients (order : Z) (chals : list Z) : list Z :=
  let s_length := (2 ^ length chals)%nat in
  cs_s (foldl (coefficients_step order chals) {| cs_s := replicate s_length 1; cs_k := 0; cs_pow := 1 |}
          (seq 1 (s_length - 1))).

(** [combined_inner_product]: the polynomials without chunks are skipped; every
    chunk weighs the next power of [polyscale], its points those of
    [evalscale].  A point with fewer chunks than the first is an index out of
    bounds. *)
Definition chunk_columns (evals_tr : list (list Z)) : guest (list (list Z)) :=
  mapM (fun i => mapM (fun v : list Z => expect (v !! i) "index out of bounds") evals_tr)
    (seq 0 (length (default [] (head evals_tr)))).
Definition eval_polynomial (order : Z) (coeffs : list Z) (x : Z) : Z :=
  foldr (fun c acc => (c + x * acc) mod order) 0 coeffs.
Definition combined_inner_product (order polyscale evalscale : Z) (polys : list (list (list Z))) : guest Z :=
  columns ← mapM chunk_columns polys;
  mret (foldl (fun '(res, polyscale_i) eval =>
                 ((res + polyscale_i * eval_polynomial order eval evalscale) mod order,
                  polyscale_i * polyscale mod order))
          (0, 1) (concat columns)).1.

(** ** The libraries *)

(** The arguments of Kimchi's [oracles_from_digest]. *)
Record OracleRequest := {
  or_domain_size : Z;
  or_max_poly_size : Z;
  or_zk_rows : Z;
  or_endo : Z;
  or_linearized_flags : FeatureFlags;
  or_digest : Z;
  or_alpha : Z;
  or_beta : Z;
  or_gamma : Z;
  or_zeta : Z;
  or_alpha_chal : Z;
  or_zeta_chal : Z;
  or_joint_combiner : option (Z * Z);
  or_prev_challenges : list (list Z);
  or_evals : ChunkedAllEvals;
  or_ft_eval1 : Z
}.
Record DigestOracles := {
  oracle_v : Z;
  oracle_v_chal : Z;
  oracle_u : Z;
  permutation_alphas : list Z;
  public_evals : list (list Z);
  powers_of_eval_points_for_chunks : Z * Z;
  polys : list (list (list Z));
  zeta1 : Z;
  oracle_ft_eval0 : Z
}.

Class KimchiCode `{WireCode} := {
  (* [endos::<Vesta>().1], [endos::<Pallas>().1], [endos::<Pallas>().0] *)
  vesta_scalar_endo : Z;
  pallas_scalar_endo : Z;
  pallas_base_endo : Z;
  (* the generator of the [StepField] domain of a size *)
  step_group_gen : Z -> option Z;
  field_inverse : Z -> option Z;
  oracles_from_digest : OracleRequest -> option DigestOracles;
  (* [ProofEvaluations::combine] and its [public], [perm_scalars] *)
  collapsed : Type;
  combine : ChunkedAllEvals -> Z * Z -> collapsed;
  collapsed_public : collapsed -> option (Z * Z);
  perm_scalars : collapsed -> Z -> Z -> list Z -> Z -> Z;
  (* [VariableBaseMSM::msm] over Vesta *)
  vesta_msm : list point -> list Z -> option point;
  (* the sponge over [Fq]: absorb, squeeze *)
  fq_hash : list Z -> Z;
  blake2s256 : bytes -> bytes;
  (* postcard of the Kimchi proof *)
  postcard_proof : WrapProof -> bytes;
  (* [batch_verify_with_rng] of proofs and public inputs, by seed *)
  batch_verify_with_rng : WrapVerifierIndex -> Srs -> list (WrapProof * list Z) -> bytes -> bool
}.

(** The sponge over [Fp]: absorb, squeeze. *)
Definition fp_hash `{Poseidon} (inputs : list Z) : Z :=
  (squeeze (absorb {| sponge_state := Absorbed 0; as_state := empty_sponge |} inputs)).1.

Section pickles.
Context `{WC : WireCode} `{KC : !KimchiCode} `{PO : Poseidon}.

(** ** The application statement ([statement.rs]) *)

(** The first chunk of every commitment of the key, in the order of the
    digest; [None] if one has no chunk. *)
Definition wrap_vk_step_fields (vk : WrapVerifierIndex) : option (list Z) :=
  points ← mapM (fun pc : poly_comm => head pc) (sigma_comm vk ++ coefficients_comm vk ++ selector_comms vk);
  Some (concat ((fun p => [px p; py p]) <$> points)).

(** What the previous proofs add: the commitment and the challenges of each. *)
Definition previous_inputs (proofs : list (point * list Z)) : list Z :=
  concat ((fun p => px p.1 :: py p.1 :: p.2) <$> proofs).

Definition app_state_digest (verifier : Verifier) (proof : VerifiableProof) : option Z :=
  if (length (vp_prev_step_sgs proof) =? length (old_bulletproof_challenges proof))%nat then
    vk_fields ← wrap_vk_step_fields (wrap_vk verifier);
    Some (fp_hash (vk_fields ++ app_state proof ++
                   previous_inputs (zip (vp_prev_step_sgs proof) (old_bulletproof_challenges proof))))
  else None.

Definition check_app_state_binding (verifier : Verifier) (proof : VerifiableProof) : bool :=
  bool_decide (app_state_digest verifier proof = Some (messages_for_next_step_proof_digest proof)).

(** ** The accumulator ([lib.rs]) *)

Definition expanded_challenges (endo : Z) (raw : list Z) : list Z := to_field field_order endo <$> raw.

Definition accumulator_check (verifier : Verifier) (proof : VerifiableProof) : guest bool :=
  let chals := expanded_challenges (step_endo verifier) (vp_raw_bulletproof_challenges proof) in
  let coeffs := b_poly_coefficients field_order chals in
  let g := srs_g (vesta_srs verifier) in
  let expected_len := (2 ^ step_srs_length_log2 verifier)%nat in
  if negb (length coeffs =? expected_len)%nat || (length g <? expected_len)%nat then Ok false
  else
    computed_sg ← expect (vesta_msm (take expected_len g) coeffs) "compute_sg MSM";
    Ok (bool_decide (computed_sg = vp_challenge_polynomial_commitment proof)).

(** ** The deferred values ([deferred.rs]) *)

Record ExpandedDeferredValues := {
  dv_alpha : Z; dv_beta : Z; dv_gamma : Z; dv_zeta : Z;
  dv_perm : Z; dv_zeta_to_domain_size : Z; dv_zeta_to_srs_length : Z;
  dv_combined_inner_product : Z;
  dv_xi : Z;
  dv_bulletproof_prechallenges : list Z;
  dv_b : Z;
  dv_new_bulletproof_challenges : list Z;
  dv_branch_data : BranchData;
  dv_x_hat_eval : Z * Z;
  dv_sponge_digest_before_evaluations : Z;
  dv_r : Z;
  dv_ft_eval0 : Z;
  dv_feature_flags : FeatureFlags;
  dv_joint_combiner : option Z
}.

Definition pe (p : PointEvaluations) : list (list Z) := [zeta_evals p; zeta_omega_evals p].

(** The table of evaluations: the challenge polynomials, the public input,
    [ft], [z], the selectors, the witness, coefficient and sigma columns, and
    the optional columns that are there. *)
Definition evaluation_table (polys : list (list (list Z))) (public_evals : list (list Z)) (ft_eval0 : Z)
    (e : ChunkedAllEvals) : list (list (list Z)) :=
  polys ++ [public_evals; [[ft_eval0]; [ca_ft_eval1 e]]; pe (ca_z e)] ++ (pe <$> ca_index e) ++ (pe <$> ca_w e) ++
  (pe <$> ca_coefficients e) ++ (pe <$> ca_s e) ++ (pe <$> omap id (take 6 (ca_optional e))) ++
  (pe <$> omap id (ca_lookup_sorted e)) ++ (pe <$> omap id (drop 6 (ca_optional e))).

Definition fp_sub (a b : Z) : Z := (a - b) mod field_order.
Definition fp_pow (x n : Z) : Z := (x ^ n) mod field_order.

(** [1usize << domain_log2]: the guest has 64-bit words and no overflow
    checks, so the shift amount is masked. *)
Definition domain_size (log2 : Z) : Z := 2 ^ (log2 mod 64).

Definition expand_deferred (verifier : Verifier) (proof : VerifiableProof) : guest ExpandedDeferredValues :=
  let endo := step_endo verifier in
  let raw := vp_raw_plonk proof in
  generator ← expect (step_group_gen (domain_size (vp_step_domain_log2 proof))) "no radix-2 domain";
  let max_poly_size := 2 ^ Z.of_nat (step_srs_length_log2 verifier) in
  let zk_rows := step_zk_rows verifier in
  let evals := vp_prev_evals proof in
  let zeta := to_field field_order endo (zeta raw) in
  o ← expect (oracles_from_digest {|
        or_domain_size := domain_size (vp_step_domain_log2 proof); or_max_poly_size := max_poly_size;
        or_zk_rows := zk_rows; or_endo := pallas_base_endo; or_linearized_flags := feature_flags raw;
        or_digest := vp_sponge_digest_before_evaluations proof;
        or_alpha := to_field field_order endo (alpha raw); or_beta := beta raw; or_gamma := gamma raw; or_zeta := zeta;
        or_alpha_chal := alpha raw; or_zeta_chal := Wire.zeta raw;
        or_joint_combiner := (fun c => (c, to_field field_order endo c)) <$> joint_combiner raw;
        or_prev_challenges := old_bulletproof_challenges proof; or_evals := evals;
        or_ft_eval1 := ca_ft_eval1 evals |}) "oracles_from_digest";
  let xi := oracle_v o in
  let r := oracle_u o in
  let zetaw := fp_mul zeta generator in
  cip ← combined_inner_product field_order xi r (evaluation_table (polys o) (public_evals o) (oracle_ft_eval0 o) evals);
  let columns := combine evals (powers_of_eval_points_for_chunks o) in
  omega_inv ← expect (field_inverse generator) "generator nonzero";
  let omega_to_minus_zk_rows := fp_pow omega_inv zk_rows in
  let omega_to_zk_plus_1 := fp_pow omega_inv ((zk_rows - 1) mod 2 ^ 64) in
  let zk_polynomial := fp_mul (fp_mul (fp_sub zeta omega_inv) (fp_sub zeta omega_to_zk_plus_1))
                         (fp_sub zeta omega_to_minus_zk_rows) in
  let perm := perm_scalars columns (beta raw) (gamma raw) (permutation_alphas o) zk_polynomial in
  let new_chals := expanded_challenges endo (vp_raw_bulletproof_challenges proof) in
  let b := fp_add (b_poly field_order new_chals zeta) (fp_mul r (b_poly field_order new_chals zetaw)) in
  x_hat ← expect (collapsed_public columns) "public eval present";
  mret {| dv_alpha := alpha raw; dv_beta := beta raw; dv_gamma := gamma raw; dv_zeta := Wire.zeta raw;
          dv_perm := perm; dv_zeta_to_domain_size := zeta1 o;
          dv_zeta_to_srs_length := (powers_of_eval_points_for_chunks o).1; dv_combined_inner_product := cip;
          dv_xi := oracle_v_chal o; dv_bulletproof_prechallenges := vp_raw_bulletproof_challenges proof; dv_b := b;
          dv_new_bulletproof_challenges := new_chals; dv_branch_data := vp_branch_data proof; dv_x_hat_eval := x_hat;
          dv_sponge_digest_before_evaluations := vp_sponge_digest_before_evaluations proof; dv_r := r;
          dv_ft_eval0 := oracle_ft_eval0 o; dv_feature_flags := feature_flags raw;
          dv_joint_combiner := joint_combiner raw |}.

(** *** The public input of the wrap proof *)

Definition fp_to_fq (x : Z) : Z := x mod wrap_order.

(** [(raw - (2^255 + 1)) / 2] in [Fp]; the scale is the inverse of two. *)
Definition type1_scale : Z := (field_order + 1) / 2.
Definition cross_field_type1 (raw : Z) : Z :=
  fp_to_fq (fp_mul (fp_sub raw (fp_add (fp_pow 2 255) 1)) type1_scale).

Definition fq_bit (b : bool) : Z := if b then 1 else 0.
Definition pack_branch_data (bd : BranchData) : Z :=
  (4 * fp_to_fq (domain_log2 bd) + fq_bit (proofs_verified_mask bd).1 + 2 * fq_bit (proofs_verified_mask bd).2)
    mod wrap_order.

Definition wrap_public_input (dv : ExpandedDeferredValues) (next_step_digest next_wrap_digest : Z) : list Z :=
  let features := dv_feature_flags dv in
  [cross_field_type1 (dv_combined_inner_product dv); cross_field_type1 (dv_b dv);
   cross_field_type1 (dv_zeta_to_srs_length dv); cross_field_type1 (dv_zeta_to_domain_size dv);
   cross_field_type1 (dv_perm dv)] ++
  [fp_to_fq (dv_beta dv); fp_to_fq (dv_gamma dv)] ++
  [fp_to_fq (dv_alpha dv); fp_to_fq (dv_zeta dv); fp_to_fq (dv_xi dv)] ++
  [fp_to_fq (dv_sponge_digest_before_evaluations dv); next_wrap_digest; fp_to_fq next_step_digest] ++
  (fp_to_fq <$> dv_bulletproof_prechallenges dv) ++
  [pack_branch_data (dv_branch_data dv)] ++
  [fq_bit (range_check0 features); fq_bit (range_check1 features); fq_bit (foreign_field_add features);
   fq_bit (foreign_field_mul features); fq_bit (xor features); fq_bit (rot features);
   fq_bit (lp_lookup (patterns features)); fq_bit (uses_runtime_tables features)] ++
  match dv_joint_combiner dv with Some challenge => [1; fp_to_fq challenge] | None => [0; 0] end.

(** ** Verification ([lib.rs]) *)

(** [usize] and field elements of arkworks' [serialize_compressed]. *)
Definition to_le (n : nat) (z : Z) : bytes := rev (to_be n z).
Definition serialize_compressed (l : list Z) : bytes :=
  to_le 8 (Z.of_nat (length l)) ++ concat (to_le 32 <$> l).

(** What the hasher absorbs for one proof. *)
Definition batching_chunk (p : VerifiableProof) (pi : list Z) : bytes :=
  let proof_bytes := postcard_proof (wrap_proof p) in
  let pi_bytes := serialize_compressed pi in
  to_le 8 (Z.of_nat (length proof_bytes)) ++ proof_bytes ++ to_le 8 (Z.of_nat (length pi_bytes)) ++ pi_bytes.
Definition batching_rng (proofs : list VerifiableProof) (pis : list (list Z)) : bytes :=
  blake2s256 (ascii "pickles-verifier/batch-dlog-rng/v1" ++ concat (zip_with batching_chunk proofs pis)).

Definition deferred_input (verifier : Verifier) (p : VerifiableProof) : guest (list Z) :=
  dv ← expand_deferred verifier p;
  mret (wrap_public_input dv (messages_for_next_step_proof_digest p) (messages_for_next_wrap_proof_digest p)).

(** [proofs.iter().all(...)]: it stops at the first proof that fails. *)
Fixpoint all_checked (verifier : Verifier) (proofs : list VerifiableProof) : guest bool :=
  match proofs with
  | [] => Ok true
  | p :: proofs =>
    if check_app_state_binding verifier p then
      ok ← accumulator_check verifier p; if ok : bool then all_checked verifier proofs else Ok false
    else Ok false
  end.

Definition verify_batch (verifier : Verifier) (proofs : list VerifiableProof) : guest bool :=
  checked ← all_checked verifier proofs;
  if negb checked then Ok false
  else
    pis ← mapM (deferred_input verifier) proofs;
    mret (batch_verify_with_rng (wrap_vk verifier) (wrap_srs verifier) (zip (wrap_proof <$> proofs) pis)
            (batching_rng proofs pis)).

Definition verify (verifier : Verifier) (proof : VerifiableProof) : guest bool := verify_batch verifier [proof].

(** ** [Verifier::new] ([types.rs]) *)

Definition new_verifier (wrap_vk : WrapVerifierIndex) (wrap_srs vesta_srs : Srs) (step_num_chunks : Z) : Verifier := {|
  wrap_vk := wrap_vk; wrap_srs := wrap_srs; vesta_srs := vesta_srs;
  step_zk_rows := (16 * step_num_chunks + 5) / 7; step_srs_length_log2 := STEP_IPA_ROUNDS;
  step_endo := vesta_scalar_endo |}.

(** ** Conversion of a parsed proof ([convert.rs]) *)

Definition PADDED_LENGTH : nat := 2.

(** [format!("chal_{i}")]. *)
Definition chal_name (i : nat) : bytes := ascii ("chal_" ++ NilEmpty.string_of_uint (Nat.to_uint i)).
(** The low 128 bits of the digest, little-endian. *)
Definition dummy_challenge (i : nat) : Z :=
  let digest := blake2s256 (chal_name i) in
  from_be (rev (take 8 digest)) + 2 ^ 64 * from_be (rev (take 8 (drop 8 digest))).
Definition dummy_ipa_wrap_expanded (wrap_endo : Z) : list Z :=
  rev ((fun i => to_field wrap_order wrap_endo (dummy_challenge i)) <$> seq 1 WRAP_IPA_ROUNDS).

Definition hash_messages_for_next_step (vk_fields app_state : list Z) (proofs : list (point * list Z)) : Z :=
  fp_hash (vk_fields ++ app_state ++ previous_inputs proofs).
Definition hash_messages_for_next_wrap (cpc : point) (padded_challenges : list (list Z)) : Z :=
  fq_hash (concat padded_challenges ++ [px cpc; py cpc]).

Definition into_verifiable (self : OcamlProof) (wrap_proof : WrapProof) (wrap_vk : WrapVerifierIndex)
    (app_state : list Z) : wire VerifiableProof :=
  let old_bulletproof_challenges :=
    map (map (to_field field_order vesta_scalar_endo)) (prev_step_chals_raw self) in
  let prev_wrap_expanded := map (map (to_field wrap_order pallas_scalar_endo)) (prev_wrap_chals_raw self) in
  vk_fields ← ok_or (wrap_vk_step_fields wrap_vk) "wrap VK commitment has no chunks";
  let step_proofs := zip (prev_step_sgs self) old_bulletproof_challenges in
  let next_step := hash_messages_for_next_step vk_fields app_state step_proofs in
  let mpv := length prev_wrap_expanded in
  ensure (negb (PADDED_LENGTH <? mpv)%nat) "prev wrap proofs exceed padded length"%string;;
  let padded := replicate (PADDED_LENGTH - mpv) (dummy_ipa_wrap_expanded pallas_scalar_endo) ++ prev_wrap_expanded in
  let next_wrap := hash_messages_for_next_wrap (challenge_polynomial_commitment self) padded in
  mret {| wrap_proof := wrap_proof; vp_raw_plonk := raw_plonk self;
          vp_raw_bulletproof_challenges := raw_bulletproof_challenges self; vp_branch_data := branch_data self;
          vp_sponge_digest_before_evaluations := sponge_digest_before_evaluations self;
          vp_prev_evals := prev_evals self; vp_p_eval0_chunks := p_eval0_chunks self;
          old_bulletproof_challenges := old_bulletproof_challenges; app_state := app_state;
          vp_prev_step_sgs := prev_step_sgs self;
          vp_challenge_polynomial_commitment := challenge_polynomial_commitment self;
          messages_for_next_step_proof_digest := next_step; messages_for_next_wrap_proof_digest := next_wrap;
          vp_step_domain_log2 := step_domain_log2 self |}.

(** ** The host of the settlement proof ([script/src/lib.rs]) *)

(** [serde_json] on texts, Kimchi's own serde for the legacy files and the
    canonical text of a key. *)
Class HostCode := {
  json_from_str : string -> wire Json;
  legacy_wrap_vk : Json -> wire WrapVerifierIndex;
  legacy_wrap_proof : Json -> wire WrapProof;
  canonical_wrap_vk_json : WrapVerifierIndex -> wire string
}.

Record SettlementProofBundle := {
  vk_json : string;
  proof_json : string;
  public_input_skeleton_json : string;
  app_statement_json : string;
  bundle_binding : option SettlementBindingV1;
  bundle_context : option SettlementContextV1;
  bundle_inner_action_batch : option InnerActionBatchWitnessV2;
  bundle_asset_registry_checkpoint : option AssetRegistryCheckpointV3;
  bundle_asset_registry_batch : option AssetRegistryBatchCheckpointV4
}.

(** [map_err(anyhow::Error::msg)]. *)
Definition error_msg {A} (o : wire A) : outcome error A :=
  match o with Ok a => Ok a | Err why => Err (message why) | Panic why => Panic why end.

Section host.
Context `{HostCode}.

Definition wrap_vk_of_text (text : string) : wire WrapVerifierIndex :=
  value ← json_from_str text; parse_wrap_vk legacy_wrap_vk value.
Definition wrap_proof_of_text (text : string) : wire WrapProof :=
  value ← json_from_str text; parse_wrap_proof legacy_wrap_proof value.
Definition ocaml_proof_of_text (text : string) : wire OcamlProof := root ← json_from_str text; parse_ocaml_proof root.
Definition app_statement_of_text (text : string) : wire (list Z) :=
  value ← json_from_str text; parse_app_statement_fields value.

Definition load_verifiable_bundle (bundle : SettlementProofBundle) : outcome error VerifiableProof :=
  vk ← with_context (error_msg (wrap_vk_of_text (vk_json bundle))) "parse vk JSON";
  proof ← with_context (error_msg (wrap_proof_of_text (proof_json bundle))) "parse proof JSON";
  ocaml ← with_context (error_msg (ocaml_proof_of_text (public_input_skeleton_json bundle)))
            "parse public input skeleton JSON";
  statement ← with_context (error_msg (app_statement_of_text (app_statement_json bundle)))
                "parse application statement JSON";
  error_msg (into_verifiable ocaml proof vk statement).

Definition settlement_witness (bundle : SettlementProofBundle) : outcome error (option SettlementWitnessV1) :=
  match bundle_binding bundle, bundle_context bundle with
  | Some binding, Some context =>
    Ok (Some {| binding := binding; context := context; sw_inner_action_batch := bundle_inner_action_batch bundle;
                sw_asset_registry_checkpoint := bundle_asset_registry_checkpoint bundle;
                sw_asset_registry_batch := bundle_asset_registry_batch bundle |})
  | None, None => Ok None
  | _, _ => Err (message "settlement binding and context must either both be present or absent")
  end.

(** A guest panic is a panic of the host. *)
Definition lift_guest {A} (g : guest A) : outcome error A :=
  match g with Ok a => Ok a | Err e => match e with end | Panic why => Panic why end.

(** The build pins the text of the key and the verifier's blob; the cells that
    cache what is computed from them are left out. *)
Definition native_verify_settlement (pinned_vk_json : string) (verifier : Verifier) (bundle : SettlementProofBundle)
    : outcome error VerifiableProof :=
  supplied_vk ← with_context (error_msg (wrap_vk_of_text (vk_json bundle))) "parse settlement VK JSON";
  supplied_vk ← error_msg (canonical_wrap_vk_json supplied_vk);
  pinned ← expect (match wrap_vk_of_text pinned_vk_json with Ok vk => Some vk | _ => None end)
             "build-generated settlement VK JSON must parse";
  pinned ← expect (match canonical_wrap_vk_json pinned with Ok text => Some text | _ => None end)
             "build-generated settlement VK must canonicalize";
  ensure (bool_decide (supplied_vk = pinned)) (message "settlement VK does not match the pinned verifier");;
  verifiable ← load_verifiable_bundle bundle;
  verified ← lift_guest (verify verifier verifiable);
  ensure verified (message "Pickles proof verification failed");;
  mret verifiable.

Context `{Keccak}.

(** [catch_unwind]. *)
Definition caught {A} (g : guest A) (why : string) : outcome error A :=
  match g with Ok a => Ok a | _ => Err (message why) end.

Definition native_settlement_preflight (pinned_vk_json : string) (verifier : Verifier) (vk_hash : bytes)
    (bundle : SettlementProofBundle) : outcome error bytes :=
  verifiable ← native_verify_settlement pinned_vk_json verifier bundle;
  witness ← settlement_witness bundle;
  witness ← (match witness with
             | Some witness => Ok witness
             | None => Err (message "settlement binding and context are required for native preflight")
             end);
  caught (derive_receipt_bytes (app_state verifiable) witness vk_hash) "settlement receipt derivation failed".

(** What the prover hands to the guest, and the guest's [main] on it. *)
Definition settlement_stdin_from_bundle (bundle : SettlementProofBundle)
    : outcome error (VerifiableProof * option SettlementWitnessV1) :=
  verifiable ← load_verifiable_bundle bundle;
  witness ← settlement_witness bundle;
  mret (verifiable, witness).
Definition settlement_guest (verifier : Verifier) (vk_hash : bytes) (stdin : VerifiableProof * option SettlementWitnessV1)
    : guest bytes :=
  proof_valid ← verify verifier stdin.1;
  settlement_main proof_valid (app_state stdin.1) stdin.2 vk_hash.

End host.
End pickles.
