(* ===== verification/PicklesProperties.v ===== *)
(** * Properties of the Pickles verifier

    The public input of the wrap proof is injective in what it packs, an
    accepted proof is bound to its application statement, the native preflight
    of a settlement is the guest; and what the accumulator check does not
    bind. *)

From Stdlib Require Import Strings.Byte.
From stdpp Require Import gmap.
From S2P Require Import Prelude Hashing PublicValues Field ActionBatch SettlementGuest Wire WireProperties Rpc Pickles.

(** ** The two fields *)

(** Every element of [Fp] is one of [Fq]: reinterpreting is exact. *)
Lemma fp_to_fq_exact x : canonical x -> fp_to_fq x = x.
Proof. intros Hx. apply Z.mod_small. unfold canonical, field_order, wrap_order in *. lia. Qed.
Lemma fp_to_fq_inj x y : canonical x -> canonical y -> fp_to_fq x = fp_to_fq y -> x = y.
Proof. intros Hx Hy. by rewrite !fp_to_fq_exact. Qed.

Lemma type1_scale_two : 2 * type1_scale = 1 + field_order.
Proof. by vm_compute. Qed.

(** Undoing the shift. *)
Lemma type1_inverse raw :
  canonical raw -> fp_add (fp_mul 2 (cross_field_type1 raw)) (fp_add (fp_pow 2 255) 1) = raw.
Proof.
  intros Hraw. unfold cross_field_type1. rewrite fp_to_fq_exact by apply fp_mul_canonical.
  generalize (fp_add (fp_pow 2 255) 1) as c. intros c. unfold fp_add, fp_mul, fp_sub.
  rewrite Zmult_mod_idemp_r.
  replace (2 * ((raw - c) mod field_order * type1_scale)) with
    ((raw - c) mod field_order + (raw - c) mod field_order * field_order) by (pose proof type1_scale_two; nia).
  rewrite Z_mod_plus_full, Zmod_mod, Zplus_mod_idemp_l. rewrite Z.sub_add. by apply Z.mod_small.
Qed.
Lemma cross_field_type1_inj x y : canonical x -> canonical y -> cross_field_type1 x = cross_field_type1 y -> x = y.
Proof. intros Hx Hy He. rewrite <- (type1_inverse x), <- (type1_inverse y) by done. by rewrite He. Qed.

(** ** The public input *)

Section properties.
Context `{WC : WireCode} `{KC : !KimchiCode} `{PO : Poseidon}.

(** What the public input packs. *)
Definition packed_scalars (dv : ExpandedDeferredValues) : list Z :=
  [dv_combined_inner_product dv; dv_b dv; dv_zeta_to_srs_length dv; dv_zeta_to_domain_size dv; dv_perm dv].
Definition packed_challenges (dv : ExpandedDeferredValues) : list Z :=
  [dv_beta dv; dv_gamma dv; dv_alpha dv; dv_zeta dv; dv_xi dv; dv_sponge_digest_before_evaluations dv].
Definition packed_flags (f : FeatureFlags) : list bool :=
  [range_check0 f; range_check1 f; foreign_field_add f; foreign_field_mul f; xor f; rot f; lp_lookup (patterns f);
   uses_runtime_tables f].
Definition dv_canonical (dv : ExpandedDeferredValues) : Prop :=
  Forall canonical (packed_scalars dv) /\ Forall canonical (packed_challenges dv) /\
  length (dv_bulletproof_prechallenges dv) = STEP_IPA_ROUNDS /\ Forall canonical (dv_bulletproof_prechallenges dv) /\
  0 <= domain_log2 (dv_branch_data dv) < 256 /\
  (forall c, dv_joint_combiner dv = Some c -> canonical c).

Lemma pack_branch_data_inj b1 b2 :
  0 <= domain_log2 b1 < 256 -> 0 <= domain_log2 b2 < 256 -> pack_branch_data b1 = pack_branch_data b2 -> b1 = b2.
Proof.
  destruct b1 as [l1 [m1 n1]], b2 as [l2 [m2 n2]]. unfold pack_branch_data. cbn [domain_log2 proofs_verified_mask fst snd].
  intros H1 H2. rewrite !fp_to_fq_exact by (unfold canonical, field_order; lia).
  rewrite !Z.mod_small by (unfold wrap_order, fq_bit; destruct m1, n1, m2, n2; lia).
  destruct m1, n1, m2, n2; cbn [fq_bit]; intros He; try lia; repeat f_equal; lia.
Qed.

Lemma fq_bit_inj a b : fq_bit a = fq_bit b -> a = b.
Proof. by destruct a, b. Qed.
Lemma fq_bits_inj (l k : list bool) : fq_bit <$> l = fq_bit <$> k -> l = k.
Proof.
  revert k. induction l as [|a l IH]; intros [|b k] He; try done.
  injection He as Hab He. f_equal; [by apply fq_bit_inj|by apply IH].
Qed.

Lemma map_canonical_inj (f : Z -> Z) (l k : list Z) :
  (forall x y, canonical x -> canonical y -> f x = f y -> x = y) ->
  Forall canonical l -> Forall canonical k -> f <$> l = f <$> k -> l = k.
Proof.
  intros Hf Hl. revert k. induction Hl as [|x l Hx _ IH]; intros [|y k] Hk He; try done.
  apply Forall_cons in Hk as [Hy Hk]. injection He as Hxy He. f_equal; [by apply Hf|by apply IH].
Qed.

Lemma wrap_public_input_parts dv s w :
  wrap_public_input dv s w =
    (cross_field_type1 <$> packed_scalars dv) ++ (fp_to_fq <$> packed_challenges dv) ++ [w; fp_to_fq s] ++
    (fp_to_fq <$> dv_bulletproof_prechallenges dv) ++ [pack_branch_data (dv_branch_data dv)] ++
    (fq_bit <$> packed_flags (dv_feature_flags dv)) ++
    match dv_joint_combiner dv with Some c => [1; fp_to_fq c] | None => [0; 0] end.
Proof. reflexivity. Qed.

Lemma wrap_public_input_length dv s w : dv_canonical dv -> length (wrap_public_input dv s w) = 40%nat.
Proof.
  intros (_ & _ & Hl & _). rewrite wrap_public_input_parts, !length_app, !length_fmap, Hl.
  by destruct (dv_joint_combiner dv).
Qed.

(** C1. The wrap proof's public input commits to everything it packs: two
    expansions, with their message digests, give the same 40 elements only if
    the five scalars, the challenges, the sponge digest, both message digests,
    the 16 prechallenges, the branch, the eight feature flags and the joint
    combiner are the same.  Neither the shift to Type1 nor the change of field
    loses anything. *)
Theorem wrap_public_input_binds dv1 dv2 s1 s2 w1 w2 :
  dv_canonical dv1 -> dv_canonical dv2 -> canonical s1 -> canonical s2 ->
  wrap_public_input dv1 s1 w1 = wrap_public_input dv2 s2 w2 ->
  packed_scalars dv1 = packed_scalars dv2 /\ packed_challenges dv1 = packed_challenges dv2 /\
  s1 = s2 /\ w1 = w2 /\ dv_bulletproof_prechallenges dv1 = dv_bulletproof_prechallenges dv2 /\
  dv_branch_data dv1 = dv_branch_data dv2 /\ packed_flags (dv_feature_flags dv1) = packed_flags (dv_feature_flags dv2) /\
  dv_joint_combiner dv1 = dv_joint_combiner dv2.
Proof.
  intros (Hs1 & Hc1 & Hl1 & Hb1 & Hd1 & Hj1) (Hs2 & Hc2 & Hl2 & Hb2 & Hd2 & Hj2) H1 H2.
  rewrite !wrap_public_input_parts.
  intros (Hs & He)%app_inj_1; [|by rewrite !length_fmap].
  apply app_inj_1 in He as [Hc He]; [|by rewrite !length_fmap].
  apply app_inj_1 in He as [Hm He]; [|done].
  apply app_inj_1 in He as [Hb He]; [|by rewrite !length_fmap, Hl1, Hl2].
  apply app_inj_1 in He as [Hd He]; [|done].
  apply app_inj_1 in He as [Hf Hj]; [|by rewrite !length_fmap].
  injection Hm as Hw Hs'. injection Hd as Hd. split_and!.
  - by eapply (map_canonical_inj cross_field_type1); [apply cross_field_type1_inj| | |].
  - by eapply (map_canonical_inj fp_to_fq); [apply fp_to_fq_inj| | |].
  - by apply fp_to_fq_inj.
  - done.
  - by eapply (map_canonical_inj fp_to_fq); [apply fp_to_fq_inj| | |].
  - by apply pack_branch_data_inj.
  - by apply fq_bits_inj.
  - destruct (dv_joint_combiner dv1) as [c1|], (dv_joint_combiner dv2) as [c2|]; try discriminate Hj; [|done].
    injection Hj as Hj. f_equal. by apply fp_to_fq_inj; auto.
Qed.

(** ** Acceptance *)

(** What the digest of a proof's application statement absorbs. *)
Definition statement_inputs (v : Verifier) (p : VerifiableProof) : list Z :=
  default [] (wrap_vk_step_fields (wrap_vk v)) ++ app_state p ++
  previous_inputs (zip (vp_prev_step_sgs p) (old_bulletproof_challenges p)).

Lemma check_app_state_binding_true v p :
  check_app_state_binding v p = true <->
  length (vp_prev_step_sgs p) = length (old_bulletproof_challenges p) /\
  is_Some (wrap_vk_step_fields (wrap_vk v)) /\ messages_for_next_step_proof_digest p = fp_hash (statement_inputs v p).
Proof.
  unfold check_app_state_binding, app_state_digest, statement_inputs. rewrite bool_decide_eq_true.
  destruct (Nat.eqb_spec (length (vp_prev_step_sgs p)) (length (old_bulletproof_challenges p))) as [Hl|Hl]; [|naive_solver].
  destruct (wrap_vk_step_fields (wrap_vk v)) as [f|]; cbn; [|split; [done|intros (_ & [? ?] & _); done]].
  split; [intros [= <-]; eauto|]. by intros (_ & _ & <-).
Qed.

Lemma fp_hash_update inputs : fp_hash inputs = s0 (poseidon_update empty_sponge inputs).
Proof.
  destruct inputs as [|a [|b l]]; [done..|].
  change (fp_hash (a :: b :: l)) with
    (squeeze (absorb {| sponge_state := Absorbed 2; as_state := add_chunk empty_sponge [a; b] |} l)).1.
  rewrite absorb_pairs. by destruct l.
Qed.
Lemma fp_hash_canonical inputs : canonical (fp_hash inputs).
Proof. rewrite fp_hash_update. apply poseidon_update_canonical. Qed.

(** The third stage of an accepted batch. *)
Lemma verify_batch_true v ps :
  verify_batch v ps = Ok true <->
  Forall (fun p => check_app_state_binding v p = true /\ accumulator_check v p = Ok true) ps /\
  exists pis, mapM (deferred_input v) ps = Ok pis /\
    batch_verify_with_rng (wrap_vk v) (wrap_srs v) (zip (wrap_proof <$> ps) pis) (batching_rng ps pis) = true.
Proof.
  assert (all_checked v ps = Ok true <->
          Forall (fun p => check_app_state_binding v p = true /\ accumulator_check v p = Ok true) ps) as Hall.
  { induction ps as [|p ps IH]; cbn [all_checked]; [done|]. rewrite Forall_cons, <- IH.
    destruct (check_app_state_binding v p); [|naive_solver].
    rewrite bind_Ok. split; [intros ([] & Ha & Hr); naive_solver|]. intros [[_ Ha] Hr]. exists true. done. }
  unfold verify_batch. rewrite bind_Ok. split.
  - intros (b & Hb & Hv). destruct b; [|done]. cbn in Hv. split; [by apply Hall|].
    apply bind_Ok in Hv as (pis & Hp & [= Hv]). eauto.
  - intros (Hps & pis & Hp & Hv). exists true. split; [by apply Hall|]. cbn. apply bind_Ok. exists pis.
    split; [done|]. by rewrite Hv.
Qed.
Lemma verify_true v p :
  verify v p = Ok true <->
  check_app_state_binding v p = true /\ accumulator_check v p = Ok true /\
  exists pi, deferred_input v p = Ok pi /\
    batch_verify_with_rng (wrap_vk v) (wrap_srs v) [(wrap_proof p, pi)] (batching_rng [p] [pi]) = true.
Proof.
  unfold verify. rewrite verify_batch_true, Forall_singleton. split.
  - intros ([Hb Ha] & pis & Hp & Hv). split; [done|]. split; [done|].
    apply mapM_Ok in Hp. inversion Hp as [|? pi ? ? Hpi Hnil]; subst. inversion Hnil; subst. eauto.
  - intros (Hb & Ha & pi & Hp & Hv). split; [done|]. exists [pi]. split; [|done].
    apply mapM_Ok. by repeat constructor.
Qed.

Lemma deferred_input_digests v p pi :
  deferred_input v p = Ok pi ->
  exists dv, expand_deferred v p = Ok dv /\
    pi = wrap_public_input dv (messages_for_next_step_proof_digest p) (messages_for_next_wrap_proof_digest p).
Proof. unfold deferred_input. intros (dv & Hdv & [= <-])%bind_Ok. eauto. Qed.

(** The message digests are at fixed places of the public input. *)
Lemma wrap_public_input_digests dv s w :
  wrap_public_input dv s w !! 11%nat = Some w /\ wrap_public_input dv s w !! 12%nat = Some (fp_to_fq s).
Proof. done. Qed.

Lemma previous_inputs_zip_inj sgs1 sgs2 cs1 cs2 :
  length sgs1 = length cs1 -> length sgs2 = length cs2 -> length sgs1 = length sgs2 ->
  Forall (fun c => length c = STEP_IPA_ROUNDS) cs1 -> Forall (fun c => length c = STEP_IPA_ROUNDS) cs2 ->
  previous_inputs (zip sgs1 cs1) = previous_inputs (zip sgs2 cs2) ->
  (fun g => (px g, py g)) <$> sgs1 = (fun g => (px g, py g)) <$> sgs2 /\ cs1 = cs2.
Proof.
  revert sgs2 cs1 cs2. induction sgs1 as [|g1 sgs1 IH]; intros [|g2 sgs2] [|c1 cs1] [|c2 cs2] H1 H2 H3 F1 F2; try done.
  apply Forall_cons in F1 as [L1 F1], F2 as [L2 F2]. unfold previous_inputs. cbn [zip zip_with fmap list_fmap concat fst snd app].
  intros [= Hx Hy He]. apply app_inj_1 in He as [Hc He]; [|congruence].
  destruct (IH sgs2 cs1 cs2) as [Hs Hcs]; try done; try (cbn in *; lia).
  cbn. by rewrite Hx, Hy, Hs, Hc, Hcs.
Qed.

(** C1. Acceptance binds the application statement.  An accepted proof's
    public input, which Kimchi verified, holds the digest of its statement;
    and two accepted proofs with the same public input, statements of the same
    length and as many previous proofs have the same statement, the same
    previous commitments and the same previous challenges, unless the two
    messages hashed are a collision of the sponge. *)
Theorem accepted_statement_is_bound v p1 p2 pi :
  verify v p1 = Ok true -> verify v p2 = Ok true ->
  deferred_input v p1 = Ok pi -> deferred_input v p2 = Ok pi ->
  length (app_state p1) = length (app_state p2) -> length (vp_prev_step_sgs p1) = length (vp_prev_step_sgs p2) ->
  Forall (fun c => length c = STEP_IPA_ROUNDS) (old_bulletproof_challenges p1) ->
  Forall (fun c => length c = STEP_IPA_ROUNDS) (old_bulletproof_challenges p2) ->
  (fp_hash (statement_inputs v p1) = fp_hash (statement_inputs v p2) -> statement_inputs v p1 = statement_inputs v p2) ->
  pi !! 12%nat = Some (fp_hash (statement_inputs v p1)) /\
  app_state p1 = app_state p2 /\ old_bulletproof_challenges p1 = old_bulletproof_challenges p2 /\
  (fun g => (px g, py g)) <$> vp_prev_step_sgs p1 = (fun g => (px g, py g)) <$> vp_prev_step_sgs p2.
Proof.
  intros (B1 & _ & _)%verify_true (B2 & _ & _)%verify_true D1 D2 Hlen Hprev F1 F2 Hcr.
  apply check_app_state_binding_true in B1 as (L1 & _ & M1), B2 as (L2 & _ & M2).
  apply deferred_input_digests in D1 as (dv1 & _ & D1), D2 as (dv2 & _ & D2).
  pose proof (proj2 (wrap_public_input_digests dv1 (messages_for_next_step_proof_digest p1) (messages_for_next_wrap_proof_digest p1))) as P1.
  pose proof (proj2 (wrap_public_input_digests dv2 (messages_for_next_step_proof_digest p2) (messages_for_next_wrap_proof_digest p2))) as P2.
  rewrite <- D1, M1, fp_to_fq_exact in P1 by apply fp_hash_canonical.
  rewrite <- D2, M2, fp_to_fq_exact in P2 by apply fp_hash_canonical.
  split; [done|]. rewrite P1 in P2. injection P2 as He. apply Hcr in He. unfold statement_inputs in He.
  apply app_inj_1 in He as [_ He]; [|done]. apply app_inj_1 in He as [Ha He]; [|done].
  apply previous_inputs_zip_inj in He as [Hs Hc]; done.
Qed.

(** Rate two and no padding: the sponge does not separate an odd number of
    inputs from the same inputs and a zero, so the digest binds a statement
    only for its length. *)
Lemma poseidon_update_pair st x y l :
  l <> [] -> poseidon_update st (x :: y :: l) = poseidon_update (poseidon_block_cipher (add_chunk st [x; y])) l.
Proof. by destruct l. Qed.
Lemma trailing_zero_collides (l : list (Z * Z)) a :
  fp_hash (concat ((fun p => [p.1; p.2]) <$> l) ++ [a]) = fp_hash (concat ((fun p => [p.1; p.2]) <$> l) ++ [a; 0]).
Proof.
  rewrite !fp_hash_update. assert (canonical_sponge empty_sponge) as Hst by done. revert Hst.
  generalize empty_sponge as st. induction l as [|[x y] l IH]; intros st Hst.
  - cbn. unfold fp_add. rewrite Z.add_0_r, (Z.mod_small (s1 st)) by apply Hst. done.
  - cbn [fmap list_fmap concat fst snd app]. rewrite !poseidon_update_pair by (by destruct (concat _)).
    apply IH, block_cipher_canonical.
Qed.

(** ** The accumulator *)

Lemma length_b_poly_coefficients order chals : length (b_poly_coefficients order chals) = (2 ^ length chals)%nat.
Proof.
  unfold b_poly_coefficients.
  assert (forall l st, length (cs_s (foldl (coefficients_step order chals) st l)) = length (cs_s st)) as Hf.
  { induction l as [|i l IH]; intros st; [done|]. cbn [foldl]. rewrite IH. apply length_insert. }
  rewrite Hf. apply length_replicate.
Qed.

Definition with_commitment (p : VerifiableProof) (c : point) : VerifiableProof := {|
  wrap_proof := wrap_proof p; vp_raw_plonk := vp_raw_plonk p;
  vp_raw_bulletproof_challenges := vp_raw_bulletproof_challenges p; vp_branch_data := vp_branch_data p;
  vp_sponge_digest_before_evaluations := vp_sponge_digest_before_evaluations p; vp_prev_evals := vp_prev_evals p;
  vp_p_eval0_chunks := vp_p_eval0_chunks p; old_bulletproof_challenges := old_bulletproof_challenges p;
  app_state := app_state p; vp_prev_step_sgs := vp_prev_step_sgs p; vp_challenge_polynomial_commitment := c;
  messages_for_next_step_proof_digest := messages_for_next_step_proof_digest p;
  messages_for_next_wrap_proof_digest := messages_for_next_wrap_proof_digest p;
  vp_step_domain_log2 := vp_step_domain_log2 p |}.

(** [compute_sg] of the proof's challenges. *)
Definition compute_sg (v : Verifier) (p : VerifiableProof) : option point :=
  vesta_msm (take (2 ^ step_srs_length_log2 v) (srs_g (vesta_srs v)))
    (b_poly_coefficients field_order (expanded_challenges (step_endo v) (vp_raw_bulletproof_challenges p))).

Lemma accumulator_check_exact v p c :
  length (vp_raw_bulletproof_challenges p) = step_srs_length_log2 v ->
  (2 ^ step_srs_length_log2 v <= length (srs_g (vesta_srs v)))%nat -> compute_sg v p = Some c ->
  accumulator_check v p = Ok (bool_decide (c = vp_challenge_polynomial_commitment p)).
Proof.
  intros Hl Hg Hc. unfold accumulator_check. rewrite length_b_poly_coefficients.
  unfold expanded_challenges at 1. rewrite length_fmap, Hl, Nat.eqb_refl, (proj2 (Nat.ltb_ge _ _)) by done. cbn [negb orb].
  unfold compute_sg in Hc. by rewrite Hc.
Qed.

(** C1. The guest's accumulator check does not bind the commitment it checks.
    The digest of the messages for the next wrap proof, which covers the
    commitment, is taken from the host as it is; so whoever supplies a proof
    may replace its commitment by the one computed from its challenges: the
    verifier then accepts exactly when the statement is bound and Kimchi
    accepts, whatever commitment the proof had and whatever the accumulator
    was. *)
Theorem accumulator_commitment_unbound v p c :
  length (vp_raw_bulletproof_challenges p) = step_srs_length_log2 v ->
  (2 ^ step_srs_length_log2 v <= length (srs_g (vesta_srs v)))%nat -> compute_sg v p = Some c ->
  verify v (with_commitment p c) = Ok true <->
  check_app_state_binding v p = true /\
  exists pi, deferred_input v p = Ok pi /\
    batch_verify_with_rng (wrap_vk v) (wrap_srs v) [(wrap_proof p, pi)] (batching_rng [p] [pi]) = true.
Proof.
  intros Hl Hg Hc. rewrite verify_true.
  change (check_app_state_binding v (with_commitment p c)) with (check_app_state_binding v p).
  change (deferred_input v (with_commitment p c)) with (deferred_input v p).
  rewrite (accumulator_check_exact v (with_commitment p c) c) by done.
  rewrite bool_decide_true by done. naive_solver.
Qed.

(** ** The host *)

Lemma into_verifiable_Ok o wp vk st vp :
  into_verifiable o wp vk st = Ok vp ->
  exists fields, wrap_vk_step_fields vk = Some fields /\ app_state vp = st /\ wrap_proof vp = wp /\
    vp_prev_step_sgs vp = prev_step_sgs o /\
    old_bulletproof_challenges vp = map (map (to_field field_order vesta_scalar_endo)) (prev_step_chals_raw o) /\
    messages_for_next_step_proof_digest vp =
      fp_hash (fields ++ st ++ previous_inputs (zip (prev_step_sgs o) (old_bulletproof_challenges vp))).
Proof.
  unfold into_verifiable. intros (fields & Hf & (? & _ & [= <-])%bind_Ok)%bind_Ok.
  destruct (wrap_vk_step_fields vk) as [f|]; [|done]. injection Hf as ->. by exists fields.
Qed.

(** C1. What the host converts passes the guest's check of the application
    statement exactly when the skeleton has a commitment for every vector of
    previous challenges: the digest the host reconstructs is the one the guest
    recomputes. *)
Theorem conversion_binds_statement v o wp vk st vp :
  wrap_vk v = vk -> into_verifiable o wp vk st = Ok vp ->
  check_app_state_binding v vp = true <-> length (prev_step_sgs o) = length (prev_step_chals_raw o).
Proof.
  intros Hv (fields & Hf & Ha & _ & Hs & Hc & Hd)%into_verifiable_Ok.
  rewrite check_app_state_binding_true. unfold statement_inputs. rewrite Hd, Ha, Hv, Hf, Hs. cbn [default from_option id].
  rewrite Hc at 1. rewrite length_map. naive_solver.
Qed.

Section host.
Context `{HC : !HostCode} `{KE : Keccak}.

Lemma error_msg_Ok {A} (o : wire A) a : error_msg o = Ok a <-> o = Ok a.
Proof. destruct o; naive_solver. Qed.
Lemma with_context_Ok {A} (o : outcome error A) why a : with_context o why = Ok a <-> o = Ok a.
Proof. destruct o; naive_solver. Qed.

(** The supplied key is the pinned one, up to the form of its text. *)
Definition pinned_key (pinned_vk_json : string) (bundle : SettlementProofBundle) : Prop :=
  exists vk pinned text, wrap_vk_of_text (vk_json bundle) = Ok vk /\ canonical_wrap_vk_json vk = Ok text /\
    wrap_vk_of_text pinned_vk_json = Ok pinned /\ canonical_wrap_vk_json pinned = Ok text.

Lemma native_verify_settlement_Ok pinned v bundle p :
  native_verify_settlement pinned v bundle = Ok p <->
  pinned_key pinned bundle /\ load_verifiable_bundle bundle = Ok p /\ verify v p = Ok true.
Proof.
  unfold native_verify_settlement, pinned_key. split.
  - intros (vk & Hvk & Hv)%bind_Ok. apply bind_Ok in Hv as (text & Htext & (pinned' & Hp & Hv)%bind_Ok).
    apply bind_Ok in Hv as (text' & Ht & (? & Heq & Hv)%bind_Ok).
    apply bind_Ok in Hv as (p' & Hl & (b & Hb & (? & Hens & [= <-])%bind_Ok)%bind_Ok).
    apply with_context_Ok, error_msg_Ok in Hvk. apply error_msg_Ok in Htext. apply expect_Ok in Hp, Ht.
    apply ensure_Ok, bool_decide_eq_true in Heq as <-. apply ensure_Ok in Hens as ->.
    destruct (wrap_vk_of_text pinned) as [pk| |]; try discriminate Hp. injection Hp as ->.
    destruct (canonical_wrap_vk_json pinned') as [t| |] eqn:Ht'; try discriminate Ht. injection Ht as ->.
    split; [by exists vk, pinned', text|]. split; [done|].
    destruct (verify v p') as [ok|[]|]; [by injection Hb as ->|done].
  - intros ((vk & pk & text & Hvk & Htext & Hp & Ht) & Hl & Hver).
    rewrite Hvk. cbn [error_msg with_context]. rewrite Ok_bind, Htext. cbn [error_msg]. rewrite Ok_bind, Hp. cbn [expect].
    rewrite Ok_bind, Ht. cbn [expect]. rewrite Ok_bind, ensure_true by (by apply bool_decide_eq_true).
    rewrite Hl, Ok_bind, Hver. done.
Qed.

(** C1. The native preflight is the guest: with a witness, and for the key the
    build pins, it returns the public values that the settlement program
    commits on the input the prover hands it, and fails on every input on
    which the program panics. *)
Theorem preflight_is_guest pinned v vk_hash bundle bytes :
  pinned_key pinned bundle -> is_Some (bundle_binding bundle) ->
  native_settlement_preflight pinned v vk_hash bundle = Ok bytes <->
  exists stdin, settlement_stdin_from_bundle bundle = Ok stdin /\ settlement_guest v vk_hash stdin = Ok bytes.
Proof.
  intros Hpin [binding Hb]. unfold native_settlement_preflight, settlement_stdin_from_bundle, settlement_guest.
  unfold settlement_witness. rewrite Hb. split.
  - intros (p & (_ & Hl & Hv)%native_verify_settlement_Ok & (w & Hw & (w' & Hw' & Hr)%bind_Ok)%bind_Ok)%bind_Ok.
    destruct (bundle_context bundle) as [ctx|]; [|done]. injection Hw as <-. injection Hw' as <-.
    rewrite Hl, Ok_bind, Ok_bind. eexists; split; [done|]. cbn [fst snd]. rewrite Hv, Ok_bind. unfold settlement_main.
    cbn [assert_]. rewrite Ok_bind. unfold caught in Hr. by destruct (derive_receipt_bytes _ _ _) as [x|[]|]; [injection Hr as ->|].
  - intros (stdin & (p & Hl & (w & Hw & [= <-])%bind_Ok)%bind_Ok & Hg). cbn [fst snd] in Hg.
    destruct (bundle_context bundle) as [ctx|]; [|done]. injection Hw as <-.
    apply bind_Ok in Hg as (b & Hv & Hg). unfold settlement_main in Hg. apply bind_Ok in Hg as (? & ->%assert_Ok & Hr).
    apply bind_Ok. exists p. split; [by apply native_verify_settlement_Ok|]. rewrite !Ok_bind. unfold caught. by rewrite Hr.
Qed.

End host.
End properties.

(** ** Examples *)

#[local] Existing Instance example_wire.
#[local] Existing Instance mix_poseidon.
#[local] Existing Instance checksum_keccak.

(** Libraries that accept every batch and answer with constants. *)
#[local] Instance example_kimchi : KimchiCode := {|
  vesta_scalar_endo := 11; pallas_scalar_endo := 13; pallas_base_endo := 17;
  step_group_gen := fun _ => Some 3;
  field_inverse := fun _ => Some 5;
  oracles_from_digest := fun r => Some {|
    oracle_v := 19; oracle_v_chal := 23; oracle_u := 29; permutation_alphas := [1; 2; 3];
    public_evals := [[or_digest r]; [31]]; powers_of_eval_points_for_chunks := (37, 41); polys := [];
    zeta1 := 43; oracle_ft_eval0 := 47 |};
  collapsed := Z; combine := fun e _ => ca_ft_eval1 e; collapsed_public := fun x => Some (x, x);
  perm_scalars := fun x b g _ zk => (x + b + g + zk) mod field_order;
  vesta_msm := fun _ _ => Some (new_unchecked 5 5);
  fq_hash := fun l => foldr (fun x acc => (x + 3 * acc) mod wrap_order) 7 l;
  blake2s256 := fun b => to_be 32 (from_be b);
  postcard_proof := fun p => to_be 32 (wp_ft_eval1 p);
  batch_verify_with_rng := fun _ _ l _ => (length l =? 1)%nat
|}.

Definition one_srs : Srs := {| srs_g := replicate (2 ^ STEP_IPA_ROUNDS) one_point; srs_h := one_point; lagrange_bases := ∅ |}.
Definition one_verifier : Verifier := new_verifier one_vk one_srs one_srs 1.

(** The texts of a settlement bundle stand for their trees. *)
#[local] Instance example_host : HostCode := {|
  json_from_str := fun text =>
    if decide (text = "proof"%string) then Ok (proof_wire example_hex_encode one_proof)
    else if decide (text = "skeleton"%string) then Ok one_skeleton
    else if decide (text = "statement"%string) then Ok (JArray (field_json example_hex_encode <$> Examples.app_state))
    else if decide (text = "vk"%string) then Ok (vk_wire example_hex_encode 1 one_vk)
    else Err "expected value"%string;
  legacy_wrap_vk := fun _ => Err "missing field"%string;
  legacy_wrap_proof := fun _ => Err "missing field"%string;
  canonical_wrap_vk_json := fun vk => Ok (example_hex_encode (to_be 8 (public vk)))
|}.
Definition one_bundle : SettlementProofBundle := {|
  vk_json := "vk"; proof_json := "proof"; public_input_skeleton_json := "skeleton"; app_statement_json := "statement";
  bundle_binding := Some (binding Examples.w); bundle_context := Some (context Examples.w);
  bundle_inner_action_batch := sw_inner_action_batch Examples.w;
  bundle_asset_registry_checkpoint := sw_asset_registry_checkpoint Examples.w;
  bundle_asset_registry_batch := sw_asset_registry_batch Examples.w |}.

Definition no_proof : VerifiableProof := {|
  wrap_proof := one_proof; vp_raw_plonk := {| alpha := 0; beta := 0; gamma := 0; zeta := 0; joint_combiner := None;
    feature_flags := {| range_check0 := false; range_check1 := false; foreign_field_add := false; foreign_field_mul := false;
      xor := false; rot := false; patterns := {| lp_xor := false; lp_lookup := false; lp_range_check := false;
      lp_foreign_field_mul := false |}; joint_lookup_used := false; uses_runtime_tables := false |} |};
  vp_raw_bulletproof_challenges := []; vp_branch_data := {| domain_log2 := 0; proofs_verified_mask := (false, false) |};
  vp_sponge_digest_before_evaluations := 0;
  vp_prev_evals := {| ca_ft_eval1 := 0; ca_public_evals := {| zeta_evals := []; zeta_omega_evals := [] |};
    ca_z := {| zeta_evals := []; zeta_omega_evals := [] |}; ca_w := []; ca_coefficients := []; ca_s := []; ca_index := [];
    ca_optional := []; ca_lookup_sorted := [] |};
  vp_p_eval0_chunks := []; old_bulletproof_challenges := []; app_state := []; vp_prev_step_sgs := [];
  vp_challenge_polynomial_commitment := one_point; messages_for_next_step_proof_digest := 0;
  messages_for_next_wrap_proof_digest := 0; vp_step_domain_log2 := 0 |}.
Definition ok_or_default {E A} (d : A) (o : outcome E A) : A := match o with Ok a => a | _ => d end.
Lemma ok_or_default_Ok {E A} (d : A) (o : outcome E A) : is_ok o = true -> o = Ok (ok_or_default d o).
Proof. by destruct o. Qed.
Definition one_verifiable : VerifiableProof := ok_or_default no_proof (load_verifiable_bundle one_bundle).

Lemma one_loads : load_verifiable_bundle one_bundle = Ok one_verifiable.
Proof.
  assert (is_ok (load_verifiable_bundle one_bundle) = true) as Hok by (vm_compute; reflexivity).
  exact (ok_or_default_Ok no_proof _ Hok).
Qed.

(** Nothing of the deferred values needs the generators. *)
Lemma one_srs_long : (2 ^ step_srs_length_log2 one_verifier <= length (srs_g (vesta_srs one_verifier)))%nat.
Proof. exact (Nat.eq_le_incl _ _ (eq_sym (length_replicate (2 ^ STEP_IPA_ROUNDS) one_point))). Qed.
Lemma one_check p c :
  length (vp_raw_bulletproof_challenges p) = STEP_IPA_ROUNDS ->
  accumulator_check one_verifier (with_commitment p c) = Ok (bool_decide (new_unchecked 5 5 = c)).
Proof.
  intros Hl. exact (accumulator_check_exact one_verifier (with_commitment p c) (new_unchecked 5 5) Hl one_srs_long eq_refl).
Qed.
Lemma one_accepted p :
  length (vp_raw_bulletproof_challenges p) = STEP_IPA_ROUNDS -> check_app_state_binding one_verifier p = true ->
  is_ok (deferred_input one_verifier p) = true ->
  verify one_verifier (with_commitment p (new_unchecked 5 5)) = Ok true.
Proof.
  intros Hl Hb [pi Hp]%is_ok_Ok. apply verify_true. split; [exact Hb|].
  split; [by rewrite one_check|]. exists pi. split; [exact Hp|reflexivity].
Qed.

Lemma one_rounds : length (vp_raw_bulletproof_challenges one_verifiable) = STEP_IPA_ROUNDS.
Proof. vm_compute. reflexivity. Qed.
#[local] Opaque one_verifiable.
Definition misplaced : VerifiableProof := with_commitment one_verifiable one_point.
Lemma one_bound : check_app_state_binding one_verifier misplaced = true.
Proof. by vm_compute. Qed.
Lemma one_deferred : is_ok (deferred_input one_verifier misplaced) = true.
Proof. by vm_compute. Qed.

(** A proof with a wrong commitment is refused, and accepted once the host
    replaces the commitment by the computed one. *)
Lemma accumulator_commitment_unbound_witness :
  verify one_verifier misplaced <> Ok true /\
  verify one_verifier (with_commitment misplaced (new_unchecked 5 5)) = Ok true.
Proof.
  split.
  - intros (_ & Ha & _)%verify_true. pose proof (one_check one_verifiable one_point one_rounds) as Hc.
    change (accumulator_check one_verifier (with_commitment one_verifiable one_point) = Ok true) in Ha. rewrite Hc in Ha.
    discriminate Ha.
  - destruct (is_ok_Ok _ one_deferred) as [pi Hpi].
    refine (proj2 (accumulator_commitment_unbound one_verifier misplaced (new_unchecked 5 5) one_rounds one_srs_long eq_refl) _).
    split; [exact one_bound|]. exists pi. split; [exact Hpi|reflexivity].
Defined.
