(* ===== verification/Database.v ===== *)
(** * The gateway database ([api/migrations] and the SQL of [api/src])

    Proof jobs, the outer-writer row and the pending commands as PostgreSQL
    keeps them, the statements of the gateway as functions on them, and the
    transaction monad: a transaction sees one [NOW()], and commits all of its
    effects or none of them.  The transactions that take the [gateway_config]
    row lock exclude each other; the others are single statements or lock the
    one job row they change, so a transaction is one step of the system. *)

From stdpp Require Import gmap strings.
From S2P Require Import Prelude Rpc.
From S2P Require BridgeGuest.

(** ** Library code the gateway calls

    JSON values with the accessors of [serde_json], the text the SQL operators
    [->>] and [#>>] give ([text_of]) and the derived
    deserializers of reservation tokens and bridge inputs, [hex],
    [U256::to_string] and the SHA-256 digest of a printed input. *)

Abbreviation uuid := Z.

Record ReservationToken := { rt_id : uuid; rt_fencing_token : string }.

Class Externals := {
  Value : Type;
  #[export] Value_eq_dec :: EqDecision Value;
  pointer : Value -> string -> option Value;
  get : Value -> string -> option Value;
  is_null : Value -> bool;
  text_of : Value -> option string;
  as_str : Value -> option string;
  as_array : Value -> option (list Value);
  strings_value : list string -> Value;
  parse_reservation : Value -> option ReservationToken;
  parse_bridge_input : Value -> option BridgeGuest.BridgeTransitionInput;
  hex_decode : string -> option bytes;
  hex_encode : bytes -> string;
  u256_to_string : Z -> string;
  proof_input_digest : Value -> string
}.

(** ** Rows *)

Inductive ProofKind := Settlement | Bridge.

Inductive proof_status :=
| queued | validating | proving | submitting | executed | confirmed | failed
| proof_requested | proof_failed | ethereum_reverted | reorged | rejected | submitted
| awaiting_approval | approved.

#[export] Instance ProofKind_eq_dec : EqDecision ProofKind.
Proof. solve_decision. Defined.
#[export] Instance proof_status_eq_dec : EqDecision proof_status.
Proof. solve_decision. Defined.

Record PreparedSubmission := {
  transaction_hash : string;
  raw_transaction : string;
  sender : string;
  nonce : Z
}.

#[export] Instance PreparedSubmission_eq_dec : EqDecision PreparedSubmission.
Proof. solve_decision. Defined.

(** Times are microseconds. *)
Definition second : Z := 1000000.

Record Approval := {
  approval_input_digest : string;
  approval_max_pgu : Z;
  approval_max_price_per_pgu : Z;
  approval_base_fee_atto_prove : string;
  approval_network_max_price_per_pgu : string;
  approval_max_cost_atto_prove : string;
  approved_at : Z
}.

Record RequestMetrics := {
  prover_gas : option Z;
  base_fee_prove : option string;
  max_price_per_pgu : option string;
  actual_cost_prove : option string;
  explorer_url : option string
}.

Record Checkpoint := {
  outer_state_fields : list string;
  ledger_hash : string;
  action_state : string;
  action_state_length : Z;
  block_number : Z;
  block_hash : string
}.

(** [gateway_outer_writer] ([Owner] in the source). *)
Record Owner := {
  reservation_id : option uuid;
  owner_id : option string;
  fencing_token : Z;
  expires_at : option Z;
  checkpoint : option Checkpoint;
  job_id : option uuid
}.

Record PendingCommand := {
  pc_job_id : uuid;
  pc_public_key : string;
  pc_nonce : Z;
  pc_command_kind : string;
  pc_command_base64 : string
}.

Section database.
Context `{Externals}.

(** [proof_jobs]; the approval columns are set together (the check
    [proof_approval_complete]) and the metrics columns as well. *)
Record Job := {
  j_kind : ProofKind;
  j_status : proof_status;
  j_idempotency_key : option string;
  j_input : Value;
  j_input_digest : string;
  j_preflight_input_digest : option string;
  j_public_values : option string;
  j_cycle_count : option Z;
  j_approval : option Approval;
  j_proof_request_intent : option uuid;
  j_proof_request_id : option string;
  j_proof_bytes : option string;
  j_metrics : option RequestMetrics;
  j_prepared_transaction : option PreparedSubmission;
  j_transaction_hash : option string;
  j_submitted_block : option (Z * string);
  j_confirmations : Z;
  j_ethereum_gas_used : option Z;
  j_error : option string;
  j_error_class : option string;
  j_next_attempt_at : option Z;
  j_retry_count : Z;
  j_attempts : Z;
  j_created_at : Z;
  j_updated_at : Z;
  j_started_at : option Z;
  j_completed_at : option Z
}.

Record Db := {
  jobs : gmap uuid Job;
  writer : Owner;
  recovery_ready : bool;
  outer_public_key : option string;
  outer_account : option Value;
  account_nonces : gmap string string;
  pending_commands : list PendingCommand
}.

(** *** Setters *)

Definition job_eta (j : Job) : Job := {|
  j_kind := j_kind j; j_status := j_status j; j_idempotency_key := j_idempotency_key j;
  j_input := j_input j; j_input_digest := j_input_digest j;
  j_preflight_input_digest := j_preflight_input_digest j; j_public_values := j_public_values j;
  j_cycle_count := j_cycle_count j; j_approval := j_approval j;
  j_proof_request_intent := j_proof_request_intent j; j_proof_request_id := j_proof_request_id j;
  j_proof_bytes := j_proof_bytes j; j_metrics := j_metrics j;
  j_prepared_transaction := j_prepared_transaction j; j_transaction_hash := j_transaction_hash j;
  j_submitted_block := j_submitted_block j; j_confirmations := j_confirmations j;
  j_ethereum_gas_used := j_ethereum_gas_used j; j_error := j_error j; j_error_class := j_error_class j;
  j_next_attempt_at := j_next_attempt_at j; j_retry_count := j_retry_count j; j_attempts := j_attempts j;
  j_created_at := j_created_at j; j_updated_at := j_updated_at j; j_started_at := j_started_at j;
  j_completed_at := j_completed_at j |}.

End database.

(** [set_field proj r v] is the record [r] with its field [proj] replaced. *)
Ltac set_field eta proj r v :=
  let x := eval hnf in (eta r) in
  match eval pattern (proj r) in x with
  | ?g _ => let y := eval cbv beta in (g v) in exact y
  end.

Section setters.
Context `{Externals}.

Definition with_status (v : proof_status) (j : Job) : Job := ltac:(set_field (@job_eta H) (@j_status H) j v).
Definition with_input (v : Value) (j : Job) : Job := ltac:(set_field (@job_eta H) (@j_input H) j v).
Definition with_preflight_input_digest (v : option string) (j : Job) : Job :=
  ltac:(set_field (@job_eta H) (@j_preflight_input_digest H) j v).
Definition with_public_values (v : option string) (j : Job) : Job :=
  ltac:(set_field (@job_eta H) (@j_public_values H) j v).
Definition with_cycle_count (v : option Z) (j : Job) : Job := ltac:(set_field (@job_eta H) (@j_cycle_count H) j v).
Definition with_approval (v : option Approval) (j : Job) : Job := ltac:(set_field (@job_eta H) (@j_approval H) j v).
Definition with_proof_request_intent (v : option uuid) (j : Job) : Job :=
  ltac:(set_field (@job_eta H) (@j_proof_request_intent H) j v).
Definition with_proof_request_id (v : option string) (j : Job) : Job :=
  ltac:(set_field (@job_eta H) (@j_proof_request_id H) j v).
Definition with_proof_bytes (v : option string) (j : Job) : Job :=
  ltac:(set_field (@job_eta H) (@j_proof_bytes H) j v).
Definition with_metrics (v : option RequestMetrics) (j : Job) : Job :=
  ltac:(set_field (@job_eta H) (@j_metrics H) j v).
Definition with_prepared_transaction (v : option PreparedSubmission) (j : Job) : Job :=
  ltac:(set_field (@job_eta H) (@j_prepared_transaction H) j v).
Definition with_transaction_hash (v : option string) (j : Job) : Job :=
  ltac:(set_field (@job_eta H) (@j_transaction_hash H) j v).
Definition with_submitted_block (v : option (Z * string)) (j : Job) : Job :=
  ltac:(set_field (@job_eta H) (@j_submitted_block H) j v).
Definition with_confirmations (v : Z) (j : Job) : Job := ltac:(set_field (@job_eta H) (@j_confirmations H) j v).
Definition with_ethereum_gas_used (v : option Z) (j : Job) : Job :=
  ltac:(set_field (@job_eta H) (@j_ethereum_gas_used H) j v).
Definition with_error (v : option string) (j : Job) : Job := ltac:(set_field (@job_eta H) (@j_error H) j v).
Definition with_error_class (v : option string) (j : Job) : Job :=
  ltac:(set_field (@job_eta H) (@j_error_class H) j v).
Definition with_next_attempt_at (v : option Z) (j : Job) : Job :=
  ltac:(set_field (@job_eta H) (@j_next_attempt_at H) j v).
Definition with_retry_count (v : Z) (j : Job) : Job := ltac:(set_field (@job_eta H) (@j_retry_count H) j v).
Definition with_attempts (v : Z) (j : Job) : Job := ltac:(set_field (@job_eta H) (@j_attempts H) j v).
Definition with_updated_at (v : Z) (j : Job) : Job := ltac:(set_field (@job_eta H) (@j_updated_at H) j v).
Definition with_started_at (v : option Z) (j : Job) : Job := ltac:(set_field (@job_eta H) (@j_started_at H) j v).
Definition with_completed_at (v : option Z) (j : Job) : Job :=
  ltac:(set_field (@job_eta H) (@j_completed_at H) j v).

Definition with_jobs (v : gmap uuid Job) (db : Db) : Db := {|
  jobs := v; writer := writer db; recovery_ready := recovery_ready db;
  outer_public_key := outer_public_key db; outer_account := outer_account db;
  account_nonces := account_nonces db; pending_commands := pending_commands db |}.
Definition with_writer (v : Owner) (db : Db) : Db := {|
  jobs := jobs db; writer := v; recovery_ready := recovery_ready db;
  outer_public_key := outer_public_key db; outer_account := outer_account db;
  account_nonces := account_nonces db; pending_commands := pending_commands db |}.
Definition with_recovery_ready (v : bool) (db : Db) : Db := {|
  jobs := jobs db; writer := writer db; recovery_ready := v;
  outer_public_key := outer_public_key db; outer_account := outer_account db;
  account_nonces := account_nonces db; pending_commands := pending_commands db |}.
Definition with_pending_commands (v : list PendingCommand) (db : Db) : Db := {|
  jobs := jobs db; writer := writer db; recovery_ready := recovery_ready db;
  outer_public_key := outer_public_key db; outer_account := outer_account db;
  account_nonces := account_nonces db; pending_commands := v |}.

End setters.

(** ** Transactions *)

Section transactions.
Context `{Externals}.

(** A transaction reads [NOW()] and the database; an [Err] rolls it back. *)
Definition tx (A : Type) : Type := Z -> Db -> outcome error (A * Db).

#[export] Instance tx_ret : MRet tx := fun A a _ db => Ok (a, db).
#[export] Instance tx_bind : MBind tx := fun A B f t now db =>
  match t now db with
  | Ok (a, db) => f a now db
  | Err e => Err e
  | Panic w => Panic w
  end.

Definition fail {A} (e : error) : tx A := fun _ _ => Err e.
Definition lift {A} (o : outcome error A) : tx A := fun _ db => a ← o; Ok (a, db).
Definition now_ : tx Z := fun now db => Ok (now, db).
Definition read_db : tx Db := fun _ db => Ok (db, db).
Definition write_db (db : Db) : tx unit := fun _ _ => Ok (tt, db).
Definition require (b : bool) (e : error) : tx unit := if b then mret tt else fail e.
(** [Option::context]. *)
Definition some_or {A} (o : option A) (e : error) : tx A :=
  match o with Some a => mret a | None => fail e end.

(** Commit, or roll back to the database before. *)
Definition transact {A} (t : tx A) (now : Z) (db : Db) : outcome error A * Db :=
  match t now db with
  | Ok (a, db') => (Ok a, db')
  | Err e => (Err e, db)
  | Panic w => (Panic w, db)
  end.

(** *** Constraints *)

Definition active_statuses : list proof_status :=
  [validating; awaiting_approval; approved; proof_requested; proving; submitting; submitted].
Definition status_in (l : list proof_status) (j : Job) : bool := bool_decide (j_status j ∈ l).

(** The unique indexes [one_active_settlement] and [one_active_bridge_batch]
    (migration 0012). *)
Definition in_active_settlement (j : Job) : bool :=
  bool_decide (j_kind j = Settlement) && status_in active_statuses j.
Definition in_active_bridge (j : Job) : bool :=
  bool_decide (j_kind j = Bridge) && status_in (queued :: active_statuses) j.
Definition count_jobs (p : Job -> bool) (js : gmap uuid Job) : nat :=
  size (filter (fun kv => p kv.2 = true) js).
Definition unique_ok (js : gmap uuid Job) : bool :=
  (count_jobs in_active_settlement js <=? 1)%nat && (count_jobs in_active_bridge js <=? 1)%nat.

(** The check of [gateway_outer_writer] (migration 0020). *)
Definition owner_ok (o : Owner) : bool :=
  (bool_decide (reservation_id o = None) && bool_decide (owner_id o = None) &&
   bool_decide (expires_at o = None) && negb (bool_decide (is_Some (checkpoint o))) &&
   bool_decide (job_id o = None)) ||
  (bool_decide (is_Some (reservation_id o)) && bool_decide (is_Some (owner_id o)) &&
   (bool_decide (is_Some (job_id o)) || bool_decide (is_Some (expires_at o)))).

Definition unique_violation : error := [Sqlx "duplicate key value violates unique constraint" (SqlxDatabase (Some "23505"%string))].
Definition check_violation : error := [Sqlx "violates check constraint" (SqlxDatabase (Some "23514"%string))].

(** *** Statements *)

(** [attempts] is an INTEGER column; adding past its range is an error. *)
Definition row_ok (j : Job) : bool := j_attempts j <? 2 ^ 31.
Definition out_of_range : error := [Sqlx "value out of range" (SqlxDatabase (Some "22003"%string))].

(** [UPDATE proof_jobs SET f WHERE p]. *)
Definition update_jobs (p : uuid -> Job -> bool) (f : uuid -> Job -> Job) : tx unit :=
  db ← read_db;
  let js := map_imap (fun id j => Some (if p id j then f id j else j)) (jobs db) in
  require (bool_decide (map_Forall (fun id j => p id j = true -> row_ok (f id j) = true) (jobs db))) out_of_range;;
  require (unique_ok js) unique_violation;;
  write_db (with_jobs js db).

(** [UPDATE proof_jobs SET f WHERE id = $1 AND p]; whether a row changed. *)
Definition update_job (id : uuid) (p : Job -> bool) (f : Job -> Job) : tx bool :=
  db ← read_db;
  match jobs db !! id with
  | Some j =>
    if p j then
      let js := <[id := f j]> (jobs db) in
      require (row_ok (f j)) out_of_range;;
      require (unique_ok js) unique_violation;;
      write_db (with_jobs js db);;
      mret true
    else mret false
  | None => mret false
  end.

(** [UPDATE gateway_outer_writer SET ... WHERE id = TRUE]; the token is a
    BIGINT. *)
Definition update_writer (o : Owner) : tx unit :=
  require (fencing_token o <? 2 ^ 63) out_of_range;;
  require (owner_ok o) check_violation;;
  db ← read_db; write_db (with_writer o db).

(** [DELETE FROM gateway_pending_commands WHERE job_id = $1]. *)
Definition delete_pending (id : uuid) : tx unit :=
  db ← read_db;
  write_db (with_pending_commands (filter (fun c => pc_job_id c <> id) (pending_commands db)) db).

(** A new row with the column defaults. *)
Definition new_job (kind : ProofKind) (input : Value) (key : option string) (digest : string) (now : Z) : Job := {|
  j_kind := kind; j_status := queued; j_idempotency_key := key; j_input := input; j_input_digest := digest;
  j_preflight_input_digest := None; j_public_values := None; j_cycle_count := None; j_approval := None;
  j_proof_request_intent := None; j_proof_request_id := None; j_proof_bytes := None; j_metrics := None;
  j_prepared_transaction := None; j_transaction_hash := None; j_submitted_block := None; j_confirmations := 0;
  j_ethereum_gas_used := None; j_error := None; j_error_class := None; j_next_attempt_at := None;
  j_retry_count := 0; j_attempts := 0; j_created_at := now; j_updated_at := now; j_started_at := None;
  j_completed_at := None |}.

Definition has_key (key : string) (kv : uuid * Job) : bool := bool_decide (j_idempotency_key kv.2 = Some key).

(** The row with an idempotency key, if there is one. *)
Definition find_key (key : option string) (js : gmap uuid Job) : option (uuid * Job) :=
  match key with
  | None => None
  | Some key => snd <$> list_find (fun kv => has_key key kv = true) (map_to_list js)
  end.

(** [INSERT INTO proof_jobs ... ON CONFLICT (idempotency_key) DO UPDATE ...
    WHERE proof_jobs.input_digest = EXCLUDED.input_digest RETURNING id]:
    [None] when the key belongs to a job with another payload. *)
Definition insert_job (id : uuid) (kind : ProofKind) (input : Value) (key : option string) (digest : string)
    : tx (option uuid) :=
  now ← now_;
  db ← read_db;
  match find_key key (jobs db) with
  | Some (existing, j) =>
    mret (if bool_decide (j_input_digest j = digest) then Some existing else None)
  | None =>
    require (bool_decide (jobs db !! id = None)) unique_violation;;
    let js := <[id := new_job kind input key digest now]> (jobs db) in
    require (unique_ok js) unique_violation;;
    write_db (with_jobs js db);;
    mret (Some id)
  end.

End transactions.
