(* ===== verification/Program.v ===== *)
(** * Asynchronous handlers as programs

    A handler of the gateway alternates database transactions with calls to
    the chain, the prover network and the random generator.  A program is the
    tree of those steps; it is run by choosing the replies of the calls, and
    other programs may run between any two of its steps. *)

From stdpp Require Import gmap strings.
From S2P Require Import Prelude Rpc Database.

(** The limits of a proof request ([ProverConfig]). *)
Record ProverConfig := { gas_limit : option Z; pc_max_price_per_pgu : option Z }.

(** A prover's result ([wait_proof]). *)
Record ProofResult := { pr_public_values : bytes; pr_proof : bytes }.

(** What the settlement and bridge contracts answer. *)
Record SettlementState := {
  ss_program_vkey : bytes;
  ss_vk_hash : bytes;
  ss_action_state : bytes;
  ss_current_root : bytes;
  ss_outer_state : list bytes;
  ss_outer_action_state_length : Z;
  ss_batch_sequence : Z
}.
Record BridgeState := {
  bs_program_vkey : bytes;
  bs_deposit_nonce : Z;
  bs_current_deposit_state : bytes;
  bs_bridged_deposit_nonce : Z;
  bs_action_state_processed : option bool;
  bs_paused : bool
}.
Record BlockRef := { br_number : Z; br_hash : string; br_parent_hash : string }.

Section program.
Context `{Externals}.

(** The calls of the worker that leave the process. *)
Inductive call : Type -> Type :=
| NewUuid : call uuid
| PrepareSubmission (kind : ProofKind) (public_values proof : bytes) : call (outcome error PreparedSubmission)
| BroadcastSubmission (prepared : PreparedSubmission) : call (outcome error string)
| Preflight (kind : ProofKind) (input : Value) (execute_only : bool) : call (outcome error (bytes * option Z))
| ReadProgramVkey (kind : ProofKind) : call (outcome error string)
| ReadChainId : call (outcome error Z)
| ReadLatestBlock : call (outcome error BlockRef)
| ReadSettlementState (at_ : option BlockRef) : call (outcome error SettlementState)
| ReadBridgeState (at_ : BlockRef) (nonce : Z) (state : bytes) : call (outcome error (BridgeState * option bytes))
| HydrateSettlement (input : Value) : call (outcome error Value)
| CurrentVirtualSlot : call (outcome error Z)
| RequestProof (kind : ProofKind) (input : Value) (config : ProverConfig) : call (outcome error string)
| WaitProof (kind : ProofKind) (request_id : string) : call (outcome error ProofResult)
| ReadMetrics (request_id : string) : call (outcome error (RequestMetrics * option Z)).

Inductive prog (A : Type) : Type :=
| Ret (a : A)
| Throw (e : error)
| Transaction {B} (t : tx B) (k : outcome error B -> prog A)
| Call {B} (c : call B) (k : B -> prog A).
Arguments Ret {A} a.
Arguments Throw {A} e.
Arguments Transaction {A B} t k.
Arguments Call {A B} c k.

#[export] Instance prog_ret : MRet prog := @Ret.
Fixpoint prog_bind_ {A B} (f : A -> prog B) (p : prog A) : prog B :=
  match p with
  | Ret a => f a
  | Throw e => Throw e
  | Transaction t k => Transaction t (fun r => prog_bind_ f (k r))
  | Call c k => Call c (fun r => prog_bind_ f (k r))
  end.
#[export] Instance prog_bind : MBind prog := @prog_bind_.

(** [if let Err(error) = result]. *)
Fixpoint catch {A} (p : prog A) (h : error -> prog A) : prog A :=
  match p with
  | Ret a => Ret a
  | Throw e => h e
  | Transaction t k => Transaction t (fun r => catch (k r) h)
  | Call c k => Call c (fun r => catch (k r) h)
  end.

(** The [?] operator on what a transaction or a call returned. *)
Definition try_ {A} (o : outcome error A) : prog A :=
  match o with
  | Ok a => Ret a
  | Err e => Throw e
  | Panic why => Throw (message why)
  end.
Definition run_tx {A} (t : tx A) : prog A := Transaction t try_.
Definition ask {A} (c : call (outcome error A)) : prog A := Call c try_.
Definition ensure_ (b : bool) (why : string) : prog unit := if b then Ret tt else Throw (message why).
Definition context_ {A} (o : option A) (why : string) : prog A :=
  match o with Some a => Ret a | None => Throw (message why) end.

End program.
#[global] Arguments Ret {H A} a.
#[global] Arguments Throw {H A} e.
#[global] Arguments Transaction {H A B} t k.
#[global] Arguments Call {H A B} c k.
