(* ===== verification/OuterWriter.v ===== *)
(** * The outer writer ([api/src/outer_writer.rs])

    One row owns the outer action state: a preparation lease, or the accepted
    job that took it over.  Every admission path locks the row first. *)

From Stdlib Require Import Ascii Decimal DecimalString DecimalZ.
From stdpp Require Import gmap strings.
From S2P Require Import Prelude Rpc Database Program.

(** ** Coordination errors *)

Inductive StatusCode := CONFLICT | SERVICE_UNAVAILABLE.

Definition conflict (code msg : string) : error := [Coordination code msg].

(** [downcast_ref::<CoordinationError>]. *)
Fixpoint error_code (e : error) : option string :=
  match e with
  | [] => None
  | Coordination code _ :: _ => Some code
  | _ :: e => error_code e
  end.

(** The status and [errorCode] of [error_response]. *)
Definition error_response (e : error) : StatusCode * string :=
  (if bool_decide (is_Some (error_code e)) then CONFLICT else SERVICE_UNAVAILABLE,
   default "COORDINATION_UNAVAILABLE"%string (error_code e)).

(** ** Fencing tokens *)

Definition i64_to_string (z : Z) : string := NilZero.string_of_int (Z.to_int z).

(** [str::parse::<i64>]: an optional sign and at least one digit, in range. *)
Definition parse_i64 (s : string) : option Z :=
  z ← match s with
      | String "+"%char rest => (fun u => Z.of_int (Pos u)) <$> NilZero.uint_of_string rest
      | _ => Z.of_int <$> NilZero.int_of_string s
      end;
  if (- 2 ^ 63 <=? z) && (z <? 2 ^ 63) then Some z else None.

Record Reservation := {
  r_reservation_id : uuid;
  r_fencing_token : string;
  r_expires_at : option Z;
  r_checkpoint : Checkpoint
}.

Definition owner_response (o : Owner) : outcome error Reservation :=
  match reservation_id o, checkpoint o with
  | None, _ => Err (message "writer has no reservation")
  | _, None => Err (message "writer has no checkpoint")
  | Some id, Some c => Ok {| r_reservation_id := id; r_fencing_token := i64_to_string (fencing_token o);
                             r_expires_at := expires_at o; r_checkpoint := c |}
  end.

(** [Owner::matches]. *)
Definition owner_matches (o : Owner) (token : ReservationToken) : bool :=
  bool_decide (reservation_id o = Some (rt_id token)) &&
  bool_decide (parse_i64 (rt_fencing_token token) = Some (fencing_token o)).

(** Requests carry an optional TTL. *)
Definition ttl (value : option Z) : outcome error Z :=
  let seconds := default 120 value in
  if negb ((30 <=? seconds) && (seconds <=? 600)) then
    Err (conflict "INVALID_RESERVATION" "ttlSeconds must be between 30 and 600")
  else Ok seconds.

(** [settlement_idempotency_key]; [print] is the display form of a uuid. *)
Definition settlement_idempotency_key (print : uuid -> string) (hash : string)
    (reservation : option ReservationToken) : string :=
  match reservation with
  | Some reservation => (hash ++ ":reservation:" ++ print (rt_id reservation))%string
  | None => hash
  end.

Record AcquireRequest := { ar_owner_id : string; ar_ttl_seconds : option Z }.

Section writer.
Context `{Externals}.

Definition decimal (b : bytes) : string := u256_to_string (from_be b).

(** [Checkpoint::from_chain]. *)
Definition from_chain (block : BlockRef) (state : SettlementState) : Checkpoint := {|
  outer_state_fields := map decimal (ss_outer_state state);
  ledger_hash := decimal (ss_current_root state);
  action_state := decimal (ss_action_state state);
  action_state_length := ss_outer_action_state_length state;
  block_number := br_number block;
  block_hash := br_hash block |}.

(** ** The lock and the checks under it *)

(** The SQL predicate of a job that can no longer write: settled on Ethereum,
    or finished without any transaction that could still appear. *)
Definition settled (j : Job) : bool :=
  status_in [confirmed; ethereum_reverted] j ||
  (bool_decide (j_transaction_hash j = None) && bool_decide (j_prepared_transaction j = None) &&
   status_in [executed; failed; proof_failed; rejected; reorged] j).

(** The row after [reservation_id = NULL, ..., job_id = NULL]. *)
Definition cleared (o : Owner) : Owner := {|
  reservation_id := None; owner_id := None; fencing_token := fencing_token o;
  expires_at := None; checkpoint := None; job_id := None |}.

(** The condition under which [lock] clears the row. *)
Definition releasable (now : Z) (js : gmap uuid Job) (o : Owner) : bool :=
  match job_id o with
  | None => from_option (fun e => e <=? now) false (expires_at o)
  | Some id => from_option settled false (js !! id)
  end.

Definition lock : tx unit :=
  db ← read_db;
  require (recovery_ready db) (conflict "OUTER_WRITER_BUSY" "gateway is replaying finalized state");;
  now ← now_;
  if releasable now (jobs db) (writer db) then update_writer (cleared (writer db)) else mret tt.

Definition owner : tx Owner := db ← read_db; mret (writer db).

(** The unfinished jobs other than [except]. *)
Definition busy_jobs (except : option uuid) (js : gmap uuid Job) : gmap uuid Job :=
  filter (fun kv => Some kv.1 <> except /\ settled kv.2 = false) js.

Definition ensure_no_jobs (except : option uuid) : tx unit :=
  db ← read_db;
  require (bool_decide (busy_jobs except (jobs db) = ∅))
    (conflict "OUTER_WRITER_BUSY" "an outer-state job is queued or active").

Definition virtual_account : tx Value :=
  db ← read_db; some_or (outer_account db) (message "virtual outer account is not configured").

(** The advisory precheck of the automatic bridge loop. *)
Definition busy : tx bool :=
  db ← read_db; now ← now_;
  mret ((bool_decide (job_id (writer db) = None) && from_option (fun e => now <? e) false (expires_at (writer db)))
        || negb (bool_decide (busy_jobs None (jobs db) = ∅))).

Definition account_matches (account : Value) (c : Checkpoint) : bool :=
  bool_decide (get account "zkappState" = Some (strings_value (outer_state_fields c))) &&
  bool_decide ((pointer account "/actionState/0" ≫= as_str) = Some (action_state c)).

(** ** Leases *)

Definition with_lease (expiry : Z) (o : Owner) : Owner := {|
  reservation_id := reservation_id o; owner_id := owner_id o; fencing_token := fencing_token o;
  expires_at := Some expiry; checkpoint := checkpoint o; job_id := job_id o |}.

(** [fresh] is the value of [Uuid::new_v4]. *)
Definition acquire_with_checkpoint (fresh : uuid) (request : AcquireRequest) (c : Checkpoint)
    : tx Reservation :=
  seconds ← lift (ttl (ar_ttl_seconds request));
  require (negb ((String.length (ar_owner_id request) =? 0)%nat || (200 <? String.length (ar_owner_id request))%nat))
    (conflict "INVALID_RESERVATION" "ownerId must contain 1 to 200 bytes");;
  lock;;
  current ← owner;
  now ← now_;
  (if bool_decide (is_Some (reservation_id current)) then
     require (negb (bool_decide (is_Some (job_id current)) ||
                    bool_decide (owner_id current <> Some (ar_owner_id request))))
       (conflict "OUTER_WRITER_BUSY" "another writer owns preparation or submission");;
     update_writer (with_lease (now + seconds * second) current)
   else
     ensure_no_jobs None;;
     account ← virtual_account;
     require (account_matches account c)
       (conflict "STALE_CHECKPOINT" "gateway has not caught up to the finalized checkpoint");;
     update_writer {| reservation_id := Some fresh; owner_id := Some (ar_owner_id request);
                      fencing_token := fencing_token current + 1; expires_at := Some (now + seconds * second);
                      checkpoint := Some c; job_id := None |});;
  current ← owner;
  lift (owner_response current).

Definition acquire (fresh : uuid) (request : AcquireRequest) (block : BlockRef) (state : SettlementState)
    : tx Reservation := acquire_with_checkpoint fresh request (from_chain block state).

Definition renew_token (token : ReservationToken) (seconds : Z) : tx Reservation :=
  current ← owner;
  require (owner_matches current token) (conflict "RESERVATION_EXPIRED" "reservation was released or fenced");;
  (if bool_decide (job_id current = None) then
     now ← now_;
     require (from_option (fun e => now <? e) false (expires_at current))
       (conflict "RESERVATION_EXPIRED" "preparation lease expired");;
     update_writer (with_lease (now + seconds * second) current)
   else mret tt);;
  current ← owner;
  lift (owner_response current).

Definition renew (token : ReservationToken) (ttl_seconds : option Z) : tx Reservation :=
  seconds ← lift (ttl ttl_seconds);
  renew_token token seconds.

(** [release] clears the row but leaves [job_id], which is null there. *)
Definition release (token : ReservationToken) : tx unit :=
  lock;;
  current ← owner;
  if bool_decide (reservation_id current = None) then mret tt
  else
    require (owner_matches current token) (conflict "RESERVATION_EXPIRED" "reservation was released or fenced");;
    require (bool_decide (job_id current = None))
      (conflict "OUTER_WRITER_BUSY" "accepted job ownership lasts until its outcome is reconciled");;
    update_writer {| reservation_id := None; owner_id := None; fencing_token := fencing_token current;
                     expires_at := None; checkpoint := None; job_id := job_id current |}.

(** ** Bindings of a settlement input *)

Definition field (value : Value) : outcome error string :=
  encoded ← match as_str value with Some s => Ok s | None => Err (message "binding field must be a hex string") end;
  digits ← match strip_prefix "0x" encoded with
           | Some s => Ok s | None => Err (message "binding field must be 0x-prefixed") end;
  decoded ← match hex_decode digits with Some b => Ok b | None => Err (message "invalid hex") end;
  ensure (length decoded =? 32)%nat (message "binding field must be 32 bytes");;
  Ok (decimal decoded).

Definition context {A} (o : option A) (why : string) : outcome error A :=
  match o with Some a => Ok a | None => Err (message why) end.

Definition ledger_hashes (input : Value) : outcome error (string * string) :=
  source ← context (pointer input "/proof/binding/stateBefore/fields/2") "missing source ledger binding";
  source ← field source;
  target ← context (pointer input "/proof/binding/actions/0/1") "missing target ledger binding";
  target ← field target;
  Ok (source, target).

Definition proof_matches_checkpoint (input : Value) (c : Checkpoint) : outcome error bool :=
  fields ← context (pointer input "/proof/binding/stateBefore/fields" ≫= as_array) "missing outer state binding";
  action ← context (pointer input "/proof/binding/accountUpdateBody/fieldElements/36")
             "missing action state binding";
  fields ← mapM field fields;
  if bool_decide (fields = outer_state_fields c) then
    action ← field action;
    Ok (bool_decide (action = action_state c))
  else Ok false.

(** ** Admission *)

Definition attach_settlement (id : uuid) (token : option ReservationToken) (input : Value) : tx unit :=
  token ← some_or token (conflict "RESERVATION_REQUIRED" "acquire a preparation reservation before proving");
  current ← owner;
  require (negb (negb (owner_matches current token) || bool_decide (is_Some (job_id current))))
    (conflict "RESERVATION_EXPIRED" "preparation token is no longer the current owner");;
  ensure_no_jobs (Some id);;
  c ← some_or (checkpoint current) (message "reservation checkpoint missing");
  account ← virtual_account;
  fresh ← (if account_matches account c then lift (proof_matches_checkpoint input c) else mret false);
  require fresh (conflict "STALE_CHECKPOINT" "settlement proof does not match its reserved finalized checkpoint");;
  lift (ledger_hashes input);;
  now ← now_;
  require (from_option (fun e => now <? e) false (expires_at current))
    (conflict "RESERVATION_EXPIRED" "preparation lease expired before admission");;
  update_writer {| reservation_id := reservation_id current; owner_id := owner_id current;
                   fencing_token := fencing_token current; expires_at := None;
                   checkpoint := checkpoint current; job_id := Some id |}.

(** [fresh] is the new reservation id and [name] is [format!("bridge:{job_id}")]. *)
Definition attach_bridge (fresh : uuid) (name : string) (id : uuid) (input : Value) : tx unit :=
  current ← owner;
  require (bool_decide (reservation_id current = None))
    (conflict "OUTER_WRITER_BUSY" "another writer owns preparation or submission");;
  ensure_no_jobs (Some id);;
  expected ← lift (value ← context (pointer input "/zeko/action_state") "missing bridge action state"; field value);
  account ← virtual_account;
  require (bool_decide ((pointer account "/actionState/0" ≫= as_str) = Some expected))
    (conflict "STALE_CHECKPOINT" "bridge input does not match finalized gateway state");;
  update_writer {| reservation_id := Some fresh; owner_id := Some name;
                   fencing_token := fencing_token current + 1; expires_at := None; checkpoint := None;
                   job_id := Some id |}.

Definition attach_job (fresh : uuid) (name : string) (id : uuid) (kind : ProofKind) (input : Value) : tx unit :=
  match kind with
  | Bridge => attach_bridge fresh name id input
  | Settlement =>
    match get input "reservation" with
    | Some value =>
      if is_null value then attach_settlement id None input
      else
        token ← some_or (parse_reservation value) (message "invalid reservation");
        attach_settlement id (Some token) input
    | None => attach_settlement id None input
    end
  end.

(** ** Outcomes *)

Definition retryable (j : Job) : bool :=
  bool_decide (j_status j = ethereum_reverted) ||
  (bool_decide (j_transaction_hash j = None) && bool_decide (j_prepared_transaction j = None) &&
   status_in [failed; proof_failed] j &&
   bool_decide (j_error_class j ∈ [Some "stale_checkpoint"; Some "expired"]%string)) ||
  (status_in [queued; approved; submitting] j &&
   bool_decide (j_error_class j <> Some "proof_request_ambiguous"%string)).

(** The newest settlement job of a Mina transaction. *)
Definition newer (a b : uuid * Job) : uuid * Job :=
  if j_created_at a.2 <? j_created_at b.2 then b else a.
Definition settlement_of_hash (hash : string) (js : gmap uuid Job) : option (uuid * Job) :=
  let rows := filter (fun kv => j_kind kv.2 = Settlement /\
                                (get (j_input kv.2) "minaTransactionHash" ≫= as_str) = Some hash) (map_to_list js) in
  match rows with
  | [] => None
  | row :: rows => Some (foldl newer row rows)
  end.

Record OutcomeReport := {
  or_job_id : uuid;
  or_status : proof_status;
  or_finalized : bool;
  or_retryable : bool;
  or_transaction_hash : option string;
  or_error_class : option string;
  or_ledger_hashes : option (string * string)
}.

Definition outcome_report (hash : string) : tx (option OutcomeReport) :=
  db ← read_db;
  mret (row ← settlement_of_hash hash (jobs db);
        let '(id, j) := row in
        Some {| or_job_id := id; or_status := j_status j; or_finalized := bool_decide (j_status j = confirmed);
                or_retryable := retryable j; or_transaction_hash := j_transaction_hash j;
                or_error_class := j_error_class j;
                or_ledger_hashes := match ledger_hashes (j_input j) with Ok h => Some h | _ => None end |}).

End writer.
