(* ===== verification/Submission.v ===== *)
(** * Durable Ethereum submission ([api/src/submission.rs])

    The proof and the signed bytes are stored before any broadcast, so that a
    lost response never leads to a second proof request or a second signed
    transaction. *)

From stdpp Require Import gmap strings.
From S2P Require Import Prelude Rpc Database OuterWriter Program.

(** ** Failure classes *)

Inductive FailureClass :=
| SnapshotUnavailable | RateLimited | TransportFailure | InsufficientFunds | StaleCheckpoint | Expired
| RejectedFailure | Unknown.

#[export] Instance FailureClass_eq_dec : EqDecision FailureClass.
Proof. solve_decision. Defined.

Definition class_as_str (c : FailureClass) : string :=
  match c with
  | SnapshotUnavailable => "snapshot_unavailable"
  | RateLimited => "rate_limited"
  | TransportFailure => "transport"
  | InsufficientFunds => "insufficient_funds"
  | StaleCheckpoint => "stale_checkpoint"
  | Expired => "expired"
  | RejectedFailure => "rejected"
  | Unknown => "unknown"
  end.

Definition class_retryable (c : FailureClass) : bool :=
  match c with
  | SnapshotUnavailable | RateLimited | TransportFailure | InsufficientFunds => true
  | _ => false
  end.

Definition transient_sqlx (e : SqlxError) : bool :=
  match e with
  | SqlxIo | SqlxPoolTimedOut | SqlxPoolClosed | SqlxWorkerCrashed => true
  | SqlxDatabase (Some code) =>
    starts_with "08" code ||
    bool_decide (code ∈ ["40001"; "40P01"; "53300"; "55P03"; "57P01"; "57P02"; "57P03"]%string)
  | _ => false
  end.

Definition transient_database_error (e : error) : bool :=
  existsb (fun c => match c with Sqlx _ s => transient_sqlx s | _ => false end) e.

Definition classify (e : error) : FailureClass :=
  let msg := to_ascii_lowercase (error_message e) in
  let has pattern := contains pattern msg in
  if bool_decide (rpc_classify e = KindSnapshotUnavailable) then SnapshotUnavailable
  else if bool_decide (rpc_classify e = KindInsufficientFunds) || has "insufficient funds" then InsufficientFunds
  else if is_rate_limited e || has "429" || has "-32007" || has "rate limit" || has "too many requests"
  then RateLimited
  else if has "action state mismatch" || has "outer action-state length mismatch" ||
          has "settlement batch sequence mismatch" || has "stale settlement" || has "stale checkpoint" ||
          (has "outer state field" && has "mismatch") ||
          bool_decide (error_code e = Some "STALE_CHECKPOINT"%string)
  then StaleCheckpoint
  else if has "expired" || has "remaining slots" || has "slots remaining" then Expired
  else if transient_database_error e || bool_decide (rpc_classify e = KindTransient) || has "timed out" ||
          has "timeout" || has "connection reset" || has "connection refused" || has "connection closed" ||
          has "error sending request" || has "temporarily unavailable" || has "http error 502" ||
          has "http error 503" || has "http error 504"
  then TransportFailure
  else if has "cancelled" || has "rejected" then RejectedFailure
  else Unknown.

(** Seconds; [attempt] is a [u32] and [jitter] a [u64]. *)
Definition retry_delay (attempt : Z) (class : FailureClass) (jitter : Z) : Z :=
  let base := if bool_decide (class = InsufficientFunds) then 30 else 2 in
  let seconds := Z.min (base * Z.shiftl 1 (Z.min attempt 8)) 300 in
  seconds + jitter mod (seconds / 4 + 1).

(** [database_safe_error]: NUL bytes are written out. *)
Fixpoint replace_nul (s : string) : string :=
  match s with
  | EmptyString => EmptyString
  | String c s => if bool_decide (Ascii.nat_of_ascii c = 0%nat) then ("\0" ++ replace_nul s)%string
                  else String c (replace_nul s)
  end.
Definition database_safe_error (e : error) : string := replace_nul (error_message e).

Definition ambiguous : string :=
  "SP1 request outcome is unknown; reconcile the persisted intent before retrying".

Section submission.
Context `{Externals}.

(** ** Restart *)

(** The request was sealed but its identifier never came back. *)
Definition unknown_proof_request (j : Job) : bool :=
  bool_decide (is_Some (j_proof_request_intent j)) && bool_decide (j_proof_request_id j = None).

Definition recovered_status (j : Job) : proof_status :=
  if unknown_proof_request j then queued
  else if bool_decide (is_Some (j_transaction_hash j)) && bool_decide (j_prepared_transaction j = None) then submitted
  else if bool_decide (is_Some (j_approval j)) then approved
  else queued.

Definition recover_job (now : Z) (j : Job) : Job :=
  with_updated_at now
    (with_attempts (j_attempts j + 1)
      (with_error_class (if unknown_proof_request j then Some "proof_request_ambiguous"%string else j_error_class j)
        (with_error (Some (if unknown_proof_request j then ambiguous else "worker restarted before completion"%string))
          (with_status (recovered_status j) j)))).

Definition in_flight (j : Job) : bool := status_in [validating; proof_requested; proving; submitting] j.

Definition recover_interrupted : tx unit :=
  now ← now_;
  update_jobs (fun _ => in_flight) (fun _ => recover_job now).

(** ** Sealed proof requests *)

Definition begin_proof_request (intent id : uuid) (attempts : Z) : tx uuid :=
  now ← now_;
  sealed ← update_job id (fun j => bool_decide (j_attempts j = attempts) && bool_decide (j_status j = proving) &&
                                   bool_decide (j_proof_request_intent j = None) &&
                                   bool_decide (j_proof_request_id j = None))
    (fun j => with_updated_at now (with_proof_request_intent (Some intent) j));
  require sealed (message "proof request already sealed or worker claim was fenced");;
  mret intent.

Definition finish_proof_request (id intent : uuid) (request_id : string) : tx unit :=
  now ← now_;
  matched ← update_job id
    (fun j => bool_decide (j_proof_request_intent j = Some intent) &&
              bool_decide (j_proof_request_id j ∈ [None; Some request_id]) &&
              status_in [queued; approved; proving; proof_requested] j)
    (fun j => with_updated_at now (with_next_attempt_at None (with_error_class None (with_error None
                (with_status (if bool_decide (j_status j = proving) then proof_requested else j_status j)
                  (with_proof_request_id (Some request_id) j))))));
  require matched (message "proof request response does not match its durable intent").

(** ** Sending *)

(** The first update of [send]; it returns [prepared_transaction]. *)
Definition send_claim (id : uuid) (attempts : Z) (public_values proof : string) : tx (option PreparedSubmission) :=
  now ← now_;
  claimed ← update_job id
    (fun j => bool_decide (j_attempts j = attempts) && status_in [validating; proving; proof_requested; submitting] j)
    (fun j => with_updated_at now (with_status submitting
                (with_transaction_hash (match j_prepared_transaction j with
                                        | Some p => Some (transaction_hash p)
                                        | None => j_transaction_hash j end)
                  (with_proof_bytes (Some proof) (with_public_values (Some public_values) j)))));
  require claimed (message "proof job was cancelled before preparing submission");;
  db ← read_db;
  mret (jobs db !! id ≫= j_prepared_transaction).

Definition send_persist (id : uuid) (attempts : Z) (prepared : PreparedSubmission) : tx unit :=
  now ← now_;
  persisted ← update_job id
    (fun j => bool_decide (j_attempts j = attempts) && bool_decide (j_status j = submitting) &&
              bool_decide (j_prepared_transaction j = None))
    (fun j => with_updated_at now (with_transaction_hash (Some (transaction_hash prepared))
                (with_prepared_transaction (Some prepared) j)));
  require persisted (message "proof job was cancelled before persisting submission").

Definition send_finish (id : uuid) (attempts : Z) : tx bool :=
  now ← now_;
  update_job id
    (fun j => bool_decide (j_attempts j = attempts) && bool_decide (j_status j = submitting))
    (fun j => with_updated_at now (with_next_attempt_at None (with_error_class None (with_error None
                (with_status submitted j))))).

Definition hex (b : bytes) : string := ("0x" ++ hex_encode b)%string.

Definition send (id : uuid) (attempts : Z) (kind : ProofKind)
    (public_values proof : bytes) : prog unit :=
  row ← run_tx (send_claim id attempts (hex public_values) (hex proof));
  prepared ← match row with
    | Some value => mret value
    | None =>
      prepared ← ask (PrepareSubmission kind public_values proof);
      run_tx (send_persist id attempts prepared);;
      mret prepared
    end;
  hash ← ask (BroadcastSubmission prepared);
  ensure_ (bool_decide (hash = transaction_hash prepared)) "broadcast returned a different transaction hash";;
  run_tx (send_finish id attempts);;
  mret tt.

(** ** Failures *)

Definition terminal_statuses : list proof_status :=
  [confirmed; reorged; rejected; ethereum_reverted; failed; proof_failed; executed].

Definition may_have_broadcast (j : Job) : bool :=
  bool_decide (is_Some (j_prepared_transaction j)) || bool_decide (is_Some (j_transaction_hash j)).

(** [u32::try_from(retry_count).unwrap_or(u32::MAX)]. *)
Definition retry_count_u32 (n : Z) : Z := if n <? 0 then u32_MAX else n.

Definition fail_ambiguous (now : Z) (e : error) (j : Job) : Job :=
  with_updated_at now (with_completed_at None (with_next_attempt_at None
    (with_error_class (Some "proof_request_ambiguous"%string)
      (with_error (Some (ambiguous ++ ": " ++ database_safe_error e)%string) (with_status queued j))))).

Definition fail_retry (now : Z) (id : uuid) (e : error) (j : Job) : Job :=
  let delay := retry_delay (retry_count_u32 (j_retry_count j)) (classify e) (id mod 2 ^ 64) in
  with_updated_at now (with_completed_at None (with_retry_count (Z.min (j_retry_count j + 1) 2147483647)
    (with_next_attempt_at (Some (now + delay * second))
      (with_error_class (Some (class_as_str (classify e)))
        (with_error (Some (database_safe_error e))
          (with_status (if bool_decide (is_Some (j_approval j)) then approved else queued) j)))))).

Definition fail_terminal (now : Z) (e : error) (j : Job) : Job :=
  with_updated_at now (with_next_attempt_at None (with_completed_at (Some now)
    (with_error_class (Some (class_as_str (classify e)))
      (with_error (Some (database_safe_error e)) (with_status failed j))))).

Definition record_failure (id : uuid) (attempts : Z) (e : error) : tx unit :=
  now ← now_;
  db ← read_db;
  j ← some_or (jobs db !! id) [Sqlx "no rows returned by a query that expected to return at least one row" SqlxOther];
  if negb (bool_decide (j_attempts j = attempts)) || status_in terminal_statuses j then mret tt
  else if unknown_proof_request j then
    update_job id (fun _ => true) (fail_ambiguous now e);; mret tt
  else if class_retryable (classify e) || may_have_broadcast j then
    update_job id (fun _ => true) (fail_retry now id e);; mret tt
  else
    update_job id (fun _ => true) (fail_terminal now e);;
    delete_pending id.

End submission.
