(* ===== verification/Worker.v ===== *)
(** * Proof jobs and the worker ([api/src/main.rs], [graphql.rs])

    Admission of jobs, the claim of the single worker, the approval and
    cancellation by an operator, and the handler that takes a claimed job from
    preflight to a submitted Ethereum transaction. *)

From Stdlib Require Import Ascii Decimal DecimalString.
From stdpp Require Import gmap strings.
From S2P Require Import Prelude Codec PublicValues BridgeValues Rpc Database Program OuterWriter Submission.

Record WorkerConfig := {
  execute_only : bool;
  require_proof_approval : bool;
  local_mock_submit : bool;
  min_remaining_slots : Z;
  submission_min_remaining_slots : Z;
  prover_config : ProverConfig;
  network_explorer_base : string;
  settlement_address : bytes;
  bridge_address : bytes
}.

(** [Preflight]: the values a proof will commit to. *)
Inductive PreflightValues :=
| PreflightSettlement (values : SettlementPublicValues)
| PreflightBridge (values : BridgeTransitionPublicValuesV2).

Section worker.
Context `{Externals}.

(** ** Admission *)

Definition default_idempotency_key (print : uuid -> string) (kind : ProofKind) (input : Value) : option string :=
  match kind with
  | Settlement =>
    hash ← get input "minaTransactionHash" ≫= as_str;
    Some (settlement_idempotency_key print hash (get input "reservation" ≫= parse_reservation))
  | Bridge => None
  end.

(** [create_job]: [id] and [fresh] are the new uuids, [name] the bridge owner. *)
Definition create_job (print : uuid -> string) (id fresh : uuid) (name : string) (header : option string)
    (kind : ProofKind) (input : Value) : tx uuid :=
  let key := match header with Some key => Some key | None => default_idempotency_key print kind input end in
  lock;;
  actual ← insert_job id kind input key (proof_input_digest input);
  actual_id ← some_or actual (message "idempotency key already exists with a different payload");
  (if bool_decide (actual_id = id) then attach_job fresh name id kind input else mret tt);;
  mret actual_id.

(** [str::parse::<u64>]. *)
Definition parse_u64 (s : string) : option Z :=
  z ← (fun u => Z.of_int (Decimal.Pos u)) <$>
        match s with
        | String "+"%char rest => DecimalString.NilZero.uint_of_string rest
        | _ => DecimalString.NilZero.uint_of_string s
        end;
  if z <? 2 ^ 64 then Some z else None.

(** The settlement a sequencer sends to [sendZkapp]; [ms_input] is the JSON
    the handler stores. *)
Record MinaSettlement := {
  ms_input : Value;
  ms_mina_transaction_hash : string;
  ms_reservation : option ReservationToken;
  ms_outer_account_public_key : string;
  ms_fee_payer_public_key : string;
  ms_nonce : Z;
  ms_command_base64 : string
}.

Definition terminal_with_executed : list proof_status :=
  [confirmed; executed; failed; proof_failed; ethereum_reverted; reorged; rejected].

(** A terminal job without a possible transaction has no pending command. *)
Definition may_have_pending (j : Job) : bool :=
  negb (status_in terminal_with_executed j) ||
  (may_have_broadcast j && negb (status_in [confirmed; ethereum_reverted] j)).

Definition insert_pending (id : uuid) (public_key : string) (n : Z) (kind base64 : string) : tx unit :=
  db ← read_db;
  if bool_decide (Exists (fun c => pc_job_id c = id /\ pc_command_kind c = kind) (pending_commands db)) then mret tt
  else write_db (with_pending_commands (pending_commands db ++
         [{| pc_job_id := id; pc_public_key := public_key; pc_nonce := n; pc_command_kind := kind;
             pc_command_base64 := base64 |}]) db).

(** The transaction of [queue_settlement] in [graphql.rs]. *)
Definition queue_settlement (print : uuid -> string) (fee_payer : option string) (id : uuid) (s : MinaSettlement)
    : tx uuid :=
  lock;;
  actual ← insert_job id Settlement (ms_input s)
             (Some (settlement_idempotency_key print (ms_mina_transaction_hash s) (ms_reservation s)))
             (proof_input_digest (ms_input s));
  actual_id ← some_or actual (message "transaction hash was reused for different proof input");
  (if bool_decide (actual_id = id) then
     attach_settlement id (ms_reservation s) (ms_input s);;
     configured ← some_or fee_payer (message "virtual Mina fee payer is not configured");
     require (bool_decide (configured = ms_fee_payer_public_key s))
       (message "settlement fee payer does not match gateway configuration");;
     db ← read_db;
     configured ← some_or (outer_public_key db) (message "virtual Mina outer account is not configured");
     require (bool_decide (configured = ms_outer_account_public_key s))
       (message "settlement outer account does not match gateway configuration");;
     expected ← some_or (parse_u64 (default "0"%string (account_nonces db !! ms_fee_payer_public_key s)))
                  (message "invalid nonce");
     require (ms_nonce s =? expected) (message "settlement fee-payer nonce does not match gateway nonce")
   else mret tt);;
  require (ms_nonce s <? 2 ^ 63) (message "out of range integral type conversion attempted");;
  db ← read_db;
  (if from_option may_have_pending false (jobs db !! actual_id) then
     insert_pending actual_id (ms_fee_payer_public_key s) (ms_nonce s) "zkapp" (ms_command_base64 s)
   else mret tt);;
  mret actual_id.

(** ** Approval and cancellation *)

Definition approve_update (id : uuid) (digest : string) (approval : Approval) : tx unit :=
  now ← now_;
  approved_one ← update_job id
    (fun j => bool_decide (j_status j = awaiting_approval) &&
              bool_decide (default (j_input_digest j) (j_preflight_input_digest j) = digest))
    (fun j => with_updated_at now (with_error None
                (with_approval (Some {| approval_input_digest := digest;
                                        approval_max_pgu := approval_max_pgu approval;
                                        approval_max_price_per_pgu := approval_max_price_per_pgu approval;
                                        approval_base_fee_atto_prove := approval_base_fee_atto_prove approval;
                                        approval_network_max_price_per_pgu := approval_network_max_price_per_pgu approval;
                                        approval_max_cost_atto_prove := approval_max_cost_atto_prove approval;
                                        approved_at := now |})
                  (with_status approved j))));
  require approved_one (message "proof job approval raced with another update").

Definition cancel_proof (id : uuid) : tx bool :=
  now ← now_;
  cancelled ← update_job id
    (fun j => bool_decide (j_proof_request_id j = None) && bool_decide (j_proof_request_intent j = None) &&
              bool_decide (j_prepared_transaction j = None) && bool_decide (j_transaction_hash j = None) &&
              status_in [queued; validating; awaiting_approval; approved] j)
    (fun j => with_updated_at now (with_completed_at (Some now)
                (with_error (Some "cancelled by operator before network proof request"%string)
                  (with_status rejected j))));
  (if cancelled : bool then delete_pending id else mret tt);;
  mret cancelled.

(** ** Claiming *)

Record ClaimedJob := {
  cj_id : uuid;
  cj_attempts : Z;
  cj_kind : ProofKind;
  cj_input : Value;
  cj_proof_request_id : option string;
  cj_status : proof_status;
  cj_public_values : option string;
  cj_proof_bytes : option string;
  cj_prepared : bool;
  cj_cycle_count : option Z;
  cj_approval : option Approval
}.

Definition claimed_job (id : uuid) (j : Job) : ClaimedJob := {|
  cj_id := id; cj_attempts := j_attempts j + 1; cj_kind := j_kind j; cj_input := j_input j;
  cj_proof_request_id := j_proof_request_id j; cj_status := j_status j; cj_public_values := j_public_values j;
  cj_proof_bytes := j_proof_bytes j; cj_prepared := bool_decide (is_Some (j_prepared_transaction j));
  cj_cycle_count := j_cycle_count j; cj_approval := j_approval j |}.

(** An active job of the other rows that keeps [id] from being claimed. *)
Definition blocks (id : uuid) (j : Job) (other : uuid * Job) : bool :=
  bool_decide (other.1 <> id) && status_in active_statuses other.2 &&
  ((bool_decide (j_kind j = Settlement) && bool_decide (j_kind other.2 = Settlement)) ||
   bool_decide (j_kind other.2 <> j_kind j)).

Definition claimable (now : Z) (db : Db) (id : uuid) (j : Job) : bool :=
  status_in [queued; approved] j && negb (unknown_proof_request j) &&
  from_option (fun t => t <=? now) true (j_next_attempt_at j) &&
  negb (bool_decide (is_Some (reservation_id (writer db))) && bool_decide (job_id (writer db) <> Some id)) &&
  negb (existsb (blocks id j) (map_to_list (jobs db))).

(** The first row in creation order. *)
Definition older (a b : uuid * Job) : uuid * Job := if j_created_at b.2 <? j_created_at a.2 then b else a.
Definition next_claim (now : Z) (db : Db) : option (uuid * Job) :=
  match filter (fun kv => claimable now db kv.1 kv.2 = true) (map_to_list (jobs db)) with
  | [] => None
  | row :: rows => Some (foldl older row rows)
  end.

Definition claim_update (now : Z) (j : Job) : Job :=
  with_updated_at now (with_started_at (Some (default now (j_started_at j)))
    (with_attempts (j_attempts j + 1)
      (with_status (if bool_decide (j_status j = approved) then proving else validating) j))).

Definition claim_job : tx (option ClaimedJob) :=
  db ← read_db;
  if negb (recovery_ready db) then mret None
  else
    lock;;
    db ← read_db; now ← now_;
    match next_claim now db with
    | None => mret None
    | Some (id, j) =>
      update_job id (fun _ => true) (claim_update now);;
      mret (Some (claimed_job id j))
    end.

Definition set_status (id : uuid) (attempts : Z) (s : proof_status) : tx unit :=
  now ← now_;
  changed ← update_job id
    (fun j => bool_decide (j_attempts j = attempts) &&
              negb (status_in [reorged; rejected; confirmed; ethereum_reverted; failed; executed] j))
    (fun j => with_updated_at now (with_status s j));
  require changed (message "proof job was cancelled").

(** The guarded updates of the preflight stage. *)
Definition update_validating (id : uuid) (attempts : Z) (f : Job -> Job) (why : string) : tx unit :=
  now ← now_;
  changed ← update_job id
    (fun j => bool_decide (j_attempts j = attempts) && bool_decide (j_status j = validating) &&
              bool_decide (j_proof_request_intent j = None))
    (fun j => with_updated_at now (f j));
  require changed (message why).

Definition execute_update (id : uuid) (attempts : Z) : tx unit :=
  now ← now_;
  update_validating id attempts (fun j => with_completed_at (Some now) (with_status executed j)) "proof job was cancelled".

(** The guarded updates after a proof was returned. *)
Definition update_proving (id : uuid) (attempts : Z) (f : Job -> Job) (why : string) : tx unit :=
  now ← now_;
  changed ← update_job id
    (fun j => bool_decide (j_attempts j = attempts) && status_in [proving; proof_requested] j)
    (fun j => with_updated_at now (f j));
  require changed (message why).

Definition update_local (id : uuid) (attempts : Z) (cycles : option Z) : tx unit :=
  now ← now_;
  changed ← update_job id
    (fun j => bool_decide (j_attempts j = attempts) && status_in [validating; proving] j)
    (fun j => with_updated_at now (with_cycle_count cycles j));
  require changed (message "proof job was cancelled before local submission").

(** ** Values and lifetimes *)

Definition decode_hex_bytes (value name : string) : outcome error bytes :=
  digits ← context (strip_prefix "0x" value) (name ++ " must start with 0x");
  context (hex_decode digits) ("invalid " ++ name ++ " hex").

(** The texts of the decoder's errors are not modelled. *)
Definition settlement_values (b : bytes) : outcome error SettlementPublicValues :=
  match decode_values b with Ok v => Ok v | _ => Err (message "invalid settlement public values") end.
Definition bridge_values (b : bytes) : outcome error BridgeTransitionPublicValuesV2 :=
  match BridgeValues.decode b with Ok v => Ok v | _ => Err (message "invalid bridge public values") end.

(** [Preflight::decode]. *)
Definition preflight_decode (kind : ProofKind) (b : bytes) : outcome error PreflightValues :=
  match kind with
  | Settlement => PreflightSettlement <$> settlement_values b
  | Bridge => PreflightBridge <$> bridge_values b
  end.

Definition require_settlement_lifetime (kind : ProofKind) (public_values_hex : string) (min_slots : Z) : prog unit :=
  match kind with
  | Bridge => mret tt
  | Settlement =>
    public_values ← try_ (decode_hex_bytes public_values_hex "settlement public values");
    values ← try_ (settlement_values public_values);
    current ← ask CurrentVirtualSlot;
    let upper := V1.slot_upper (settlement_of values) in
    ensure_ (current <=? upper) "settlement proof expired";;
    ensure_ (min_slots <=? upper - current) "settlement proof has too few slots remaining"
  end.

Definition eq_ignore_ascii_case (a b : string) : bool :=
  bool_decide (to_ascii_lowercase a = to_ascii_lowercase b).

Definition validate_settlement (config : WorkerConfig) (values : V1.SettlementPublicValuesV1) : prog unit :=
  local_vkey ← ask (ReadProgramVkey Settlement);
  chain ← ask (ReadSettlementState None);
  ensure_ (eq_ignore_ascii_case local_vkey (hex (ss_program_vkey chain))) "settlement program vkey mismatch";;
  ensure_ (bool_decide (V1.vk_hash values = ss_vk_hash chain)) "vk hash mismatch";;
  chain_id ← ask ReadChainId;
  ensure_ (V1.chain_id values =? chain_id) "settlement chain id mismatch";;
  ensure_ (bool_decide (V1.settlement_contract values = settlement_address config))
    "settlement contract address mismatch";;
  ensure_ (V1.batch_sequence values =? wrapping_add_u64 (ss_batch_sequence chain) 1)
    "settlement batch sequence mismatch";;
  ensure_ (bool_decide (V1.outer_action_state_before values = ss_action_state chain)) "action state mismatch";;
  ensure_ (V1.outer_action_state_length_before values =? ss_outer_action_state_length chain)
    "outer action-state length mismatch";;
  ensure_ (forallb (fun p => bool_decide (p.1 = p.2)) (zip (os_fields (V1.state_before values)) (ss_outer_state chain)))
    "outer state field mismatch";;
  ensure_ (bool_decide (os_fields (V1.state_before values) !!! 2%nat = ss_current_root chain)) "current root mismatch".

Definition validate_bridge (config : WorkerConfig) (input : Value) (values : BridgeTransitionPublicValuesV2)
    : prog unit :=
  local_vkey ← ask (ReadProgramVkey Bridge);
  input ← context_ (parse_bridge_input input) "invalid bridge input";
  chain_id ← ask ReadChainId;
  block ← ask ReadLatestBlock;
  ensure_ (BridgeGuest.chain_id (BridgeGuest.ethereum input) =? chain_id) "chain id mismatch";;
  ensure_ (bool_decide (BridgeGuest.bridge_address (BridgeGuest.ethereum input) = bridge_address config))
    "bridge address mismatch";;
  '(chain, historical) ← ask (ReadBridgeState block (ethereum_nonce_before values) (zeko_action_state_after values));
  ensure_ (negb (bs_paused chain)) "bridge contract is paused";;
  ensure_ (ethereum_nonce_before values =? bs_bridged_deposit_nonce chain)
    "bridge batch does not start at the next unbridged nonce";;
  ensure_ (bool_decide (bs_action_state_processed chain = Some false)) "bridge action state already processed";;
  ensure_ (eq_ignore_ascii_case local_vkey (hex (bs_program_vkey chain))) "bridge program vkey mismatch";;
  historical ← context_ historical "missing historical deposit state";
  ensure_ (bool_decide (ethereum_state_before values = historical)) "historical deposit state mismatch";;
  ensure_ (ethereum_nonce_after values =? bs_deposit_nonce chain) "deposit nonce after mismatch";;
  ensure_ (bool_decide (ethereum_state_after values = bs_current_deposit_state chain)) "current deposit state mismatch";;
  settlement ← ask (ReadSettlementState (Some block));
  ensure_ (bool_decide (zeko_action_state_before values = ss_action_state settlement))
    "settlement outer action state mismatch";;
  ensure_ (zeko_action_state_length_before values =? ss_outer_action_state_length settlement)
    "settlement outer action-state length mismatch";;
  let count := Z.of_nat (length (actions values)) in
  ensure_ (count <=? u32_MAX) "out of range integral type conversion attempted";;
  after ← context_ (checked_add_u32 (zeko_action_state_length_before values) count)
            "bridge action-state length overflow";
  ensure_ (zeko_action_state_length_after values =? after) "bridge action-state length transition mismatch";;
  ensure_ (bool_decide (ba_state_after <$> last (actions values) = Some (zeko_action_state_after values)))
    "bridge final action-state checkpoint mismatch".

Definition validate_preflight (config : WorkerConfig) (input : Value) (p : PreflightValues) : prog unit :=
  match p with
  | PreflightSettlement values => validate_settlement config (settlement_of values)
  | PreflightBridge values => validate_bridge config input values
  end.

(** ** Processing *)

(** A stored cycle count as a [u64], and a measured one as an [i64]. *)
Definition stored_cycles (c : option Z) : prog unit :=
  ensure_ (from_option (fun c => 0 <=? c) true c) "out of range integral type conversion attempted".
Definition measured_cycles (c : option Z) : prog unit :=
  ensure_ (from_option (fun c => c <? 2 ^ 63) true c) "SP1 preflight cycle count exceeds PostgreSQL BIGINT".

Definition submit_persisted (config : WorkerConfig) (job : ClaimedJob) (proof_hex : string) : prog unit :=
  public_values_hex ← context_ (cj_public_values job) "persisted proof has no public values";
  public_values ← try_ (decode_hex_bytes public_values_hex "public values");
  proof ← try_ (decode_hex_bytes proof_hex "proof bytes");
  (if cj_prepared job then mret tt
   else
     require_settlement_lifetime (cj_kind job) public_values_hex (submission_min_remaining_slots config);;
     preflight ← try_ (preflight_decode (cj_kind job) public_values);
     validate_preflight config (cj_input job) preflight);;
  send (cj_id job) (cj_attempts job) (cj_kind job) public_values proof.

(** The values of the stored preflight of a job that already passed it. *)
Definition stored_preflight (job : ClaimedJob) (missing : string) : prog (bytes * PreflightValues) :=
  public_values_hex ← context_ (cj_public_values job) missing;
  public_values ← try_ (decode_hex_bytes public_values_hex "public values");
  stored_cycles (cj_cycle_count job);;
  preflight ← try_ (preflight_decode (cj_kind job) public_values);
  mret (public_values, preflight).

(** What the proving stage needs: the values, the measured cycles, the input
    and the limits of a request. *)
Record Ready := {
  rd_public_values : bytes;
  rd_preflight : PreflightValues;
  rd_cycles : option Z;
  rd_input : Value;
  rd_config : ProverConfig
}.

(** A first preflight; [None] is an early return. *)
Definition fresh_preflight (config : WorkerConfig) (job : ClaimedJob) : prog (option Ready) :=
  let id := cj_id job in let attempts := cj_attempts job in
  input ← match cj_kind job with
    | Settlement =>
      input ← ask (HydrateSettlement (cj_input job));
      run_tx (update_validating id attempts (with_input input) "settlement job was cancelled");;
      mret input
    | Bridge => mret (cj_input job)
    end;
  run_tx (update_validating id attempts (with_preflight_input_digest (Some (proof_input_digest input)))
            "proof job was cancelled");;
  '(public_values, cycles) ← ask (Preflight (cj_kind job) input (execute_only config));
  preflight ← try_ (preflight_decode (cj_kind job) public_values);
  validate_preflight config input preflight;;
  measured_cycles cycles;;
  run_tx (update_validating id attempts (fun j => with_cycle_count cycles
            (with_public_values (Some (hex public_values)) j)) "proof job was cancelled");;
  if execute_only config then
    run_tx (execute_update id attempts);; mret None
  else if require_proof_approval config then
    run_tx (update_validating id attempts (fun j => with_completed_at None (with_status awaiting_approval j))
              "proof job was cancelled");;
    mret None
  else mret (Some {| rd_public_values := public_values; rd_preflight := preflight; rd_cycles := cycles;
                     rd_input := input; rd_config := prover_config config |}).

Definition ready (config : WorkerConfig) (job : ClaimedJob) : prog (option Ready) :=
  if bool_decide (cj_status job = approved) && bool_decide (cj_proof_request_id job = None) then
    '(public_values, preflight) ← stored_preflight job "approved proof job has no public values";
    validate_preflight config (cj_input job) preflight;;
    approval ← context_ (cj_approval job) "approved proof job has no max PGU";
    ensure_ ((0 <=? approval_max_pgu approval) && (0 <=? approval_max_price_per_pgu approval))
      "out of range integral type conversion attempted";;
    mret (Some {| rd_public_values := public_values; rd_preflight := preflight; rd_cycles := cj_cycle_count job;
                  rd_input := cj_input job;
                  rd_config := {| gas_limit := Some (approval_max_pgu approval);
                                  pc_max_price_per_pgu := Some (approval_max_price_per_pgu approval) |} |})
  else if bool_decide (is_Some (cj_proof_request_id job)) then
    '(public_values, preflight) ← stored_preflight job "requested proof has no persisted preflight";
    mret (Some {| rd_public_values := public_values; rd_preflight := preflight; rd_cycles := cj_cycle_count job;
                  rd_input := cj_input job; rd_config := prover_config config |})
  else fresh_preflight config job.

Definition submit_local_mock (job : ClaimedJob) (r : Ready) : prog unit :=
  measured_cycles (rd_cycles r);;
  run_tx (update_local (cj_id job) (cj_attempts job) (rd_cycles r));;
  send (cj_id job) (cj_attempts job) (cj_kind job) (rd_public_values r) [].

(** The request of this job, reused or bought once. *)
Definition request_once (config : WorkerConfig) (job : ClaimedJob) (r : Ready) : prog string :=
  match cj_proof_request_id job with
  | Some request_id => mret request_id
  | None =>
    require_settlement_lifetime (cj_kind job) (hex (rd_public_values r)) (min_remaining_slots config);;
    fresh ← Call NewUuid Ret;
    intent ← run_tx (begin_proof_request fresh (cj_id job) (cj_attempts job));
    request_id ← ask (RequestProof (cj_kind job) (rd_input r) (rd_config r));
    run_tx (finish_proof_request (cj_id job) intent request_id);;
    mret request_id
  end.

(** [value.and_then(|value| i64::try_from(value).ok())]. *)
Definition as_i64 (c : Z) : option Z := if c <? 2 ^ 63 then Some c else None.
(** [RequestMetrics::default()]. *)
Definition no_metrics : RequestMetrics := {|
  prover_gas := None; base_fee_prove := None; max_price_per_pgu := None; actual_cost_prove := None;
  explorer_url := None |}.
Definition stored_metrics (config : WorkerConfig) (request_id : string) (m : RequestMetrics) : RequestMetrics := {|
  prover_gas := prover_gas m ≫= as_i64; base_fee_prove := base_fee_prove m;
  max_price_per_pgu := max_price_per_pgu m; actual_cost_prove := actual_cost_prove m;
  explorer_url := Some (network_explorer_base config ++ "/" ++ request_id)%string |}.

Definition prove_and_send (config : WorkerConfig) (job : ClaimedJob) (r : Ready) : prog unit :=
  let id := cj_id job in let attempts := cj_attempts job in
  run_tx (set_status id attempts proving);;
  request_id ← request_once config job r;
  proof ← ask (WaitProof (cj_kind job) request_id);
  ensure_ (bool_decide (pr_public_values proof = rd_public_values r))
    "network proof public values differ from local SP1 preflight";;
  run_tx (update_proving id attempts (fun j => with_public_values (Some (hex (pr_public_values proof)))
            (with_proof_bytes (Some (hex (pr_proof proof))) j)) "proof job was cancelled");;
  metrics ← Call (ReadMetrics request_id) Ret;
  let '(m, cycles) := match metrics with Ok found => found | _ => (no_metrics, None) end in
  let cycles := match cycles with Some c => Some c | None => rd_cycles r end in
  run_tx (update_proving id attempts (fun j => with_metrics (Some (stored_metrics config request_id m))
            (with_cycle_count (c ← cycles; as_i64 c) j))
            "proof job was cancelled before submission");;
  require_settlement_lifetime (cj_kind job) (hex (pr_public_values proof)) (submission_min_remaining_slots config);;
  validate_preflight config (rd_input r) (rd_preflight r);;
  send id attempts (cj_kind job) (pr_public_values proof) (pr_proof proof).

Definition process_body (config : WorkerConfig) (job : ClaimedJob) : prog unit :=
  match cj_proof_bytes job with
  | Some proof_hex => submit_persisted config job proof_hex
  | None =>
    r ← ready config job;
    match r with
    | None => mret tt
    | Some r => if local_mock_submit config then submit_local_mock job r else prove_and_send config job r
    end
  end.

Definition process_job (config : WorkerConfig) (job : ClaimedJob) : prog unit :=
  catch (process_body config job) (fun e => run_tx (record_failure (cj_id job) (cj_attempts job) e)).

(** One round of [work_owned_jobs]. *)
Definition work_once (config : WorkerConfig) : prog unit :=
  job ← run_tx claim_job;
  match job with
  | Some job => process_job config job
  | None => mret tt
  end.

(** [run_owned_worker] for [rounds] rounds of its loop. *)
Fixpoint work_rounds (config : WorkerConfig) (rounds : nat) : prog unit :=
  match rounds with
  | O => mret tt
  | S rounds => work_once config;; work_rounds config rounds
  end.
Definition run_owned_worker (config : WorkerConfig) (rounds : nat) : prog unit :=
  run_tx recover_interrupted;; work_rounds config rounds.

End worker.
