(* ===== verification/Base58.v ===== *)
(** * Zeko addresses in Base58Check ([api/src/explorer.rs])

    The explorer shows packed Zeko addresses, the 32-byte field the bridge
    stores, as Base58Check public keys, and accepts both. *)

From Stdlib Require Import Strings.Byte.
From stdpp Require Import strings.
From S2P Require Import Prelude Rpc Database Program OuterWriter.

(** ** Base58 *)

Definition ALPHABET : bytes :=
  String.list_byte_of_string "123456789ABCDEFGHJKLMNPQRSTUVWXYZabcdefghijkmnopqrstuvwxyz".
Definition ONE : byte := Byte.x31.

(** The loop over the digits, least significant first: each becomes
    [digit * 256 + carry] modulo 58. *)
Fixpoint multiply_digits (carry : Z) (digits : list Z) : list Z * Z :=
  match digits with
  | [] => ([], carry)
  | digit :: digits =>
    let next := digit * 256 + carry in
    let '(digits, carry) := multiply_digits (next / 58) digits in
    (next mod 58 :: digits, carry)
  end.
(** [while carry > 0]; the carry halves at least, so [carry] rounds do. *)
Fixpoint push_digits (fuel : nat) (carry : Z) : list Z :=
  match fuel with
  | S fuel => if 0 <? carry then carry mod 58 :: push_digits fuel (carry / 58) else []
  | O => []
  end.
Definition encode_byte (digits : list Z) (b : byte) : list Z :=
  let '(digits, carry) := multiply_digits (byte_val b) digits in
  digits ++ push_digits (Z.to_nat carry) carry.

(** [iter().take_while(..).count()]. *)
Fixpoint count_leading (x : byte) (l : bytes) : nat :=
  match l with
  | b :: l => if bool_decide (b = x) then S (count_leading x l) else O
  | [] => O
  end.

Definition base58_encode (value : bytes) : bytes :=
  let leading_zeroes := count_leading Byte.x00 value in
  let digits := foldl encode_byte [] value in
  replicate leading_zeroes ONE ++ map (fun digit => ALPHABET !!! Z.to_nat digit) (rev digits).

Definition position (character : byte) : option Z :=
  (fun found => Z.of_nat found.1) <$> list_find (fun candidate => candidate = character) ALPHABET.

Fixpoint multiply_bytes (carry : Z) (l : list Z) : list Z * Z :=
  match l with
  | [] => ([], carry)
  | b :: l =>
    let next := b * 58 + carry in
    let '(l, carry) := multiply_bytes (Z.shiftr next 8) l in
    (Z.land next 0xff :: l, carry)
  end.
Fixpoint push_bytes (fuel : nat) (carry : Z) : list Z :=
  match fuel with
  | S fuel => if 0 <? carry then Z.land carry 0xff :: push_bytes fuel (Z.shiftr carry 8) else []
  | O => []
  end.
Definition decode_character (l : list Z) (character : byte) : outcome error (list Z) :=
  carry ← context (position character) "invalid Base58 character";
  let '(l, carry) := multiply_bytes carry l in
  mret (l ++ push_bytes (Z.to_nat carry) carry).

Definition base58_decode (value : bytes) : outcome error bytes :=
  let leading_zeroes := count_leading ONE value in
  l ← foldM decode_character [] value;
  mret (replicate leading_zeroes Byte.x00 ++ map byte_of (rev l)).

(** ** Numbers in a base *)

Section positional.
Context (b : Z) (Hb : 1 < b).

(** Least significant digit first. *)
Definition le_value (l : list Z) : Z := foldr (fun d acc => d + b * acc) 0 l.
Definition digit (d : Z) : Prop := 0 <= d < b.
(** No digit 0 at the most significant end. *)
Definition canonical (l : list Z) : Prop :=
  Forall digit l /\ (l = [] \/ b ^ (Z.of_nat (length l) - 1) <= le_value l).

Lemma le_value_nil : le_value [] = 0.
Proof. done. Qed.
Lemma le_value_cons d l : le_value (d :: l) = d + b * le_value l.
Proof. done. Qed.
Lemma pow_length {A} (a : A) (l : list A) : b ^ Z.of_nat (length (a :: l)) = b * b ^ Z.of_nat (length l).
Proof. cbn [length]. rewrite Nat2Z.inj_succ, Z.pow_succ_r by lia. done. Qed.

Lemma le_value_app l k : le_value (l ++ k) = le_value l + b ^ Z.of_nat (length l) * le_value k.
Proof.
  induction l as [|d l IH]; cbn [app]; [by rewrite le_value_nil, Z.mul_1_l|].
  rewrite !le_value_cons, IH, pow_length. ring.
Qed.

Lemma le_value_bound l : Forall digit l -> 0 <= le_value l < b ^ Z.of_nat (length l).
Proof.
  induction 1 as [|d l Hd _ IH]; [done|]. rewrite le_value_cons, pow_length. unfold digit in Hd. nia.
Qed.

Lemma le_value_inj l k :
  Forall digit l -> Forall digit k -> length l = length k -> le_value l = le_value k -> l = k.
Proof.
  intros Hl. revert k. induction Hl as [|d l Hd _ IH]; intros [|e k] Hk; try done. inversion_clear Hk as [|?? He Hk'].
  rewrite !le_value_cons. unfold digit in *. intros [= Hlen] Hv.
  assert (le_value l = le_value k) as Hv' by nia. assert (d = e) as -> by nia. f_equal. by apply IH.
Qed.

Lemma canonical_length l k : canonical l -> canonical k -> le_value l = le_value k -> (length l <= length k)%nat.
Proof.
  intros [Hl Hl'] [Hk _] Hv. destruct Hl' as [->|Hl']; [cbn; lia|].
  pose proof (le_value_bound k Hk) as [_ Hu]. rewrite <- Hv in Hu.
  assert (b ^ (Z.of_nat (length l) - 1) < b ^ Z.of_nat (length k)) as Hp by lia.
  apply Z.pow_lt_mono_r_iff in Hp; lia.
Qed.
Lemma canonical_inj l k : canonical l -> canonical k -> le_value l = le_value k -> l = k.
Proof.
  intros Hl Hk Hv. apply le_value_inj; [apply Hl|apply Hk| |done].
  apply Nat.le_antisymm; by apply canonical_length.
Qed.

Lemma canonical_last l d : Forall digit l -> digit d -> d <> 0 -> canonical (l ++ [d]).
Proof.
  intros Hl Hd Hn. split; [by apply Forall_app_2; [|apply Forall_singleton]|]. right.
  rewrite le_value_app, length_app, le_value_cons, le_value_nil. cbn [length]. pose proof (le_value_bound l Hl).
  replace (Z.of_nat (length l + 1) - 1) with (Z.of_nat (length l)) by lia.
  assert (0 < b ^ Z.of_nat (length l)) by (apply Z.pow_pos_nonneg; lia). unfold digit in Hd. nia.
Qed.

(** *** Multiplication and the carry *)

Fixpoint scale (m carry : Z) (l : list Z) : list Z * Z :=
  match l with
  | [] => ([], carry)
  | d :: l => let next := d * m + carry in
    let '(l, carry) := scale m (next / b) l in (next mod b :: l, carry)
  end.
Fixpoint flush (fuel : nat) (carry : Z) : list Z :=
  match fuel with
  | S fuel => if 0 <? carry then carry mod b :: flush fuel (carry / b) else []
  | O => []
  end.
Definition append (m : Z) (l : list Z) (carry : Z) : list Z :=
  let '(l, carry) := scale m carry l in l ++ flush (Z.to_nat carry) carry.

Lemma scale_spec m carry l :
  0 <= m -> 0 <= carry -> Forall digit l ->
  let r := scale m carry l in
  Forall digit r.1 /\ length r.1 = length l /\ 0 <= r.2 /\
  le_value r.1 + b ^ Z.of_nat (length l) * r.2 = m * le_value l + carry.
Proof.
  intros Hm Hc Hl. revert carry Hc. induction Hl as [|d l Hd _ IH]; intros carry Hc.
  { cbn [scale fst snd length Z.of_nat]. rewrite le_value_nil. split_and!; [done..|]. rewrite Z.pow_0_r. lia. }
  cbn [scale]. unfold digit in Hd. specialize (IH ((d * m + carry) / b) ltac:(apply Z.div_pos; nia)).
  destruct (scale m _ l) as [k c]. cbn [fst snd] in *. destruct IH as (Hk & Hlen & Hc' & Hv).
  split_and!; [|cbn; lia|done|].
  - constructor; [|done]. apply Z.mod_pos_bound. lia.
  - rewrite !le_value_cons, pow_length.
    pose proof (Z.div_mod (d * m + carry) b ltac:(lia)) as Hdm. nia.
Qed.

(** A digit in front of a canonical list, unless both are 0. *)
Lemma canonical_cons d l :
  canonical l -> digit d -> 0 < d + b * le_value l -> canonical (d :: l).
Proof.
  intros [Hl Hl'] Hd Hp. split; [by constructor|]. right. rewrite le_value_cons. cbn [length]. unfold digit in Hd.
  replace (Z.of_nat (S (length l)) - 1) with (Z.of_nat (length l)) by lia.
  destruct Hl' as [->|Hl']; [rewrite le_value_nil in *; cbn; lia|].
  destruct l as [|x l]; [rewrite le_value_nil in *; cbn; lia|]. rewrite pow_length.
  cbn [length] in Hl'. replace (Z.of_nat (S (length l)) - 1) with (Z.of_nat (length l)) in Hl' by lia. nia.
Qed.

Lemma flush_spec fuel carry :
  0 <= carry <= Z.of_nat fuel -> canonical (flush fuel carry) /\ le_value (flush fuel carry) = carry.
Proof.
  revert carry. induction fuel as [|fuel IH]; intros carry Hc; cbn [flush].
  { split; [by split; [|left]|rewrite le_value_nil; lia]. }
  destruct (0 <? carry) eqn:Hp; bool_props; [|split; [by split; [|left]|rewrite le_value_nil; lia]].
  assert (0 <= carry / b < carry) as Hq by (split; [apply Z.div_pos; lia|apply Z.div_lt; lia]).
  destruct (IH (carry / b) ltac:(lia)) as [Hd Hv].
  pose proof (Z.div_mod carry b ltac:(lia)) as Hdm. pose proof (Z.mod_pos_bound carry b ltac:(lia)) as Hr.
  split; [apply canonical_cons; [done|exact Hr|]|rewrite le_value_cons]; rewrite Hv; lia.
Qed.

Lemma append_spec m l carry :
  1 <= m -> 0 <= carry -> canonical l ->
  canonical (append m l carry) /\ le_value (append m l carry) = m * le_value l + carry.
Proof.
  intros Hm Hc [Hl Hl']. unfold append.
  destruct (scale_spec m carry l ltac:(lia) Hc Hl) as (Hd & Hlen & Hc' & Hv).
  destruct (scale m carry l) as [k c]. cbn [fst snd] in *.
  destruct (flush_spec (Z.to_nat c) c ltac:(lia)) as [[Hf Hf'] Hfv].
  assert (le_value (k ++ flush (Z.to_nat c) c) = m * le_value l + carry) as Hvalue.
  { by rewrite le_value_app, Hfv, Hlen. }
  split; [|done]. split; [by apply Forall_app_2|]. rewrite length_app, Hlen.
  assert (0 < b ^ Z.of_nat (length l)) by (apply Z.pow_pos_nonneg; lia).
  pose proof (le_value_bound l Hl). pose proof (le_value_bound k Hd).
  destruct (flush (Z.to_nat c) c) as [|x f].
  - rewrite app_nil_r in *. rewrite Hvalue, Nat.add_0_r.
    destruct Hl' as [->|Hl']; [left; by apply nil_length_inv|right; nia].
  - right. rewrite le_value_app, Hlen. destruct Hf' as [|Hf']; [done|]. cbn [length] in *.
    replace (Z.of_nat (S (length f)) - 1) with (Z.of_nat (length f)) in Hf' by lia.
    replace (Z.of_nat (length l + S (length f)) - 1) with (Z.of_nat (length l) + Z.of_nat (length f)) by lia.
    rewrite Z.pow_add_r by lia. nia.
Qed.

End positional.

(** ** The digits of a value *)

Lemma multiply_digits_scale carry l : multiply_digits carry l = scale 58 256 carry l.
Proof. revert carry. induction l as [|d l IH]; intros carry; cbn; [done|]. by rewrite IH. Qed.
Lemma push_digits_flush fuel carry : push_digits fuel carry = flush 58 fuel carry.
Proof. revert carry. induction fuel as [|fuel IH]; intros carry; cbn; [done|]. by rewrite IH. Qed.
Lemma encode_byte_append l x : encode_byte l x = append 58 256 l (byte_val x).
Proof.
  unfold encode_byte, append. rewrite multiply_digits_scale. destruct (scale _ _ _ _). by rewrite push_digits_flush.
Qed.

Lemma land_byte z : Z.land z 0xff = z mod 256.
Proof. exact (Z.land_ones z 8 ltac:(lia)). Qed.
Lemma shiftr_byte z : Z.shiftr z 8 = z / 256.
Proof. exact (Z.shiftr_div_pow2 z 8 ltac:(lia)). Qed.
Lemma multiply_bytes_scale carry l : multiply_bytes carry l = scale 256 58 carry l.
Proof.
  revert carry. induction l as [|d l IH]; intros carry; cbn [multiply_bytes scale]; [done|].
  by rewrite land_byte, shiftr_byte, IH.
Qed.
Lemma push_bytes_flush fuel carry : push_bytes fuel carry = flush 256 fuel carry.
Proof.
  revert carry. induction fuel as [|fuel IH]; intros carry; cbn [push_bytes flush]; [done|].
  by rewrite land_byte, shiftr_byte, IH.
Qed.

Lemma encode_digits value :
  let digits := foldl encode_byte [] value in canonical 58 digits /\ le_value 58 digits = from_be value.
Proof.
  cbn zeta. induction value as [|x value IH] using rev_ind; [split; [by split; [|left]|done]|].
  rewrite foldl_app. cbn [foldl]. rewrite encode_byte_append, from_be_snoc. destruct IH as [Hc Hv].
  pose proof (byte_val_range x).
  destruct (append_spec 58 ltac:(lia) 256 (foldl encode_byte [] value) (byte_val x)) as [Hc' Hv']; [lia..|done|].
  split; [done|]. rewrite Hv', Hv. lia.
Qed.

(** *** Characters *)

Lemma alphabet_NoDup : NoDup ALPHABET.
Proof. apply (bool_decide_unpack _). vm_compute. exact I. Qed.
Lemma alphabet_length : length ALPHABET = 58%nat.
Proof. reflexivity. Qed.

Definition character (d : Z) : byte := ALPHABET !!! Z.to_nat d.

Lemma character_lookup d : digit 58 d -> ALPHABET !! Z.to_nat d = Some (character d).
Proof. intros Hd. apply list_lookup_lookup_total_lt. rewrite alphabet_length. unfold digit in Hd. lia. Qed.

Lemma position_Some c d : position c = Some d <-> digit 58 d /\ c = character d.
Proof.
  unfold position. split.
  - intros ([i x] & (Hi & -> & _)%list_find_Some & ->)%fmap_Some. pose proof (lookup_lt_Some _ _ _ Hi) as Hlt.
    rewrite alphabet_length in Hlt. cbn. unfold digit, character. split; [lia|].
    rewrite Nat2Z.id. symmetry. by apply list_lookup_total_correct.
  - intros [Hd Hc]. pose proof (character_lookup d Hd) as Hl. rewrite <- Hc in Hl.
    match goal with |- context [list_find ?P ?l] => destruct (list_find P l) as [[i x]|] eqn:Hf end; cbn.
    + f_equal. apply list_find_Some in Hf as (Hi & -> & _). cbn.
      rewrite (NoDup_lookup _ _ _ _ alphabet_NoDup Hi Hl). unfold digit in Hd. lia.
    + exfalso. apply list_find_None in Hf. rewrite Forall_lookup in Hf. by eapply (Hf _ _ Hl).
Qed.

Lemma position_character d : digit 58 d -> position (character d) = Some d.
Proof. intros Hd. by apply position_Some. Qed.
Lemma character_one d : digit 58 d -> character d = ONE <-> d = 0.
Proof.
  intros Hd. split; [|by intros ->]. intros He. assert (position ONE = Some 0) as Ho by reflexivity.
  rewrite <- He, position_character in Ho by done. congruence.
Qed.

Lemma decode_character_Ok l c k :
  decode_character l c = Ok k <-> exists d, position c = Some d /\ k = append 256 58 l d.
Proof.
  assert (forall d, (let '(l, carry) := multiply_bytes d l in mret (l ++ push_bytes (Z.to_nat carry) carry))
    = Ok (E := error) (append 256 58 l d)) as Ha.
  { intros d. unfold append. rewrite multiply_bytes_scale. destruct (scale _ _ _ _). by rewrite push_bytes_flush. }
  unfold decode_character. destruct (position c) as [d|]; cbn; [|by split; [|intros (? & [=] & _)]].
  rewrite Ha. split; [intros [= <-]; by exists d|by intros (? & [= <-] & ->)].
Qed.

(** The characters of a decodable text are those of its digits, most
    significant first. *)
Lemma decode_digits text l :
  foldM decode_character [] text = Ok l <->
  exists digits, Forall (digit 58) digits /\ text = map character (rev digits) /\
    canonical 256 l /\ le_value 256 l = le_value 58 digits.
Proof.
  revert l. induction text as [|c text IH] using rev_ind; intros l; cbn [foldM].
  - split.
    + intros [= <-]. exists []. split_and!; [done|done|by split; [|left]|done].
    + intros (digits & _ & Hn & Hc & Hv). symmetry in Hn. apply map_eq_nil in Hn.
      rewrite <- (rev_involutive digits), Hn in Hv. cbn in Hv. f_equal.
      eapply (canonical_inj 256); [lia|by split; [|left]|exact Hc|done].
  - rewrite foldM_app. split.
    + intros (k & Hk & Hl)%bind_Ok. cbn [foldM] in Hl. apply bind_Ok in Hl as (k' & Hc & [= ->]).
      apply decode_character_Ok in Hc as (d & Hd & ->). apply position_Some in Hd as [Hd ->].
      apply IH in Hk as (digits & Hds & -> & Hc & Hv). exists (d :: digits). unfold digit in Hd.
      destruct (append_spec 256 ltac:(lia) 58 k d) as [Hc' Hv']; [lia..|done|].
      split_and!; [by constructor|cbn; by rewrite map_app|done|]. rewrite Hv', Hv, le_value_cons. lia.
    + intros (digits & Hds & Ht & Hc & Hv). destruct digits as [|d digits]; [by destruct text|].
      inversion_clear Hds as [|?? Hd Hds']. cbn [rev] in Ht. rewrite map_app in Ht.
      apply app_inj_2 in Ht as [-> [= ->]]; [|done].
      rewrite le_value_cons in Hv. unfold digit in Hd. pose proof (le_value_bound 58 ltac:(lia) digits Hds').
      destruct (flush_spec 256 ltac:(lia) (Z.to_nat (le_value 58 digits)) (le_value 58 digits)) as [Hk Hkv]; [lia|].
      apply bind_Ok. eexists. split; [apply IH; by exists digits|]. cbn [foldM]. apply bind_Ok. exists l. split; [|done].
      apply decode_character_Ok. exists d. split; [by apply position_character|].
      destruct (append_spec 256 ltac:(lia) 58 (flush 256 (Z.to_nat (le_value 58 digits)) (le_value 58 digits)) d)
        as [Hc' Hv']; [lia..|done|].
      eapply (canonical_inj 256); [lia|done|done|]. rewrite Hv', Hkv, Hv. lia.
Qed.

(** ** Round trips of Base58 *)

Lemma count_leading_replicate x n l : head l <> Some x -> count_leading x (replicate n x ++ l) = n.
Proof.
  intros Hl. induction n as [|n IH]; cbn; [|rewrite bool_decide_eq_true_2 by done; by rewrite IH].
  destruct l as [|y l]; cbn; [done|]. by rewrite bool_decide_eq_false_2 by (intros ->; by apply Hl).
Qed.
Lemma count_leading_split x l : exists k, l = replicate (count_leading x l) x ++ k /\ head k <> Some x.
Proof.
  induction l as [|y l IH]; [by exists []|]. cbn. case_bool_decide as Hy.
  - destruct IH as (k & Hk & Hh). exists k. subst y. split; [cbn; by f_equal|done].
  - exists (y :: l). split; [done|]. cbn. by intros [= ->].
Qed.

Lemma canonical_head b l : 1 < b -> canonical b l -> head (rev l) <> Some 0.
Proof.
  intros Hb [Hl Hc] Hh. destruct l as [|d l _] using rev_ind; [done|]. rewrite rev_app_distr in Hh. cbn in Hh.
  injection Hh as ->. destruct Hc as [Hn|Hc]; [by destruct l|]. apply Forall_app in Hl as [Hl _].
  rewrite le_value_app, length_app, le_value_cons, le_value_nil in Hc by done. cbn [length] in Hc.
  replace (Z.of_nat (length l + 1) - 1) with (Z.of_nat (length l)) in Hc by lia.
  pose proof (le_value_bound b Hb l Hl). lia.
Qed.
Lemma canonical_rev b l : 1 < b -> Forall (digit b) l -> head l <> Some 0 -> canonical b (rev l).
Proof.
  intros Hb Hl Hh. destruct l as [|d l]; [by split; [|left]|]. inversion_clear Hl. cbn. apply canonical_last; try done.
  - by apply Forall_rev.
  - intros ->. by apply Hh.
Qed.

Lemma le_value_bytes v : le_value 256 (rev (map byte_val v)) = from_be v.
Proof.
  induction v as [|x v IH] using rev_ind; [done|].
  rewrite map_app, rev_app_distr, from_be_snoc. cbn [map rev app]. rewrite le_value_cons, IH. lia.
Qed.
Lemma from_be_leading n v : from_be (replicate n Byte.x00 ++ v) = from_be v.
Proof.
  rewrite <- !le_value_bytes, map_app, rev_app_distr, le_value_app by lia.
  assert (le_value 256 (rev (map byte_val (replicate n Byte.x00))) = 0) as ->; [|lia].
  induction n as [|n IH]; [done|]. cbn [replicate map rev]. rewrite le_value_app, IH by lia. cbn. lia.
Qed.
Lemma le_value_trailing b l n : 1 < b -> le_value b (l ++ replicate n 0) = le_value b l.
Proof.
  intros Hb. rewrite le_value_app by done. assert (le_value b (replicate n 0) = 0) as ->; [|lia].
  induction n as [|n IH]; [done|]. cbn [replicate]. rewrite le_value_cons, IH. lia.
Qed.
Lemma byte_vals_digits v : Forall (digit 256) (map byte_val v).
Proof. induction v; cbn; constructor; [apply byte_val_range|done]. Qed.
Lemma bytes_of_vals v : map byte_of (map byte_val v) = v.
Proof. rewrite map_map. induction v as [|x v IH]; cbn; [done|]. by rewrite byte_of_val, IH. Qed.
Lemma vals_of_bytes l : Forall (digit 256) l -> map byte_val (map byte_of l) = l.
Proof.
  induction 1 as [|x l Hx _ IH]; cbn; [done|]. rewrite IH, byte_val_of. f_equal. by apply Z.mod_small.
Qed.

Lemma head_characters l : Forall (digit 58) l -> head l <> Some 0 -> head (map character l) <> Some ONE.
Proof.
  intros Hl Hh. destruct l as [|d l]; [done|]. inversion_clear Hl. cbn in *. intros [= He].
  apply character_one in He; [congruence|done].
Qed.
Lemma characters_zeros n : map character (replicate n 0) = replicate n ONE.
Proof. induction n as [|n IH]; cbn; [done|]. by rewrite IH. Qed.
Lemma rev_replicate {A} n (a : A) : rev (replicate n a) = replicate n a.
Proof. rewrite rev_alt. exact (reverse_replicate n a). Qed.

Lemma base58_decode_encode value : base58_decode (base58_encode value) = Ok value.
Proof.
  unfold base58_encode. fold character. set (digits := foldl encode_byte [] value).
  destruct (encode_digits value) as [Hc Hv]. fold digits in Hc, Hv.
  destruct (count_leading_split Byte.x00 value) as (v & Hval & Hh). set (n := count_leading Byte.x00 value) in *.
  pose proof (head_characters (rev digits) ltac:(apply Forall_rev, Hc) (canonical_head 58 digits ltac:(lia) Hc)) as Hone.
  change (fun d => ALPHABET !!! Z.to_nat d) with character.
  unfold base58_decode. rewrite count_leading_replicate by done.
  assert (foldM decode_character [] (replicate n ONE ++ map character (rev digits)) = Ok (rev (map byte_val v))) as ->.
  { apply decode_digits. exists (digits ++ replicate n 0). split_and!.
    - apply Forall_app_2; [apply Hc|]. apply Forall_replicate. unfold digit. lia.
    - rewrite rev_app_distr, rev_replicate, map_app. f_equal. by rewrite <- characters_zeros.
    - apply canonical_rev; [lia|apply byte_vals_digits|]. destruct v as [|x v]; [done|]. cbn in Hh |- *.
      intros [= Hx]. apply Hh. f_equal. by apply byte_val_inj.
    - rewrite le_value_bytes, le_value_trailing, Hv, Hval by lia. by rewrite from_be_leading. }
  cbn. unfold mret, outcome_ret. f_equal. by rewrite rev_involutive, bytes_of_vals, <- Hval.
Qed.

Lemma base58_encode_decode text value : base58_decode text = Ok value -> base58_encode value = text.
Proof.
  unfold base58_decode. intros (l & Hl & [= <-])%bind_Ok.
  apply decode_digits in Hl as (digits & Hd & -> & Hc & Hv). set (text := map character (rev digits)).
  destruct (count_leading_split ONE text) as (k & Ht & Hh). set (n := count_leading ONE text) in *.
  assert (exists rest, rev digits = replicate n 0 ++ rest /\ k = map character rest) as (rest & Hrest & ->).
  { clear -Ht Hd. revert Ht. unfold text. clearbody n. apply Forall_rev in Hd. revert Hd. generalize (rev digits) as ds.
    induction n as [|n IH]; intros ds Hd Ht; [by exists ds|]. destruct ds as [|d ds]; [done|].
    inversion_clear Hd as [|?? Hd1 Hd2]. cbn in Ht. injection Ht as He Ht. apply character_one in He as ->; [|done].
    destruct (IH ds Hd2 Ht) as (rest & -> & ->). by exists rest. }
  assert (digits = rev rest ++ replicate n 0) as Hdig.
  { rewrite <- (rev_involutive digits), Hrest, rev_app_distr. by rewrite rev_replicate. }
  assert (Forall (digit 58) rest) as Hdr.
  { apply Forall_rev in Hd. rewrite Hrest in Hd. by apply Forall_app in Hd as [_ ?]. }
  assert (canonical 58 (rev rest)) as Hcr.
  { apply canonical_rev; [lia|done|]. intros Hz. apply Hh. destruct rest as [|d rest]; [done|]. cbn in *.
    by injection Hz as ->. }
  unfold base58_encode. rewrite count_leading_replicate.
  - destruct (encode_digits (replicate n Byte.x00 ++ map byte_of (rev l))) as [He Hev].
    change (fun d => ALPHABET !!! Z.to_nat d) with character.
    assert (foldl encode_byte [] (replicate n Byte.x00 ++ map byte_of (rev l)) = rev rest) as ->;
      [|by rewrite rev_involutive].
    eapply (canonical_inj 58); [lia|done|done|]. rewrite Hev, from_be_leading, <- le_value_bytes.
    rewrite vals_of_bytes by (apply Forall_rev, Hc). rewrite rev_involutive, Hv, Hdig. by apply le_value_trailing.
  - pose proof (canonical_head 256 l ltac:(lia) Hc) as Hz. destruct Hc as [Hl _]. apply Forall_rev in Hl.
    destruct (rev l) as [|x r]; [done|]. inversion_clear Hl as [|?? Hx _]. cbn in *. intros [= Hb]. apply Hz.
    f_equal. rewrite <- (Z.mod_small x 256) by done. by rewrite <- byte_val_of, Hb.
Qed.

Lemma decode_exact text value : base58_decode text = Ok value <-> text = base58_encode value.
Proof. split; [intros Hd; symmetry; by apply base58_encode_decode|intros ->; apply base58_decode_encode]. Qed.

(** C26. Base58 is a bijection between byte strings and the texts the decoder
    accepts: [base58_decode] returns a value exactly for its encoding, so
    decoding undoes encoding, no two texts decode to one value, and every text
    that is not an encoding is an error. *)
Theorem base58_decode_exact text value : base58_decode text = Ok value <-> text = base58_encode value.
Proof. apply decode_exact. Qed.

(** The arithmetic of the digits never leaves [u32]. *)
Lemma multiply_digits_u32 d carry : digit 58 d -> 0 <= carry < 256 -> 0 <= d * 256 + carry < 58 * 256 /\ (d * 256 + carry) / 58 < 256.
Proof. unfold digit. intros Hd Hc. split; [lia|]. apply Z.div_lt_upper_bound; lia. Qed.

(** A key of the explorer's tests. *)
Example explorer_test_address :
  (fun value => (head value, rev (take 32 (drop 3 value)))) <$>
    base58_decode (String.list_byte_of_string "B62qkekmS9273D1EsFfMSJMMDAmgvh1WyoYE2vs1r7k4GtGBqVYABn2") =
  Ok (Some (byte_of 203), to_be 32 0x16bbb00183854f6126da6d40cf43b0bb13a6dc426b08f80e998b3fbb650f8e41).
Proof. vm_compute. reflexivity. Qed.

(** ** Base58Check and packed addresses *)

Definition MINA_PUBLIC_KEY_VERSION : byte := byte_of 203.
Definition MINA_PUBLIC_KEY_PAYLOAD_LEN : nat := 35.

Section addresses.
(** The [sha2] crate. *)
Context `{Externals} (sha256 : bytes -> bytes).

Definition base58_checksum (value : bytes) : bytes := take 4 (sha256 (sha256 value)).

Definition base58_check_encode (version : byte) (payload : bytes) : bytes :=
  let value := version :: payload in base58_encode (value ++ base58_checksum value).

Definition base58_check_decode (text : bytes) : outcome error (byte * bytes) :=
  value ← base58_decode text;
  ensure (5 <=? length value)%nat (message "Base58Check value is too short");;
  let body := take (length value - 4) value in
  let checksum := drop (length value - 4) value in
  ensure (bool_decide (checksum = base58_checksum body)) (message "invalid Base58Check checksum");;
  mret (body !!! 0%nat, drop 1 body).

Definition packed_zeko_address_to_base58 (packed : string) : outcome error bytes :=
  value ← context (strip_prefix "0x" packed) "packed Zeko address must start with 0x";
  b ← context (hex_decode value) "decode packed Zeko address";
  ensure (length b =? 32)%nat (message "packed Zeko address must be 32 bytes");;
  let is_odd := negb (Z.land (byte_val (b !!! 0%nat)) 0x80 =? 0) in
  let b := <[0%nat := byte_of (Z.land (byte_val (b !!! 0%nat)) 0x7f)]> b in
  mret (base58_check_encode MINA_PUBLIC_KEY_VERSION
    ([Byte.x01; Byte.x01] ++ rev b ++ [if is_odd then Byte.x01 else Byte.x00])).

Definition packed_zeko_address_from_base58 (address : bytes) : outcome error string :=
  '(version, payload) ← base58_check_decode address;
  ensure (bool_decide (version = MINA_PUBLIC_KEY_VERSION)) (message "unexpected Mina public-key version");;
  ensure (length payload =? MINA_PUBLIC_KEY_PAYLOAD_LEN)%nat (message "unexpected Mina public-key payload length");;
  ensure (bool_decide (take 2 payload = [Byte.x01; Byte.x01])) (message "unexpected Mina public-key encoding");;
  ensure (bool_decide (payload !!! 34%nat ∈ [Byte.x00; Byte.x01])) (message "invalid public-key parity");;
  let packed := rev (take 32 (drop 2 payload)) in
  let packed := if bool_decide (payload !!! 34%nat = Byte.x01)
                then <[0%nat := byte_of (Z.lor (byte_val (packed !!! 0%nat)) 0x80)]> packed else packed in
  mret ("0x" ++ hex_encode packed)%string.

End addresses.

Section address_lemmas.
Context `{Externals} (sha256 : bytes -> bytes) (Hsha : forall m, length (sha256 m) = 32%nat).

Lemma checksum_length value : length (base58_checksum sha256 value) = 4%nat.
Proof. unfold base58_checksum. rewrite length_take, Hsha. done. Qed.

Lemma base58_check_exact text version payload :
  base58_check_decode sha256 text = Ok (version, payload) <-> text = base58_check_encode sha256 version payload.
Proof.
  unfold base58_check_decode, base58_check_encode. split.
  - intros (value & Hv & Ht)%bind_Ok. apply decode_exact in Hv as ->.
    apply bind_Ok in Ht as ([] & Hlen%ensure_Ok & Ht). apply bind_Ok in Ht as ([] & Hc%ensure_Ok & Ht).
    bool_props. injection Ht as <- <-. f_equal.
    rewrite <- (take_drop (length value - 4) value) at 1. f_equal.
    + destruct value as [|x value]; [cbn in Hlen; lia|]. cbn [length] in *.
      destruct (S (length value) - 4)%nat as [|n] eqn:Hn; [lia|]. cbn. by rewrite drop_0.
    + rewrite Hc. f_equal. destruct value as [|x value]; [cbn in Hlen; lia|]. cbn [length] in *.
      destruct (S (length value) - 4)%nat as [|n] eqn:Hn; [lia|]. cbn. by rewrite drop_0.
  - intros ->. apply bind_Ok. eexists. split; [by apply decode_exact|].
    pose proof (checksum_length (version :: payload)) as Hl. rewrite length_app, Hl.
    rewrite Nat.add_sub, take_app_length, drop_app_length.
    rewrite ensure_true by (apply Nat.leb_le; cbn; lia).
    rewrite ensure_true by by apply bool_decide_eq_true. done.
Qed.

Lemma byte_bits x :
  (Z.land (byte_val x) 0x80 =? 0) = (byte_val x <? 128) /\
  byte_of (Z.lor (byte_val (byte_of (Z.land (byte_val x) 0x7f))) 0x80) = (if byte_val x <? 128 then byte_of (byte_val x + 128) else x) /\
  byte_of (Z.land (byte_val (byte_of (Z.lor (byte_val x) 0x80))) 0x7f) = byte_of (byte_val x mod 128) /\
  byte_of (Z.land (byte_val x) 0x7f) = byte_of (byte_val x mod 128) /\
  (byte_val (byte_of (Z.lor (byte_val x) 0x80)) <? 128) = false.
Proof. destruct x; vm_compute; by split_and!. Qed.

(** The payload of a key: the x-coordinate least significant byte first, [y]
    its top byte and [r] the others, and the parity. *)
Definition key_payload (r : bytes) (y parity : byte) : bytes := [Byte.x01; Byte.x01] ++ rev r ++ [y; parity].

Lemma key_payload_exact payload :
  length payload = MINA_PUBLIC_KEY_PAYLOAD_LEN -> take 2 payload = [Byte.x01; Byte.x01] ->
  let packed := rev (take 32 (drop 2 payload)) in
  exists r, length r = 31%nat /\ packed = packed !!! 0%nat :: r /\
    payload = key_payload r (packed !!! 0%nat) (payload !!! 34%nat).
Proof.
  intros Hl Ht packed. unfold MINA_PUBLIC_KEY_PAYLOAD_LEN in Hl. unfold key_payload.
  assert (length packed = 32%nat) as Hp by (unfold packed; rewrite length_rev, length_take, length_drop; lia).
  destruct packed as [|y r] eqn:He; [done|]. exists r. injection Hp as Hr. split_and!; [done..|].
  cbn [lookup_total list_lookup_total]. rewrite <- (take_drop 2 payload) at 1. rewrite Ht. f_equal.
  rewrite <- (take_drop 32 (drop 2 payload)). rewrite drop_drop.
  assert (take 32 (drop 2 payload) = rev r ++ [y]) as ->.
  { rewrite <- (rev_involutive (take 32 (drop 2 payload))). fold packed. by rewrite He. }
  rewrite <- app_assoc. f_equal. cbn [app]. f_equal.
  destruct (drop (2 + 32) payload) as [|z [|]] eqn:Hd; apply (f_equal length) in Hd as Hd'; rewrite length_drop in Hd';
    cbn in Hd'; [lia| |lia]. f_equal. symmetry. apply list_lookup_total_correct.
  assert (drop (2 + 32) payload !! 0%nat = Some z) as Hz by by rewrite Hd. by rewrite lookup_drop in Hz.
Qed.

Definition set_top (parity y : byte) : byte :=
  if bool_decide (parity = Byte.x01) then byte_of (Z.lor (byte_val y) 0x80) else y.

Lemma from_base58_exact address packed :
  packed_zeko_address_from_base58 sha256 address = Ok packed <->
  exists r y parity, length r = 31%nat /\ parity ∈ [Byte.x00; Byte.x01] /\
    address = base58_check_encode sha256 MINA_PUBLIC_KEY_VERSION (key_payload r y parity) /\
    packed = ("0x" ++ hex_encode (set_top parity y :: r))%string.
Proof.
  unfold packed_zeko_address_from_base58. split.
  - intros ([version payload] & Hc & Hr)%bind_Ok. apply base58_check_exact in Hc as ->.
    apply bind_Ok in Hr as ([] & Hv%ensure_Ok & Hr). apply bind_Ok in Hr as ([] & Hl%ensure_Ok & Hr).
    apply bind_Ok in Hr as ([] & Ht%ensure_Ok & Hr). apply bind_Ok in Hr as ([] & Hp%ensure_Ok & Hr). bool_props. subst.
    destruct (key_payload_exact payload Hl Ht) as (r & Hlr & Hpk & Hpay).
    set (packed0 := rev (take 32 (drop 2 payload))) in *. exists r, (packed0 !!! 0%nat), (payload !!! 34%nat).
    split_and!; [done|done|by rewrite <- Hpay|]. injection Hr as <-. unfold set_top. rewrite Hpk.
    by case_bool_decide.
  - intros (r & y & parity & Hr & Hp & -> & ->). apply bind_Ok. eexists. split; [by apply base58_check_exact|].
    assert (length (key_payload r y parity) = 35%nat) as Hl.
    { unfold key_payload. rewrite !length_app, length_rev. cbn. lia. }
    assert (take 2 (key_payload r y parity) = [Byte.x01; Byte.x01]) as Ht by done.
    assert (key_payload r y parity !!! 34%nat = parity) as Hpar.
    { unfold key_payload. apply list_lookup_total_correct. cbn [app]. rewrite !lookup_cons.
      rewrite lookup_app_r by (rewrite length_rev; lia). rewrite length_rev, Hr. done. }
    assert (take 32 (drop 2 (key_payload r y parity)) = rev r ++ [y]) as Hx.
    { unfold key_payload. cbn [app drop]. change [y; parity] with ([y] ++ [parity]). rewrite app_assoc.
      apply take_app_length'. rewrite length_app, length_rev. cbn. lia. }
    cbv beta iota. rewrite ensure_true by by apply bool_decide_eq_true.
    rewrite ensure_true by (rewrite Hl; done). rewrite ensure_true by by rewrite Ht.
    rewrite Hpar. rewrite ensure_true by by apply bool_decide_eq_true.
    rewrite Hx, rev_app_distr, rev_involutive. cbn. unfold set_top. by case_bool_decide.
Qed.

Hypothesis Hhex : forall b, hex_decode (hex_encode b) = Some b.

Lemma to_base58_exact x r :
  length r = 31%nat ->
  packed_zeko_address_to_base58 sha256 ("0x" ++ hex_encode (x :: r)) =
  Ok (base58_check_encode sha256 MINA_PUBLIC_KEY_VERSION
        (key_payload r (byte_of (byte_val x mod 128)) (if byte_val x <? 128 then Byte.x00 else Byte.x01))).
Proof.
  intros Hr. unfold packed_zeko_address_to_base58.
  rewrite strip_hex_prefix.
  cbn [context mbind outcome_bind]. rewrite Hhex. cbn [context mbind outcome_bind].
  rewrite ensure_true by (apply Nat.eqb_eq; cbn; lia). cbn [lookup_total list_lookup_total insert list_insert].
  destruct (byte_bits x) as (Hb & _ & _ & -> & _). rewrite Hb. unfold key_payload. cbn [rev].
  rewrite <- app_assoc. by destruct (byte_val x <? 128).
Qed.

Lemma check_encode_inj v1 v2 p1 p2 :
  base58_check_encode sha256 v1 p1 = base58_check_encode sha256 v2 p2 -> v1 = v2 /\ p1 = p2.
Proof.
  intros He. pose proof (proj2 (base58_check_exact _ v1 p1) eq_refl) as H1.
  pose proof (proj2 (base58_check_exact _ v2 p2) eq_refl) as H2. rewrite <- He, H1 in H2. by injection H2 as -> ->.
Qed.

Lemma key_payload_inj r1 y1 p1 r2 y2 p2 :
  length r1 = length r2 -> key_payload r1 y1 p1 = key_payload r2 y2 p2 -> r1 = r2 /\ y1 = y2 /\ p1 = p2.
Proof.
  intros Hl. unfold key_payload. cbn [app]. intros [= He]. apply app_inj_1 in He as [Hr Ht]; [|by rewrite !length_rev, Hl].
  injection Ht as -> ->.
  split; [|done]. by rewrite <- (rev_involutive r1), Hr, rev_involutive.
Qed.

(** The top byte of a packed address carries the parity. *)
Lemma set_top_split x :
  set_top (if byte_val x <? 128 then Byte.x00 else Byte.x01) (byte_of (byte_val x mod 128)) = x.
Proof. by destruct x. Qed.
Lemma split_set_top y parity :
  parity ∈ [Byte.x00; Byte.x01] ->
  let x := set_top parity y in
  (byte_of (byte_val x mod 128) = y /\ (if byte_val x <? 128 then Byte.x00 else Byte.x01) = parity) <-> byte_val y < 128.
Proof.
  intros Hp x. assert (byte_val y < 128 <-> (byte_val y <? 128) = true) as -> by (symmetry; apply Z.ltb_lt).
  subst x. apply list_elem_of_In in Hp as [<-|[<-|[]]]; destruct y; vm_compute; split; try done; intros [? ?]; done.
Qed.

End address_lemmas.
