(* ===== verification/Indexer.v ===== *)
(** * Jobs and the indexer ([api/src/indexer.rs])

    What the indexer does to proof jobs, the outer writer and the pending
    commands: reconciliation with receipts, recovery from canonical events,
    and the rollback of a chain reorganization.  The accounts, blocks, actions
    and deposits it also maintains are in [Ledger], [Accounts] and
    [ChainIndex]. *)

From stdpp Require Import gmap strings.
From S2P Require Import Prelude Rpc Database Program OuterWriter Submission Worker.

Inductive FinalityMode := Finalized | Confirmations.

Record Receipt := {
  rc_block_number : Z;
  rc_block_hash : string;
  rc_succeeded : bool;
  rc_gas_used : Z
}.

(** [transaction_is_finalized]. *)
Definition transaction_is_finalized (mode : FinalityMode) (block_number confirmations required : Z)
    (finalized_height : option Z) : bool :=
  match mode with
  | Finalized => from_option (fun height => block_number <=? height) false finalized_height
  | Confirmations => Z.max required 1 <=? confirmations
  end.

Section indexer.
Context `{Externals}.

(** ** Reconciliation *)

(** The jobs [reconcile_jobs] may look at; it also leaves out confirmed jobs
    whose block is final and whose state was applied. *)
Definition reconcilable (j : Job) : bool :=
  bool_decide (is_Some (j_transaction_hash j)) && status_in [submitted; confirmed; reorged] j.

Definition i32_MAX : Z := 2 ^ 31 - 1.

Definition revert_job (now confirmations : Z) (r : Receipt) (j : Job) : Job :=
  with_updated_at now (with_completed_at (Some now) (with_error (Some "Ethereum transaction reverted"%string)
    (with_confirmations (Z.min confirmations i32_MAX) (with_ethereum_gas_used (Some (rc_gas_used r))
      (with_status ethereum_reverted j))))).

Definition reconcile_job_row (now confirmations : Z) (is_confirmed : bool) (r : Receipt) (j : Job) : Job :=
  with_updated_at now
    (with_completed_at (if is_confirmed then Some (default now (j_completed_at j)) else None)
      (with_confirmations (Z.min confirmations i32_MAX) (with_ethereum_gas_used (Some (rc_gas_used r))
        (with_submitted_block (Some (rc_block_number r, rc_block_hash r))
          (with_status (if is_confirmed then confirmed else submitted) j))))).

(** One row of [reconcile_jobs]: [receipt] is the answer of the node and
    [canonical] the indexed canonical hash at the height of the receipt. *)
Definition reconcile_job (mode : FinalityMode) (required head : Z) (finalized_height : option Z) (id : uuid)
    (receipt : option Receipt) (canonical : option string) : tx unit :=
  now ← now_;
  db ← read_db;
  match jobs db !! id, receipt with
  | Some j, Some r =>
    let confirmations := Z.max (head - rc_block_number r) 0 + 1 in
    let is_confirmed := transaction_is_finalized mode (rc_block_number r) confirmations required finalized_height in
    if negb (reconcilable j) then mret tt
    else if negb (bool_decide (canonical = Some (rc_block_hash r))) then mret tt
    else if bool_decide (j_status j = reorged) && (negb is_confirmed || rc_succeeded r) then mret tt
    else if negb (rc_succeeded r) && is_confirmed then
      update_job id (fun _ => true) (revert_job now confirmations r);;
      delete_pending id
    else
      update_job id (fun _ => true) (reconcile_job_row now confirmations is_confirmed r);;
      mret tt
  | _, _ => mret tt
  end.

(** ** Recovery from canonical events *)

Definition same_text (a : option string) (b : string) : bool :=
  bool_decide (to_ascii_lowercase <$> a = Some (to_ascii_lowercase b)).
Definition job_of_transaction (hash : string) (j : Job) : bool :=
  same_text (j_transaction_hash j) hash ||
  same_text (transaction_hash <$> j_prepared_transaction j) hash.

(** The oldest job of a transaction. *)
Definition find_transaction (hash : string) (js : gmap uuid Job) : option (uuid * Job) :=
  match filter (fun kv => job_of_transaction hash kv.2 = true) (map_to_list js) with
  | [] => None
  | row :: rows => Some (foldl older row rows)
  end.

Definition confirm_recovered (now : Z) (public_values hash : string) (block : Z * string) (j : Job) : Job :=
  with_updated_at now (with_completed_at (Some (default now (j_completed_at j)))
    (with_confirmations (Z.max (j_confirmations j) 1) (with_transaction_hash (Some hash)
      (with_submitted_block (Some block) (with_public_values (Some public_values) (with_status confirmed j)))))).

(** A recovered job is inserted confirmed, with the rest of its columns at
    their defaults. *)
Definition recovered_job (now : Z) (kind : ProofKind) (input : Value) (public_values hash : string)
    (block : Z * string) : Job :=
  with_completed_at (Some now) (with_confirmations 1 (with_submitted_block (Some block)
    (with_transaction_hash (Some hash) (with_public_values (Some public_values) (with_status confirmed
      (new_job kind input (Some ("recovered:" ++ (match kind with Settlement => "settlement" | Bridge => "bridge" end)
                                 ++ ":" ++ to_ascii_lowercase hash)%string) "" now)))))).

Definition insert_recovered (id : uuid) (j : Job) : tx unit :=
  db ← read_db;
  require (bool_decide (jobs db !! id = None) && bool_decide (find_key (j_idempotency_key j) (jobs db) = None))
    unique_violation;;
  write_db (with_jobs (<[id := j]> (jobs db)) db).

(** The job changes of one event of [recover_gateway_state]; [id] is a new
    uuid and [input] the recovered input of a job that is not known. *)
Definition recover_event (id : uuid) (kind : ProofKind) (input : Value) (public_values hash : string)
    (block : Z * string) : tx uuid :=
  now ← now_;
  db ← read_db;
  job ← match find_transaction hash (jobs db) with
        | Some (existing, _) => mret existing
        | None => insert_recovered id (recovered_job now kind input public_values hash block);; mret id
        end;
  update_job job (fun _ => true) (confirm_recovered now public_values hash block);;
  mret job.

(** ** Rollback *)

Definition recovered (j : Job) : bool :=
  bool_decide ((get (j_input j) "recoveredFromEthereum" ≫= text_of) = Some "true"%string).
Definition above (ancestor : Z) (j : Job) : bool :=
  from_option (fun b => ancestor <? b.1) false (j_submitted_block j).

(** The earliest orphaned settlement receipt. *)
Definition earlier (a b : uuid * Job) : uuid * Job :=
  let height j := from_option fst 0 (j_submitted_block j) in
  if (height b.2 <? height a.2) || ((height b.2 =? height a.2) && (j_created_at b.2 <? j_created_at a.2))
  then b else a.
Definition retry_settlement (ancestor : Z) (js : gmap uuid Job) : option uuid :=
  match filter (fun kv => bool_decide (j_kind kv.2 = Settlement) && negb (recovered kv.2) && above ancestor kv.2 &&
                          status_in [submitted; confirmed] kv.2 = true) (map_to_list js) with
  | [] => None
  | row :: rows => Some (foldl earlier row rows).1
  end.

(** A recovered job that something still refers to. *)
Definition referenced (db : Db) (id : uuid) (j : Job) : bool :=
  bool_decide (is_Some (j_prepared_transaction j)) || bool_decide (job_id (writer db) = Some id) ||
  bool_decide (Exists (fun c => pc_job_id c = id) (pending_commands db)).

Definition orphan (now : Z) (why : string) (j : Job) : Job :=
  with_updated_at now (with_error (Some why) (with_completed_at (Some now) (with_status reorged j))).

Definition requeue (now : Z) (j : Job) : Job :=
  with_updated_at now
    (with_error (Some "Ethereum submission was removed by a chain reorganization"%string)
      (with_completed_at None (with_confirmations 0 (with_submitted_block None (with_transaction_hash None
        (with_status (if bool_decide (is_Some (j_approval j)) then approved else queued) j)))))).

Definition dependent_statuses : list proof_status :=
  [queued; validating; awaiting_approval; approved; proof_requested; proving; submitting; submitted; confirmed].

Definition delete_jobs (p : uuid -> Job -> bool) : tx unit :=
  db ← read_db;
  write_db (with_jobs (filter (fun kv => p kv.1 kv.2 = false) (jobs db)) db).

Definition delete_reorged_pending : tx unit :=
  db ← read_db;
  let gone id := from_option (fun j => bool_decide (j_status j = reorged) &&
                   bool_decide (j_transaction_hash j = None) && bool_decide (j_prepared_transaction j = None))
                   false (jobs db !! id) in
  write_db (with_pending_commands (filter (fun c => gone (pc_job_id c) = false) (pending_commands db)) db).

Definition not_null : error := [Sqlx "null value violates not-null constraint" (SqlxDatabase (Some "23502"%string))].

(** The columns [input #>> '{submission,...}'] of the restored command. *)
Definition submission_columns (input : Value) : option (string * Z * string) :=
  public_key ← pointer input "/submission/feePayerPublicKey" ≫= text_of;
  n ← (pointer input "/submission/nonce" ≫= text_of) ≫= parse_i64;
  base64 ← pointer input "/submission/commandBase64" ≫= text_of;
  Some (public_key, n, base64).

Definition restore_command (id : uuid) (j : Job) : tx unit :=
  if bool_decide (get (j_input j) "submission" = None) then mret tt
  else
    '(public_key, n, base64) ← some_or (submission_columns (j_input j)) not_null;
    insert_pending id public_key n "zkapp" base64.
Definition restore_pending (id : uuid) : tx unit :=
  db ← read_db;
  from_option (restore_command id) (mret tt) (jobs db !! id).

Definition rollback_after (ancestor : Z) : tx unit :=
  now ← now_;
  db ← read_db;
  write_db (with_recovery_ready false db);;
  let retry := retry_settlement ancestor (jobs db) in
  update_jobs (fun id j => recovered j && above ancestor j && referenced db id j)
    (fun _ => orphan now "Recovered Ethereum submission was orphaned; awaiting canonical reconciliation");;
  delete_jobs (fun id j => recovered j && above ancestor j && negb (referenced db id j));;
  match retry with
  | Some retry_id =>
    update_jobs (fun id j => bool_decide (j_kind j = Settlement) && bool_decide (id <> retry_id) &&
                             status_in dependent_statuses j)
      (fun _ => orphan now "Settlement depends on state removed by an Ethereum reorganization")
  | None => mret tt
  end;;
  update_jobs (fun id j => above ancestor j && status_in [submitted; confirmed] j &&
                           (negb (bool_decide (j_kind j = Settlement)) || bool_decide (Some id = retry)))
    (fun _ => requeue now);;
  delete_reorged_pending;;
  match retry with
  | Some retry_id => restore_pending retry_id
  | None => mret tt
  end.

(** The end of recovery ([recovery_ready = TRUE]). *)
Definition finish_recovery : tx unit :=
  db ← read_db; write_db (with_recovery_ready true db).

End indexer.
