(* ===== verification/TxLogic.v ===== *)
(** * Reasoning about transactions

    Inversion of successful transactions, and the relations between the
    databases before and after that a transaction respects.  A relation is
    shown statement by statement: [respects] composes along [bind] when the
    relation is a preorder. *)

From stdpp Require Import gmap strings.
From S2P Require Import Prelude Rpc Database.

Section tx.
Context `{Externals}.

Lemma tx_bind_Ok {A B} (t : tx A) (f : A -> tx B) now db r :
  (t ≫= f) now db = Ok r <-> exists a db1, t now db = Ok (a, db1) /\ f a now db1 = Ok r.
Proof. unfold mbind, tx_bind. destruct (t now db) as [[a db1]| |]; naive_solver. Qed.

Lemma require_Ok b e now db (u : unit) db' : require b e now db = Ok (u, db') <-> b = true /\ db' = db.
Proof. unfold require. destruct b, u; unfold fail, mret, tx_ret; naive_solver. Qed.

Lemma some_or_Ok {A} (o : option A) e now db a db' :
  some_or o e now db = Ok (a, db') <-> o = Some a /\ db' = db.
Proof. unfold some_or. destruct o; unfold fail, mret, tx_ret; naive_solver. Qed.

Lemma lift_Ok {A} (o : outcome error A) now db a db' :
  lift o now db = Ok (a, db') <-> o = Ok a /\ db' = db.
Proof. unfold lift. destruct o; simpl; naive_solver. Qed.

Lemma update_job_Ok id p f now db b db' :
  update_job id p f now db = Ok (b, db') <->
  (b = true /\ exists j, jobs db !! id = Some j /\ p j = true /\ row_ok (f j) = true /\
     unique_ok (<[id := f j]> (jobs db)) = true /\ db' = with_jobs (<[id := f j]> (jobs db)) db) \/
  (b = false /\ db' = db /\ from_option p false (jobs db !! id) = false).
Proof.
  unfold update_job. rewrite tx_bind_Ok. split.
  - intros (? & ? & [= <- <-] & Ht). destruct (jobs db !! id) as [j|] eqn:Hj; [|injection Ht as <- <-; eauto].
    destruct (p j) eqn:Hp; [|injection Ht as <- <-; eauto].
    apply tx_bind_Ok in Ht as (? & ? & [Hr ->]%require_Ok & Ht).
    apply tx_bind_Ok in Ht as (? & ? & [Hu ->]%require_Ok & Ht).
    apply tx_bind_Ok in Ht as (? & ? & [= <- <-] & [= <- <-]). left. eauto 10.
  - intros [(-> & j & Hj & Hp & Hr & Hu & ->)|(-> & -> & Hp)].
    + exists db, db. split; [done|]. rewrite Hj, Hp, Hr. unfold require at 1, mbind, tx_bind.
      cbn -[unique_ok]. by rewrite Hu.
    + exists db, db. split; [done|]. destruct (jobs db !! id); simpl in *; [by rewrite Hp|done].
Qed.

Lemma update_jobs_Ok p f now db u db' :
  update_jobs p f now db = Ok (u, db') ->
  let js := map_imap (fun id j => Some (if p id j then f id j else j)) (jobs db) in
  unique_ok js = true /\ db' = with_jobs js db /\
  (forall id j, jobs db !! id = Some j -> p id j = true -> row_ok (f id j) = true).
Proof.
  unfold update_jobs. intros (? & ? & [= <- <-] & Ht)%tx_bind_Ok.
  apply tx_bind_Ok in Ht as (? & ? & [Hr ->]%require_Ok & Ht).
  apply tx_bind_Ok in Ht as (? & ? & [Hu ->]%require_Ok & [= <- <-]).
  apply bool_decide_eq_true in Hr. done.
Qed.

Lemma update_writer_Ok o now db u db' :
  update_writer o now db = Ok (u, db') <->
  fencing_token o < 2 ^ 63 /\ owner_ok o = true /\ db' = with_writer o db.
Proof.
  unfold update_writer. rewrite tx_bind_Ok. split.
  - intros (? & ? & [Hf%Z.ltb_lt ->]%require_Ok & Ht).
    apply tx_bind_Ok in Ht as (? & ? & [Ho ->]%require_Ok & Ht).
    apply tx_bind_Ok in Ht as (? & ? & [= <- <-] & [= <- <-]). done.
  - intros (Hf & Ho & ->). destruct u. exists tt, db. rewrite require_Ok, Z.ltb_lt. split; [done|].
    apply tx_bind_Ok. exists tt, db. by rewrite require_Ok.
Qed.

(** ** Relations *)

Definition respects (R : Db -> Db -> Prop) {A} (t : tx A) : Prop :=
  forall now db a db', t now db = Ok (a, db') -> R db db'.

(** An invariant of single transactions. *)
Definition keeps (I : Db -> Prop) {A} (t : tx A) : Prop :=
  forall now db a db', I db -> t now db = Ok (a, db') -> I db'.

Lemma transact_respects R {A} (t : tx A) now db r db' :
  Reflexive R -> respects R t -> transact t now db = (r, db') -> R db db'.
Proof.
  intros HR Ht. unfold transact. destruct (t now db) as [[a db1]| |] eqn:E; intros [= <- <-]; eauto.
Qed.

Lemma transact_keeps I {A} (t : tx A) now db r db' :
  keeps I t -> I db -> transact t now db = (r, db') -> I db'.
Proof.
  intros Ht Hi. unfold transact. destruct (t now db) as [[a db1]| |] eqn:E; intros [= <- <-]; eauto.
Qed.

Section preorder.
Context (R : Db -> Db -> Prop) `{!PreOrder R}.

Lemma respects_mret {A} (a : A) : respects R (mret a).
Proof. intros ???? [= <- <-]. reflexivity. Qed.
Lemma respects_now : respects R now_.
Proof. intros ???? [= <- <-]. reflexivity. Qed.
Lemma respects_read : respects R read_db.
Proof. intros ???? [= <- <-]. reflexivity. Qed.
Lemma respects_require b e : respects R (require b e).
Proof. intros ???? [_ ->]%require_Ok. reflexivity. Qed.
Lemma respects_some_or {A} (o : option A) e : respects R (some_or o e).
Proof. intros ???? [_ ->]%some_or_Ok. reflexivity. Qed.
Lemma respects_lift {A} (o : outcome error A) : respects R (lift o).
Proof. intros ???? [_ ->]%lift_Ok. reflexivity. Qed.

Lemma respects_bind {A B} (t : tx A) (f : A -> tx B) :
  respects R t -> (forall a, respects R (f a)) -> respects R (t ≫= f).
Proof. intros Ht Hf now db b db' (a & db1 & H1 & H2)%tx_bind_Ok. etrans; [by eapply Ht|by eapply Hf]. Qed.

(** The continuation may use that the database it reads is the current one. *)
Lemma respects_read_bind {B} (f : Db -> tx B) :
  (forall now db b db', f db now db = Ok (b, db') -> R db db') -> respects R (read_db ≫= f).
Proof. intros Hf now db b db' (? & ? & [= <- <-] & Ht)%tx_bind_Ok. by eapply Hf. Qed.

End preorder.
End tx.

(** Transactions whose statements all respect the relation. *)
Ltac respects_step :=
  match goal with
  | |- respects _ (mret _) => apply respects_mret
  | |- respects _ now_ => apply respects_now
  | |- respects _ read_db => apply respects_read
  | |- respects _ (require _ _) => apply respects_require
  | |- respects _ (some_or _ _) => apply respects_some_or
  | |- respects _ (lift _) => apply respects_lift
  | |- respects _ (_ ≫= _) => apply respects_bind; [| |intros ?]
  | |- respects _ (if ?b then _ else _) => destruct b eqn:?
  | |- respects _ (match ?o with _ => _ end) => destruct o eqn:?
  | |- PreOrder _ => apply _
  end.
Ltac respects_tac := repeat respects_step.

(** [inv_tx] turns a successful transaction into its steps. *)
Ltac inv_tx_step :=
  match goal with
  | H : (_ ≫= _) _ _ = Ok _ |- _ => apply tx_bind_Ok in H as (? & ? & ? & H)
  | H : require _ _ _ _ = Ok _ |- _ => apply require_Ok in H as [? ->]
  | H : some_or _ _ _ _ = Ok _ |- _ => apply some_or_Ok in H as [? ->]
  | H : lift _ _ _ = Ok _ |- _ => apply lift_Ok in H as [? ->]
  | H : read_db _ _ = Ok _ |- _ => injection H as ? ?; subst
  | H : now_ _ _ = Ok _ |- _ => injection H as ? ?; subst
  | H : mret _ _ _ = Ok _ |- _ => injection H as ? ?; subst
  | H : write_db _ _ _ = Ok _ |- _ => injection H as ? ?; subst
  end.
Ltac inv_tx := repeat inv_tx_step.
