(* ===== verification/Coordination.v ===== *)
(** * What every transaction of the gateway preserves

    Two preorders on databases.  [evolves]: fencing tokens only grow, a
    replaced reservation has a larger token, and a job never loses its kind,
    its sealed proof request or its signed transaction, nor decreases its
    attempts.  [calm]: no finished job becomes unfinished and no unfinished
    job loses the writer row.  Admissions and rollbacks, the two operations
    that are not [calm], are treated on their own. *)

From stdpp Require Import gmap strings.
From S2P Require Import Prelude Rpc Database Program OuterWriter Submission Worker Indexer TxLogic.

Section coordination.
Context `{Externals}.

(** ** The relations *)

Definition kept {A} (o o' : option A) : Prop := forall a, o = Some a -> o' = Some a.

(** Statuses of jobs that came to an end ([proof_failed] is never set). *)
Definition ended_statuses : list proof_status := [confirmed; reorged; rejected; ethereum_reverted; failed; executed].

(** What the columns of a row say of each other. *)
Record typed (j : Job) : Prop := {
  ty_hash hash p : j_transaction_hash j = Some hash -> j_prepared_transaction j = Some p ->
    to_ascii_lowercase hash = to_ascii_lowercase (transaction_hash p);
  ty_request : is_Some (j_proof_request_id j) -> is_Some (j_proof_request_intent j);
  ty_requested : j_status j = proof_requested -> is_Some (j_proof_request_id j);
  ty_approved : j_status j = approved -> is_Some (j_approval j);
  ty_confirmed : j_status j = confirmed -> is_Some (j_submitted_block j);
  ty_block : is_Some (j_submitted_block j) -> is_Some (j_transaction_hash j);
  ty_completed : j_status j ∈ ended_statuses -> is_Some (j_completed_at j);
  ty_attempts : 0 <= j_attempts j;
  ty_retries : 0 <= j_retry_count j <= i32_MAX;
  ty_confirmations : 0 <= j_confirmations j <= i32_MAX
}.

Definition job_evolves (j j' : Job) : Prop :=
  j_kind j' = j_kind j /\ j_attempts j <= j_attempts j' /\
  kept (j_proof_request_intent j) (j_proof_request_intent j') /\
  kept (j_proof_request_id j) (j_proof_request_id j') /\
  kept (j_prepared_transaction j) (j_prepared_transaction j') /\
  (typed j -> typed j').

Definition all_typed (db : Db) : Prop := forall id j, jobs db !! id = Some j -> typed j.

Definition fence (o o' : Owner) : Prop :=
  fencing_token o <= fencing_token o' /\
  (fencing_token o' = fencing_token o -> reservation_id o' = reservation_id o \/ reservation_id o' = None).

Definition evolves (db db' : Db) : Prop :=
  fence (writer db) (writer db') /\
  forall id j, jobs db !! id = Some j -> exists j', jobs db' !! id = Some j' /\ job_evolves j j'.

(** [owns db id]: the writer row is attached to job [id]. *)
Definition owns (db : Db) (id : uuid) : Prop := job_id (writer db) = Some id.
Definition unfinished (db : Db) (id : uuid) : Prop := exists j, jobs db !! id = Some j /\ settled j = false.

Definition calm (db db' : Db) : Prop :=
  (forall id, unfinished db' id -> unfinished db id) /\
  (forall id, owns db id -> owns db' id \/ ~ unfinished db' id) /\
  (forall id j', jobs db' !! id = Some j' -> j_status j' = proof_failed ->
     exists j, jobs db !! id = Some j /\ j_status j = proof_failed).

#[export] Instance kept_preorder A : PreOrder (@kept A).
Proof. split; repeat intro; eauto. Qed.
#[export] Instance job_evolves_preorder : PreOrder job_evolves.
Proof.
  split; [intros j; unfold job_evolves; split_and!; first [lia|reflexivity|done]|].
  intros j1 j2 j3 (Hk & Ha & Hi & Hr & Hp & Ht) (Hk' & Ha' & Hi' & Hr' & Hp' & Ht').
  split; [congruence|]. split; [lia|]. split; [by etrans|]. split; [by etrans|]. split; [by etrans|auto].
Qed.
#[export] Instance fence_preorder : PreOrder fence.
Proof.
  split; [split; [lia|by left]|]. intros a b c [H1 E1] [H2 E2]. split; [lia|]. intros He.
  destruct E2 as [->| ->]; [lia| |by right]. apply E1. lia.
Qed.
#[export] Instance evolves_preorder : PreOrder evolves.
Proof.
  split; [split; [reflexivity|intros id j Hj; exists j; split; [done|reflexivity]]|].
  intros a b c [F1 J1] [F2 J2]. split; [by etrans|]. intros id j (j1 & Hj1 & E1)%J1.
  destruct (J2 _ _ Hj1) as (j2 & Hj2 & E2). exists j2. split; [done|by etrans].
Qed.
#[export] Instance calm_preorder : PreOrder calm.
Proof.
  split; [intros a; unfold calm; split_and!; eauto|]. intros a b c (U1 & O1 & P1) (U2 & O2 & P2). split_and!.
  - eauto.
  - intros id [Ho|Hn]%O1; [by apply O2|]. right. eauto.
  - intros id j3 Hj3 Hs. destruct (P2 _ _ Hj3 Hs) as (j2 & Hj2 & Hs2). eauto.
Qed.

(** ** Statements *)

Lemma fence_refl o : fence o o.
Proof. reflexivity. Qed.

Lemma evolves_insert db id j j' :
  jobs db !! id = Some j -> job_evolves j j' -> evolves db (with_jobs (<[id := j']> (jobs db)) db).
Proof.
  intros Hj He. split; [apply fence_refl|]. intros id' j1 Hj1. cbn.
  destruct (decide (id = id')) as [->|Hne].
  - rewrite lookup_insert_eq. exists j'. split; [done|]. by simplify_eq.
  - rewrite lookup_insert_ne by done. exists j1. split; [done|reflexivity].
Qed.

Lemma update_job_evolves id p f :
  (forall j, p j = true -> job_evolves j (f j)) -> respects evolves (update_job id p f).
Proof.
  intros Hf now db b db' [(_ & j & Hj & Hp & _ & _ & ->)|(_ & -> & _)]%update_job_Ok; [|reflexivity].
  eapply evolves_insert; eauto.
Qed.

Lemma update_jobs_evolves p f :
  (forall id j, p id j = true -> job_evolves j (f id j)) -> respects evolves (update_jobs p f).
Proof.
  intros Hf now db u db' (_ & -> & _)%update_jobs_Ok. split; [apply fence_refl|]. intros id j Hj. cbn.
  rewrite map_lookup_imap, Hj. cbn. eexists; split; [done|]. destruct (p id j) eqn:Hp; [auto|reflexivity].
Qed.

(** How one row may change under [calm]. *)
Definition row_calm (j j' : Job) : Prop :=
  (settled j' = false -> settled j = false) /\ (j_status j' = proof_failed -> j_status j = proof_failed).

Lemma calm_insert db id j j' :
  jobs db !! id = Some j -> row_calm j j' -> calm db (with_jobs (<[id := j']> (jobs db)) db).
Proof.
  intros Hj [Hs Hp]. unfold calm, unfinished, owns. cbn. split_and!; [|by left|].
  - intros id' (j1 & Hj1 & Hs1). destruct (decide (id = id')) as [->|Hne].
    + rewrite lookup_insert_eq in Hj1. injection Hj1 as <-. eauto.
    + rewrite lookup_insert_ne in Hj1 by done. eauto.
  - intros id' j1 Hj1 Hs1. destruct (decide (id = id')) as [->|Hne].
    + rewrite lookup_insert_eq in Hj1. injection Hj1 as <-. eauto.
    + rewrite lookup_insert_ne in Hj1 by done. eauto.
Qed.

Lemma update_job_calm id p f :
  (forall j, p j = true -> row_calm j (f j)) -> respects calm (update_job id p f).
Proof.
  intros Hf now db b db' [(_ & j & Hj & Hp & _ & _ & ->)|(_ & -> & _)]%update_job_Ok; [|reflexivity].
  eapply calm_insert; eauto.
Qed.

Lemma update_jobs_calm p f :
  (forall id j, p id j = true -> row_calm j (f id j)) -> respects calm (update_jobs p f).
Proof.
  intros Hf now db u db' (_ & -> & _)%update_jobs_Ok. unfold calm, unfinished, owns. cbn.
  split_and!; [|by left|]; intros id; [intros (j1 & Hj1 & Hs1)|intros j1 Hj1 Hs1];
    rewrite map_lookup_imap in Hj1; destruct (jobs db !! id) as [j|] eqn:Hj; try done;
    cbn in Hj1; injection Hj1 as <-; exists j; (split; [done|]);
    destruct (p id j) eqn:Hp; try done; by apply (Hf id j Hp).
Qed.

Lemma delete_pending_evolves id : respects evolves (delete_pending id).
Proof.
  intros now db u db' Ht. unfold delete_pending in Ht. inv_tx. split; [apply fence_refl|].
  intros i j Hj. exists j. split; [done|reflexivity].
Qed.
Lemma delete_pending_calm id : respects calm (delete_pending id).
Proof. intros now db u db' Ht. unfold delete_pending in Ht. inv_tx. split_and!; [eauto|by left|eauto]. Qed.
Lemma insert_pending_evolves id k n c b : respects evolves (insert_pending id k n c b).
Proof.
  intros now db u db' Ht. unfold insert_pending in Ht. inv_tx. case_bool_decide; inv_tx; [reflexivity|].
  split; [apply fence_refl|]. intros i j Hj. exists j. split; [done|reflexivity].
Qed.
Lemma insert_pending_calm id k n c b : respects calm (insert_pending id k n c b).
Proof.
  intros now db u db' Ht. unfold insert_pending in Ht. inv_tx. case_bool_decide; inv_tx; [reflexivity|].
  split_and!; [eauto|by left|eauto].
Qed.

Lemma evolves_writer db o : fence (writer db) o -> evolves db (with_writer o db).
Proof. intros Hf. split; [done|]. intros id j Hj. exists j. split; [done|reflexivity]. Qed.
Lemma calm_writer db o :
  (forall id, owns db id -> job_id o = Some id \/ ~ unfinished db id) -> calm db (with_writer o db).
Proof. intros Ho. split_and!; [by intros id|exact Ho|eauto]. Qed.

Lemma fence_cleared o : fence o (cleared o).
Proof. split; cbn; [lia|by right]. Qed.
Lemma fence_lease o t : fence o (with_lease t o).
Proof. split; cbn; [lia|by left]. Qed.

(** ** Live jobs *)

Definition live_statuses : list proof_status := queued :: active_statuses.

Lemma live_unfinished j : status_in live_statuses j = true -> settled j = false.
Proof.
  unfold status_in, live_statuses, active_statuses. rewrite bool_decide_eq_true, !elem_of_cons, elem_of_nil.
  unfold settled, status_in. intros Hs. destruct_or!; try done; rewrite Hs; by rewrite !andb_false_r.
Qed.

Lemma status_in_subset l k j : l ⊆ k -> status_in l j = true -> status_in k j = true.
Proof. unfold status_in. rewrite !bool_decide_eq_true. auto. Qed.

Lemma row_calm_live j j' : status_in live_statuses j = true -> j_status j' <> proof_failed -> row_calm j j'.
Proof. intros Hl Hs. split; [intros _; by apply live_unfinished|done]. Qed.

Lemma status_live l j j' :
  status_in l j = true -> bool_decide (l ⊆ live_statuses) = true -> j_status j' <> proof_failed -> row_calm j j'.
Proof. intros Hl Hs%bool_decide_eq_true. apply row_calm_live. by eapply status_in_subset. Qed.

Lemma one_status_in s j : bool_decide (j_status j = s) = true -> status_in [s] j = true.
Proof. unfold status_in. rewrite !bool_decide_eq_true. intros ->. by left. Qed.

Lemma not_terminal_live j : status_in terminal_statuses j = false -> status_in live_statuses j = true.
Proof. unfold status_in. by destruct (j_status j). Qed.

Lemma same_row_calm j j' :
  j_status j' = j_status j -> j_transaction_hash j' = j_transaction_hash j ->
  j_prepared_transaction j' = j_prepared_transaction j -> row_calm j j'.
Proof. intros Hs Ht Hp. unfold row_calm, settled, status_in. by rewrite Hs, Ht, Hp. Qed.

End coordination.

(** [row_typed] proves the last part of [job_evolves]. *)
Ltac in_statuses H :=
  unfold ended_statuses in H; repeat (apply elem_of_cons in H as [H|H]); [..|by apply elem_of_nil in H].
Ltac row_typed :=
  let H := fresh in intros H; destruct H; split; cbn; unfold recovered_status; try assumption;
  first [unfold i32_MAX in *; lia | intros; repeat case_match; bool_props;
               first [done | congruence | by eauto
                     | match goal with Hs : _ ∈ ended_statuses |- _ => in_statuses Hs; (done || congruence) end]].

(** [fresh_typed] proves that a given row is typed. *)
Ltac fresh_typed := split; cbn; try done; try (by intros []); try (unfold i32_MAX; lia).

(** [row_evolves] proves [job_evolves] of a row update, using its guard. *)
Ltac row_evolves :=
  intros; bool_props; unfold job_evolves; cbn; split_and!;
  first [reflexivity | lia | row_typed | intros ? ?; (done || congruence)].

(** ** Transactions *)

Section transactions.
Context `{Externals}.

Lemma lock_Ok now db u db' :
  lock now db = Ok (u, db') ->
  recovery_ready db = true /\
  db' = if releasable now (jobs db) (writer db) then with_writer (cleared (writer db)) db else db.
Proof.
  unfold lock. intros Ht. apply tx_bind_Ok in Ht as (? & ? & [= <- <-] & Ht).
  apply tx_bind_Ok in Ht as (? & ? & [Hr ->]%require_Ok & Ht).
  apply tx_bind_Ok in Ht as (? & ? & [= <- <-] & Ht). split; [done|].
  destruct (releasable _ _ _); [by apply update_writer_Ok in Ht as (_ & _ & ->)|by inv_tx].
Qed.

Lemma lock_evolves : respects evolves lock.
Proof.
  intros now db u db' [_ ->]%lock_Ok. destruct (releasable _ _ _); [|reflexivity].
  apply evolves_writer, fence_cleared.
Qed.

Lemma lock_calm : respects calm lock.
Proof.
  intros now db u db' [_ ->]%lock_Ok. destruct (releasable _ _ _) eqn:Hr; [|reflexivity].
  apply calm_writer. intros id Ho. right.
  unfold releasable, owns in *. rewrite Ho in Hr. intros (j & Hj & Hs). rewrite Hj in Hr. cbn in Hr. congruence.
Qed.

Lemma no_jobs_Ok except now db u db' :
  ensure_no_jobs except now db = Ok (u, db') ->
  db' = db /\ forall id, Some id <> except -> ~ unfinished db id.
Proof.
  unfold ensure_no_jobs. intros Ht. inv_tx. split; [done|]. bool_props. intros id Hne (j & Hj & Hs).
  match goal with He : busy_jobs _ _ = ∅ |- _ => pose proof (f_equal (.!! id) He) as Hb end.
  rewrite lookup_empty in Hb. unfold busy_jobs in Hb. apply map_lookup_filter_None in Hb as [Hb|Hb]; [congruence|].
  by eapply Hb.
Qed.

Lemma ensure_no_jobs_evolves except : respects evolves (ensure_no_jobs except).
Proof. intros now db u db' [-> _]%no_jobs_Ok. reflexivity. Qed.

Lemma owner_Ok now db o db' : owner now db = Ok (o, db') -> o = writer db /\ db' = db.
Proof. unfold owner. intros Ht. by inv_tx. Qed.
Lemma virtual_account_Ok now db v db' :
  virtual_account now db = Ok (v, db') -> outer_account db = Some v /\ db' = db.
Proof. unfold virtual_account. intros Ht. by inv_tx. Qed.

Lemma acquire_respects fresh request c :
  respects evolves (acquire_with_checkpoint fresh request c) /\
  respects calm (acquire_with_checkpoint fresh request c).
Proof.
  assert (forall now db b db', acquire_with_checkpoint fresh request c now db = Ok (b, db') ->
    evolves db db' /\ calm db db') as Hall; [|split; intros ????? ; by eapply Hall].
  unfold acquire_with_checkpoint. intros now db b db' Ht.
  apply tx_bind_Ok in Ht as (seconds & ? & [_ ->]%lift_Ok & Ht).
  apply tx_bind_Ok in Ht as (? & ? & [_ ->]%require_Ok & Ht).
  apply tx_bind_Ok in Ht as (? & db1 & Hl & Ht).
  enough (evolves db1 db' /\ calm db1 db') as [He Hc].
  { pose proof (lock_evolves _ _ _ _ Hl). pose proof (lock_calm _ _ _ _ Hl). split; by etrans. }
  apply tx_bind_Ok in Ht as (o & ? & [-> ->]%owner_Ok & Ht).
  apply tx_bind_Ok in Ht as (? & ? & [= <- <-] & Ht).
  apply tx_bind_Ok in Ht as (? & db2 & Hu & Ht).
  apply tx_bind_Ok in Ht as (? & ? & [-> ->]%owner_Ok & [_ ->]%lift_Ok).
  case_bool_decide.
  - inv_tx. apply update_writer_Ok in Hu as (_ & _ & ->).
    split; [apply evolves_writer, fence_lease|apply calm_writer; by left].
  - apply tx_bind_Ok in Hu as (? & ? & [-> Hn]%no_jobs_Ok & Hu).
    apply tx_bind_Ok in Hu as (? & ? & [_ ->]%virtual_account_Ok & Hu). inv_tx.
    apply update_writer_Ok in Hu as (_ & _ & ->). split.
    + apply evolves_writer. split; cbn; lia.
    + apply calm_writer. intros id Ho. right. by apply Hn.
Qed.

Lemma renew_respects token seconds :
  respects evolves (renew_token token seconds) /\ respects calm (renew_token token seconds).
Proof.
  assert (forall now db b db', renew_token token seconds now db = Ok (b, db') -> evolves db db' /\ calm db db')
    as Hall; [|split; intros ????? ; by eapply Hall].
  unfold renew_token. intros now db b db' Ht.
  apply tx_bind_Ok in Ht as (o & ? & [-> ->]%owner_Ok & Ht).
  apply tx_bind_Ok in Ht as (? & ? & [_ ->]%require_Ok & Ht).
  apply tx_bind_Ok in Ht as (? & db2 & Hu & Ht).
  apply tx_bind_Ok in Ht as (? & ? & [-> ->]%owner_Ok & [_ ->]%lift_Ok).
  case_bool_decide; inv_tx; [|split; reflexivity].
  apply update_writer_Ok in Hu as (_ & _ & ->).
  split; [apply evolves_writer, fence_lease|apply calm_writer; by left].
Qed.

Lemma release_respects token : respects evolves (release token) /\ respects calm (release token).
Proof.
  assert (forall now db b db', release token now db = Ok (b, db') -> evolves db db' /\ calm db db')
    as Hall; [|split; intros ????? ; by eapply Hall].
  unfold release. intros now db b db' Ht.
  apply tx_bind_Ok in Ht as (? & db1 & Hl & Ht).
  enough (evolves db1 db' /\ calm db1 db') as [He Hc].
  { pose proof (lock_evolves _ _ _ _ Hl). pose proof (lock_calm _ _ _ _ Hl). split; by etrans. }
  apply tx_bind_Ok in Ht as (o & ? & [-> ->]%owner_Ok & Ht).
  case_bool_decide; inv_tx; [split; reflexivity|].
  apply update_writer_Ok in Ht as (_ & _ & ->).
  split; [apply evolves_writer; split; cbn; [lia|by right]|apply calm_writer; by left].
Qed.

(** *** Jobs *)

Definition steady {A} (t : tx A) : Prop := respects evolves t /\ respects calm t.

Lemma evolves_updated_at now j j' : job_evolves j j' -> job_evolves j (with_updated_at now j').
Proof.
  intros (Hk & Ha & Hi & Hr & Hp & Ht). unfold job_evolves. cbn. split_and!; try done.
  intros [] % Ht. by split.
Qed.

(** A guarded update of one row. *)
Lemma update_job_steady {A} id p f (k : bool -> tx A) :
  (forall j, p j = true -> job_evolves j (f j)) -> (forall j, p j = true -> row_calm j (f j)) ->
  (forall b, steady (k b)) -> steady (b ← update_job id p f; k b).
Proof.
  intros He Hc Hk. split; (apply respects_bind; [apply _| |intros b; apply Hk]).
  - by apply update_job_evolves.
  - by apply update_job_calm.
Qed.

Lemma now_steady {A} (k : Z -> tx A) : (forall now, steady (k now)) -> steady (now ← now_; k now).
Proof. intros Hk. split; (apply respects_bind; [apply _|apply respects_now, _|intros n; apply Hk]). Qed.

Lemma require_steady b e : steady (require b e).
Proof. split; apply respects_require, _. Qed.
Lemma mret_steady {A} (a : A) : steady (mret a).
Proof. split; apply respects_mret, _. Qed.
Lemma bind_steady {A B} (t : tx A) (f : A -> tx B) : steady t -> (forall a, steady (f a)) -> steady (t ≫= f).
Proof. intros [He Hc] Hf. split; (apply respects_bind; [apply _|done|intros a; apply Hf]). Qed.
Lemma read_steady : steady read_db.
Proof. split; apply respects_read, _. Qed.

Lemma recover_interrupted_steady : steady recover_interrupted.
Proof.
  apply now_steady. intros now. split.
  - apply update_jobs_evolves. row_evolves.
  - apply update_jobs_calm. intros _ j Hj. eapply status_live; [exact Hj|done|].
    cbn. unfold recovered_status. repeat case_match; done.
Qed.

Lemma begin_steady intent id attempts : steady (begin_proof_request intent id attempts).
Proof.
  apply now_steady. intros now. apply update_job_steady; [row_evolves| |].
  - intros j Hj. by apply same_row_calm.
  - intros b. apply bind_steady; [apply require_steady|intros; apply mret_steady].
Qed.

Lemma finish_steady id intent request_id : steady (finish_proof_request id intent request_id).
Proof.
  apply now_steady. intros now. apply update_job_steady; [| |intros b; apply require_steady].
  - intros j Hj. bool_props. unfold job_evolves. cbn. split_and!; try reflexivity; [|row_typed].
    intros r Hr. match goal with Hin : _ ∈ _ |- _ => apply list_elem_of_In in Hin; cbn in Hin end.
    destruct_or?; congruence || done.
  - intros j Hj. bool_props. eapply status_live; [eassumption|done|]. cbn. case_bool_decide; [done|].
    intros Hs. match goal with Hin : status_in _ _ = true |- _ => unfold status_in in Hin; rewrite Hs in Hin; done end.
Qed.

Lemma send_claim_steady id attempts v p : steady (send_claim id attempts v p).
Proof.
  apply now_steady. intros now. apply update_job_steady; [row_evolves| |].
  - intros j Hj. bool_props. by eapply status_live.
  - intros b. apply bind_steady; [apply require_steady|intros _].
    apply bind_steady; [apply read_steady|intros; apply mret_steady].
Qed.

Lemma send_persist_steady id attempts p : steady (send_persist id attempts p).
Proof.
  apply now_steady. intros now. apply update_job_steady; [row_evolves| |intros b; apply require_steady].
  intros j Hj. bool_props. eapply status_live; [by apply one_status_in, bool_decide_eq_true|done|].
  cbn. congruence.
Qed.

Lemma send_finish_steady id attempts : steady (send_finish id attempts).
Proof.
  apply now_steady. intros now. split.
  - apply update_job_evolves. row_evolves.
  - apply update_job_calm. intros j Hj. bool_props.
    by eapply status_live; [apply one_status_in, bool_decide_eq_true|..].
Qed.

Lemma approve_steady id digest a : steady (approve_update id digest a).
Proof.
  apply now_steady. intros now. apply update_job_steady; [row_evolves| |intros b; apply require_steady].
  intros j Hj. bool_props. by eapply status_live; [apply one_status_in, bool_decide_eq_true|..].
Qed.

Lemma delete_pending_steady id : steady (delete_pending id).
Proof. split; [apply delete_pending_evolves|apply delete_pending_calm]. Qed.
Lemma insert_pending_steady id k n c b : steady (insert_pending id k n c b).
Proof. split; [apply insert_pending_evolves|apply insert_pending_calm]. Qed.

Lemma cancel_steady id : steady (cancel_proof id).
Proof.
  apply now_steady. intros now. apply update_job_steady; [row_evolves| |].
  - intros j Hj. bool_props. by eapply status_live.
  - intros b. apply bind_steady; [|intros; apply mret_steady].
    destruct b; [apply delete_pending_steady|apply mret_steady].
Qed.

Lemma update_validating_steady id attempts f why :
  (forall j, job_evolves j (f j)) -> (forall j, j_status j = validating -> j_status (f j) <> proof_failed) ->
  steady (update_validating id attempts f why).
Proof.
  intros He Hs. apply now_steady. intros now. apply update_job_steady; [| |intros b; apply require_steady].
  - intros j _. apply evolves_updated_at, He.
  - intros j Hj. bool_props. eapply status_live; [by apply one_status_in, bool_decide_eq_true|done|by apply Hs].
Qed.

Lemma update_proving_steady id attempts f why :
  (forall j, job_evolves j (f j) /\ j_status (f j) = j_status j) -> steady (update_proving id attempts f why).
Proof.
  intros Hf. apply now_steady. intros now. apply update_job_steady; [| |intros b; apply require_steady].
  - intros j _. apply evolves_updated_at, Hf.
  - intros j Hj. bool_props. eapply status_live; [eassumption|done|]. cbn. destruct (Hf j) as [_ ->].
    intros Hs. match goal with Hin : status_in _ _ = true |- _ => unfold status_in in Hin; rewrite Hs in Hin; done end.
Qed.

Lemma update_local_steady id attempts c : steady (update_local id attempts c).
Proof.
  apply now_steady. intros now. apply update_job_steady; [row_evolves| |intros b; apply require_steady].
  intros j _. by apply same_row_calm.
Qed.

Lemma execute_steady id attempts : steady (execute_update id attempts).
Proof.
  apply now_steady. intros now. apply update_validating_steady; [row_evolves|done].
Qed.

(** *** Jobs, with the row read first *)

Lemma update_read id j f now db b db' :
  jobs db !! id = Some j -> job_evolves j (f j) -> row_calm j (f j) ->
  update_job id (fun _ => true) f now db = Ok (b, db') -> evolves db db' /\ calm db db'.
Proof.
  intros Hj He Hc [(_ & j' & Hj' & _ & _ & _ & ->)|(_ & -> & _)]%update_job_Ok; [|split; reflexivity].
  simplify_eq. split; [by eapply evolves_insert|by eapply calm_insert].
Qed.

(** A transaction is steady when all its successful runs are. *)
Lemma steady_runs {A} (t : tx A) :
  (forall now db a db', t now db = Ok (a, db') -> evolves db db' /\ calm db db') -> steady t.
Proof. intros Ht. split; intros ?????; by eapply Ht. Qed.

Lemma record_failure_steady id attempts e : steady (record_failure id attempts e).
Proof.
  apply steady_runs. unfold record_failure. intros now db a db' Ht.
  do 2 apply tx_bind_Ok in Ht as (? & ? & [= <- <-] & Ht).
  apply tx_bind_Ok in Ht as (j & ? & [Hj ->]%some_or_Ok & Ht).
  destruct (_ || status_in terminal_statuses j) eqn:Hg; [inv_tx; split; reflexivity|].
  apply orb_false_iff in Hg as [_ Hl%not_terminal_live].
  repeat case_match; apply tx_bind_Ok in Ht as (? & db1 & Hu & Ht);
    (eapply update_read in Hu as [He Hc]; [|exact Hj|row_evolves|apply row_calm_live; [done|]]).
  - by inv_tx.
  - done.
  - by inv_tx.
  - cbn. by case_bool_decide.
  - pose proof (delete_pending_evolves _ _ _ _ _ Ht). pose proof (delete_pending_calm _ _ _ _ _ Ht). split; by etrans.
  - done.
Qed.

Lemma foldl_choose {A} (f : A -> A -> A) (a : A) l :
  (forall x y, f x y = x \/ f x y = y) -> foldl f a l ∈ a :: l.
Proof.
  intros Hf. revert a. induction l as [|b l IH]; intros a; cbn [foldl]; [by left|].
  specialize (IH (f a b)). apply elem_of_cons in IH as [->|Hin].
  - destruct (Hf a b) as [->| ->]; [by left|by right; left].
  - by do 2 right.
Qed.

Lemma next_claim_Some now db id j :
  next_claim now db = Some (id, j) -> jobs db !! id = Some j /\ claimable now db id j = true.
Proof.
  unfold next_claim. destruct (filter _ _) as [|row rows] eqn:Hf; [done|]. intros [= He].
  assert ((id, j) ∈ row :: rows) as Hin.
  { rewrite <- He. apply foldl_choose. intros x y. unfold older. destruct (_ <? _); auto. }
  rewrite <- Hf in Hin. apply list_elem_of_filter in Hin as [Hc Hin%elem_of_map_to_list]. done.
Qed.

Lemma claim_steady : steady claim_job.
Proof.
  apply steady_runs. unfold claim_job. intros now db a db' Ht.
  apply tx_bind_Ok in Ht as (? & ? & [= <- <-] & Ht).
  destruct (negb (recovery_ready db)); [inv_tx; split; reflexivity|].
  apply tx_bind_Ok in Ht as (? & db1 & Hl & Ht).
  enough (evolves db1 db' /\ calm db1 db') as [He Hc].
  { pose proof (lock_evolves _ _ _ _ Hl). pose proof (lock_calm _ _ _ _ Hl). split; by etrans. }
  apply tx_bind_Ok in Ht as (? & ? & [= <- <-] & Ht).
  apply tx_bind_Ok in Ht as (? & ? & [= <- <-] & Ht).
  destruct (next_claim now db1) as [[id j]|] eqn:Hn; [|inv_tx; split; reflexivity].
  apply next_claim_Some in Hn as [Hj Hc]. unfold claimable in Hc. bool_props.
  apply tx_bind_Ok in Ht as (? & db2 & Hu & Ht). inv_tx.
  eapply update_read in Hu; [exact Hu|exact Hj|row_evolves|].
  eapply status_live; [eassumption|done|]. cbn. destruct (bool_decide (j_status j = approved)); done.
Qed.

Lemma set_status_evolves id attempts : respects evolves (set_status id attempts proving).
Proof.
  apply respects_bind; [apply _|apply respects_now, _|intros now].
  apply respects_bind; [apply _| |intros b; apply respects_require, _].
  apply update_job_evolves. row_evolves.
Qed.

(** *** The indexer *)

(** The hypothesis on finality: a confirmed job is not unconfirmed again. *)
Definition finality_stable (mode : FinalityMode) (required head : Z) (finalized : option Z) (id : uuid)
    (receipt : option Receipt) (db : Db) : Prop :=
  forall j r, jobs db !! id = Some j -> j_status j = confirmed -> receipt = Some r ->
    transaction_is_finalized mode (rc_block_number r) (Z.max (head - rc_block_number r) 0 + 1) required finalized = true.

Lemma reconcile_runs mode required head finalized id receipt canonical now db u db' :
  reconcile_job mode required head finalized id receipt canonical now db = Ok (u, db') ->
  evolves db db' /\ (finality_stable mode required head finalized id receipt db -> calm db db').
Proof.
  unfold reconcile_job. intros Ht. apply tx_bind_Ok in Ht as (? & ? & [= <- <-] & Ht).
  apply tx_bind_Ok in Ht as (? & ? & [= <- <-] & Ht).
  destruct (jobs db !! id) as [j|] eqn:Hj; [|inv_tx; split; reflexivity].
  destruct receipt as [r|]; [|inv_tx; split; reflexivity]. cbv zeta in Ht.
  destruct (negb (reconcilable j)) eqn:Hrec; [inv_tx; split; reflexivity|].
  destruct (negb (bool_decide (canonical = _))); [inv_tx; split; reflexivity|].
  set (c := transaction_is_finalized _ _ _ _ _) in *.
  destruct (bool_decide (j_status j = reorged) && _) eqn:Hro; [inv_tx; split; reflexivity|].
  unfold reconcilable in Hrec. bool_props.
  destruct (negb (rc_succeeded r) && c) eqn:Hrv.
  - apply tx_bind_Ok in Ht as (? & db1 & Hu & Ht).
    eapply update_read in Hu as [He Hc]; [|exact Hj|row_evolves|split; [done|discriminate]].
    pose proof (delete_pending_evolves _ _ _ _ _ Ht). pose proof (delete_pending_calm _ _ _ _ _ Ht).
    split; [by etrans|intros _; by etrans].
  - apply tx_bind_Ok in Ht as (? & db1 & Hu & Ht). inv_tx.
    apply update_job_Ok in Hu as [(_ & j' & Hj' & _ & _ & _ & ->)|(_ & -> & _)]; [|split; reflexivity].
    simplify_eq. split; [eapply evolves_insert; [exact Hj|row_evolves]|]. intros Hfin.
    eapply calm_insert; [exact Hj|]. split; [|cbn; by case_match].
    intros Hs. destruct c eqn:Hcc; [done|].
    assert (j_status j = submitted) as Hsub.
    { match goal with Hin : status_in _ _ = true |- _ => rename Hin into Hst end.
      apply bool_decide_eq_true, list_elem_of_In in Hst. cbn in Hst. destruct Hst as [Hst|[Hst|[Hst|[]]]].
      - done.
      - exfalso. specialize (Hfin _ r Hj ltac:(done) eq_refl). unfold c in Hcc. congruence.
      - exfalso. rewrite <- Hst in Hro. cbn in Hro. discriminate. }
    apply live_unfinished. unfold status_in. by rewrite Hsub.
Qed.

(** *** The invariant and the admissions *)

(** Every unfinished job owns the writer row; [proof_failed] is a status of
    old rows that no statement sets. *)
Record one_writer (db : Db) : Prop := {
  ow_owner : forall id, unfinished db id -> owns db id;
  ow_proof_failed : forall id j, jobs db !! id = Some j -> j_status j <> proof_failed
}.

Lemma calm_one_writer db db' : calm db db' -> one_writer db -> one_writer db'.
Proof.
  intros (Hu & Ho & Hp) [Iu Ip]. split.
  - intros id Hid. destruct (Ho id) as [|[]]; auto.
  - intros id j' Hj' Hs. destruct (Hp _ _ Hj' Hs) as (j & Hj & Hs'). by eapply Ip.
Qed.

Lemma set_status_keeps id attempts : keeps one_writer (set_status id attempts proving).
Proof.
  intros now db u db' Hi Ht. unfold set_status in Ht.
  apply tx_bind_Ok in Ht as (? & ? & [= <- <-] & Ht).
  apply tx_bind_Ok in Ht as (b & db1 & Hu & [_ ->]%require_Ok).
  apply update_job_Ok in Hu as [(_ & j & Hj & Hp & _ & _ & ->)|(_ & -> & _)]; [|done].
  eapply calm_one_writer; [|exact Hi]. eapply calm_insert; [exact Hj|].
  apply row_calm_live; [|done]. bool_props. pose proof (ow_proof_failed db Hi id j Hj) as Hpf.
  unfold status_in in *. destruct (j_status j); done.
Qed.

(** What attaching a job establishes. *)
Definition attached (id : uuid) (db db' : Db) : Prop :=
  evolves db db' /\ jobs db' = jobs db /\ owns db' id /\ forall id', id' <> id -> ~ unfinished db' id'.

Lemma attached_intro id db o :
  fence (writer db) o -> job_id o = Some id -> (forall id', id' <> id -> ~ unfinished db id') ->
  attached id db (with_writer o db).
Proof. intros Hf Ho Hn. split_and!; [by apply evolves_writer|done|done|done]. Qed.

Lemma attach_settlement_runs id token input now db u db' :
  attach_settlement id token input now db = Ok (u, db') -> attached id db db'.
Proof.
  unfold attach_settlement. intros Ht.
  apply tx_bind_Ok in Ht as (t & ? & [_ ->]%some_or_Ok & Ht).
  apply tx_bind_Ok in Ht as (o & ? & [-> ->]%owner_Ok & Ht).
  apply tx_bind_Ok in Ht as (? & ? & [_ ->]%require_Ok & Ht).
  apply tx_bind_Ok in Ht as (? & ? & [-> Hn]%no_jobs_Ok & Ht).
  apply tx_bind_Ok in Ht as (c & ? & [_ ->]%some_or_Ok & Ht).
  apply tx_bind_Ok in Ht as (a & ? & [_ ->]%virtual_account_Ok & Ht).
  apply tx_bind_Ok in Ht as (fresh & db1 & Hf & Ht).
  assert (db1 = db) as ->.
  { destruct (account_matches a c); [by apply lift_Ok in Hf as [_ ->]|by injection Hf]. }
  apply tx_bind_Ok in Ht as (? & ? & [_ ->]%require_Ok & Ht).
  apply tx_bind_Ok in Ht as (? & ? & [_ ->]%lift_Ok & Ht).
  apply tx_bind_Ok in Ht as (? & ? & [= <- <-] & Ht).
  apply tx_bind_Ok in Ht as (? & ? & [_ ->]%require_Ok & (_ & _ & ->)%update_writer_Ok).
  apply attached_intro; [split; cbn; [lia|by left]|done|]. intros id' Hne. apply Hn. congruence.
Qed.

Lemma attach_bridge_runs fresh name id input now db u db' :
  attach_bridge fresh name id input now db = Ok (u, db') -> attached id db db'.
Proof.
  unfold attach_bridge. intros Ht.
  apply tx_bind_Ok in Ht as (o & ? & [-> ->]%owner_Ok & Ht).
  apply tx_bind_Ok in Ht as (? & ? & [_ ->]%require_Ok & Ht).
  apply tx_bind_Ok in Ht as (? & ? & [-> Hn]%no_jobs_Ok & Ht).
  apply tx_bind_Ok in Ht as (e & ? & [_ ->]%lift_Ok & Ht).
  apply tx_bind_Ok in Ht as (a & ? & [_ ->]%virtual_account_Ok & Ht).
  apply tx_bind_Ok in Ht as (? & ? & [_ ->]%require_Ok & (_ & _ & ->)%update_writer_Ok).
  apply attached_intro; [split; cbn; lia|done|]. intros id' Hne. apply Hn. congruence.
Qed.

Lemma attach_job_runs fresh name id kind input now db u db' :
  attach_job fresh name id kind input now db = Ok (u, db') -> attached id db db'.
Proof.
  unfold attach_job. destruct kind; [|apply attach_bridge_runs].
  repeat case_match; try apply attach_settlement_runs.
  intros (t & ? & [_ ->]%some_or_Ok & Ht)%tx_bind_Ok. by eapply attach_settlement_runs.
Qed.

Lemma find_key_Some key js id j : find_key key js = Some (id, j) -> js !! id = Some j.
Proof.
  destruct key as [key|]; [|done]. unfold find_key.
  destruct (list_find _ _) as [[i kv]|] eqn:Hf; [|done]. intros [= ->].
  apply list_find_Some in Hf as (Hl & _ & _). apply elem_of_map_to_list. by eapply list_elem_of_lookup_2.
Qed.

(** The three outcomes of the insertion. *)
Lemma insert_job_runs id kind input key digest now db r db' :
  jobs db !! id = None -> insert_job id kind input key digest now db = Ok (r, db') ->
  (db' = db /\ r <> Some id) \/
  (r = Some id /\ db' = with_jobs (<[id := new_job kind input key digest now]> (jobs db)) db).
Proof.
  unfold insert_job. intros Hid Ht. do 2 apply tx_bind_Ok in Ht as (? & ? & [= <- <-] & Ht).
  destruct (find_key key (jobs db)) as [[i j]|] eqn:Hf.
  - inv_tx. left. split; [done|]. apply find_key_Some in Hf. case_bool_decide; congruence.
  - do 2 apply tx_bind_Ok in Ht as (? & ? & [_ ->]%require_Ok & Ht). inv_tx. by right.
Qed.

Lemma typed_insert db id j :
  typed j -> all_typed db -> all_typed (with_jobs (<[id := j]> (jobs db)) db).
Proof. intros Hj Ha i j' Hi. cbn in Hi. apply lookup_insert_Some in Hi as [[_ <-]|[_ Hi]]; [done|by eapply Ha]. Qed.
Lemma evolves_typed db db' :
  evolves db db' -> dom (jobs db') ⊆ dom (jobs db) -> all_typed db -> all_typed db'.
Proof.
  intros [_ Hj] Hd Ha id j' Hj'. assert (id ∈ dom (jobs db)) as [j Hid]%elem_of_dom.
  { apply Hd. by eapply elem_of_dom_2. }
  destruct (Hj _ _ Hid) as (j1 & Hj1 & _ & _ & _ & _ & _ & Ht). simplify_eq. by eapply Ht, Ha.
Qed.
Lemma new_typed kind input key digest now : typed (new_job kind input key digest now).
Proof. fresh_typed. intros Hs. in_statuses Hs; done. Qed.
Lemma recovered_typed now kind input values hash block : typed (recovered_job now kind input values hash block).
Proof. fresh_typed. Qed.

Lemma evolves_new db id j :
  jobs db !! id = None -> evolves db (with_jobs (<[id := j]> (jobs db)) db).
Proof.
  intros Hid. split; [reflexivity|]. intros i j' Hj. cbn. exists j'. split; [|reflexivity].
  rewrite lookup_insert_ne; [done|]. intros ->. congruence.
Qed.

(** An admission: under the lock, insert and attach if the row is new. *)
Lemma admit_runs id kind input key digest now db r db1 db' :
  jobs db !! id = None -> insert_job id kind input key digest now db = Ok (r, db1) ->
  (r = Some id -> attached id db1 db') -> (r <> Some id -> db' = db1) ->
  evolves db db' /\ (one_writer db -> one_writer db') /\ dom (jobs db') ⊆ {[id]} ∪ dom (jobs db) /\
  (all_typed db -> all_typed db').
Proof.
  intros Hid Hins Hatt Hold. apply insert_job_runs in Hins as [[-> Hr]|[-> ->]]; [|clear Hold|done].
  - rewrite Hold by done. split; [reflexivity|]. split_and!; [done|set_solver|done].
  - destruct (Hatt eq_refl) as (He & Hj & Ho & Hn). split_and!.
    + etrans; [by apply evolves_new|exact He].
    + intros [_ Ip]. split.
      * intros i Hi. destruct (decide (i = id)) as [->|Hne]; [done|]. by destruct (Hn i Hne).
      * rewrite Hj. cbn. intros i j Hi. destruct (decide (id = i)) as [->|Hne].
        -- rewrite lookup_insert_eq in Hi. by injection Hi as <-.
        -- rewrite lookup_insert_ne in Hi by done. by eapply Ip.
    + rewrite Hj. cbn. set_solver.
    + intros Ha. unfold all_typed. rewrite Hj. by apply typed_insert; [apply new_typed|].
Qed.

Lemma create_job_runs print id fresh name header kind input now db r db' :
  jobs db !! id = None -> create_job print id fresh name header kind input now db = Ok (r, db') ->
  evolves db db' /\ (one_writer db -> one_writer db') /\ dom (jobs db') ⊆ {[id]} ∪ dom (jobs db) /\
  (all_typed db -> all_typed db').
Proof.
  unfold create_job. intros Hid Ht.
  apply tx_bind_Ok in Ht as (? & db1 & Hl & Ht).
  assert (jobs db1 = jobs db) as Hj by (apply lock_Ok in Hl as [_ ->]; by destruct (releasable _ _ _)).
  pose proof (lock_evolves _ _ _ _ Hl) as Hle. pose proof (lock_calm _ _ _ _ Hl) as Hlc.
  apply tx_bind_Ok in Ht as (act & db2 & Hins & Ht).
  apply tx_bind_Ok in Ht as (actual & ? & [-> ->]%some_or_Ok & Ht).
  apply tx_bind_Ok in Ht as (? & db3 & Hatt & Ht). inv_tx.
  rewrite <- Hj in Hid.
  destruct (admit_runs id kind input _ _ now db1 _ db2 db' Hid Hins) as (He & Hi & Hd & Hty).
  - intros [= ->]. rewrite bool_decide_eq_true_2 in Hatt by done. by eapply attach_job_runs.
  - intros Hne. rewrite bool_decide_eq_false_2 in Hatt by congruence. by injection Hatt.
  - unfold all_typed in *. rewrite <- Hj. split_and!; [by etrans| |done|done]. intros Hw. apply Hi.
    by eapply calm_one_writer.
Qed.

Lemma queue_settlement_runs print fee_payer id s now db r db' :
  jobs db !! id = None -> queue_settlement print fee_payer id s now db = Ok (r, db') ->
  evolves db db' /\ (one_writer db -> one_writer db') /\ dom (jobs db') ⊆ {[id]} ∪ dom (jobs db) /\
  (all_typed db -> all_typed db').
Proof.
  unfold queue_settlement. intros Hid Ht.
  apply tx_bind_Ok in Ht as (? & db1 & Hl & Ht).
  assert (jobs db1 = jobs db) as Hj by (apply lock_Ok in Hl as [_ ->]; by destruct (releasable _ _ _)).
  pose proof (lock_evolves _ _ _ _ Hl) as Hle. pose proof (lock_calm _ _ _ _ Hl) as Hlc.
  apply tx_bind_Ok in Ht as (act & db2 & Hins & Ht).
  apply tx_bind_Ok in Ht as (actual & ? & [-> ->]%some_or_Ok & Ht).
  apply tx_bind_Ok in Ht as (? & db3 & Hatt & Ht).
  apply tx_bind_Ok in Ht as (? & ? & [_ ->]%require_Ok & Ht).
  apply tx_bind_Ok in Ht as (? & ? & [= <- <-] & Ht).
  apply tx_bind_Ok in Ht as (? & db4 & Hp & Ht). inv_tx.
  assert (evolves db3 db' /\ calm db3 db' /\ jobs db' = jobs db3) as (Hpe & Hpc & Hpj).
  { destruct (from_option may_have_pending _ _); [|inv_tx; by split_and!].
    split_and!; [by eapply insert_pending_evolves|by eapply insert_pending_calm|].
    unfold insert_pending in Hp. inv_tx. case_bool_decide; by inv_tx. }
  rewrite <- Hj in Hid.
  destruct (admit_runs id Settlement (ms_input s) _ _ now db1 _ db2 db3 Hid Hins) as (He & Hi & Hd & Hty).
  - intros [= ->]. rewrite bool_decide_eq_true_2 in Hatt by done.
    apply tx_bind_Ok in Hatt as (? & db5 & Hatt & Ht).
    assert (db5 = db3) as -> by (inv_tx; done). by eapply attach_settlement_runs.
  - intros Hne. rewrite bool_decide_eq_false_2 in Hatt by congruence. by injection Hatt.
  - unfold all_typed in *. rewrite Hpj, <- Hj. split_and!; [by do 2 (etrans; [done|])| |done|done].
    intros Hw. eapply calm_one_writer; [exact Hpc|]. apply Hi. by eapply calm_one_writer.
Qed.

(** *** Recovery and rollback *)

Lemma find_transaction_known hash js id j :
  find_transaction hash js = Some (id, j) -> js !! id = Some j /\ job_of_transaction hash j = true.
Proof.
  unfold find_transaction. destruct (filter _ _) as [|row rows] eqn:Hf; [done|]. intros [= He].
  assert ((id, j) ∈ row :: rows) as Hin.
  { rewrite <- He. apply foldl_choose. intros x y. unfold older. destruct (_ <? _); auto. }
  rewrite <- Hf in Hin. by apply list_elem_of_filter in Hin as [? Hin%elem_of_map_to_list].
Qed.
Lemma find_transaction_Some hash js id j : find_transaction hash js = Some (id, j) -> js !! id = Some j.
Proof. by intros [? _]%find_transaction_known. Qed.

Lemma same_text_Some o hash :
  same_text o hash = true <-> exists h, o = Some h /\ to_ascii_lowercase h = to_ascii_lowercase hash.
Proof.
  unfold same_text. rewrite bool_decide_eq_true. destruct o as [h|]; cbn; split.
  - intros [= Hh]. by exists h.
  - intros (h' & [= <-] & ->). done.
  - done.
  - by intros (? & ? & _).
Qed.

Lemma confirm_evolves now values hash block j :
  job_of_transaction hash j = true -> job_evolves j (confirm_recovered now values hash block j).
Proof.
  intros Ht. unfold job_evolves. cbn. split_and!; try done.
  intros []. split; cbn; try done; [|unfold i32_MAX in *; lia].
  intros h p [= <-] Hp. unfold job_of_transaction in Ht. apply orb_true_iff in Ht as [Ht|Ht];
    apply same_text_Some in Ht as (h' & Hh' & <-); [by eapply ty_hash0|]. rewrite Hp in Hh'. by injection Hh' as <-.
Qed.

Lemma recover_event_runs id kind input values hash block now db r db' :
  recover_event id kind input values hash block now db = Ok (r, db') ->
  evolves db db' /\ (one_writer db -> one_writer db') /\ dom (jobs db') ⊆ {[id]} ∪ dom (jobs db) /\
  (all_typed db -> all_typed db').
Proof.
  unfold recover_event. intros Ht. do 2 apply tx_bind_Ok in Ht as (? & ? & [= <- <-] & Ht).
  apply tx_bind_Ok in Ht as (i & db1 & Hjob & Ht).
  assert (evolves db db1 /\ (one_writer db -> one_writer db1) /\ dom (jobs db1) ⊆ {[id]} ∪ dom (jobs db) /\
    (all_typed db -> all_typed db1) /\
    exists j, jobs db1 !! i = Some j /\ job_of_transaction hash j = true) as (He & Hi & Hd & Hty & j & Hj & Hof).
  { destruct (find_transaction hash (jobs db)) as [[i' j]|] eqn:Hf.
    - inv_tx. apply find_transaction_known in Hf. split_and!; [done|done|set_solver|done|by eexists].
    - apply tx_bind_Ok in Hjob as (? & db2 & Hins & [= <- <-]). unfold insert_recovered in Hins.
      apply tx_bind_Ok in Hins as (? & ? & [= <- <-] & Hins).
      apply tx_bind_Ok in Hins as (? & ? & [Hg ->]%require_Ok & Hins). injection Hins as _ <-. bool_props.
      split_and!; [by apply evolves_new| |cbn; set_solver|apply typed_insert, recovered_typed|].
      2: { eexists. cbn. rewrite lookup_insert_eq. split; [done|]. unfold job_of_transaction. apply orb_true_iff.
           left. apply same_text_Some. by eexists. }
      intros Hw. eapply calm_one_writer; [|exact Hw]. unfold calm, unfinished, owns. cbn. split_and!; [|by left|].
      + intros i' (j' & Hj' & Hs). destruct (decide (id = i')) as [->|Hne].
        * rewrite lookup_insert_eq in Hj'. by injection Hj' as <-.
        * rewrite lookup_insert_ne in Hj' by done. eauto.
      + intros i' j' Hj' Hs. destruct (decide (id = i')) as [->|Hne].
        * rewrite lookup_insert_eq in Hj'. by injection Hj' as <-.
        * rewrite lookup_insert_ne in Hj' by done. eauto. }
  apply tx_bind_Ok in Ht as (? & db2 & Hu & [= <- <-]).
  pose proof Hu as [(_ & j' & Hj' & _ & _ & _ & ->)|(_ & -> & _)]%update_job_Ok; [|by split_and!].
  simplify_eq. eapply update_read in Hu as [He2 Hc2]; [|exact Hj|by apply confirm_evolves|split; [done|discriminate]].
  split_and!; [by etrans| |cbn; rewrite dom_insert; apply elem_of_dom_2 in Hj; set_solver|].
  2: { intros Ha. apply typed_insert; [|by apply Hty]. apply confirm_evolves; [done|by eapply Hty]. }
  intros Hw. eapply calm_one_writer; [exact Hc2|by apply Hi].
Qed.

(** A rollback may delete jobs that have no signed transaction. *)
Definition rolls (db db' : Db) : Prop :=
  fence (writer db) (writer db') /\ dom (jobs db') ⊆ dom (jobs db) /\
  forall id j, jobs db !! id = Some j ->
    (exists j', jobs db' !! id = Some j' /\ job_evolves j j') \/
    (jobs db' !! id = None /\ j_prepared_transaction j = None).

#[export] Instance rolls_preorder : PreOrder rolls.
Proof.
  split.
  - intros db. split_and!; [reflexivity|done|]. intros id j Hj. left. exists j. split; [done|reflexivity].
  - intros a b c (F1 & D1 & J1) (F2 & D2 & J2). split_and!; [by etrans|by etrans|].
    intros id j Hj. destruct (J1 _ _ Hj) as [(j1 & Hj1 & E1)|[Hn Hp]].
    + destruct (J2 _ _ Hj1) as [(j2 & Hj2 & E2)|[Hn2 Hp2]]; [left; exists j2; split; [done|by etrans]|].
      right. split; [done|]. destruct (j_prepared_transaction j) as [q|] eqn:Hq; [|done].
      destruct E1 as (_ & _ & _ & _ & Hk & _). specialize (Hk q Hq). congruence.
    + right. split; [|done]. apply not_elem_of_dom. apply not_elem_of_dom in Hn. set_solver.
Qed.

Lemma evolves_rolls db db' : evolves db db' -> dom (jobs db') ⊆ dom (jobs db) -> rolls db db'.
Proof. intros [Hf Hj] Hd. split_and!; [done|done|]. intros id j Hid. left. by apply Hj. Qed.

Lemma update_jobs_rolls p f :
  (forall id j, p id j = true -> job_evolves j (f id j)) -> respects rolls (update_jobs p f).
Proof.
  intros Hf now db u db' Ht. apply evolves_rolls; [by eapply update_jobs_evolves|].
  apply update_jobs_Ok in Ht as (_ & -> & _). cbn. intros id. rewrite !elem_of_dom, map_lookup_imap.
  intros [? Hs]. by destruct (jobs db !! id).
Qed.

Lemma delete_jobs_rolls p :
  (forall id j, p id j = true -> j_prepared_transaction j = None) -> respects rolls (delete_jobs p).
Proof.
  intros Hp now db u db' Ht. unfold delete_jobs in Ht. inv_tx. split_and!; [reflexivity|cbn|].
  - apply dom_filter_subseteq.
  - intros id j Hj. cbn. destruct (p id j) eqn:Hpj.
    + right. split; [|by eapply Hp]. apply map_lookup_filter_None. right. intros j' Hj'. cbn. simplify_eq. congruence.
    + left. exists j. split; [|reflexivity]. by apply map_lookup_filter_Some.
Qed.

Lemma same_jobs_rolls db db' : jobs db' = jobs db -> writer db' = writer db -> rolls db db'.
Proof.
  intros Hj Hw. apply evolves_rolls; [|by rewrite Hj]. split; [by rewrite Hw|].
  intros id j Hid. exists j. split; [by rewrite Hj|reflexivity].
Qed.

Lemma insert_pending_rolls id k n c b : respects rolls (insert_pending id k n c b).
Proof.
  intros now db u db' Ht. unfold insert_pending in Ht. inv_tx. case_bool_decide; inv_tx; [reflexivity|].
  by apply same_jobs_rolls.
Qed.

Lemma rollback_rolls ancestor : respects rolls (rollback_after ancestor).
Proof.
  unfold rollback_after. apply respects_bind; [apply _|apply respects_now, _|intros now].
  apply respects_read_bind. intros now' db u db' Ht.
  apply tx_bind_Ok in Ht as (? & db1 & [= <- <-] & Ht).
  assert (rolls db (with_recovery_ready false db)) as H1 by by apply same_jobs_rolls.
  etrans; [exact H1|]. revert Ht. generalize (with_recovery_ready false db) as db2. clear H1.
  intros db2 Ht. eapply (respects_bind rolls _ _) in Ht; [exact Ht| |].
  - apply update_jobs_rolls. row_evolves.
  - intros _. apply respects_bind; [apply _| |intros _].
    { apply delete_jobs_rolls. intros id j Hd. bool_props. unfold referenced in *. bool_props.
      by apply eq_None_not_Some. }
    apply respects_bind; [apply _| |intros _].
    { destruct (retry_settlement _ _); [|apply respects_mret, _]. apply update_jobs_rolls. row_evolves. }
    apply respects_bind; [apply _| |intros _].
    { apply update_jobs_rolls. row_evolves. }
    apply respects_bind; [apply _| |intros _].
    { intros n d ? d' Hd. unfold delete_reorged_pending in Hd. inv_tx. by apply same_jobs_rolls. }
    destruct (retry_settlement _ _); [|apply respects_mret, _].
    apply respects_bind; [apply _|apply respects_read, _|intros d].
    destruct (jobs d !! _) as [j|]; [|apply respects_mret, _]. cbn. unfold restore_command.
    case_bool_decide; [apply respects_mret, _|].
    apply respects_bind; [apply _|apply respects_some_or, _|intros [[??]?]]. apply insert_pending_rolls.
Qed.

End transactions.
