(* ===== verification/Gateway.v ===== *)
(** * The gateway as a system

    The database, the worker threads with the program each has left to run,
    and the steps that interleave them with the API, the indexer and crashes.
    A thread is the rest of [process_job] for a claimed job; it may stop
    anywhere, and several workers may run at once. *)

From stdpp Require Import gmap strings.
From S2P Require Import Prelude Rpc Database Program OuterWriter Submission Worker Indexer TxLogic Coordination.

Section gateway.
Context `{Externals}.

(** ** Transactions that never insert a job *)

Definition closed (db db' : Db) : Prop := dom (jobs db') ⊆ dom (jobs db).

#[export] Instance closed_preorder : PreOrder closed.
Proof. split; unfold closed; repeat intro; auto. Qed.

Lemma update_job_closed id p f : respects closed (update_job id p f).
Proof.
  intros now db b db' [(_ & j & Hj & _ & _ & _ & ->)|(_ & -> & _)]%update_job_Ok; [|reflexivity].
  unfold closed. cbn. rewrite dom_insert. apply elem_of_dom_2 in Hj. set_solver.
Qed.
Lemma update_jobs_closed p f : respects closed (update_jobs p f).
Proof.
  intros now db u db' (_ & -> & _)%update_jobs_Ok. intros id. cbn. rewrite !elem_of_dom, map_lookup_imap.
  intros [? Hs]. by destruct (jobs db !! id).
Qed.
Lemma update_writer_closed o : respects closed (update_writer o).
Proof. intros now db u db' (_ & _ & ->)%update_writer_Ok. unfold closed. done. Qed.
Lemma delete_pending_closed id : respects closed (delete_pending id).
Proof. intros now db u db' Ht. unfold delete_pending in Ht. inv_tx. unfold closed. done. Qed.
Lemma owner_closed : respects closed owner.
Proof. intros now db u db' [_ ->]%owner_Ok. reflexivity. Qed.
Lemma ensure_no_jobs_closed e : respects closed (ensure_no_jobs e).
Proof. intros now db u db' [-> _]%no_jobs_Ok. reflexivity. Qed.
Lemma virtual_account_closed : respects closed virtual_account.
Proof. intros now db u db' [_ ->]%virtual_account_Ok. reflexivity. Qed.
Lemma lock_closed : respects closed lock.
Proof. intros now db u db' [_ ->]%lock_Ok. unfold closed. by destruct (releasable _ _ _). Qed.

End gateway.

Create HintDb closed discriminated.
#[export] Hint Resolve update_job_closed update_jobs_closed update_writer_closed delete_pending_closed
  owner_closed ensure_no_jobs_closed virtual_account_closed lock_closed : closed.

Ltac closed_tac := respects_tac; auto with closed.

Section system.
Context `{Externals}.

Lemma acquire_closed fresh r c : respects closed (acquire_with_checkpoint fresh r c).
Proof. unfold acquire_with_checkpoint. closed_tac. Qed.
Lemma renew_closed token s : respects closed (renew_token token s).
Proof. unfold renew_token. closed_tac. Qed.
Lemma release_closed token : respects closed (release token).
Proof. unfold release. closed_tac. Qed.
Lemma recover_interrupted_closed : respects closed recover_interrupted.
Proof. unfold recover_interrupted. closed_tac. Qed.
Lemma begin_closed i id a : respects closed (begin_proof_request i id a).
Proof. unfold begin_proof_request. closed_tac. Qed.
Lemma finish_closed id i r : respects closed (finish_proof_request id i r).
Proof. unfold finish_proof_request. closed_tac. Qed.
Lemma send_claim_closed id a v p : respects closed (send_claim id a v p).
Proof. unfold send_claim. closed_tac. Qed.
Lemma send_persist_closed id a p : respects closed (send_persist id a p).
Proof. unfold send_persist. closed_tac. Qed.
Lemma send_finish_closed id a : respects closed (send_finish id a).
Proof. unfold send_finish. closed_tac. Qed.
Lemma record_failure_closed id a e : respects closed (record_failure id a e).
Proof. unfold record_failure. closed_tac. Qed.
Lemma approve_closed id d a : respects closed (approve_update id d a).
Proof. unfold approve_update. closed_tac. Qed.
Lemma cancel_closed id : respects closed (cancel_proof id).
Proof. unfold cancel_proof. closed_tac. Qed.
Lemma claim_closed : respects closed claim_job.
Proof. unfold claim_job. closed_tac. Qed.
Lemma set_status_closed id a s : respects closed (set_status id a s).
Proof. unfold set_status. closed_tac. Qed.
Lemma update_validating_closed id a f why : respects closed (update_validating id a f why).
Proof. unfold update_validating. closed_tac. Qed.
Lemma execute_closed id a : respects closed (execute_update id a).
Proof. unfold execute_update. respects_tac. apply update_validating_closed. Qed.
Lemma update_proving_closed id a f why : respects closed (update_proving id a f why).
Proof. unfold update_proving. closed_tac. Qed.
Lemma update_local_closed id a c : respects closed (update_local id a c).
Proof. unfold update_local. closed_tac. Qed.
Lemma reconcile_closed m q h f id r c : respects closed (reconcile_job m q h f id r c).
Proof. unfold reconcile_job. closed_tac. Qed.

End system.

(** ** Programs that submit once *)

Section wp.
Context `{Externals}.

Definition stored (id : uuid) (q : PreparedSubmission) (db : Db) : Prop :=
  exists j, jobs db !! id = Some j /\ j_prepared_transaction j = Some q.
Definition sealed (id : uuid) (db : Db) : Prop :=
  exists j, jobs db !! id = Some j /\ j_proof_request_intent j <> None.

(** What a thread may rely on: the signed transaction it saw stored, and the
    permission to buy one proof, which only sealing the job gives. *)
Record ghost := { g_known : option PreparedSubmission; g_permit : bool }.
Definition no_ghost : ghost := {| g_known := None; g_permit := false |}.

Definition ghost_ok (id : uuid) (g : ghost) (db : Db) : Prop := forall q, g_known g = Some q -> stored id q db.

Definition gains (id : uuid) (g : ghost) (db db' : Db) (g' : ghost) : Prop :=
  (forall q, g_known g' = Some q -> g_known g = Some q \/ stored id q db') /\
  (g_permit g' = true -> g_permit g = true \/ (~ sealed id db /\ sealed id db')).

Definition allowed {B} (c : call B) (g : ghost) : Prop :=
  match c with
  | BroadcastSubmission q => g_known g = Some q
  | RequestProof _ _ _ => g_permit g = true
  | _ => True
  end.
Definition spend {B} (c : call B) (g : ghost) : ghost :=
  match c with
  | RequestProof _ _ _ => {| g_known := g_known g; g_permit := false |}
  | _ => g
  end.

Definition good_tx {A} (t : tx A) : Prop := respects evolves t /\ respects closed t /\ keeps one_writer t.

(** [wp id g p Q]: run by a thread of job [id] with ghost [g], every
    transaction of [p] is good and every call allowed, and a result satisfies
    [Q]; errors are unconstrained. *)
Fixpoint wp (id : uuid) (g : ghost) {A} (p : prog A) (Q : A -> ghost -> Prop) : Prop :=
  match p with
  | Ret a => Q a g
  | Throw _ => True
  | Transaction t k => good_tx t /\
      forall now db r db', transact t now db = (r, db') -> exists g', gains id g db db' g' /\ wp id g' (k r) Q
  | Call c k => allowed c g /\ forall r, wp id (spend c g) (k r) Q
  end.

Lemma gains_refl id g db db' : gains id g db db' g.
Proof. split; auto. Qed.

Lemma wp_mono {A} id g (p : prog A) (Q R : A -> ghost -> Prop) :
  (forall a g, Q a g -> R a g) -> wp id g p Q -> wp id g p R.
Proof.
  intros HQ. revert g. induction p as [a|e|B t k IH|B c k IH]; intros g; cbn; auto.
  - intros [Ht Hk]. split; [done|]. intros now db r db' Hr. destruct (Hk now db r db' Hr) as (g' & Hg & Hw). eauto.
  - intros [Hc Hk]. split; [done|]. intros r. apply IH, Hk.
Qed.

Lemma wp_bind {A B} id g (p : prog A) (f : A -> prog B) Q :
  wp id g p (fun a g' => wp id g' (f a) Q) -> wp id g (p ≫= f) Q.
Proof.
  revert g. induction p as [a|e|C t k IH|C c k IH]; intros g; cbn; auto.
  - intros [Ht Hk]. split; [done|]. intros now db r db' Hr. destruct (Hk now db r db' Hr) as (g' & Hg & Hw).
    exists g'. split; [done|]. by apply IH.
  - intros [Hc Hk]. split; [done|]. intros r. apply IH, Hk.
Qed.

Lemma wp_catch {A} id g (p : prog A) h Q :
  wp id g p Q -> (forall e g, wp id g (h e) Q) -> wp id g (catch p h) Q.
Proof.
  intros Hp Hh. revert g Hp. induction p as [a|e|C t k IH|C c k IH]; intros g; cbn; auto.
  - intros [Ht Hk]. split; [done|]. intros now db r db' Hr. destruct (Hk now db r db' Hr) as (g' & Hg & Hw).
    exists g'. split; [done|]. by apply IH.
  - intros [Hc Hk]. split; [done|]. intros r. apply IH, Hk.
Qed.

Lemma wp_ret {A} id g (a : A) (Q : A -> ghost -> Prop) : Q a g -> wp id g (mret a) Q.
Proof. done. Qed.
Lemma wp_try {A} id g (o : outcome error A) (Q : A -> ghost -> Prop) :
  (forall a, o = Ok a -> Q a g) -> wp id g (try_ o) Q.
Proof. destruct o; cbn; auto. Qed.
Lemma wp_ensure id g b why (Q : unit -> ghost -> Prop) : Q tt g -> wp id g (ensure_ b why) Q.
Proof. by destruct b. Qed.
Lemma wp_context {A} id g (o : option A) why (Q : A -> ghost -> Prop) :
  (forall a, o = Some a -> Q a g) -> wp id g (context_ o why) Q.
Proof. destruct o; cbn; auto. Qed.

(** A transaction from which nothing is learned. *)
Lemma wp_tx {A} id g (t : tx A) (Q : A -> ghost -> Prop) :
  good_tx t -> (forall a, Q a g) -> wp id g (run_tx t) Q.
Proof.
  intros Ht HQ. split; [done|]. intros now db r db' Hr. exists g. split; [apply gains_refl|].
  apply wp_try. auto.
Qed.

(** A transaction whose success teaches something. *)
Lemma wp_tx_learn {A} id g (t : tx A) (Q : A -> ghost -> Prop) :
  good_tx t ->
  (forall now db a db', t now db = Ok (a, db') -> exists g', gains id g db db' g' /\ Q a g') ->
  wp id g (run_tx t) Q.
Proof.
  intros Ht HQ. split; [done|]. intros now db r db'. unfold transact.
  destruct (t now db) as [[a db1]| |] eqn:E; intros [= <- <-].
  - destruct (HQ _ _ _ _ E) as (g' & Hg & Hq). by exists g'.
  - exists g. split; [apply gains_refl|done].
  - exists g. split; [apply gains_refl|done].
Qed.

Lemma wp_ask {A} id g (c : call (outcome error A)) (Q : A -> ghost -> Prop) :
  allowed c g -> (forall a, Q a (spend c g)) -> wp id g (ask c) Q.
Proof. intros Hc HQ. split; [done|]. intros r. apply wp_try. auto. Qed.

Lemma wp_call {A} id g (c : call A) (Q : A -> ghost -> Prop) :
  allowed c g -> (forall a, Q a (spend c g)) -> wp id g (Call c Ret) Q.
Proof. intros Hc HQ. split; [done|]. exact HQ. Qed.

(** ** The transactions of the worker are good *)

Lemma steady_good {A} (t : tx A) : steady t -> respects closed t -> good_tx t.
Proof. intros [He Hc] Hd. split_and!; [done|done|]. intros now db a db' Hi Ht. eapply calm_one_writer; eauto. Qed.

Lemma send_claim_good id a v p : good_tx (send_claim id a v p).
Proof. apply steady_good; [apply send_claim_steady|apply send_claim_closed]. Qed.
Lemma send_persist_good id a p : good_tx (send_persist id a p).
Proof. apply steady_good; [apply send_persist_steady|apply send_persist_closed]. Qed.
Lemma send_finish_good id a : good_tx (send_finish id a).
Proof. apply steady_good; [apply send_finish_steady|apply send_finish_closed]. Qed.
Lemma begin_good i id a : good_tx (begin_proof_request i id a).
Proof. apply steady_good; [apply begin_steady|apply begin_closed]. Qed.
Lemma finish_good id i r : good_tx (finish_proof_request id i r).
Proof. apply steady_good; [apply finish_steady|apply finish_closed]. Qed.
Lemma record_failure_good id a e : good_tx (record_failure id a e).
Proof. apply steady_good; [apply record_failure_steady|apply record_failure_closed]. Qed.
Lemma set_proving_good id a : good_tx (set_status id a proving).
Proof. split_and!; [apply set_status_evolves|apply set_status_closed|apply set_status_keeps]. Qed.
Lemma update_validating_good id a f why :
  (forall j, job_evolves j (f j)) -> (forall j, j_status j = validating -> j_status (f j) <> proof_failed) ->
  good_tx (update_validating id a f why).
Proof. intros He Hs. apply steady_good; [by apply update_validating_steady|apply update_validating_closed]. Qed.
Lemma execute_good id a : good_tx (execute_update id a).
Proof. apply steady_good; [apply execute_steady|apply execute_closed]. Qed.
Lemma update_proving_good id a f why :
  (forall j, job_evolves j (f j) /\ j_status (f j) = j_status j) -> good_tx (update_proving id a f why).
Proof. intros Hf. apply steady_good; [by apply update_proving_steady|apply update_proving_closed]. Qed.
Lemma update_local_good id a c : good_tx (update_local id a c).
Proof. apply steady_good; [apply update_local_steady|apply update_local_closed]. Qed.

(** ** The worker's program *)

Definition any {A} : A -> ghost -> Prop := fun _ _ => True.

Lemma send_wp id g a kind v p : wp id g (send id a kind v p) any.
Proof.
  unfold send. apply wp_bind, wp_tx_learn; [apply send_claim_good|]. intros now db row db' Ht.
  assert (forall q, row = Some q -> stored id q db') as Hrow.
  { unfold send_claim in Ht. apply tx_bind_Ok in Ht as (? & ? & [= <- <-] & Ht).
    apply tx_bind_Ok in Ht as (b & db1 & _ & Ht). apply tx_bind_Ok in Ht as (? & ? & [_ ->]%require_Ok & Ht).
    apply tx_bind_Ok in Ht as (? & ? & [= <- <-] & [= <- <-]). intros q Hq.
    unfold stored. destruct (jobs db1 !! id) as [j|]; [by exists j|done]. }
  assert (forall g' q, g_known g' = Some q ->
    wp id g' (hash ← ask (BroadcastSubmission q);
      ensure_ (bool_decide (hash = transaction_hash q)) "broadcast returned a different transaction hash";;
      run_tx (send_finish id a);; mret tt) any) as Hb.
  { intros g' q Hq. apply wp_bind, wp_ask; [done|]. intros hash. apply wp_bind, wp_ensure.
    apply wp_bind, wp_tx; [apply send_finish_good|]. done. }
  destruct row as [q|].
  - exists {| g_known := Some q; g_permit := g_permit g |}. split.
    { split; cbn; [|auto]. intros q' [= <-]. right. by apply Hrow. }
    apply wp_bind, wp_ret. by apply Hb.
  - exists g. split; [apply gains_refl|]. apply wp_bind, wp_bind, wp_ask; [done|]. intros q.
    apply wp_bind, wp_tx_learn; [apply send_persist_good|]. intros now2 db2 [] db2' Hp.
    exists {| g_known := Some q; g_permit := g_permit g |}. split.
    { split; cbn; [|auto]. intros q' [= <-]. right. unfold send_persist in Hp. apply tx_bind_Ok in Hp as (? & ? & [= <- <-] & Hp).
      apply tx_bind_Ok in Hp as (b & db1 & Hu & [-> ->]%require_Ok).
      apply update_job_Ok in Hu as [(_ & j & Hj & _ & _ & _ & ->)|(? & _)]; [|done].
      eexists. cbn. rewrite lookup_insert_eq. split; [done|done]. }
    apply wp_ret. by apply Hb.
Qed.

Lemma lifetime_wp id g kind hex_ m (Q : unit -> ghost -> Prop) :
  Q tt g -> wp id g (require_settlement_lifetime kind hex_ m) Q.
Proof.
  intros HQ. destruct kind; [|by apply wp_ret]. cbn [require_settlement_lifetime].
  apply wp_bind, wp_try. intros b _. apply wp_bind, wp_try. intros v _. apply wp_bind, wp_ask; [done|].
  intros current. apply wp_bind, wp_ensure, wp_ensure, HQ.
Qed.

Lemma validate_wp id g config input v (Q : unit -> ghost -> Prop) :
  Q tt g -> wp id g (validate_preflight config input v) Q.
Proof.
  intros HQ. destruct v as [v|v]; cbn [validate_preflight].
  - unfold validate_settlement.
    repeat first [apply wp_ensure; exact HQ | apply wp_bind, wp_ensure | apply wp_bind, wp_ask; [done|intros ?]].
  - unfold validate_bridge.
    repeat first [apply wp_ensure; exact HQ | apply wp_bind, wp_ensure | apply wp_bind, wp_ask; [done|intros ?]
      | apply wp_bind, wp_context; intros ? _ | match goal with p : (_ * _)%type |- _ => destruct p end].
Qed.

End wp.

(** [good_tac] proves a transaction of the worker good. *)
Ltac good_tac :=
  match goal with
  | |- good_tx (update_validating _ _ _ _) => apply update_validating_good; [row_evolves|intros ? ?; cbn; congruence]
  | |- good_tx (update_proving _ _ _ _) => apply update_proving_good; intros ?; split; [row_evolves|reflexivity]
  | |- good_tx (execute_update _ _) => apply execute_good
  | |- good_tx (update_local _ _ _) => apply update_local_good
  | |- good_tx (set_status _ _ proving) => apply set_proving_good
  | |- good_tx (finish_proof_request _ _ _) => apply finish_good
  | |- good_tx (record_failure _ _ _) => apply record_failure_good
  end.

(** [wp_step] runs one step of a program that learns nothing. *)
Ltac wp_step :=
  match goal with
  | |- wp _ _ (_ ≫= _) _ => apply wp_bind
  | |- wp _ _ (mret _) _ => apply wp_ret
  | |- wp _ _ (try_ _) _ => apply wp_try; intros ? _
  | |- wp _ _ (ensure_ _ _) _ => apply wp_ensure
  | |- wp _ _ (context_ _ _) _ => apply wp_context; intros ? _
  | |- wp _ _ (measured_cycles _) _ => apply wp_ensure
  | |- wp _ _ (stored_cycles _) _ => apply wp_ensure
  | |- wp _ _ (require_settlement_lifetime _ _ _) _ => apply lifetime_wp
  | |- wp _ _ (validate_preflight _ _ _) _ => apply validate_wp
  | |- wp _ _ (send _ _ _ _ _) _ => eapply wp_mono; [|apply send_wp]; intros ? ? _
  | |- wp _ _ (ask _) _ => apply wp_ask; [done|intros ?]
  | |- wp _ _ (Call _ Ret) _ => apply wp_call; [done|intros ?]
  | |- wp _ _ (run_tx _) _ => apply wp_tx; [good_tac|intros ?]
  | |- wp _ _ (if ?b then _ else _) _ => destruct b
  | |- wp _ _ (let '(_, _) := ?p in _) _ => destruct p
  | |- any _ _ => exact I
  end.
Ltac wp_tac := repeat wp_step.

Section worker_wp.
Context `{Externals}.

Lemma fresh_preflight_wp id g config job : wp id g (fresh_preflight config job) any.
Proof.
  unfold fresh_preflight. apply wp_bind. eapply (wp_mono _ _ _ any).
  2: { destruct (cj_kind job); wp_tac. }
  intros input g1 _. wp_tac.
Qed.

Lemma stored_preflight_wp id g job why (Q : bytes * PreflightValues -> ghost -> Prop) :
  (forall r, Q r g) -> wp id g (stored_preflight job why) Q.
Proof. intros HQ. unfold stored_preflight. wp_tac. apply HQ. Qed.

Lemma ready_wp id g config job : wp id g (ready config job) any.
Proof.
  unfold ready. case_match; [|case_match; [|apply fresh_preflight_wp]].
  - apply wp_bind, stored_preflight_wp. intros r. wp_tac.
  - apply wp_bind, stored_preflight_wp. intros r. wp_tac.
Qed.

(** Sealing the job gives the permission that the request spends. *)
Lemma request_wp g config job r : wp (cj_id job) g (request_once config job r) any.
Proof.
  unfold request_once. destruct (cj_proof_request_id job) as [request|]; [wp_tac|].
  wp_tac. apply wp_tx_learn; [apply begin_good|].
  intros now db intent db' Ht. exists {| g_known := g_known g; g_permit := true |}. split; [|wp_tac].
  - split; cbn; [auto|]. intros _. right. unfold begin_proof_request in Ht.
    apply tx_bind_Ok in Ht as (? & ? & [= <- <-] & Ht).
    apply tx_bind_Ok in Ht as (b & db1 & Hu & Ht). apply tx_bind_Ok in Ht as (? & ? & [-> ->]%require_Ok & [= <- <-]).
    apply update_job_Ok in Hu as [(_ & j & Hj & Hp & _ & _ & ->)|(? & _)]; [|done]. bool_props. split.
    + intros (j' & Hj' & Hi). congruence.
    + eexists. cbn. rewrite lookup_insert_eq. split; [done|done].
Qed.

Lemma prove_and_send_wp g config job r : wp (cj_id job) g (prove_and_send config job r) any.
Proof.
  unfold prove_and_send. wp_tac. eapply wp_mono; [|apply request_wp]. intros request g1 _. wp_tac.
Qed.

Lemma submit_persisted_wp g config job proof : wp (cj_id job) g (submit_persisted config job proof) any.
Proof. unfold submit_persisted. wp_tac. Qed.

Lemma process_job_wp config job : wp (cj_id job) no_ghost (process_job config job) any.
Proof.
  unfold process_job. apply wp_catch; [|intros; wp_tac].
  unfold process_body. destruct (cj_proof_bytes job) as [proof|]; [apply submit_persisted_wp|].
  apply wp_bind. eapply wp_mono; [|apply ready_wp]. intros [r|] g _; [|wp_tac].
  destruct (local_mock_submit config); [|apply prove_and_send_wp]. unfold submit_local_mock. wp_tac.
Qed.

End worker_wp.
