(* ===== verification/Fencing.v ===== *)
(** * Fenced workers

    A worker whose claim was taken over (its [attempts] are no longer those of
    the row) may still be running.  Every transaction its program can reach
    leaves the database as it is, but for the identifier of the proof request
    it has sealed itself. *)

From stdpp Require Import gmap strings.
From S2P Require Import Prelude Rpc Database Program OuterWriter Submission Worker TxLogic.

Section fencing.
Context `{Externals}.

(** ** Programs all of whose transactions satisfy a predicate *)

Fixpoint each_tx (P : forall B, tx B -> Prop) {A} (p : prog A) : Prop :=
  match p with
  | Ret _ | Throw _ => True
  | Transaction t k => P _ t /\ forall r, each_tx P (k r)
  | Call c k => forall r, each_tx P (k r)
  end.

Section rules.
Context (P : forall B, tx B -> Prop).

Lemma each_bind {A B} (p : prog A) (f : A -> prog B) :
  each_tx P p -> (forall a, each_tx P (f a)) -> each_tx P (p ≫= f).
Proof.
  intros Hp Hf. induction p as [a|e|C t k IH|C c k IH]; cbn in *; [apply Hf|done| |].
  - destruct Hp as [Ht Hk]. split; [done|]. intros r. apply IH, Hk.
  - intros r. apply IH, Hp.
Qed.

Lemma each_catch {A} (p : prog A) h : each_tx P p -> (forall e, each_tx P (h e)) -> each_tx P (catch p h).
Proof.
  intros Hp Hh. induction p as [a|e|C t k IH|C c k IH]; cbn in *; [done|apply Hh| |].
  - destruct Hp as [Ht Hk]. split; [done|]. intros r. apply IH, Hk.
  - intros r. apply IH, Hp.
Qed.

Lemma each_try {A} (o : outcome error A) : each_tx P (try_ o).
Proof. by destruct o. Qed.
Lemma each_run_tx {A} (t : tx A) : P _ t -> each_tx P (run_tx t).
Proof. intros Ht. split; [done|]. intros r. apply each_try. Qed.
Lemma each_ask {A} (c : call (outcome error A)) : each_tx P (ask c).
Proof. intros r. apply each_try. Qed.
Lemma each_ensure b why : each_tx P (ensure_ b why).
Proof. by destruct b. Qed.
Lemma each_context {A} (o : option A) why : each_tx P (context_ o why).
Proof. by destruct o. Qed.

End rules.

(** ** What a fenced transaction may change *)

(** The identifier of a request that this job has sealed is recorded. *)
Definition records_request (j j' : Job) : Prop :=
  is_Some (j_proof_request_intent j) /\ j_proof_request_intent j' = j_proof_request_intent j /\
  is_Some (j_proof_request_id j') /\
  (forall r, j_proof_request_id j = Some r -> j_proof_request_id j' = Some r) /\
  (j_status j' = j_status j \/ (j_status j = proving /\ j_status j' = proof_requested)) /\
  j_attempts j' = j_attempts j /\ j_input j' = j_input j /\ j_public_values j' = j_public_values j /\
  j_proof_bytes j' = j_proof_bytes j /\ j_prepared_transaction j' = j_prepared_transaction j /\
  j_transaction_hash j' = j_transaction_hash j /\ j_submitted_block j' = j_submitted_block j.

Definition harmless (id : uuid) (db db' : Db) : Prop :=
  db' = db \/
  exists j j', jobs db !! id = Some j /\ records_request j j' /\ db' = with_jobs (<[id := j']> (jobs db)) db.

Definition superseded (id : uuid) (attempts : Z) (db : Db) : Prop :=
  forall j, jobs db !! id = Some j -> j_attempts j <> attempts.

Definition guarded (id : uuid) (attempts : Z) (B : Type) (t : tx B) : Prop :=
  forall now db b db', superseded id attempts db -> t now db = Ok (b, db') -> harmless id db db'.

Lemma guarded_now {A} id attempts (k : Z -> tx A) :
  (forall now, guarded id attempts A (k now)) -> guarded id attempts A (now ← now_; k now).
Proof. intros Hk now db b db' Hs (? & ? & [= <- <-] & Ht)%tx_bind_Ok. by eapply Hk. Qed.

Lemma guarded_update {A} id attempts p f (k : bool -> tx A) :
  (forall j, p j = true -> j_attempts j = attempts) -> (forall b, respects eq (k b)) ->
  guarded id attempts A (b ← update_job id p f; k b).
Proof.
  intros Hp Hk now db b db' Hs (c & db1 & Hu & Ht)%tx_bind_Ok. left. rewrite <- (Hk _ _ _ _ _ Ht).
  apply update_job_Ok in Hu as [(_ & j & Hj & Hpj & _)|(_ & -> & _)]; [|done]. destruct (Hs _ Hj). by apply Hp.
Qed.

Lemma guarded_plain_update id attempts p f :
  (forall j, p j = true -> j_attempts j = attempts) -> guarded id attempts bool (update_job id p f).
Proof.
  intros Hp now db b db' Hs Hu. left.
  apply update_job_Ok in Hu as [(_ & j & Hj & Hpj & _)|(_ & -> & _)]; [|done]. destruct (Hs _ Hj). by apply Hp.
Qed.

End fencing.

(** A transaction whose single update checks the attempts. *)
Ltac guarded_tac :=
  intros; repeat (apply guarded_now; intros ?);
  first [apply guarded_update; [intros; by bool_props|intros ?; respects_tac] |
         apply guarded_plain_update; intros; by bool_props].

Section worker.
Context `{Externals}.

Lemma set_status_guarded id a s : guarded id a unit (set_status id a s).
Proof. unfold set_status. guarded_tac. Qed.
Lemma update_validating_guarded id a f why : guarded id a unit (update_validating id a f why).
Proof. unfold update_validating. guarded_tac. Qed.
Lemma execute_guarded id a : guarded id a unit (execute_update id a).
Proof. apply guarded_now. intros. apply update_validating_guarded. Qed.
Lemma update_proving_guarded id a f why : guarded id a unit (update_proving id a f why).
Proof. unfold update_proving. guarded_tac. Qed.
Lemma update_local_guarded id a c : guarded id a unit (update_local id a c).
Proof. unfold update_local. guarded_tac. Qed.
Lemma begin_guarded i id a : guarded id a uuid (begin_proof_request i id a).
Proof. unfold begin_proof_request. guarded_tac. Qed.
Lemma send_claim_guarded id a v p : guarded id a _ (send_claim id a v p).
Proof. unfold send_claim. guarded_tac. Qed.
Lemma send_persist_guarded id a p : guarded id a unit (send_persist id a p).
Proof. unfold send_persist. guarded_tac. Qed.
Lemma send_finish_guarded id a : guarded id a bool (send_finish id a).
Proof. unfold send_finish. guarded_tac. Qed.

(** Guarded by the sealed intent instead. *)
Lemma finish_guarded id a intent request : guarded id a unit (finish_proof_request id intent request).
Proof.
  apply guarded_now. intros now now' db u db' _ (b & db1 & Hu & [_ ->]%require_Ok)%tx_bind_Ok.
  apply update_job_Ok in Hu as [(_ & j & Hj & Hp & _ & _ & ->)|(_ & -> & _)]; [right|by left].
  eexists j, _. split_and!; [done| |done]. bool_props. unfold records_request. cbn. split_and!; try done.
  - intros r Hr. match goal with Hin : _ ∈ _ |- _ => apply list_elem_of_In in Hin; cbn in Hin end.
    destruct_or?; congruence || done.
  - case_bool_decide; [by right|by left].
Qed.

Lemma record_failure_guarded id a e : guarded id a unit (record_failure id a e).
Proof.
  unfold record_failure. intros now db u db' Hs Ht. do 2 apply tx_bind_Ok in Ht as (? & ? & [= <- <-] & Ht).
  apply tx_bind_Ok in Ht as (j & ? & [Hj ->]%some_or_Ok & Ht). left.
  rewrite bool_decide_eq_false_2 in Ht by auto. by injection Ht.
Qed.

End worker.

Create HintDb fenced discriminated.
#[export] Hint Resolve set_status_guarded update_validating_guarded execute_guarded update_proving_guarded
  update_local_guarded begin_guarded send_claim_guarded send_persist_guarded send_finish_guarded
  finish_guarded record_failure_guarded : fenced.

(** [each_step] follows the structure of a program. *)
Ltac each_step :=
  match goal with
  | |- each_tx _ (_ ≫= _) => apply each_bind; [|intros ?]
  | |- each_tx _ (mret _) => exact I
  | |- each_tx _ (try_ _) => apply each_try
  | |- each_tx _ (run_tx _) => apply each_run_tx; auto with fenced
  | |- each_tx _ (ask _) => apply each_ask
  | |- each_tx _ (Call _ Ret) => intros ?; exact I
  | |- each_tx _ (ensure_ _ _) => apply each_ensure
  | |- each_tx _ (measured_cycles _) => apply each_ensure
  | |- each_tx _ (stored_cycles _) => apply each_ensure
  | |- each_tx _ (context_ _ _) => apply each_context
  | |- each_tx _ (if ?b then _ else _) => destruct b
  | |- each_tx _ (let '(_, _) := ?p in _) => destruct p
  | |- each_tx _ (match ?o with _ => _ end) => destruct o
  end.

Section worker_program.
Context `{Externals}.

Lemma send_each id a kind v p : each_tx (guarded id a) (send id a kind v p).
Proof. unfold send. repeat each_step. Qed.
Lemma lifetime_each P kind h n : each_tx P (require_settlement_lifetime kind h n).
Proof. unfold require_settlement_lifetime. cbv zeta. repeat each_step. Qed.
Lemma validate_each P config input v : each_tx P (validate_preflight config input v).
Proof. destruct v; cbn [validate_preflight]; unfold validate_settlement, validate_bridge; cbv zeta; repeat each_step. Qed.

Lemma process_job_each config job : each_tx (guarded (cj_id job) (cj_attempts job)) (process_job config job).
Proof.
  apply each_catch; [|intros e; repeat each_step].
  unfold process_body, submit_persisted, ready, stored_preflight, fresh_preflight, submit_local_mock, prove_and_send,
    request_once.
  repeat first [each_step | apply send_each | apply lifetime_each | apply validate_each | progress cbv zeta].
Qed.

End worker_program.
