(* ===== verification/System.v ===== *)
(** * The running gateway

    The database, the uuids drawn so far and the worker threads, and the steps
    that interleave them: API and indexer transactions, claims, steps of a
    thread, answers of the outside world and crashes.  A thread may stop
    anywhere, and several workers may run at once. *)

From stdpp Require Import gmap strings.
From S2P Require Import Prelude Rpc Database Program OuterWriter Submission Worker Indexer TxLogic.
From S2P Require Import Coordination Gateway.

Section system.
Context `{Externals}.

(** ** Operations *)

(** The transactions of the API and the indexer, with what they draw or read
    outside the database. *)
Inductive operation :=
| CreateJob (print : uuid -> string) (id fresh : uuid) (name : string) (header : option string) (kind : ProofKind)
    (input : Value)
| QueueSettlement (print : uuid -> string) (fee_payer : option string) (id : uuid) (s : MinaSettlement)
| Acquire (fresh : uuid) (request : AcquireRequest) (block : BlockRef) (state : SettlementState)
| Renew (token : ReservationToken) (ttl_seconds : option Z)
| Release (token : ReservationToken)
| Approve (id : uuid) (digest : string) (approval : Approval)
| Cancel (id : uuid)
| RecoverInterrupted
| ReconcileJob (mode : FinalityMode) (required head : Z) (finalized_height : option Z) (id : uuid)
    (receipt : option Receipt) (canonical : option string)
| RecoverEvent (id : uuid) (kind : ProofKind) (input : Value) (public_values hash : string) (block : Z * string)
| RollbackAfter (ancestor : Z)
| FinishRecovery.

Definition run_operation (o : operation) : tx unit :=
  match o with
  | CreateJob print id fresh name header kind input => create_job print id fresh name header kind input;; mret tt
  | QueueSettlement print fee_payer id s => queue_settlement print fee_payer id s;; mret tt
  | Acquire fresh request block state => acquire fresh request block state;; mret tt
  | Renew token ttl_seconds => renew token ttl_seconds;; mret tt
  | Release token => release token
  | Approve id digest approval => approve_update id digest approval
  | Cancel id => cancel_proof id;; mret tt
  | RecoverInterrupted => recover_interrupted
  | ReconcileJob mode required head finalized id receipt canonical =>
      reconcile_job mode required head finalized id receipt canonical
  | RecoverEvent id kind input public_values hash block =>
      recover_event id kind input public_values hash block;; mret tt
  | RollbackAfter ancestor => rollback_after ancestor
  | FinishRecovery => finish_recovery
  end.

(** The job uuid an operation draws ([Uuid::new_v4]). *)
Definition drawn (o : operation) : gset uuid :=
  match o with
  | CreateJob _ id _ _ _ _ _ | QueueSettlement _ _ id _ | RecoverEvent id _ _ _ _ _ => {[id]}
  | _ => ∅
  end.

(** Operations that take back a settled outcome: a rollback, and a receipt
    that is no longer final for a confirmed job. *)
Definition regresses (o : operation) (db : Db) : bool :=
  match o with
  | RollbackAfter _ => true
  | ReconcileJob mode required head finalized id (Some r) _ =>
      from_option (fun j => bool_decide (j_status j = confirmed)) false (jobs db !! id) &&
      negb (transaction_is_finalized mode (rc_block_number r) (Z.max (head - rc_block_number r) 0 + 1) required
              finalized)
  | _ => false
  end.

(** ** Steps *)

Inductive event :=
| Broadcast (id : uuid) (prepared : PreparedSubmission)
| Requested (id : uuid)
| Reorganized.

Definition emitted {B} (id : uuid) (c : call B) : list event :=
  match c with
  | BroadcastSubmission prepared => [Broadcast id prepared]
  | RequestProof _ _ _ => [Requested id]
  | _ => []
  end.

Definition thread : Type := uuid * prog unit.

Record Sys := { sdb : Db; issued : gset uuid; threads : list thread }.

Definition start (db : Db) : Sys := {| sdb := db; issued := dom (jobs db); threads := [] |}.

Definition claimed_thread (config : WorkerConfig) (r : outcome error (option ClaimedJob)) : list thread :=
  match r with
  | Ok (Some job) => [(cj_id job, process_job config job)]
  | _ => []
  end.

(** The indexer applies a confirmed job to the virtual accounts (in
    [Accounts]): here any values may appear, and pending commands disappear. *)
Definition with_accounts (key : option string) (account : option Value) (nonces : gmap string string)
    (pending : list PendingCommand) (db : Db) : Db := {|
  jobs := jobs db; writer := writer db; recovery_ready := recovery_ready db;
  outer_public_key := key; outer_account := account; account_nonces := nonces; pending_commands := pending |}.

Inductive sys_step : Sys -> list event -> Sys -> Prop :=
| step_operation s o now r db' :
    drawn o ## issued s -> transact (run_operation o) now (sdb s) = (r, db') ->
    sys_step s (if regresses o (sdb s) then [Reorganized] else [])
      {| sdb := db'; issued := drawn o ∪ issued s; threads := threads s |}
| step_claim s config now r db' :
    transact claim_job now (sdb s) = (r, db') ->
    sys_step s [] {| sdb := db'; issued := issued s; threads := threads s ++ claimed_thread config r |}
| step_transaction s i id B (t : tx B) k now r db' :
    threads s !! i = Some (id, Transaction t k) -> transact t now (sdb s) = (r, db') ->
    sys_step s [] {| sdb := db'; issued := issued s; threads := <[i := (id, k r)]> (threads s) |}
| step_call s i id B (c : call B) k reply :
    threads s !! i = Some (id, Call c k) ->
    sys_step s (emitted id c)
      {| sdb := sdb s; issued := issued s; threads := <[i := (id, k reply)]> (threads s) |}
| step_stop s i :
    sys_step s [] {| sdb := sdb s; issued := issued s; threads := delete i (threads s) |}
| step_accounts s key account nonces pending :
    sys_step s [] {| sdb := with_accounts key account nonces pending (sdb s); issued := issued s;
                     threads := threads s |}.

(** A run with the events it emits. *)
Inductive sys_run (s : Sys) : list event -> Sys -> Prop :=
| run_nil : sys_run s [] s
| run_snoc tr s1 ev s2 : sys_run s tr s1 -> sys_step s1 ev s2 -> sys_run s (tr ++ ev) s2.

(** ** Executing a schedule *)

(** [answer] gives the replies of the outside world. *)
Inductive action :=
| DoOperation (o : operation) (now : Z)
| DoClaim (config : WorkerConfig) (now : Z)
| DoThread (i : nat) (now : Z) (answer : forall B, call B -> B)
| DoStop (i : nat).

Definition act (s : Sys) (a : action) : option (list event * Sys) :=
  match a with
  | DoOperation o now =>
    if decide (drawn o ## issued s) then
      Some (if regresses o (sdb s) then [Reorganized] else [],
            {| sdb := snd (transact (run_operation o) now (sdb s)); issued := drawn o ∪ issued s;
               threads := threads s |})
    else None
  | DoClaim config now =>
    let '(r, db') := transact claim_job now (sdb s) in
    Some ([], {| sdb := db'; issued := issued s; threads := threads s ++ claimed_thread config r |})
  | DoThread i now answer =>
    match threads s !! i with
    | Some (id, Transaction t k) =>
      let '(r, db') := transact t now (sdb s) in
      Some ([], {| sdb := db'; issued := issued s; threads := <[i := (id, k r)]> (threads s) |})
    | Some (id, Call c k) =>
      Some (emitted id c, {| sdb := sdb s; issued := issued s; threads := <[i := (id, k (answer _ c))]> (threads s) |})
    | _ => None
    end
  | DoStop i => Some ([], {| sdb := sdb s; issued := issued s; threads := delete i (threads s) |})
  end.

Fixpoint schedule (s : Sys) (tr : list event) (l : list action) : option (list event * Sys) :=
  match l with
  | [] => Some (tr, s)
  | a :: l => '(ev, s1) ← act s a; schedule s1 (tr ++ ev) l
  end.

(** The events of a schedule, and where it ends. *)
Definition trace (s : Sys) (l : list action) : option (list event) := fst <$> schedule s [] l.
Definition end_of (s : Sys) (l : list action) : Sys :=
  match schedule s [] l with Some (_, s) => s | None => s end.

Lemma act_step s a ev s' : act s a = Some (ev, s') -> sys_step s ev s'.
Proof.
  destruct a as [o now|config now|i now answer|i]; cbn.
  - case_decide as Hd; [|done]. intros [= <- <-].
    destruct (transact (run_operation o) now (sdb s)) as [r db'] eqn:Hr. by eapply step_operation.
  - destruct (transact claim_job now (sdb s)) as [r db'] eqn:Hr. intros [= <- <-]. by eapply step_claim.
  - destruct (threads s !! i) as [[id [|?|B t k|B c k]]|] eqn:Hi; [done|done| | |done].
    + destruct (transact t now (sdb s)) as [r db'] eqn:Hr. intros [= <- <-]. by eapply step_transaction.
    + intros [= <- <-]. by eapply step_call.
  - intros [= <- <-]. apply step_stop.
Qed.

Lemma schedule_run s0 s tr l tr' s' :
  sys_run s0 tr s -> schedule s tr l = Some (tr', s') -> sys_run s0 tr' s'.
Proof.
  revert s tr. induction l as [|a l IH]; intros s tr Hr; cbn; [by intros [= <- <-]|].
  destruct (act s a) as [[ev s1]|] eqn:Ha; [|done]. cbn. apply IH.
  eapply run_snoc; [done|by eapply act_step].
Qed.

Lemma trace_run s l tr : trace s l = Some tr -> sys_run s tr (end_of s l).
Proof.
  unfold trace, end_of. destruct (schedule s [] l) as [[tr' s']|] eqn:Hs; [|done]. intros [= <-].
  eapply schedule_run; [apply run_nil|exact Hs].
Qed.

(** ** What a step does to the database *)

(** New rows only under drawn uuids; signed transactions stay, and a sealed
    job stays sealed or disappears. *)
Definition advances (new : gset uuid) (db db' : Db) : Prop :=
  fence (writer db) (writer db') /\
  (forall id q, stored id q db -> stored id q db') /\
  (forall id, sealed id db -> sealed id db' \/ id ∉ dom (jobs db')) /\
  dom (jobs db') ⊆ new ∪ dom (jobs db) /\
  (forall id j j', jobs db !! id = Some j -> jobs db' !! id = Some j' -> j_attempts j <= j_attempts j') /\
  (all_typed db -> all_typed db').

Lemma advances_refl new db : advances new db db.
Proof. split_and!; [reflexivity|auto|auto|set_solver| |done]. intros id j j' Hj Hj'. simplify_eq. lia. Qed.

Lemma evolves_advances new db db' :
  evolves db db' -> dom (jobs db') ⊆ new ∪ dom (jobs db) -> (all_typed db -> all_typed db') -> advances new db db'.
Proof.
  intros [Hf Hj] Hd Hty. split_and!; [done| | |done| |done].
  - intros id q (j & Hid & Hq). destruct (Hj _ _ Hid) as (j' & Hj' & _ & _ & _ & _ & Hk & _). exists j'. auto.
  - intros id (j & Hid & Hq). left. destruct (Hj _ _ Hid) as (j' & Hj' & _ & _ & Hk & _). exists j'.
    split; [done|]. destruct (j_proof_request_intent j) as [i|]; [|done]. by rewrite (Hk i eq_refl).
  - intros id j j1 Hid Hj1. destruct (Hj _ _ Hid) as (j' & Hj' & _ & Ha & _). by simplify_eq.
Qed.

Lemma closed_advances db db' : evolves db db' -> closed db db' -> advances ∅ db db'.
Proof.
  intros He Hc. apply evolves_advances; [done| |by apply evolves_typed]. unfold closed in Hc. set_solver.
Qed.

Lemma rolls_advances db db' : rolls db db' -> advances ∅ db db'.
Proof.
  intros (Hf & Hd & Hj). split_and!; [done| | |set_solver| |].
  - intros id q (j & Hid & Hq). destruct (Hj _ _ Hid) as [(j' & Hj' & _ & _ & _ & _ & Hk & _)|[_ Hn]]; [|congruence].
    exists j'. auto.
  - intros id (j & Hid & Hq). destruct (Hj _ _ Hid) as [(j' & Hj' & _ & _ & Hk & _)|[Hn _]].
    + left. exists j'. split; [done|]. destruct (j_proof_request_intent j) as [i|]; [|done].
      by rewrite (Hk i eq_refl).
    + right. by apply not_elem_of_dom.
  - intros id j j1 Hid Hj1. destruct (Hj _ _ Hid) as [(j' & Hj' & _ & Ha & _)|[Hn _]]; [by simplify_eq|congruence].
  - intros Ha id j1 Hj1. assert (id ∈ dom (jobs db)) as [j Hid]%elem_of_dom by (apply Hd; by eapply elem_of_dom_2).
    destruct (Hj _ _ Hid) as [(j' & Hj' & _ & _ & _ & _ & _ & Ht)|[Hn _]]; [|congruence]. simplify_eq. by eapply Ht, Ha.
Qed.

Lemma finish_recovery_steady : steady finish_recovery.
Proof.
  apply steady_runs. unfold finish_recovery. intros now db u db' Ht. inv_tx.
  split; [split; [reflexivity|]; intros id j Hj; exists j; by split|split_and!; [eauto|by left|eauto]].
Qed.

Lemma bind_tt_respects R {A} (t : tx A) : PreOrder R -> respects R t -> respects R (t;; mret tt).
Proof. intros HR Ht. apply respects_bind; [done|done|intros ?; by apply respects_mret]. Qed.

(** Operations that admit no job and do not roll back. *)
Lemma operation_steady o :
  match o with
  | Acquire _ _ _ _ | Renew _ _ | Release _ | Approve _ _ _ | Cancel _ | RecoverInterrupted | FinishRecovery =>
      steady (run_operation o) /\ respects closed (run_operation o)
  | _ => True
  end.
Proof.
  destruct o; try exact I; cbn [run_operation].
  - unfold acquire. pose proof (acquire_respects fresh request (from_chain block state)) as [He Hc].
      split; [split|]; (apply bind_tt_respects; [apply _|]); [exact He|exact Hc|apply acquire_closed].
  - split.
    + apply bind_steady; [|intros; apply mret_steady]. unfold renew.
      apply bind_steady; [split; apply respects_lift, _|intros; apply renew_respects].
    + apply bind_tt_respects; [apply _|]. unfold renew. apply respects_bind; [apply _|apply respects_lift, _|].
      intros. apply renew_closed.
  - split; [apply release_respects|apply release_closed].
  - split; [apply approve_steady|apply approve_closed].
  - split; [apply bind_steady; [apply cancel_steady|intros; apply mret_steady]|].
    apply bind_tt_respects; [apply _|apply cancel_closed].
  - split; [apply recover_interrupted_steady|apply recover_interrupted_closed].
  - split; [apply finish_recovery_steady|]. unfold finish_recovery. intros now db u db' Ht. inv_tx. unfold closed. done.
Qed.

Lemma drop_result {A} (t : tx A) now db u db' :
  (t;; mret tt) now db = Ok (u, db') -> exists a, t now db = Ok (a, db').
Proof. intros (a & ? & Ht & [= <- <-])%tx_bind_Ok. by exists a. Qed.

(** Every operation but a regressing one keeps the single writer. *)
Lemma operation_runs o now db u db' :
  dom (jobs db) ## drawn o -> run_operation o now db = Ok (u, db') ->
  advances (drawn o) db db' /\ (regresses o db = false -> one_writer db -> one_writer db').
Proof.
  intros Hd Ht. pose proof (operation_steady o) as Hs.
  assert (forall id, drawn o = {[id]} -> jobs db !! id = None) as Hnew.
  { intros id Hid. apply not_elem_of_dom. rewrite Hid in Hd. set_solver. }
  assert (steady (run_operation o) /\ respects closed (run_operation o) /\ drawn o = ∅ ->
    advances (drawn o) db db' /\ (regresses o db = false -> one_writer db -> one_writer db')) as Hsteady.
  { intros ([He Hc] & Hcl & ->). split; [apply closed_advances; [by eapply He|by eapply Hcl]|].
    intros _. apply calm_one_writer. by eapply Hc. }
  destruct o; try (apply Hsteady; split_and!; [apply Hs|apply Hs|done]); clear Hsteady; cbn [run_operation drawn] in *.
  - apply drop_result in Ht as [a Ht]. apply create_job_runs in Ht as (He & Hi & Hdom & Hty); [|by apply Hnew].
    split; [by apply evolves_advances|auto].
  - apply drop_result in Ht as [a Ht]. apply queue_settlement_runs in Ht as (He & Hi & Hdom & Hty); [|by apply Hnew].
    split; [by apply evolves_advances|auto].
  - pose proof (reconcile_closed mode required head finalized_height id receipt canonical _ _ _ _ Ht) as Hcl.
    apply reconcile_runs in Ht as [He Hc]. split; [by apply closed_advances|]. intros Hr.
    apply calm_one_writer, Hc. intros j r Hj Hst ->. cbn in Hr. rewrite Hj in Hr. cbn in Hr.
    rewrite bool_decide_eq_true_2 in Hr by done. by destruct (transaction_is_finalized _ _ _ _ _).
  - apply drop_result in Ht as [a Ht]. apply recover_event_runs in Ht as (He & Hi & Hdom & Hty).
    split; [by apply evolves_advances|auto].
  - split; [apply rolls_advances; by eapply rollback_rolls|done].
Qed.

Lemma operation_transact o now db r db' :
  dom (jobs db) ## drawn o -> transact (run_operation o) now db = (r, db') ->
  advances (drawn o) db db' /\ (regresses o db = false -> one_writer db -> one_writer db').
Proof.
  unfold transact. intros Hd. destruct (run_operation o now db) as [[u db1]| |] eqn:Ht; intros [= <- <-];
    [by eapply operation_runs|by split; [apply advances_refl|]..].
Qed.

Lemma good_transact {A} (t : tx A) now db r db' :
  good_tx t -> transact t now db = (r, db') -> advances ∅ db db' /\ (one_writer db -> one_writer db').
Proof.
  intros (He & Hc & Hk) Hr. split.
  - apply closed_advances; by eapply transact_respects; [apply _|..].
  - intros Hi. by eapply transact_keeps.
Qed.

Lemma claim_good : good_tx claim_job.
Proof. apply steady_good; [apply claim_steady|apply claim_closed]. Qed.

(** ** The invariant of the runs *)

#[export] Instance event_eq_dec : EqDecision event.
Proof. solve_decision. Defined.

(** The proof requests of a job in a trace. *)
Definition requests (id : uuid) (tr : list event) : nat := length (filter (fun e => e = Requested id) tr).

(** A thread with what it may rely on, and the permissions to buy a proof. *)
Definition holder (id : uuid) (p : thread * ghost) : nat :=
  if decide (p.1.1 = id) then Nat.b2n (g_permit p.2) else 0%nat.
Definition permits (id : uuid) (l : list (thread * ghost)) : nat := sum_list_with (holder id) l.
Definition thread_ok (db : Db) (p : thread * ghost) : Prop :=
  wp p.1.1 p.2 p.1.2 any /\ ghost_ok p.1.1 p.2 db.

(** Where a request was bought or may be: the job is sealed for ever. *)
Definition spent (id : uuid) (s : Sys) : Prop :=
  id ∈ issued s /\ (sealed id (sdb s) \/ id ∉ dom (jobs (sdb s))).

Record wf (tr : list event) (s : Sys) (l : list (thread * ghost)) : Prop := {
  wf_threads : threads s = l.*1;
  wf_ok : Forall (thread_ok (sdb s)) l;
  wf_dom : dom (jobs (sdb s)) ⊆ issued s;
  wf_stored : forall id q, Broadcast id q ∈ tr -> stored id q (sdb s);
  wf_once : forall id, (requests id tr + permits id l <= 1)%nat;
  wf_spent : forall id, (0 < requests id tr + permits id l)%nat -> spent id s
}.

Lemma wf_start db : wf [] (start db) [].
Proof. split; cbn; [done|done|done| |lia|lia]. intros id q Hin. by apply elem_of_nil in Hin. Qed.

Lemma wf_advance tr s l new db' :
  advances new (sdb s) db' -> new ## issued s -> wf tr s l ->
  wf tr {| sdb := db'; issued := new ∪ issued s; threads := threads s |} l.
Proof.
  intros (Hf & Hst & Hse & Hd & _) Hnew [Ht Hok Hdom Hb Ho Hs]. split; cbn; [done| |set_solver|auto|done|].
  - eapply Forall_impl; [exact Hok|]. intros p [Hw Hg]. split; [done|]. intros q Hq. auto.
  - intros id Hid. destruct (Hs id Hid) as [Hi [Hse'|Hn]]; (split; cbn; [set_solver|]); [auto|]. right. set_solver.
Qed.

Lemma wf_idle tr s l db' :
  advances ∅ (sdb s) db' -> wf tr s l ->
  wf tr {| sdb := db'; issued := issued s; threads := threads s |} l.
Proof.
  intros Ha Hw. pose proof (wf_advance tr s l ∅ db' Ha ltac:(set_solver) Hw) as Hw'.
  by rewrite (left_id_L ∅ (∪)) in Hw'.
Qed.

(** Replacing one thread, its ghost and the trace. *)
Lemma wf_replace tr tr' s l i (p p' : thread * ghost) :
  wf tr s l -> l !! i = Some p -> p'.1.1 = p.1.1 -> thread_ok (sdb s) p' ->
  (forall id q, Broadcast id q ∈ tr' -> Broadcast id q ∈ tr \/ stored id q (sdb s)) ->
  (forall id, id <> p.1.1 -> requests id tr' = requests id tr) ->
  ((requests (p.1.1) tr' + Nat.b2n (g_permit p'.2) <= requests (p.1.1) tr + Nat.b2n (g_permit p.2))%nat \/
   (requests (p.1.1) tr + permits (p.1.1) l = 0 /\ requests (p.1.1) tr' = 0)%nat /\ spent (p.1.1) s) ->
  wf tr' {| sdb := sdb s; issued := issued s; threads := <[i := p'.1]> (threads s) |} (<[i := p']> l).
Proof.
  intros [Ht Hok Hdom Hb Ho Hs] Hi Hid Hp Hb' Hr Hc.
  assert (forall id, permits id (<[i := p']> l) + holder id p = permits id l + holder id p')%nat as Hsum.
  { intros id. by apply sum_list_with_insert. }
  assert (forall id, id <> p.1.1 -> permits id (<[i := p']> l) = permits id l) as Hother.
  { intros id Hne. specialize (Hsum id). unfold holder in Hsum. rewrite Hid in Hsum.
    destruct (decide (p.1.1 = id)); [congruence|lia]. }
  pose proof (Hsum (p.1.1)) as Hmine. unfold holder in Hmine. rewrite Hid, !decide_True in Hmine by done.
  assert (Nat.b2n (g_permit p'.2) <= 1)%nat as Hle by (destruct (g_permit p'.2); cbn; lia).
  specialize (Ho (p.1.1)) as Ho1. specialize (Hs (p.1.1)) as Hs1.
  split; cbn; [by rewrite Ht, list_fmap_insert|by apply Forall_insert|done| | |].
  - intros id q [Hin|Hst]%Hb'; auto.
  - intros id. destruct (decide (id = p.1.1)) as [->|Hne]; [|rewrite Hr, Hother by done; apply Ho].
    destruct Hc as [Hc|[[Hc1 Hc2] _]]; lia.
  - intros id. destruct (decide (id = p.1.1)) as [->|Hne]; [|rewrite Hr, Hother by done; apply Hs].
    destruct Hc as [Hc|[_ Hsp]]; [|done]. intros Hpos. apply Hs1. lia.
Qed.

(** What a call emits and uses up. *)
Lemma emitted_cases {B} id (c : call B) g :
  allowed c g ->
  (exists q, emitted id c = [Broadcast id q] /\ g_known g = Some q /\ spend c g = g) \/
  (emitted id c = [Requested id] /\ g_permit g = true /\
   spend c g = {| g_known := g_known g; g_permit := false |}) \/
  (emitted id c = [] /\ spend c g = g).
Proof. destruct c; cbn; eauto 10. Qed.

Lemma requests_app id tr ev : requests id (tr ++ ev) = (requests id tr + requests id ev)%nat.
Proof. unfold requests. by rewrite filter_app, length_app. Qed.
Lemma requests_other id e : e <> Requested id -> requests id [e] = 0%nat.
Proof. intros He. unfold requests. by rewrite filter_cons_False. Qed.

Lemma wf_call tr s l i id {B} (c : call B) k reply :
  wf tr s l -> threads s !! i = Some (id, Call c k) ->
  exists l', wf (tr ++ emitted id c)
    {| sdb := sdb s; issued := issued s; threads := <[i := (id, k reply)]> (threads s) |} l'.
Proof.
  intros Hw Hi. rewrite (wf_threads _ _ _ Hw), list_lookup_fmap in Hi.
  destruct (l !! i) as [[[id' p] g]|] eqn:Hl; [|done]. injection Hi as -> ->.
  destruct (proj1 (Forall_lookup _ _) (wf_ok _ _ _ Hw) i _ Hl) as [[Hall Hk] Hg]. cbn [fst snd] in *.
  exists (<[i := ((id, k reply), spend c g)]> l).
  destruct (emitted_cases id c g Hall) as [(q & He & Hq & Hsp)|[(He & Hp & Hsp)|[He Hsp]]]; rewrite He;
    (apply (wf_replace tr _ s l i (id, Call c k, g) (id, k reply, spend c g) Hw Hl);
     [done|split; cbn; [apply Hk|rewrite Hsp; exact Hg]| | |left]); cbn.
  - intros id' q' [Hin|[= -> ->]%list_elem_of_singleton]%elem_of_app; [by left|right]. by apply Hg.
  - intros id' _. rewrite requests_app, requests_other by done. lia.
  - rewrite requests_app, requests_other, Hsp by done. lia.
  - intros id' q' [Hin|[=]%list_elem_of_singleton]%elem_of_app. by left.
  - intros id' Hne. rewrite requests_app, requests_other by congruence. lia.
  - rewrite requests_app, Hsp, Hp. unfold requests at 2. rewrite filter_cons_True by done. cbn. lia.
  - intros id' q'. rewrite app_nil_r. by left.
  - intros id' _. by rewrite app_nil_r.
  - by rewrite app_nil_r, Hsp.
Qed.

(** The claim of [attempts] on a known job was taken over. *)
Definition overtaken (id : uuid) (attempts : Z) (s : Sys) : Prop :=
  id ∈ issued s /\ forall j, jobs (sdb s) !! id = Some j -> attempts < j_attempts j.

Lemma advances_overtaken new s db' l id attempts :
  advances new (sdb s) db' -> new ## issued s -> dom (jobs (sdb s)) ⊆ issued s -> overtaken id attempts s ->
  overtaken id attempts {| sdb := db'; issued := new ∪ issued s; threads := l |}.
Proof.
  intros (_ & _ & _ & Hd & Ha & _) Hnew Hdom [Hi Ho]. split; cbn; [set_solver|]. intros j' Hj'.
  assert (id ∈ dom (jobs (sdb s))) as [j Hj]%elem_of_dom by (apply elem_of_dom_2 in Hj'; set_solver).
  specialize (Ha _ _ _ Hj Hj'). specialize (Ho _ Hj). lia.
Qed.

Lemma idle_overtaken s db' l id attempts :
  advances ∅ (sdb s) db' -> dom (jobs (sdb s)) ⊆ issued s -> overtaken id attempts s ->
  overtaken id attempts {| sdb := db'; issued := issued s; threads := l |}.
Proof.
  intros Ha Hd Ho. pose proof (advances_overtaken ∅ s db' l id attempts Ha ltac:(set_solver) Hd Ho) as Hw.
  by rewrite (left_id_L ∅ (∪)) in Hw.
Qed.

(** A thread runs a transaction. *)
Lemma wf_transaction tr s l i id {B} (t : tx B) k now r db' :
  wf tr s l -> threads s !! i = Some (id, Transaction t k) -> transact t now (sdb s) = (r, db') ->
  (one_writer (sdb s) -> one_writer db') /\ advances ∅ (sdb s) db' /\
  exists l', wf tr {| sdb := db'; issued := issued s; threads := <[i := (id, k r)]> (threads s) |} l'.
Proof.
  intros Hw Hi Hr. pose proof Hi as Hi'. rewrite (wf_threads _ _ _ Hw), list_lookup_fmap in Hi'.
  destruct (l !! i) as [[[id' p] g]|] eqn:Hl; [|done]. injection Hi' as -> ->.
  destruct (proj1 (Forall_lookup _ _) (wf_ok _ _ _ Hw) i _ Hl) as [[Hgood Hk] Hg]. cbn [fst snd] in *.
  destruct (good_transact _ _ _ _ _ Hgood Hr) as [Ha Hone]. split; [done|]. split; [done|].
  destruct (Hk _ _ _ _ Hr) as (g' & [Hknown Hpermit] & Hwp).
  pose proof (wf_idle _ _ _ _ Ha Hw) as Hw'.
  exists (<[i := ((id, k r), g')]> l).
  apply (wf_replace tr tr _ l i (id, Transaction t k, g) (id, k r, g') Hw' Hl); [done| |by left|done|].
  - split; cbn; [done|]. intros q [Hq|Hq]%Hknown; [|done]. apply Ha, Hg, Hq.
  - cbn. destruct (g_permit g') eqn:Hp'; [|left; cbn; lia].
    destruct (Hpermit eq_refl) as [->|[Hno Hse]]; [left; lia|right].
    assert (id ∈ dom (jobs (sdb s))) as Hd.
    { destruct Hse as (j & Hj & _). apply elem_of_dom_2 in Hj. destruct Ha as (_ & _ & _ & Hd & _). set_solver. }
    destruct (decide (requests id tr + permits id l = 0)%nat) as [He|Hne].
    + split; [lia|]. split; [apply (wf_dom _ _ _ Hw), Hd|by left].
    + destruct (wf_spent _ _ _ Hw id ltac:(lia)) as [_ [|]]; done.
Qed.

Lemma wf_append tr s l p :
  wf tr s l -> wp p.1 no_ghost p.2 any ->
  wf tr {| sdb := sdb s; issued := issued s; threads := threads s ++ [p] |} (l ++ [(p, no_ghost)]).
Proof.
  intros [Ht Hok Hdom Hb Ho Hs] Hp.
  assert (forall id, permits id (l ++ [(p, no_ghost)]) = permits id l) as He.
  { intros id. unfold permits. rewrite sum_list_with_app. cbn. unfold holder. cbn. destruct (decide _); lia. }
  split; cbn; [by rewrite Ht, fmap_app| |done|done| |].
  - apply Forall_app_2; [done|]. apply Forall_singleton. split; [done|]. by intros q [=].
  - intros id. by rewrite He.
  - intros id. rewrite He. apply Hs.
Qed.

Lemma wf_stop tr s l i :
  wf tr s l -> wf tr {| sdb := sdb s; issued := issued s; threads := delete i (threads s) |} (delete i l).
Proof.
  intros [Ht Hok Hdom Hb Ho Hs].
  assert (forall id, permits id (delete i l) <= permits id l)%nat as He by (intros; apply sum_list_with_delete).
  split; cbn; [by rewrite Ht, list_fmap_delete|by apply Forall_delete|done|done| |].
  - intros id. specialize (He id). specialize (Ho id). lia.
  - intros id Hpos. apply Hs. specialize (He id). lia.
Qed.

Lemma wf_step tr s l ev s' :
  wf tr s l -> sys_step s ev s' ->
  (exists l', wf (tr ++ ev) s' l') /\
  (fence (writer (sdb s)) (writer (sdb s')) /\ forall id a, overtaken id a s -> overtaken id a s') /\
  (Reorganized ∉ ev -> one_writer (sdb s) -> one_writer (sdb s')) /\
  (all_typed (sdb s) -> all_typed (sdb s')).
Proof.
  intros Hw Hst. destruct Hst as [s o now r db' Hd Ht|s config now r db' Ht|s i id B t k now r db' Hi Ht|
    s i id B c k reply Hi|s i|s key account nonces pending]; cbn.
  - assert (dom (jobs (sdb s)) ## drawn o) as Hd' by (pose proof (wf_dom _ _ _ Hw); set_solver).
    destruct (operation_transact _ _ _ _ _ Hd' Ht) as [Ha Hone].
    pose proof (wf_advance _ _ _ _ _ Ha Hd Hw) as [H1 H2 H3 H4 H5 H6].
    split_and!; [|apply Ha|intros id a; apply advances_overtaken; [done..|apply Hw]| |apply Ha].
    + exists l. destruct (regresses o (sdb s)); [|by rewrite app_nil_r].
      assert (forall id, requests id (tr ++ [Reorganized]) = requests id tr) as He.
      { intros id. rewrite requests_app, requests_other by done. lia. }
      split; [done|done|done| |intros id; rewrite He; apply H5|intros id; rewrite He; apply H6].
      intros id q [Hin|[=]%list_elem_of_singleton]%elem_of_app. auto.
    + destruct (regresses o (sdb s)); [|auto]. intros Hn. exfalso. apply Hn. by left.
  - destruct (good_transact _ _ _ _ _ claim_good Ht) as [Ha Hone].
    split_and!; [|apply Ha|intros id a; apply idle_overtaken; [done|apply Hw]|auto|apply Ha].
    rewrite app_nil_r. pose proof (wf_idle _ _ _ _ Ha Hw) as Hw'.
    destruct r as [[job|]| |]; cbn; rewrite ?app_nil_r; [|by exists l..].
    eexists. apply (wf_append _ _ _ (cj_id job, process_job config job) Hw'). apply process_job_wp.
  - destruct (wf_transaction _ _ _ _ _ _ _ _ _ _ Hw Hi Ht) as (Hone & Ha & Hl').
    rewrite app_nil_r. split_and!; [done|apply Ha|intros id' a; apply idle_overtaken; [done|apply Hw]|auto|apply Ha].
  - split_and!; [|reflexivity|done|auto|done]. by eapply wf_call.
  - split_and!; [|reflexivity|done|auto|done]. rewrite app_nil_r. eexists. by apply wf_stop.
  - rewrite app_nil_r. destruct Hw as [H1 H2 H3 H4 H5 H6].
    split_and!; [exists l; by split|reflexivity|by intros id a [? ?]|by intros _ [? ?]|done].
Qed.

Lemma wf_run db tr s : sys_run (start db) tr s -> exists l, wf tr s l.
Proof.
  induction 1 as [|tr s1 ev s2 _ [l IH] Hst]; [exists []; apply wf_start|]. by destruct (wf_step _ _ _ _ _ IH Hst) as [? _].
Qed.

Lemma run_app s0 tr1 s1 tr2 s2 : sys_run s0 tr1 s1 -> sys_run s1 tr2 s2 -> sys_run s0 (tr1 ++ tr2) s2.
Proof.
  intros H1. induction 1 as [|tr s ev s' _ IH Hst]; [by rewrite app_nil_r|]. rewrite app_assoc. by eapply run_snoc.
Qed.

Lemma run_forward db tr1 s1 tr2 s2 :
  sys_run (start db) tr1 s1 -> sys_run s1 tr2 s2 ->
  fence (writer (sdb s1)) (writer (sdb s2)) /\ forall id a, overtaken id a s1 -> overtaken id a s2.
Proof.
  intros H1. induction 1 as [|tr s ev s' Hr [IHf IHo] Hst]; [by split|].
  destruct (wf_run _ _ _ (run_app _ _ _ _ _ H1 Hr)) as [l Hw].
  destruct (wf_step _ _ _ _ _ Hw Hst) as (_ & [Hf Ho] & _). split; [by etrans|auto].
Qed.

Lemma run_one_writer db tr s :
  sys_run (start db) tr s -> Reorganized ∉ tr -> one_writer db -> one_writer (sdb s).
Proof.
  induction 1 as [|tr s1 ev s2 Hr IH Hst]; [done|]. rewrite not_elem_of_app. intros [Hn1 Hn2] Hi.
  destruct (wf_run _ _ _ Hr) as [l Hw]. destruct (wf_step _ _ _ _ _ Hw Hst) as (_ & _ & Hone & _). auto.
Qed.

Lemma run_typed db tr s : sys_run (start db) tr s -> all_typed db -> all_typed (sdb s).
Proof.
  induction 1 as [|tr s1 ev s2 Hr IH Hst]; [done|]. intros Ha.
  destruct (wf_run _ _ _ Hr) as [l Hw]. destruct (wf_step _ _ _ _ _ Hw Hst) as (_ & _ & _ & Ht). auto.
Qed.

End system.
