(* ===== verification/Ledger.v ===== *)
(** * The indexer's tables ([api/migrations] and [api/src/indexer.rs])

    The virtual Mina accounts with their history, the actions, the inner
    action leaves, the bridge deposits and the indexed blocks, next to the
    jobs of [Database], and the explorer's event tables; the transactions on
    all of them; and the rollback of a reorganization as the one transaction
    it is. *)

From stdpp Require Import gmap strings sorting.
From S2P Require Import Prelude ActionBatch Rpc Database Program OuterWriter Submission Worker Indexer System.

(** ** JSON objects

    The parts of [serde_json] that build and change values, and the derived
    (de)serializers of an inner-action batch and of field lists. *)
Class JsonObjects `{Externals} := {
  (** [as_object_mut] and [Map::insert]. *)
  object_insert : Value -> string -> Value -> option Value;
  array_value : list Value -> Value;
  string_value : string -> Value;
  bool_value : bool -> Value;
  u64_value : Z -> Value;
  object_value : list (string * Value) -> Value;
  as_u64 : Value -> option Z;
  parse_inner_action_batch : Value -> option InnerActionBatchWitnessV2;
  fields_value : list bytes -> Value
}.

Section ledger.
Context `{Externals}.

(** ** Rows *)

Record AccountRow := { account_json : Value; ac_block : option (Z * string) }.

Record HistoryRow := { account_before : Value; hr_block : Z * string; hr_created_at : Z }.

Record ActionRow := {
  gt_address : string;
  gt_state_before : string;
  gt_state_after : string;
  gt_action_data : Value;
  gt_block : Z * string;
  gt_removed : bool
}.

Record LeafRow := {
  lf_global_action_index : Z;
  lf_action_fields : Value;
  lf_action_fields_hash : string;
  lf_leaf : string;
  lf_token : option string;
  lf_asset_id : option string;
  lf_action_encoding_version : option Z;
  lf_registry_index : option Z;
  lf_record_commitment : option string;
  lf_recipient : option string;
  lf_zeko_amount : option Z;
  lf_inner_action_root : string;
  lf_commit_slot_upper : Z;
  lf_block : Z * string;
  lf_transaction_hash : string;
  lf_removed : bool
}.

(** The columns that a log determines. *)
Record DepositColumns := {
  dc_deposit_leaf : string;
  dc_old_deposit_state : string;
  dc_new_deposit_state : string;
  dc_token : string;
  dc_asset_id : option string;
  dc_action_encoding_version : Z;
  dc_registry_index : option Z;
  dc_record_commitment : option string;
  dc_sender : string;
  dc_zeko_recipient : string;
  dc_ethereum_amount : Z;
  dc_zeko_amount : Z;
  dc_timeout : Z;
  dc_block : Z * string;
  dc_transaction_hash : string;
  dc_log_index : Z
}.

(** The action columns are set together, and so are those of the settlement
    (the checks of migrations 0010 and 0013). *)
Record DepositRow := {
  dp_columns : DepositColumns;
  dp_bridge_job_id : option uuid;
  dp_outer_action : option (Z * string);
  dp_synchronized : option (uuid * Z);
  dp_removed : bool
}.

Record BlockRow := { bk_hash : string; bk_parent : string; bk_canonical : bool; bk_finalized : bool }.

(** [gateway_explorer_settlements]: the batch columns (root, start index,
    count and claimable slot) are set together. *)
Record SettlementEvent := {
  se_batch_sequence : Z;
  se_mina_transaction_hash : string;
  se_ledger_hash : string;
  se_outer_action_state : string;
  se_outer_action_state_length : Z;
  se_inner_action_state : string;
  se_inner_action_state_length : Z;
  se_slot_lower : Z;
  se_slot_upper : Z;
  se_inner_batch : option (string * Z * Z * Z);
  se_block : Z * string;
  se_removed : bool
}.

(** [gateway_explorer_bridge_transitions]. *)
Record TransitionEvent := {
  te_old_action_state : string;
  te_new_action_state : string;
  te_new_deposit_state : string;
  te_new_deposit_nonce : Z;
  te_block : Z * string;
  te_removed : bool
}.

(** [gateway_native_withdrawal_claims]. *)
Record ClaimRow := {
  cr_recipient : string;
  cr_zeko_amount : Z;
  cr_ethereum_amount : Z;
  cr_action_fields_hash : string;
  cr_block : Z * string;
  cr_transaction_hash : string;
  cr_log_index : Z;
  cr_removed : bool
}.

(** Accounts are keyed by public key and token, the history by job, public key
    and token, actions by transaction, log index and sequence, deposits by
    nonce, leaves by settlement sequence and offset, settlement and transition
    events by transaction and log index, and claims by settlement sequence and
    action index. *)
Record Ledger := {
  gateway : Db;
  accounts : gmap (string * string) AccountRow;
  history : gmap (uuid * string * string) HistoryRow;
  gateway_actions : gmap (string * Z * Z) ActionRow;
  deposits : gmap Z DepositRow;
  leaves : gmap (Z * Z) LeafRow;
  blocks : gmap Z BlockRow;
  config_head : Z * string;
  settlement_events : gmap (string * Z) SettlementEvent;
  transition_events : gmap (string * Z) TransitionEvent;
  claims : gmap (Z * Z) ClaimRow;
  explorer_last_block : option Z
}.

Definition ledger_eta (l : Ledger) : Ledger := {|
  gateway := gateway l; accounts := accounts l; history := history l; gateway_actions := gateway_actions l;
  deposits := deposits l; leaves := leaves l; blocks := blocks l; config_head := config_head l;
  settlement_events := settlement_events l; transition_events := transition_events l; claims := claims l;
  explorer_last_block := explorer_last_block l |}.

End ledger.

Section ledger_setters.
Context `{Externals}.

Definition with_gateway (v : Db) (l : Ledger) : Ledger := ltac:(set_field (@ledger_eta H) (@gateway H) l v).
Definition with_account_rows (v : gmap (string * string) AccountRow) (l : Ledger) : Ledger :=
  ltac:(set_field (@ledger_eta H) (@accounts H) l v).
Definition with_history (v : gmap (uuid * string * string) HistoryRow) (l : Ledger) : Ledger :=
  ltac:(set_field (@ledger_eta H) (@history H) l v).
Definition with_gateway_actions (v : gmap (string * Z * Z) ActionRow) (l : Ledger) : Ledger :=
  ltac:(set_field (@ledger_eta H) (@gateway_actions H) l v).
Definition with_deposits (v : gmap Z DepositRow) (l : Ledger) : Ledger :=
  ltac:(set_field (@ledger_eta H) (@deposits H) l v).
Definition with_leaves (v : gmap (Z * Z) LeafRow) (l : Ledger) : Ledger :=
  ltac:(set_field (@ledger_eta H) (@leaves H) l v).
Definition with_blocks (v : gmap Z BlockRow) (l : Ledger) : Ledger :=
  ltac:(set_field (@ledger_eta H) (@blocks H) l v).
Definition with_config_head (v : Z * string) (l : Ledger) : Ledger :=
  ltac:(set_field (@ledger_eta H) (@config_head H) l v).
Definition with_settlement_events (v : gmap (string * Z) SettlementEvent) (l : Ledger) : Ledger :=
  ltac:(set_field (@ledger_eta H) (@settlement_events H) l v).
Definition with_transition_events (v : gmap (string * Z) TransitionEvent) (l : Ledger) : Ledger :=
  ltac:(set_field (@ledger_eta H) (@transition_events H) l v).
Definition with_claims (v : gmap (Z * Z) ClaimRow) (l : Ledger) : Ledger :=
  ltac:(set_field (@ledger_eta H) (@claims H) l v).
Definition with_explorer_last_block (v : option Z) (l : Ledger) : Ledger :=
  ltac:(set_field (@ledger_eta H) (@explorer_last_block H) l v).

(** ** Transactions on all tables *)

Definition ltx (A : Type) : Type := Z -> Ledger -> outcome error (A * Ledger).

#[export] Instance ltx_ret : MRet ltx := fun A a _ l => Ok (a, l).
#[export] Instance ltx_bind : MBind ltx := fun A B f t now l =>
  match t now l with
  | Ok (a, l) => f a now l
  | Err e => Err e
  | Panic w => Panic w
  end.

Definition try_lift {A} (o : outcome error A) : ltx A := fun _ l => a ← o; Ok (a, l).
Definition ledger_now : ltx Z := fun now l => Ok (now, l).
Definition read_ledger : ltx Ledger := fun _ l => Ok (l, l).
Definition modify (f : Ledger -> Ledger) : ltx unit := fun _ l => Ok (tt, f l).
Definition check (b : bool) (e : error) : ltx unit := try_lift (ensure b e).
(** A transaction on the tables of [Database]. *)
Definition on_gateway {A} (t : tx A) : ltx A := fun now l =>
  '(a, db) ← t now (gateway l); Ok (a, with_gateway db l).

(** [i64::try_from] of an unsigned value. *)
Definition to_i64 (z : Z) : outcome error Z :=
  if z <? 2 ^ 63 then Ok z else Err (message "out of range integral type conversion attempted").

Definition foreign_key_violation : error :=
  [Sqlx "violates foreign key constraint" (SqlxDatabase (Some "23503"%string))].

(** *** What the rest of the gateway reads of the accounts *)

Definition MINA_TOKEN : string := "1".
Definition nonce_of (account : Value) : option string := get account "nonce" ≫= text_of.
Definition nonces_of (rows : gmap (string * string) AccountRow) : gmap string string :=
  list_to_map (omap (fun kv => if bool_decide (kv.1.2 = MINA_TOKEN) then pair kv.1.1 <$> nonce_of (account_json kv.2)
                               else None) (map_to_list rows)).
Definition outer_row (l : Ledger) : option AccountRow :=
  key ← outer_public_key (gateway l); accounts l !! (key, MINA_TOKEN).
(** The account columns of [Db] are what its statements read of the rows. *)
Definition refresh (l : Ledger) : Ledger :=
  with_gateway (with_accounts (outer_public_key (gateway l)) (account_json <$> outer_row l) (nonces_of (accounts l))
                  (pending_commands (gateway l)) (gateway l)) l.

(** Commit, or leave everything as it was. *)
Definition commit {A} (t : ltx A) (now : Z) (l : Ledger) : outcome error A * Ledger :=
  match t now l with
  | Ok (a, l') => (Ok a, refresh l')
  | Err e => (Err e, l)
  | Panic w => (Panic w, l)
  end.

(** ** The rollback of a reorganization ([rollback_after]) *)

Definition history_entry : Type := (uuid * string * string) * HistoryRow.

(** [ORDER BY ethereum_block_number DESC, created_at DESC]. *)
Definition later (a b : history_entry) : Prop :=
  (hr_block b.2).1 < (hr_block a.2).1 \/
  ((hr_block b.2).1 = (hr_block a.2).1 /\ hr_created_at b.2 <= hr_created_at a.2).
#[export] Instance later_dec : RelDecision later.
Proof. unfold RelDecision, later. solve_decision. Defined.

Definition newer_than (ancestor : Z) (e : history_entry) : Prop := ancestor < (hr_block e.2).1.
#[export] Instance newer_than_dec ancestor e : Decision (newer_than ancestor e).
Proof. unfold newer_than. solve_decision. Defined.

Definition histories (ancestor : Z) (l : Ledger) : list history_entry :=
  merge_sort later (filter (newer_than ancestor) (map_to_list (history l))).

(** [UPDATE gateway_accounts SET account_json = account_before ...]. *)
Definition restore_account (rows : gmap (string * string) AccountRow) (e : history_entry)
    : gmap (string * string) AccountRow :=
  alter (fun _ => {| account_json := account_before e.2; ac_block := None |}) (e.1.1.2, e.1.2) rows.

Definition rollback_accounts (ancestor : Z) (l : Ledger) : Ledger :=
  with_history (filter (fun e => ~ newer_than ancestor e) (history l))
    (with_account_rows (foldl restore_account (accounts l) (histories ancestor l)) l).

Definition orphan_block (ancestor number : Z) (b : BlockRow) : BlockRow :=
  if bk_canonical b && (ancestor <? number) then
    {| bk_hash := bk_hash b; bk_parent := bk_parent b; bk_canonical := false; bk_finalized := false |}
  else b.
Definition remove_action (ancestor : Z) (a : ActionRow) : ActionRow :=
  {| gt_address := gt_address a; gt_state_before := gt_state_before a; gt_state_after := gt_state_after a;
     gt_action_data := gt_action_data a; gt_block := gt_block a;
     gt_removed := gt_removed a || (ancestor <? (gt_block a).1) |}.
Definition remove_leaf (ancestor : Z) (f : LeafRow) : LeafRow :=
  {| lf_global_action_index := lf_global_action_index f; lf_action_fields := lf_action_fields f;
     lf_action_fields_hash := lf_action_fields_hash f; lf_leaf := lf_leaf f; lf_token := lf_token f;
     lf_asset_id := lf_asset_id f; lf_action_encoding_version := lf_action_encoding_version f;
     lf_registry_index := lf_registry_index f; lf_record_commitment := lf_record_commitment f;
     lf_recipient := lf_recipient f; lf_zeko_amount := lf_zeko_amount f;
     lf_inner_action_root := lf_inner_action_root f; lf_commit_slot_upper := lf_commit_slot_upper f;
     lf_block := lf_block f; lf_transaction_hash := lf_transaction_hash f;
     lf_removed := lf_removed f || (ancestor <? (lf_block f).1) |}.

(** Whether the job a deposit refers to was submitted above the ancestor. *)
Definition orphaned_job (ancestor : Z) (js : gmap uuid Job) (id : option uuid) : bool :=
  from_option (fun j => above ancestor j) false (id ≫= fun id => js !! id).
Definition unbind_deposit (ancestor : Z) (js : gmap uuid Job) (d : DepositRow) : DepositRow :=
  let bridged := orphaned_job ancestor js (dp_bridge_job_id d) in
  {| dp_columns := dp_columns d;
     dp_bridge_job_id := if bridged then None else dp_bridge_job_id d;
     dp_outer_action := if bridged then None else dp_outer_action d;
     dp_synchronized :=
       if bridged || orphaned_job ancestor js (fst <$> dp_synchronized d) then None else dp_synchronized d;
     dp_removed := dp_removed d || (ancestor <? (dc_block (dp_columns d)).1) |}.

Definition remove_settlement (ancestor : Z) (e : SettlementEvent) : SettlementEvent :=
  {| se_batch_sequence := se_batch_sequence e; se_mina_transaction_hash := se_mina_transaction_hash e;
     se_ledger_hash := se_ledger_hash e; se_outer_action_state := se_outer_action_state e;
     se_outer_action_state_length := se_outer_action_state_length e;
     se_inner_action_state := se_inner_action_state e;
     se_inner_action_state_length := se_inner_action_state_length e; se_slot_lower := se_slot_lower e;
     se_slot_upper := se_slot_upper e; se_inner_batch := se_inner_batch e; se_block := se_block e;
     se_removed := se_removed e || (ancestor <? (se_block e).1) |}.
Definition remove_transition (ancestor : Z) (e : TransitionEvent) : TransitionEvent :=
  {| te_old_action_state := te_old_action_state e; te_new_action_state := te_new_action_state e;
     te_new_deposit_state := te_new_deposit_state e; te_new_deposit_nonce := te_new_deposit_nonce e;
     te_block := te_block e; te_removed := te_removed e || (ancestor <? (te_block e).1) |}.
Definition remove_claim (ancestor : Z) (c : ClaimRow) : ClaimRow :=
  {| cr_recipient := cr_recipient c; cr_zeko_amount := cr_zeko_amount c; cr_ethereum_amount := cr_ethereum_amount c;
     cr_action_fields_hash := cr_action_fields_hash c; cr_block := cr_block c;
     cr_transaction_hash := cr_transaction_hash c; cr_log_index := cr_log_index c;
     cr_removed := cr_removed c || (ancestor <? (cr_block c).1) |}.

(** The events are removed and the explorer's cursor moves back. *)
Definition rollback_explorer (ancestor : Z) (l : Ledger) : Ledger :=
  with_explorer_last_block (Z.min ancestor <$> explorer_last_block l)
    (with_claims (remove_claim ancestor <$> claims l)
      (with_transition_events (remove_transition ancestor <$> transition_events l)
        (with_settlement_events (remove_settlement ancestor <$> settlement_events l) l))).

Definition rollback_rows (ancestor : Z) (l : Ledger) : Ledger :=
  with_deposits (unbind_deposit ancestor (jobs (gateway l)) <$> deposits l)
    (with_leaves (remove_leaf ancestor <$> leaves l)
      (with_gateway_actions (remove_action ancestor <$> gateway_actions l)
        (with_blocks (map_imap (fun number b => Some (orphan_block ancestor number b)) (blocks l)) l))).

(** Deposits reference jobs without a cascade, the history with one. *)
Definition job_exists (js : gmap uuid Job) (id : option uuid) : bool :=
  from_option (fun id => bool_decide (is_Some (js !! id))) true id.
Definition references_ok (l : Ledger) : bool :=
  bool_decide (map_Forall (fun _ d =>
    job_exists (jobs (gateway l)) (dp_bridge_job_id d) = true /\
    job_exists (jobs (gateway l)) (fst <$> dp_synchronized d) = true) (deposits l)).
Definition cascade (l : Ledger) : Ledger :=
  with_history (filter (fun e => is_Some (jobs (gateway l) !! e.1.1.1)) (history l)) l.

Definition rollback_after (ancestor : Z) : ltx unit :=
  ancestor ← try_lift (to_i64 ancestor);
  modify (rollback_accounts ancestor);;
  modify (rollback_rows ancestor);;
  modify (rollback_explorer ancestor);;
  on_gateway (Indexer.rollback_after ancestor);;
  l ← read_ledger;
  check (references_ok l) foreign_key_violation;;
  modify cascade.

End ledger_setters.
