(* ===== verification/Accounts.v ===== *)
(** * Virtual Mina accounts ([api/src/indexer.rs])

    What a confirmed settlement or bridge transition does to the accounts, the
    actions and the leaves the gateway serves to Mina clients. *)

From Stdlib Require Import Strings.Byte.
From stdpp Require Import gmap strings.
From S2P Require Import Prelude Hashing Codec PublicValues BridgeValues InnerActionTree ActionBatch.
From S2P Require Import Rpc Database Program OuterWriter Submission Worker System Ledger.

Section accounts.
Context `{Externals} `{!JsonObjects} `{Keccak}.

(** ** Accounts *)

Definition fetch_account (public_key what : string) : ltx AccountRow :=
  l ← read_ledger;
  try_lift (context (accounts l !! (public_key, MINA_TOKEN))
    (what ++ " virtual Mina account " ++ public_key ++ " is not configured")%string).

(** The first snapshot of a job stays ([ON CONFLICT DO NOTHING]). *)
Definition snapshot_account (job : uuid) (public_key : string) (account : Value) (block : Z * string) : ltx unit :=
  height ← try_lift (to_i64 block.1);
  now ← ledger_now;
  l ← read_ledger;
  match history l !! (job, public_key, MINA_TOKEN) with
  | Some _ => mret tt
  | None =>
    check (bool_decide (is_Some (jobs (gateway l) !! job))) foreign_key_violation;;
    modify (with_history (<[(job, public_key, MINA_TOKEN) :=
      {| account_before := account; hr_block := (height, block.2); hr_created_at := now |}]> (history l)))
  end.

Definition store_account (public_key : string) (account : Value) (block : Z * string) : ltx unit :=
  height ← try_lift (to_i64 block.1);
  modify (fun l => with_account_rows (alter (fun _ => {| account_json := account; ac_block := Some (height, block.2) |})
    (public_key, MINA_TOKEN) (accounts l)) l).

Definition not_an_object : string := "virtual Mina account must be a JSON object".
Definition set_member (key : string) (v account : Value) : outcome error Value :=
  context (object_insert account key v) not_an_object.
Definition ensure_object (account : Value) : outcome error unit :=
  ensure (bool_decide (is_Some (object_insert account "" account))) (message not_an_object).
Definition old_actions (account : Value) : list Value :=
  default (replicate 5 (string_value "0")) (get account "actionState" ≫= as_array).
Definition field_value (b : bytes) : Value := string_value (decimal b).

Definition settled_account (receipt : V1.SettlementPublicValuesV1) (account : Value) : outcome error Value :=
  account ← set_member "zkappState" (array_value (map field_value (os_fields (V1.state_after receipt)))) account;
  account ← set_member "actionState" (array_value
    ([field_value (V1.outer_action_state_after receipt); field_value (V1.outer_action_state_before receipt)] ++
     take 3 (old_actions account))) account;
  set_member "provedState" (bool_value true) account.

Definition update_outer_account (job : uuid) (public_key : string) (receipt : V1.SettlementPublicValuesV1)
    (block : Z * string) : ltx unit :=
  row ← fetch_account public_key "outer";
  snapshot_account job public_key (account_json row) block;;
  account ← try_lift (settled_account receipt (account_json row));
  store_account public_key account block.

Definition bridged_account (expected_state_before : bytes) (states_after : list bytes) (account : Value)
    : outcome error Value :=
  ensure_object account;;
  ensure (bool_decide ((head (old_actions account) ≫= as_str) = Some (decimal expected_state_before)))
    (message "virtual Mina outer account action state is stale");;
  set_member "actionState" (array_value (take 5 (map field_value (rev states_after) ++ old_actions account))) account.

Definition update_outer_account_actions (job : uuid) (public_key : string) (expected_state_before : bytes)
    (states_after : list bytes) (block : Z * string) : ltx unit :=
  row ← fetch_account public_key "outer";
  snapshot_account job public_key (account_json row) block;;
  account ← try_lift (bridged_account expected_state_before states_after (account_json row));
  store_account public_key account block.

Definition fee_payer_nonce_after (current_nonce increment : Z) : outcome error Z :=
  ensure (current_nonce + increment <? 2 ^ 64) (message "fee-payer nonce overflow");;
  mret (current_nonce + increment).

Definition advance_fee_payer (job : uuid) (public_key : string) (expected_nonce : option Z) (increment : Z)
    (block : Z * string) : ltx unit :=
  row ← fetch_account public_key "fee-payer";
  let account := account_json row in
  current_nonce ← try_lift (context (parse_u64 (default "0"%string (get account "nonce" ≫= as_str)))
                              "virtual Mina fee-payer nonce is invalid");
  try_lift (ensure (from_option (fun expected => current_nonce =? expected) true expected_nonce)
              (message "virtual Mina fee-payer nonce does not match expected nonce"));;
  snapshot_account job public_key account block;;
  try_lift (ensure_object account);;
  nonce ← try_lift (fee_payer_nonce_after current_nonce increment);
  account ← try_lift (set_member "nonce" (string_value (i64_to_string nonce)) account);
  store_account public_key account block.

Definition update_fee_payer (job : uuid) (public_key : string) (nonce : Z) (block : Z * string) : ltx unit :=
  advance_fee_payer job public_key (Some nonce) 1 block.

(** ** Actions *)

(** One field of [fields_to_decimal]. *)
Definition field_to_decimal (field : Value) : outcome error Value :=
  encoded ← context (as_str field) "action field must be hex";
  b ← context (hex_decode (default encoded (strip_prefix "0x" encoded))) "invalid hex";
  ensure (length b =? 32)%nat (message "action field must be 32 bytes");;
  mret (field_value b).

Fixpoint map_ok {A B} (f : A -> outcome error B) (l : list A) : outcome error (list B) :=
  match l with
  | [] => Ok []
  | a :: l => b ← f a; l ← map_ok f l; mret (b :: l)
  end.

Definition fields_to_decimal (value : Value) : outcome error Value :=
  events ← context (as_array value) "settlement actions must be an array";
  events ← map_ok (fun event =>
    fields ← context (as_array event) "settlement action must be an array";
    array_value <$> map_ok field_to_decimal fields) events;
  mret (array_value events).

(** [INSERT INTO gateway_actions]; a conflicting row is replaced by [merge]. *)
Definition insert_action (key : string * Z * Z) (row : ActionRow) (merge : ActionRow -> ActionRow) : ltx unit :=
  modify (fun l => with_gateway_actions
    (partial_alter (fun old => Some (from_option merge row old)) key (gateway_actions l)) l).
Definition reinstate (a : ActionRow) : ActionRow := {|
  gt_address := gt_address a; gt_state_before := gt_state_before a; gt_state_after := gt_state_after a;
  gt_action_data := gt_action_data a; gt_block := gt_block a; gt_removed := false |}.
Definition replace_action (row old : ActionRow) : ActionRow := {|
  gt_address := gt_address old; gt_state_before := gt_state_before row; gt_state_after := gt_state_after row;
  gt_action_data := gt_action_data row; gt_block := gt_block row; gt_removed := false |}.

(** ** Inner-action leaves *)

Definition leaf_of_action (receipt : V2.SettlementPublicValuesV2) (batch : InnerActionBatchWitnessV2)
    (global_index : Z) (action : InnerActionWitnessV2) (action_fields_hash : bytes) : outcome error bytes :=
  let chain_id := V1.chain_id (V2.settlement receipt) in
  match ia_withdrawal action, ia_token_withdrawal action with
  | Some w, None => mret (native_withdrawal_leaf chain_id (ib_bridge_address batch) global_index w action_fields_hash)
  | None, Some w => erc20_withdrawal_leaf chain_id (ib_bridge_address batch) global_index w action_fields_hash
  | None, None => mret (raw_inner_action_leaf chain_id (ib_bridge_address batch) global_index action_fields_hash)
  | Some _, Some _ => Err (message "inner action has multiple withdrawal preimages")
  end.

(** The rows of the first loop: offset, index, action, hash of its fields and
    leaf. *)
Definition leaf_entry (receipt : V2.SettlementPublicValuesV2) (batch : InnerActionBatchWitnessV2)
    (e : nat * InnerActionWitnessV2) : outcome error (nat * Z * InnerActionWitnessV2 * bytes * bytes) :=
  let '(offset, action) := e in
  fields_hash ← action_fields_hash (ia_fields action);
  ensure (Z.of_nat offset <=? u32_MAX) (message "out of range integral type conversion attempted");;
  global_index ← context (checked_add_u32 (V2.inner_action_start_index receipt) (Z.of_nat offset))
                   "inner action index overflow";
  leaf ← leaf_of_action receipt batch global_index action fields_hash;
  mret (offset, global_index, action, fields_hash, leaf).

(** Token, asset, encoding version, registry index, record commitment,
    recipient and amount of an action. *)
Definition withdrawal_columns (action : InnerActionWitnessV2)
    : outcome error (option string * option string * option Z * option Z * option string * option string * option Z) :=
  match ia_withdrawal action, ia_token_withdrawal action with
  | Some w, None => mret (None, None, None, None, None, Some (hex (nw_recipient w)), Some (nw_amount w))
  | None, Some w =>
    ensure (tw_encoding_version w <? 2 ^ 31) (message "out of range integral type conversion attempted");;
    let registered := tw_encoding_version w =? 2 in
    mret (Some (hex (tw_token w)), Some (hex (tw_asset_id w)), Some (tw_encoding_version w),
          if registered then Some (tw_registry_index w) else None,
          if registered then Some (hex (tw_record_commitment w)) else None,
          Some (hex (tw_recipient w)), Some (tw_amount w))
  | None, None => mret (None, None, None, None, None, None, None)
  | Some _, Some _ => Err (message "inner action has multiple withdrawal preimages")
  end.

Definition leaf_row (receipt : V2.SettlementPublicValuesV2) (block : Z * string) (transaction_hash : string)
    (e : nat * Z * InnerActionWitnessV2 * bytes * bytes) : outcome error ((Z * Z) * LeafRow) :=
  let '(offset, global_index, action, fields_hash, leaf) := e in
  '(token, asset_id, version, registry_index, record_commitment, recipient, amount) ← withdrawal_columns action;
  sequence ← to_i64 (V1.batch_sequence (V2.settlement receipt));
  ensure (Z.of_nat offset <? 2 ^ 31) (message "out of range integral type conversion attempted");;
  height ← to_i64 block.1;
  mret ((sequence, Z.of_nat offset), {|
    lf_global_action_index := global_index;
    lf_action_fields := fields_value (ia_fields action);
    lf_action_fields_hash := hex fields_hash;
    lf_leaf := hex leaf;
    lf_token := token;
    lf_asset_id := asset_id;
    lf_action_encoding_version := version;
    lf_registry_index := registry_index;
    lf_record_commitment := record_commitment;
    lf_recipient := recipient;
    lf_zeko_amount := amount;
    lf_inner_action_root := hex (V2.inner_action_root receipt);
    lf_commit_slot_upper := V1.slot_upper (V2.settlement receipt);
    lf_block := (height, block.2);
    lf_transaction_hash := transaction_hash;
    lf_removed := false |}).

Definition leaf_rows (input : Value) (receipt : V2.SettlementPublicValuesV2) (block : Z * string)
    (transaction_hash : string) : outcome error (list ((Z * Z) * LeafRow)) :=
  batch ← context (pointer input "/proof/innerActionBatch" ≫= parse_inner_action_batch)
            "V2 settlement is missing innerActionBatch";
  ensure (bool_decide (ib_bridge_address batch = V2.bridge_address receipt))
    (message "inner-action bridge address does not match receipt");;
  ensure (Z.of_nat (length (ib_actions batch)) =? V2.inner_action_count receipt)
    (message "inner-action count does not match receipt");;
  entries ← map_ok (leaf_entry receipt batch) (imap pair (ib_actions batch));
  computed ← root (map snd entries);
  ensure (bool_decide (computed = V2.inner_action_root receipt))
    (message "stored inner actions do not reproduce settlement root");;
  map_ok (leaf_row receipt block transaction_hash) entries.

Definition store_inner_action_leaves (input : Value) (receipt : V2.SettlementPublicValuesV2) (block : Z * string)
    (transaction_hash : string) : ltx unit :=
  rows ← try_lift (leaf_rows input receipt block transaction_hash);
  modify (fun l => with_leaves (foldl (fun m row => <[row.1 := row.2]> m) (leaves l) rows) l).

(** ** Confirmed receipts *)

Definition decode_receipt (public_values_hex : string) : outcome error bytes :=
  context (hex_decode (default public_values_hex (strip_prefix "0x" public_values_hex))) "invalid hex".

Definition has_history (job : uuid) (l : Ledger) : bool :=
  bool_decide (Exists (fun e => e.1.1.1 = job) (map_to_list (history l))).

(** Deposits whose action the settlement synchronizes. *)
Definition synchronize (job : uuid) (sequence through : Z) (d : DepositRow) : DepositRow :=
  let through_here := from_option (fun a => a.1 <=? through) false (dp_outer_action d) in
  if negb (dp_removed d) && bool_decide (is_Some (dp_bridge_job_id d)) && through_here &&
     bool_decide (dp_synchronized d = None)
  then {| dp_columns := dp_columns d; dp_bridge_job_id := dp_bridge_job_id d; dp_outer_action := dp_outer_action d;
          dp_synchronized := Some (job, sequence); dp_removed := dp_removed d |}
  else d.

Definition set_outer_public_key (key : string) (db : Db) : Db :=
  with_accounts (Some key) (outer_account db) (account_nonces db) (pending_commands db) db.

Definition apply_settlement_update (job : uuid) (input submission : Value) (values : SettlementPublicValues)
    (block : Z * string) (transaction_hash : string) : ltx unit :=
  let receipt := settlement_of values in
  outer_public_key ← try_lift (context (get submission "outerAccountPublicKey" ≫= as_str)
                                 "outerAccountPublicKey missing");
  fee_payer_public_key ← try_lift (context (get submission "feePayerPublicKey" ≫= as_str)
                                     "feePayerPublicKey missing");
  fee_payer_nonce ← try_lift (context (get submission "nonce" ≫= as_u64) "fee payer nonce missing");
  actions ← try_lift (context (pointer input "/proof/binding/actions") "settlement actions missing");
  modify (fun l => with_gateway (set_outer_public_key outer_public_key (gateway l)) l);;
  update_outer_account job outer_public_key receipt block;;
  update_fee_payer job fee_payer_public_key fee_payer_nonce block;;
  data ← try_lift (fields_to_decimal actions);
  height ← try_lift (to_i64 block.1);
  insert_action (transaction_hash, 0, V1.outer_action_state_length_after receipt) {|
    gt_address := outer_public_key;
    gt_state_before := decimal (V1.outer_action_state_before receipt);
    gt_state_after := decimal (V1.outer_action_state_after receipt);
    gt_action_data := data;
    gt_block := (height, block.2);
    gt_removed := false |} reinstate;;
  on_gateway (delete_pending job);;
  if bool_decide (is_Some (pointer input "/proof/innerActionBatch")) then
    batch ← try_lift (context (inner_action_batch values) "settlement receipt does not bind an inner-action batch");
    store_inner_action_leaves input batch block transaction_hash
  else mret tt.

Definition apply_confirmed_settlement (job : uuid) (input : Value) (public_values_hex : string)
    (block : Z * string) (transaction_hash : string) : ltx unit :=
  b ← try_lift (decode_receipt public_values_hex);
  values ← try_lift (settlement_values b);
  let receipt := settlement_of values in
  sequence ← try_lift (to_i64 (V1.batch_sequence receipt));
  modify (fun l => with_deposits
    (synchronize job sequence (V1.synchronized_outer_action_state_length receipt) <$> deposits l) l);;
  l ← read_ledger;
  if has_history job l then mret tt
  else match get input "submission" with
       | None => mret tt
       | Some submission => apply_settlement_update job input submission values block transaction_hash
       end.

(** The checks of a bridge receipt before the transaction begins. *)
Definition check_bridge_receipt (v : BridgeTransitionPublicValuesV2) : outcome error unit :=
  ensure (bool_decide (actions v <> [])) (message "bridge receipt contains no actions");;
  ensure (Z.of_nat (length (actions v)) <=? u32_MAX) (message "out of range integral type conversion attempted");;
  length_after ← context (checked_add_u32 (zeko_action_state_length_before v) (Z.of_nat (length (actions v))))
                   "bridge action-state length overflow";
  ensure (zeko_action_state_length_after v =? length_after)
    (message "bridge receipt action-state length mismatch");;
  ensure (bool_decide (ba_state_after <$> last (actions v) = Some (zeko_action_state_after v)))
    (message "bridge receipt final action state mismatch").

(** [before + offset + 1], checked. *)
Definition bridge_nonce (v : BridgeTransitionPublicValuesV2) (offset : nat) : outcome error Z :=
  let n := ethereum_nonce_before v + Z.of_nat offset + 1 in
  ensure (n <? 2 ^ 64) (message "bridge deposit nonce overflow");; mret n.
Definition bridge_sequence (v : BridgeTransitionPublicValuesV2) (offset : nat) : outcome error Z :=
  let n := zeko_action_state_length_before v + Z.of_nat offset + 1 in
  ensure (n <? 2 ^ 32) (message "bridge action sequence overflow");; mret n.

(** The deposit of one action of the receipt. *)
Definition bind_deposit (job : uuid) (v : BridgeTransitionPublicValuesV2) (e : nat * BridgeOuterActionV2)
    : ltx unit :=
  let '(offset, action) := e in
  nonce ← try_lift (bridge_nonce v offset);
  sequence ← try_lift (bridge_sequence v offset);
  nonce ← try_lift (to_i64 nonce);
  l ← read_ledger;
  match deposits l !! nonce with
  | Some d =>
    check (negb (dp_removed d) && (bool_decide (dp_bridge_job_id d = None) || bool_decide (dp_bridge_job_id d = Some job)))
      (message "confirmed bridge receipt does not map to canonical deposit nonce");;
    modify (with_deposits (<[nonce := {| dp_columns := dp_columns d; dp_bridge_job_id := Some job;
      dp_outer_action := Some (sequence, decimal (ba_state_after action)); dp_synchronized := dp_synchronized d;
      dp_removed := dp_removed d |}]> (deposits l)))
  | None => try_lift (Err (message "confirmed bridge receipt does not map to canonical deposit nonce"))
  end.

Fixpoint for_each {A} (f : A -> ltx unit) (l : list A) : ltx unit :=
  match l with
  | [] => mret tt
  | a :: l => f a;; for_each f l
  end.

(** The actions with the state before each. *)
Fixpoint with_states_before {A} (after : A -> bytes) (before : bytes) (l : list A) : list (bytes * A) :=
  match l with
  | [] => []
  | a :: l => (before, a) :: with_states_before after (after a) l
  end.

Definition insert_bridge_action (v : BridgeTransitionPublicValuesV2) (address : string) (block : Z * string)
    (transaction_hash : string) (e : nat * (bytes * BridgeOuterActionV2)) : ltx unit :=
  let '(offset, (state_before, action)) := e in
  sequence ← try_lift (bridge_sequence v offset);
  height ← try_lift (to_i64 block.1);
  let row := {|
    gt_address := address;
    gt_state_before := decimal state_before;
    gt_state_after := decimal (ba_state_after action);
    gt_action_data := array_value [array_value (map field_value (ba_fields action))];
    gt_block := (height, block.2);
    gt_removed := false |} in
  insert_action (transaction_hash, Z.of_nat offset, sequence) row (replace_action row).

Definition apply_bridge_update (job : uuid) (v : BridgeTransitionPublicValuesV2) (block : Z * string)
    (transaction_hash : string) : ltx unit :=
  l ← read_ledger;
  outer ← try_lift (context (outer_public_key (gateway l))
            "VIRTUAL_MINA_OUTER_PUBLIC_KEY is required before applying a bridge receipt");
  update_outer_account_actions job outer (zeko_action_state_before v) (map ba_state_after (actions v)) block;;
  for_each (insert_bridge_action v outer block transaction_hash)
    (imap pair (with_states_before ba_state_after (zeko_action_state_before v) (actions v))).

Definition apply_confirmed_bridge (job : uuid) (public_values_hex : string) (block : Z * string)
    (transaction_hash : string) : ltx unit :=
  b ← try_lift (decode_receipt public_values_hex);
  v ← try_lift (bridge_values b);
  try_lift (check_bridge_receipt v);;
  for_each (bind_deposit job v) (imap pair (actions v));;
  l ← read_ledger;
  if has_history job l then mret tt else apply_bridge_update job v block transaction_hash.

End accounts.
