(* ===== verification/ChainIndex.v ===== *)
(** * The chain index ([api/src/indexer.rs])

    [index_blocks] and what it calls: the canonical blocks, their bridge
    deposits, the common ancestor after a reorganization and the finality
    flags.  The node may answer differently at every call. *)

From stdpp Require Import gmap strings.
From S2P Require Import Prelude Rpc Database Program Worker Indexer System Ledger Accounts.

(** ** Logs

    [B256] and [Address] values are the texts they print. *)

Inductive ERC20DepositIdentity :=
| HistoricalV1 (asset_id : string)
| RegistryV2 (asset_id : string) (registry_index : Z) (record_commitment : string).

Definition identity_asset_id (i : ERC20DepositIdentity) : string :=
  match i with HistoricalV1 asset_id | RegistryV2 asset_id _ _ => asset_id end.
Definition action_encoding_version (i : ERC20DepositIdentity) : Z :=
  match i with HistoricalV1 _ => 1 | RegistryV2 _ _ _ => 2 end.
Definition identity_registry_index (i : ERC20DepositIdentity) : option Z :=
  match i with HistoricalV1 _ => None | RegistryV2 _ registry_index _ => Some registry_index end.
Definition identity_record_commitment (i : ERC20DepositIdentity) : option string :=
  match i with HistoricalV1 _ => None | RegistryV2 _ _ record_commitment => Some record_commitment end.

Record BridgeDepositLog := {
  bl_nonce : Z;
  bl_deposit_leaf : string;
  bl_new_deposit_state : string;
  bl_old_deposit_state : string;
  bl_token : string;
  bl_sender : string;
  bl_zeko_recipient : string;
  bl_amount : Z;
  bl_zeko_amount : Z;
  bl_timeout : Z;
  bl_erc20_identity : option ERC20DepositIdentity;
  bl_block_number : Z;
  bl_block_hash : string;
  bl_transaction_hash : string;
  bl_log_index : Z
}.

Record SettlementAcceptedLog := {
  sl_batch_sequence : Z;
  sl_mina_transaction_hash : string;
  sl_ledger_hash : string;
  sl_outer_action_state : string;
  sl_outer_action_state_length : Z;
  sl_inner_action_state : string;
  sl_inner_action_state_length : Z;
  sl_slot_lower : Z;
  sl_slot_upper : Z;
  sl_block_number : Z;
  sl_block_hash : string;
  sl_transaction_hash : string;
  sl_log_index : Z
}.

Record InnerActionBatchAcceptedLog := {
  il_batch_sequence : Z;
  il_state_after : string;
  il_root : string;
  il_start_index : Z;
  il_count : Z;
  il_claimable_slot : Z;
  il_transaction_hash : string
}.

Record NativeWithdrawalClaimedLog := {
  cl_settlement_sequence : Z;
  cl_global_action_index : Z;
  cl_recipient : string;
  cl_zeko_amount : Z;
  cl_ethereum_amount : Z;
  cl_action_fields_hash : string;
  cl_block_number : Z;
  cl_block_hash : string;
  cl_transaction_hash : string;
  cl_log_index : Z
}.

Record BridgeTransitionAcceptedLog := {
  tl_old_action_state : string;
  tl_new_action_state : string;
  tl_new_deposit_state : string;
  tl_new_deposit_nonce : Z;
  tl_block_number : Z;
  tl_block_hash : string;
  tl_transaction_hash : string;
  tl_log_index : Z
}.

(** ** The node and the indexer's monad *)

(** The logs of the explorer are asked for a range of blocks; the clock and
    the uuids drawn are answers as well. *)
Record Node := {
  block_at : nat -> Z -> outcome error BlockRef;
  deposit_logs_at : nat -> BlockRef -> outcome error (list BridgeDepositLog);
  settlement_logs_at : nat -> Z -> Z -> outcome error (list SettlementAcceptedLog);
  batch_logs_at : nat -> Z -> Z -> outcome error (list InnerActionBatchAcceptedLog);
  transition_logs_at : nat -> Z -> Z -> outcome error (list BridgeTransitionAcceptedLog);
  claim_logs_at : nat -> Z -> Z -> outcome error (list NativeWithdrawalClaimedLog);
  head_at : nat -> outcome error Z;
  finalized_block_at : nat -> outcome error BlockRef;
  public_values_at : nat -> ProofKind -> string -> outcome error bytes;
  receipt_at : nat -> string -> outcome error (option Receipt);
  uuid_at : nat -> uuid;
  now_at : nat -> Z
}.

(** [Config]. *)
Record IndexConfig := {
  ic_start_block : option Z;
  ic_finality_mode : FinalityMode;
  ic_confirmations : Z;
  ic_fee_payer_public_key : option string
}.

Section index.
Context `{Externals}.

(** Committed transactions stay when a later step fails; the number counts
    the calls and transactions so far. *)
Definition ix (A : Type) : Type := Node -> nat * Ledger -> outcome error A * (nat * Ledger).

#[export] Instance ix_ret : MRet ix := fun A a _ s => (Ok a, s).
#[export] Instance ix_bind : MBind ix := fun A B f t node s =>
  match t node s with
  | (Ok a, s) => f a node s
  | (Err e, s) => (Err e, s)
  | (Panic w, s) => (Panic w, s)
  end.

Definition ix_lift {A} (o : outcome error A) : ix A := fun _ s => (o, s).
Definition select {A} (f : Ledger -> A) : ix A := fun _ s => (Ok (f s.2), s).
Definition node_block (number : Z) : ix BlockRef := fun node s => (block_at node s.1 number, (S s.1, s.2)).
Definition node_deposit_logs (block : BlockRef) : ix (list BridgeDepositLog) := fun node s =>
  (deposit_logs_at node s.1 block, (S s.1, s.2)).
Definition ask_node {A} (f : Node -> nat -> outcome error A) : ix A := fun node s => (f node s.1, (S s.1, s.2)).
Definition execute {A} (t : ltx A) : ix A := fun node s =>
  let r := commit t (now_at node s.1) s.2 in (r.1, (S s.1, r.2)).

(** A loop that did not end within its fuel. *)
Definition out_of_fuel {A} : outcome error A := Panic "out of fuel".

(** ** Statements *)

Definition canonical_block (l : Ledger) (number : Z) : option BlockRow :=
  b ← blocks l !! number; if bk_canonical b then Some b else None.
Definition canonical_hash (l : Ledger) (number : Z) : option string := bk_hash <$> canonical_block l number.

(** [WHERE canonical ORDER BY block_number DESC LIMIT 1]. *)
Definition latest_block (l : Ledger) : option (Z * string) :=
  map_fold (fun number b acc =>
    if bk_canonical b && from_option (fun best => best.1 <? number) true acc then Some (number, bk_hash b) else acc)
    None (blocks l).

(** [MAX(block_number) ... WHERE canonical AND finalized]. *)
Definition finalized_height (l : Ledger) : option Z :=
  map_fold (fun number b acc =>
    if bk_canonical b && bk_finalized b then Some (from_option (Z.max number) number acc) else acc)
    None (blocks l).

Definition to_u64 (z : Z) : outcome error Z :=
  if 0 <=? z then Ok z else Err (message "negative indexed Ethereum block").

(** *** Deposits *)

Definition deposit_columns (log : BridgeDepositLog) : DepositColumns := {|
  dc_deposit_leaf := bl_deposit_leaf log;
  dc_old_deposit_state := bl_old_deposit_state log;
  dc_new_deposit_state := bl_new_deposit_state log;
  dc_token := bl_token log;
  dc_asset_id := identity_asset_id <$> bl_erc20_identity log;
  dc_action_encoding_version := from_option action_encoding_version 0 (bl_erc20_identity log);
  dc_registry_index := bl_erc20_identity log ≫= identity_registry_index;
  dc_record_commitment := bl_erc20_identity log ≫= identity_record_commitment;
  dc_sender := bl_sender log;
  dc_zeko_recipient := bl_zeko_recipient log;
  dc_ethereum_amount := bl_amount log;
  dc_zeko_amount := bl_zeko_amount log;
  dc_timeout := bl_timeout log;
  dc_block := (bl_block_number log, bl_block_hash log);
  dc_transaction_hash := bl_transaction_hash log;
  dc_log_index := bl_log_index log |}.

(** A log that moved keeps the bindings of the row it replaces. *)
Definition upsert_deposit (c : DepositColumns) (old : option DepositRow) : DepositRow := {|
  dp_columns := c;
  dp_bridge_job_id := old ≫= dp_bridge_job_id;
  dp_outer_action := old ≫= dp_outer_action;
  dp_synchronized := old ≫= dp_synchronized;
  dp_removed := false |}.

(** [UNIQUE (ethereum_tx_hash, ethereum_log_index)] (migration 0009), for a
    row under [nonce]. *)
Definition deposit_unique (nonce : Z) (c : DepositColumns) (rows : gmap Z DepositRow) : bool :=
  bool_decide (map_Forall (fun nonce' d =>
    nonce' = nonce \/ dc_transaction_hash (dp_columns d) <> dc_transaction_hash c \/
    dc_log_index (dp_columns d) <> dc_log_index c) rows).

Definition insert_deposit (block : BlockRef) (log : BridgeDepositLog) : ltx unit :=
  check ((bl_block_number log =? br_number block) && bool_decide (bl_block_hash log = br_hash block))
    (message "bridge deposit RPC returned logs outside the requested block");;
  nonce ← try_lift (to_i64 (bl_nonce log));
  try_lift (to_i64 (bl_timeout log));;
  try_lift (to_i64 (bl_block_number log));;
  try_lift (to_i64 (bl_log_index log));;
  check ((0 <? nonce) && (0 <? bl_amount log) && (0 <? bl_zeko_amount log)) check_violation;;
  l ← read_ledger;
  check (deposit_unique nonce (deposit_columns log) (deposits l)) unique_violation;;
  modify (with_deposits (<[nonce := upsert_deposit (deposit_columns log) (deposits l !! nonce)]> (deposits l))).

(** *** Blocks *)

Definition block_row (block : BlockRef) : BlockRow := {|
  bk_hash := br_hash block; bk_parent := br_parent_hash block; bk_canonical := true; bk_finalized := false |}.
(** [block_hash] is unique (migration 0004). *)
Definition block_unique (number : Z) (hash : string) (rows : gmap Z BlockRow) : bool :=
  bool_decide (map_Forall (fun number' b => number' = number \/ bk_hash b <> hash) rows).

Definition insert_block (block : BlockRef) : ltx unit :=
  number ← try_lift (to_i64 (br_number block));
  l ← read_ledger;
  check (block_unique number (br_hash block) (blocks l)) unique_violation;;
  modify (with_blocks (<[number := block_row block]> (blocks l))).

Definition index_bridge_deposits (block : BlockRef) : ix unit :=
  logs ← node_deposit_logs block;
  execute (for_each (insert_deposit block) logs;; insert_block block).

(** ** Reorganizations *)

Fixpoint common_ancestor (fuel : nat) (remote : BlockRef) : ix Z :=
  match fuel with
  | O => ix_lift out_of_fuel
  | S fuel =>
    number ← ix_lift (to_i64 (br_number remote));
    local ← select (fun l => canonical_hash l number);
    if bool_decide (local = Some (br_hash remote)) then mret (br_number remote)
    else if bool_decide (local = None) then mret (br_number remote)
    else
      ix_lift (ensure (0 <? br_number remote) (message "Ethereum genesis hash changed"));;
      remote ← node_block (br_number remote - 1);
      common_ancestor fuel remote
  end.

(** Whether a finalized block would be rolled back. *)
Definition would_reorg_finalized (ancestor : Z) (l : Ledger) : bool :=
  from_option (fun height => ancestor <? height) false (finalized_height l).

Definition rollback_canonical_chain (mode : FinalityMode) (ancestor : Z) : ix unit :=
  (match mode with
   | Finalized =>
     height ← ix_lift (to_i64 ancestor);
     reorg ← select (would_reorg_finalized height);
     ix_lift (ensure (negb reorg)
       (message "Ethereum canonical chain conflicts with a consensus-finalized checkpoint"))
   | Confirmations => mret tt
   end);;
  execute (Ledger.rollback_after ancestor).

Definition ensure_parent (fuel : nat) (mode : FinalityMode) (block : BlockRef) : ix unit :=
  if br_number block =? 0 then mret tt
  else
    height ← ix_lift (to_i64 (br_number block - 1));
    local_parent ← select (fun l => canonical_hash l height);
    if bool_decide (local_parent = Some (br_parent_hash block)) then mret tt
    else if bool_decide (local_parent = None) then mret tt
    else
      parent ← node_block (br_number block - 1);
      ix_lift (ensure (bool_decide (br_hash parent = br_parent_hash block))
        (message "Ethereum parent changed while indexing; refetch the child block"));;
      ancestor ← common_ancestor fuel parent;
      rollback_canonical_chain mode ancestor;;
      ix_lift (ensure (ancestor + 1 =? br_number block)
        (message "Ethereum reorg rolled back; caller must refetch from the new tip")).

(** ** [index_blocks] *)

(** The tip of the index, after a check that a stationary or regressed head
    still is what was indexed. *)
Definition current_tip (fuel : nat) (config : IndexConfig) (head : Z) : ix (option (Z * string)) :=
  latest ← select latest_block;
  match latest with
  | None => mret None
  | Some (number, hash) =>
    ix_lift (to_u64 number);;
    if head <=? number then
      remote ← node_block head;
      if (head <? number) || negb (bool_decide (hash = br_hash remote)) then
        ancestor ← common_ancestor fuel remote;
        rollback_canonical_chain (ic_finality_mode config) ancestor;;
        select latest_block
      else mret latest
    else mret latest
  end.

Definition first_block (config : IndexConfig) (head : Z) (latest : option (Z * string)) : outcome error Z :=
  match latest with
  | Some (number, _) => number ← to_u64 number; mret (number + 1)
  | None => mret (Z.min (default head (ic_start_block config)) head)
  end.

(** The [while] loop. *)
Fixpoint index_through (fuel : nat) (config : IndexConfig) (head next : Z) : ix unit :=
  if next <=? head then
    match fuel with
    | O => ix_lift out_of_fuel
    | S fuel' =>
      block ← node_block next;
      ensure_parent fuel (ic_finality_mode config) block;;
      index_bridge_deposits block;;
      index_through fuel' config head (br_number block + 1)
    end
  else mret tt.

(** How far blocks are final. *)
Definition finalized_through (config : IndexConfig) (head : Z) (finalized_block : option BlockRef) : ix (option Z) :=
  match finalized_block with
  | Some block =>
    ix_lift (ensure (br_number block <=? head) (message "Ethereum finalized head is above latest head"));;
    number ← ix_lift (to_i64 (br_number block));
    indexed_hash ← select (fun l => canonical_hash l number);
    ix_lift (ensure (from_option (fun hash => bool_decide (hash = br_hash block)) true indexed_hash)
      (message "Ethereum finalized head does not match the indexed canonical hash"));;
    previous_finalized ← select finalized_height;
    ix_lift (from_option (fun height => to_u64 height;; mret tt) (mret tt) previous_finalized);;
    ix_lift (ensure (from_option (fun height => height <=? br_number block) true previous_finalized)
      (message "Ethereum finalized head regressed"));;
    mret (Some (br_number block))
  | None =>
    let behind := Z.max (ic_confirmations config) 1 - 1 in
    mret (if behind <=? head then Some (head - behind) else None)
  end.

Definition finalize_block (through : option Z) (number : Z) (b : BlockRow) : BlockRow := {|
  bk_hash := bk_hash b; bk_parent := bk_parent b; bk_canonical := bk_canonical b;
  bk_finalized := bk_canonical b && from_option (fun through => number <=? through) false through |}.

Definition advance_finality (config : IndexConfig) (head : Z) (finalized_block : option BlockRef) : ix unit :=
  head_block ← node_block head;
  height ← ix_lift (to_i64 head);
  indexed_head ← select (fun l => canonical_hash l height);
  ix_lift (ensure (bool_decide (indexed_head = Some (br_hash head_block)))
    (message "Ethereum head changed while indexing; retry before advancing finality"));;
  through ← finalized_through config head finalized_block;
  execute (modify (fun l =>
    with_blocks (map_imap (fun number b => Some (finalize_block through number b)) (blocks l)) l));;
  execute (modify (with_config_head (height, br_hash head_block))).

Definition index_blocks (fuel : nat) (config : IndexConfig) (head : Z) (finalized_block : option BlockRef) : ix unit :=
  latest ← current_tip fuel config head;
  next ← ix_lift (first_block config head latest);
  index_through fuel config head next;;
  advance_finality config head finalized_block.

End index.
