(* ===== verification/ExplorerIndex.v ===== *)
(** * The explorer's event tables ([api/src/indexer.rs])

    [index_explorer_events_through] copies accepted settlements, their
    inner-action batches, bridge transitions and withdrawal claims, in ranges
    of a thousand blocks behind a cursor of its own. *)

From stdpp Require Import gmap strings.
From S2P Require Import Prelude Rpc Database Program Worker Indexer System Ledger Accounts ChainIndex.

Section explorer.
Context `{Externals}.

Definition node_logs {A} (f : Node -> nat -> Z -> Z -> outcome error (list A)) (from_block to_block : Z)
    : ix (list A) := fun node s => (f node s.1 from_block to_block, (S s.1, s.2)).

Fixpoint for_logs {A} (f : A -> ix unit) (l : list A) : ix unit :=
  match l with
  | [] => mret tt
  | a :: l => f a;; for_logs f l
  end.

(** Each row is a statement of its own; a conflicting row is replaced. *)
Definition insert_transition (log : BridgeTransitionAcceptedLog) : ltx unit :=
  nonce ← try_lift (to_i64 (tl_new_deposit_nonce log));
  height ← try_lift (to_i64 (tl_block_number log));
  index ← try_lift (to_i64 (tl_log_index log));
  modify (fun l => with_transition_events (<[(tl_transaction_hash log, index) := {|
    te_old_action_state := tl_old_action_state log;
    te_new_action_state := tl_new_action_state log;
    te_new_deposit_state := tl_new_deposit_state log;
    te_new_deposit_nonce := nonce;
    te_block := (height, tl_block_hash log);
    te_removed := false |}]> (transition_events l)) l).

(** The columns of the inner-action batch are cleared until its event. *)
Definition insert_settlement (log : SettlementAcceptedLog) : ltx unit :=
  sequence ← try_lift (to_i64 (sl_batch_sequence log));
  height ← try_lift (to_i64 (sl_block_number log));
  index ← try_lift (to_i64 (sl_log_index log));
  modify (fun l => with_settlement_events (<[(sl_transaction_hash log, index) := {|
    se_batch_sequence := sequence;
    se_mina_transaction_hash := sl_mina_transaction_hash log;
    se_ledger_hash := sl_ledger_hash log;
    se_outer_action_state := sl_outer_action_state log;
    se_outer_action_state_length := sl_outer_action_state_length log;
    se_inner_action_state := sl_inner_action_state log;
    se_inner_action_state_length := sl_inner_action_state_length log;
    se_slot_lower := sl_slot_lower log;
    se_slot_upper := sl_slot_upper log;
    se_inner_batch := None;
    se_block := (height, sl_block_hash log);
    se_removed := false |}]> (settlement_events l)) l).

Definition batch_row (log : InnerActionBatchAcceptedLog) (sequence : Z) (key : string * Z) (e : SettlementEvent) : bool :=
  (se_batch_sequence e =? sequence) && bool_decide (key.1 = il_transaction_hash log) &&
  bool_decide (se_inner_action_state e = il_state_after log) && negb (se_removed e).
Definition with_batch (log : InnerActionBatchAcceptedLog) (e : SettlementEvent) : SettlementEvent := {|
  se_batch_sequence := se_batch_sequence e;
  se_mina_transaction_hash := se_mina_transaction_hash e;
  se_ledger_hash := se_ledger_hash e;
  se_outer_action_state := se_outer_action_state e;
  se_outer_action_state_length := se_outer_action_state_length e;
  se_inner_action_state := se_inner_action_state e;
  se_inner_action_state_length := se_inner_action_state_length e;
  se_slot_lower := se_slot_lower e;
  se_slot_upper := se_slot_upper e;
  se_inner_batch := Some (il_root log, il_start_index log, il_count log, il_claimable_slot log);
  se_block := se_block e;
  se_removed := se_removed e |}.

(** The number of rows updated. *)
Definition update_batch (log : InnerActionBatchAcceptedLog) : ltx nat :=
  sequence ← try_lift (to_i64 (il_batch_sequence log));
  l ← read_ledger;
  modify (with_settlement_events (map_imap (fun key e =>
    Some (if batch_row log sequence key e then with_batch log e else e)) (settlement_events l)));;
  mret (size (filter (fun row => batch_row log sequence row.1 row.2 = true) (settlement_events l))).

(** [UNIQUE (ethereum_tx_hash, ethereum_log_index)] (migration 0014). *)
Definition claim_unique (key : Z * Z) (transaction_hash : string) (index : Z) (rows : gmap (Z * Z) ClaimRow) : bool :=
  bool_decide (map_Forall (fun key' c =>
    key' = key \/ cr_transaction_hash c <> transaction_hash \/ cr_log_index c <> index) rows).

Definition insert_claim (log : NativeWithdrawalClaimedLog) : ltx unit :=
  sequence ← try_lift (to_i64 (cl_settlement_sequence log));
  height ← try_lift (to_i64 (cl_block_number log));
  index ← try_lift (to_i64 (cl_log_index log));
  let key := (sequence, cl_global_action_index log) in
  l ← read_ledger;
  check (claim_unique key (cl_transaction_hash log) index (claims l)) unique_violation;;
  modify (with_claims (<[key := {|
    cr_recipient := cl_recipient log;
    cr_zeko_amount := cl_zeko_amount log;
    cr_ethereum_amount := cl_ethereum_amount log;
    cr_action_fields_hash := cl_action_fields_hash log;
    cr_block := (height, cl_block_hash log);
    cr_transaction_hash := cl_transaction_hash log;
    cr_log_index := index;
    cr_removed := false |}]> (claims l))).

Definition index_explorer_events (from_block to_block : Z) : ix unit :=
  transitions ← node_logs transition_logs_at from_block to_block;
  for_logs (fun log => execute (insert_transition log)) transitions;;
  settlements ← node_logs settlement_logs_at from_block to_block;
  for_logs (fun log => execute (insert_settlement log)) settlements;;
  batches ← node_logs batch_logs_at from_block to_block;
  for_logs (fun log =>
    updated ← execute (update_batch log);
    ix_lift (ensure (updated =? 1)%nat
      (message "inner-action batch event did not match its settlement event"))) batches;;
  claimed ← node_logs claim_logs_at from_block to_block;
  for_logs (fun log => execute (insert_claim log)) claimed.

(** [SELECT MIN(block_number) ... WHERE canonical]. *)
Definition first_indexed (l : Ledger) : option Z :=
  map_fold (fun number b acc => if bk_canonical b then Some (from_option (Z.min number) number acc) else acc)
    None (blocks l).

Definition explorer_start (config : IndexConfig) (head : Z) (l : Ledger) : outcome error Z :=
  match explorer_last_block l with
  | Some last_block => number ← to_u64 last_block; mret (number + 1)
  | None =>
    let indexed := first_indexed l ≫= fun block => if 0 <=? block then Some block else None in
    mret (Z.min (default head (match ic_start_block config with Some start => Some start | None => indexed end)) head)
  end.

(** The [while] loop; [saturating_add] on 64 bits. *)
Fixpoint explorer_loop (fuel : nat) (head next : Z) : ix unit :=
  if next <=? head then
    match fuel with
    | O => ix_lift out_of_fuel
    | S fuel =>
      let through := Z.min (Z.min (next + 999) u64_MAX) head in
      index_explorer_events next through;;
      height ← ix_lift (to_i64 through);
      execute (modify (with_explorer_last_block (Some height)));;
      if through =? head then mret tt else explorer_loop fuel head (through + 1)
    end
  else mret tt.

Definition index_explorer_events_through (fuel : nat) (config : IndexConfig) (head : Z) : ix unit :=
  start ← select (explorer_start config head);
  next ← ix_lift start;
  explorer_loop fuel head next.

(** ** The loop *)

(** One more than a thousandth of the blocks is enough fuel. *)
Lemma explorer_loop_fuel fuel k head next node s :
  head <= u64_MAX -> head + 1 - next <= 1000 * Z.of_nat fuel ->
  explorer_loop (fuel + k) head next node s = explorer_loop fuel head next node s.
Proof.
  intros Hmax. revert next s. induction fuel as [|fuel IH]; intros next s Hf.
  - assert (head < next) as Hn by lia. cbn [Nat.add]. destruct k; cbn [explorer_loop];
      by rewrite (proj2 (Z.leb_gt _ _)) by lia.
  - cbn [Nat.add explorer_loop]. destruct (next <=? head) eqn:Hn; [|done].
    cbv zeta. unfold mbind, ix_bind.
    destruct (index_explorer_events _ _ _ _) as [[|?|?] s1]; [|done|done]. cbn.
    destruct (to_i64 _) as [height|?|?]; [|done|done]. cbn.
    destruct (Z.min (Z.min (next + 999) u64_MAX) head =? head) eqn:Hlast; [done|].
    apply Z.eqb_neq in Hlast. apply IH. lia.
Qed.

(** A call that succeeds leaves the cursor at the head, if it was below. *)
Lemma explorer_loop_cursor fuel head next node s s' :
  next <= head < 2 ^ 63 -> explorer_loop fuel head next node s = (Ok tt, s') -> explorer_last_block s'.2 = Some head.
Proof.
  revert next s. induction fuel as [|fuel IH]; intros next s Hn; cbn [explorer_loop];
    rewrite (proj2 (Z.leb_le next head)) by lia; [done|].
  cbv zeta. unfold mbind, ix_bind.
  destruct (index_explorer_events _ _ _ _) as [[|?|?] s1]; [|done|done]. cbn.
  destruct (to_i64 _) as [height|?|?] eqn:Hh; [|done|done]. cbn.
  destruct (Z.min (Z.min (next + 999) u64_MAX) head =? head) eqn:Hlast.
  - apply Z.eqb_eq in Hlast. intros [= <-]. cbn. f_equal. rewrite Hlast in Hh. unfold to_i64 in Hh.
    destruct (head <? 2 ^ 63); [by injection Hh|done].
  - apply Z.eqb_neq in Hlast. apply IH. unfold u64_MAX in *. lia.
Qed.

End explorer.
