(* ===== verification/Reorganization.v ===== *)
(** * Accounts across a reorganization

    Confirmed receipts change the virtual accounts after taking snapshots of
    them; a rollback puts the oldest snapshot above the ancestor back.  The
    invariant of the history is kept by rule induction over runs of
    confirmations interleaved with other work. *)

From stdpp Require Import gmap strings sorting.
From S2P Require Import Prelude Hashing Codec PublicValues BridgeValues Rpc Database Program.
From S2P Require Import OuterWriter Submission Worker Indexer TxLogic Coordination System Ledger Accounts ChainIndex.

(** ** Transactions on all tables *)

Section ltx.
Context `{Externals}.

Lemma ltx_bind_Ok {A B} (t : ltx A) (f : A -> ltx B) now l r :
  (t ≫= f) now l = Ok r <-> exists a l1, t now l = Ok (a, l1) /\ f a now l1 = Ok r.
Proof. unfold mbind, ltx_bind. destruct (t now l) as [[a l1]| |]; naive_solver. Qed.

Lemma try_lift_Ok {A} (o : outcome error A) now l a l' :
  try_lift o now l = Ok (a, l') <-> o = Ok a /\ l' = l.
Proof. unfold try_lift. destruct o; simpl; naive_solver. Qed.

Lemma check_Ok b e now l (u : unit) l' : check b e now l = Ok (u, l') <-> b = true /\ l' = l.
Proof. unfold check. by rewrite try_lift_Ok, ensure_Ok. Qed.

Lemma on_gateway_Ok {A} (t : tx A) now l a l' :
  on_gateway t now l = Ok (a, l') <-> exists db, t now (gateway l) = Ok (a, db) /\ l' = with_gateway db l.
Proof. unfold on_gateway. destruct (t now (gateway l)) as [[a1 db]| |]; simpl; naive_solver. Qed.

Lemma context_Ok {A} (o : option A) why a : context o why = Ok a <-> o = Some a.
Proof. destruct o; simpl; naive_solver. Qed.

(** Relations that every committed transaction respects. *)
Definition lrespects (R : Z -> Ledger -> Ledger -> Prop) {A} (t : ltx A) : Prop :=
  forall now l a l', t now l = Ok (a, l') -> R now l l'.

Section preorder.
Context (R : Z -> Ledger -> Ledger -> Prop) `{!forall now, PreOrder (R now)}.

Lemma lrespects_bind {A B} (t : ltx A) (f : A -> ltx B) :
  lrespects R t -> (forall a, lrespects R (f a)) -> lrespects R (t ≫= f).
Proof. intros Ht Hf now l b l' (a & l1 & Hr1 & Hr2)%ltx_bind_Ok. etrans; [by eapply Ht|by eapply Hf]. Qed.
Lemma lrespects_mret {A} (a : A) : lrespects R (mret a).
Proof. intros ???? [= _ <-]. reflexivity. Qed.
Lemma lrespects_read : lrespects R read_ledger.
Proof. intros ???? [= _ <-]. reflexivity. Qed.
Lemma lrespects_now : lrespects R ledger_now.
Proof. intros ???? [= _ <-]. reflexivity. Qed.
Lemma lrespects_lift {A} (o : outcome error A) : lrespects R (try_lift o).
Proof. intros ???? [_ ->]%try_lift_Ok. reflexivity. Qed.
Lemma lrespects_modify f : (forall now l, R now l (f l)) -> lrespects R (modify f).
Proof. intros Hf ???? [= _ <-]. apply Hf. Qed.
Lemma lrespects_gateway {A} (t : tx A) :
  (forall now l a db, t now (gateway l) = Ok (a, db) -> R now l (with_gateway db l)) -> lrespects R (on_gateway t).
Proof. intros Ht ???? (db & Hr & ->)%on_gateway_Ok. by eapply Ht. Qed.
Lemma lrespects_for_each {A} (f : A -> ltx unit) s : (forall a, lrespects R (f a)) -> lrespects R (for_each f s).
Proof. intros Hf. induction s as [|a s IH]; [apply lrespects_mret|]. apply lrespects_bind; [apply Hf|done]. Qed.

End preorder.

End ltx.

(** Transactions whose statements all respect a relation, up to what is said
    of their updates. *)
Ltac lrespects_step :=
  match goal with
  | |- lrespects _ (_ ≫= _) => apply lrespects_bind; [apply _| |intros ?]
  | |- lrespects _ (try_lift _) => apply lrespects_lift, _
  | |- lrespects _ (check _ _) => apply lrespects_lift, _
  | |- lrespects _ read_ledger => apply lrespects_read, _
  | |- lrespects _ ledger_now => apply lrespects_now, _
  | |- lrespects _ (mret _) => apply lrespects_mret, _
  | |- lrespects _ (on_gateway _) => apply lrespects_gateway; intros ?????
  | |- lrespects _ (modify _) => apply lrespects_modify; intros ??
  | |- lrespects _ (for_each _ _) => apply lrespects_for_each; [apply _|intros ?]
  | |- lrespects _ (if ?b then _ else _) => destruct b
  | |- lrespects _ (match ?o with _ => _ end) => destruct o
  end.

(** [inv_ltx] turns a successful transaction into its steps. *)
Ltac inv_ltx_step :=
  match goal with
  | H : (_ ≫= _) _ _ = Ok _ |- _ => apply ltx_bind_Ok in H as (? & ? & ? & H)
  | H : check _ _ _ _ = Ok _ |- _ => apply check_Ok in H as [? ->]
  | H : try_lift _ _ _ = Ok _ |- _ => apply try_lift_Ok in H as [? ->]
  | H : on_gateway _ _ _ = Ok _ |- _ => apply on_gateway_Ok in H as (? & ? & ->)
  | H : OuterWriter.context _ _ = Ok _ |- _ => apply context_Ok in H
  | H : read_ledger _ _ = Ok _ |- _ => injection H as ? ?; subst
  | H : ledger_now _ _ = Ok _ |- _ => injection H as ? ?; subst
  | H : mret _ _ _ = Ok _ |- _ => injection H as ? ?; subst
  | H : modify _ _ _ = Ok _ |- _ => injection H as ? ?; subst
  end.
Ltac inv_ltx := repeat inv_ltx_step.

(** ** Restoring snapshots in order *)

Section restore.
Context `{Externals}.

#[export] Instance HistoryRow_eq_dec : EqDecision HistoryRow.
Proof. solve_decision. Defined.
#[export] Instance history_entry_eq_dec : EqDecision history_entry.
Proof. unfold history_entry. apply _. Defined.

Definition account_of (e : history_entry) : string * string := (e.1.1.2, e.1.2).
Definition before (a b : history_entry) : Prop :=
  (hr_block a.2).1 < (hr_block b.2).1 \/
  ((hr_block a.2).1 = (hr_block b.2).1 /\ hr_created_at a.2 < hr_created_at b.2).

#[export] Instance later_trans : Transitive later.
Proof. intros a b c [?|[??]] [?|[??]]; unfold later; lia. Qed.
#[export] Instance later_total : Total later.
Proof. intros a b. unfold later. lia. Qed.

Lemma later_before a b : later a b -> before a b -> False.
Proof. unfold later, before. lia. Qed.

Lemma restore_lookup_other rows e key :
  account_of e <> key -> restore_account rows e !! key = rows !! key.
Proof. intros Hne. unfold restore_account. by apply lookup_alter_ne. Qed.

Lemma restore_other s rows key :
  Forall (fun e => account_of e <> key) s -> foldl restore_account rows s !! key = rows !! key.
Proof.
  intros Hs. revert rows. induction Hs as [|e s He Hs IH]; intros rows; [done|].
  cbn. rewrite IH. by apply restore_lookup_other.
Qed.

(** The oldest snapshot of an account is the one that stays. *)
Lemma restore_first s rows (e : history_entry) :
  StronglySorted later s -> e ∈ s ->
  (forall e', e' ∈ s -> account_of e' = account_of e -> e' = e \/ before e e') ->
  is_Some (rows !! account_of e) ->
  account_json <$> foldl restore_account rows s !! account_of e = Some (account_before e.2).
Proof.
  intros Hs. revert rows. induction Hs as [|x s Hs IH Hx]; intros rows Hin Hmin Hk; [by apply elem_of_nil in Hin|].
  cbn. destruct (decide (e ∈ s)) as [Hes|Hes].
  - apply IH; [done| |].
    + intros e' He'. apply Hmin. by right.
    + unfold restore_account. destruct (decide (account_of x = account_of e)) as [Hxe|Hxe].
      * fold (account_of x). rewrite Hxe, lookup_alter_eq. destruct Hk as [r ->]. by eexists.
      * fold (account_of x). by rewrite lookup_alter_ne.
  - apply elem_of_cons in Hin as [->|Hin]; [|done].
    rewrite restore_other.
    + unfold restore_account. fold (account_of x). rewrite lookup_alter_eq. destruct Hk as [r ->]. done.
    + apply Forall_forall. intros e' He' Heq. destruct (Hmin e' ltac:(by right) Heq) as [->|Hb]; [done|].
      rewrite Forall_forall in Hx. eapply later_before; [by apply Hx|done].
Qed.

Lemma restore_dom s rows key : is_Some (foldl restore_account rows s !! key) <-> is_Some (rows !! key).
Proof.
  revert rows. induction s as [|e s IH]; intros rows; [done|]. cbn. rewrite IH. unfold restore_account.
  apply lookup_alter_is_Some.
Qed.

Lemma elem_of_histories ancestor l (e : history_entry) :
  e ∈ histories ancestor l <-> newer_than ancestor e /\ history l !! e.1 = Some e.2.
Proof.
  unfold histories. rewrite merge_sort_Permutation, list_elem_of_filter. destruct e as [k h].
  cbn [fst snd]. pose proof (elem_of_map_to_list (history l) k h) as Hk. unfold history_entry in *. tauto.
Qed.

End restore.

(** ** What an application does to accounts and history *)

Section touches.
Context `{Externals} `{!JsonObjects} `{Keccak}.

Definition unchanged (l l' : Ledger) : Prop := accounts l' = accounts l /\ history l' = history l.

(** One account is changed after a snapshot under the job. *)
Inductive touch (job : uuid) (block : Z * string) (now : Z) (l l' : Ledger) : Prop :=
| touch_nothing : unchanged l l' -> touch job block now l l'
| touch_account public_key row row' :
    accounts l !! (public_key, MINA_TOKEN) = Some row ->
    accounts l' = <[(public_key, MINA_TOKEN) := row']> (accounts l) ->
    history l' =
      match history l !! (job, public_key, MINA_TOKEN) with
      | Some _ => history l
      | None => <[(job, public_key, MINA_TOKEN) :=
                  {| account_before := account_json row; hr_block := block; hr_created_at := now |}]> (history l)
      end ->
    touch job block now l l'.

Definition touched job block {A} (t : ltx A) : Prop := lrespects (fun now => rtc (touch job block now)) t.

Lemma unchanged_rtc job block now l l' : unchanged l l' -> rtc (touch job block now) l l'.
Proof. intros Hu. by apply rtc_once, touch_nothing. Qed.

Lemma to_i64_Ok z n : to_i64 z = Ok n -> n = z.
Proof. unfold to_i64. by destruct (z <? 2 ^ 63); intros [= <-]. Qed.

Lemma alter_as_insert (rows : gmap (string * string) AccountRow) key row row' :
  rows !! key = Some row -> alter (fun _ => row') key rows = <[key := row']> rows.
Proof.
  intros Hr. apply map_eq. intros key'. destruct (decide (key' = key)) as [->|Hne].
  - by rewrite lookup_alter_eq, lookup_insert_eq, Hr.
  - by rewrite lookup_alter_ne, lookup_insert_ne.
Qed.

(** Reading an account, saving and storing it. *)
Lemma save_and_store job block pk what now l row l1 u1 l2 account u2 l3 :
  fetch_account pk what now l = Ok (row, l1) ->
  snapshot_account job pk (account_json row) block now l1 = Ok (u1, l2) ->
  store_account pk account block now l2 = Ok (u2, l3) ->
  touch job block now l l3.
Proof.
  unfold fetch_account, snapshot_account, store_account. intros Hf Hs Ht. inv_ltx.
  repeat match goal with H : to_i64 _ = Ok _ |- _ => apply to_i64_Ok in H as -> end.
  set (stored := {| account_json := account; ac_block := Some (block.1, block.2) |}).
  rewrite <- surjective_pairing in Hs.
  match type of Hs with (match ?o with _ => _ end) _ _ = _ => destruct o as [h|] eqn:Hh end; inv_ltx;
    (eapply (touch_account _ _ _ _ _ pk row stored); [done| |by cbn; rewrite Hh]); by eapply alter_as_insert.
Qed.

Lemma update_outer_account_touched job pk receipt block : touched job block (update_outer_account job pk receipt block).
Proof.
  intros now l u l' Ht. unfold update_outer_account in Ht. inv_ltx. apply rtc_once.
  eapply save_and_store; eassumption.
Qed.
Lemma update_outer_account_actions_touched job pk state states block :
  touched job block (update_outer_account_actions job pk state states block).
Proof.
  intros now l u l' Ht. unfold update_outer_account_actions in Ht. inv_ltx. apply rtc_once.
  eapply save_and_store; eassumption.
Qed.
Lemma advance_fee_payer_touched job pk expected increment block :
  touched job block (advance_fee_payer job pk expected increment block).
Proof.
  intros now l u l' Ht. unfold advance_fee_payer in Ht. inv_ltx. apply rtc_once.
  eapply save_and_store; eassumption.
Qed.

End touches.

Section applications.
Context `{Externals} `{!JsonObjects} `{Keccak}.

(** Updates of other tables touch no account. *)
Ltac touched_tac := unfold touched in *; repeat lrespects_step; try (apply unchanged_rtc; by split).

Lemma apply_settlement_update_touched job input submission values block hash :
  touched job block (apply_settlement_update job input submission values block hash).
Proof.
  unfold apply_settlement_update, insert_action, store_inner_action_leaves. cbv zeta. touched_tac;
    [apply update_outer_account_touched|apply advance_fee_payer_touched].
Qed.
Lemma apply_bridge_update_touched job v block hash : touched job block (apply_bridge_update job v block hash).
Proof.
  unfold apply_bridge_update, insert_bridge_action, insert_action. touched_tac.
  apply update_outer_account_actions_touched.
Qed.

Lemma unchanged_history job l l' : unchanged l l' -> has_history job l' = has_history job l.
Proof. intros [_ Hh]. unfold has_history. by rewrite Hh. Qed.

(** A receipt is applied once: only a job without history changes accounts. *)
Definition applied_once job block now (l l' : Ledger) : Prop :=
  unchanged l l' \/ (has_history job l = false /\ rtc (touch job block now) l l').

Lemma touches_from job block now l l1 l2 :
  unchanged l l1 -> rtc (touch job block now) l1 l2 -> rtc (touch job block now) l l2.
Proof. intros Hu Ht. eapply rtc_l; [by apply touch_nothing|done]. Qed.

Lemma apply_confirmed_settlement_once job input values block hash now l u l' :
  apply_confirmed_settlement job input values block hash now l = Ok (u, l') -> applied_once job block now l l'.
Proof.
  unfold apply_confirmed_settlement. intros Ht. inv_ltx.
  match type of Ht with context [has_history job ?l1] => assert (unchanged l l1) as Hu by (by split; subst) end.
  rewrite (unchanged_history job _ _ Hu) in Ht.
  destruct (has_history job _) eqn:Hh; [left; inv_ltx; by subst|].
  destruct (get input "submission"); [|left; inv_ltx; by subst].
  right. split; [done|]. eapply touches_from; [exact Hu|]. by eapply apply_settlement_update_touched.
Qed.

Lemma bind_deposit_unchanged job v e now l u l' : bind_deposit job v e now l = Ok (u, l') -> unchanged l l'.
Proof.
  unfold bind_deposit. destruct e as [offset action]. intros Ht. inv_ltx.
  match type of Ht with (match ?o with _ => _ end) _ _ = _ => destruct o end; inv_ltx; done.
Qed.
Lemma for_each_unchanged {A} (f : A -> ltx unit) s now l u l' :
  (forall a now l u l', f a now l = Ok (u, l') -> unchanged l l') ->
  for_each f s now l = Ok (u, l') -> unchanged l l'.
Proof.
  intros Hf. revert l. induction s as [|a s IH]; intros l; cbn; [by intros [= <- <-]|].
  intros (u1 & l1 & [Ha Hh]%Hf & [Ha' Hh']%IH)%ltx_bind_Ok. split; congruence.
Qed.

Lemma apply_confirmed_bridge_once job values block hash now l u l' :
  apply_confirmed_bridge job values block hash now l = Ok (u, l') -> applied_once job block now l l'.
Proof.
  unfold apply_confirmed_bridge. intros Ht. inv_ltx.
  match type of Ht with context [has_history job ?l1] => assert (unchanged l l1) as Hu end.
  { eapply for_each_unchanged; [|eassumption]. apply bind_deposit_unchanged. }
  rewrite (unchanged_history job _ _ Hu) in Ht.
  destruct (has_history job _) eqn:Hh; [left; inv_ltx; by subst|].
  right. split; [done|]. eapply touches_from; [exact Hu|]. by eapply apply_bridge_update_touched.
Qed.

End applications.

(** ** Runs of the indexer between two rollbacks *)

Section runs.
Context `{Externals} `{!JsonObjects} `{Keccak}.

Inductive confirmation :=
| ConfirmSettlement (input : Value)
| ConfirmBridge.

Definition apply_confirmed (c : confirmation) (job : uuid) (values : string) (block : Z * string) (hash : string)
    : ltx unit :=
  match c with
  | ConfirmSettlement input => apply_confirmed_settlement job input values block hash
  | ConfirmBridge => apply_confirmed_bridge job values block hash
  end.

(** Receipts are applied in the order of their blocks ([ORDER BY
    ethereum_block_number] in [recover_gateway_state]), each in its own
    transaction, which may fail; other transactions change the jobs but delete
    none.  [height] and [time] are those of the last application. *)
Inductive confirmed_run (ancestor : Z) (l0 : Ledger) : Z -> Z -> Ledger -> Prop :=
| confirmed_none height time : confirmed_run ancestor l0 height time l0
| confirmed_apply height time l c job values block hash now :
    confirmed_run ancestor l0 height time l -> ancestor < block.1 -> height <= block.1 -> time < now ->
    confirmed_run ancestor l0 block.1 now (commit (apply_confirmed c job values block hash) now l).2
| confirmed_other height time l db :
    confirmed_run ancestor l0 height time l -> dom (jobs (gateway l)) ⊆ dom (jobs db) ->
    confirmed_run ancestor l0 height time (refresh (with_gateway db l)).

(** The rows a rollback reads. *)
Definition entry (ancestor : Z) (l : Ledger) (e : history_entry) : Prop :=
  history l !! e.1 = Some e.2 /\ newer_than ancestor e.

Definition intact ancestor (l0 l : Ledger) (key : string * string) : Prop :=
  (forall e, entry ancestor l e -> account_of e <> key) /\
  account_json <$> accounts l !! key = account_json <$> accounts l0 !! key.
Definition saved ancestor (l0 l : Ledger) (key : string * string) : Prop :=
  exists e, entry ancestor l e /\ account_of e = key /\ is_Some (accounts l !! key) /\
    account_json <$> accounts l0 !! key = Some (account_before e.2) /\
    forall e', entry ancestor l e' -> account_of e' = key -> e' = e \/ before e e'.

Record recorded ancestor (l0 l : Ledger) (height time : Z) : Prop := {
  rec_old : forall k h, history l !! k = Some h -> (hr_block h).1 <= ancestor -> history l0 !! k = Some h;
  rec_clock : forall e, entry ancestor l e -> (hr_block e.2).1 <= height /\ hr_created_at e.2 <= time;
  rec_accounts : forall key, intact ancestor l0 l key \/ saved ancestor l0 l key
}.

(** The invariant inside an application: the job's rows are new, and nothing
    else has its time. *)
Record applying ancestor (l0 l : Ledger) (job : uuid) (block : Z * string) (now : Z) : Prop := {
  app_recorded : recorded ancestor l0 l block.1 now;
  app_now : forall e, entry ancestor l e -> hr_created_at e.2 = now -> e.1.1.1 = job;
  app_job : forall k h, history l !! k = Some h -> k.1.1 = job -> ancestor < (hr_block h).1
}.

Lemma has_history_false job l k h : has_history job l = false -> history l !! k = Some h -> k.1.1 <> job.
Proof.
  intros Hh Hk Hj. apply bool_decide_eq_false in Hh. apply Hh. apply Exists_exists. exists (k, h).
  split; [by apply elem_of_map_to_list|done].
Qed.

Lemma recorded_weaken ancestor l0 l height time height' time' :
  height <= height' -> time <= time' -> recorded ancestor l0 l height time -> recorded ancestor l0 l height' time'.
Proof. intros Hh Ht [Ho Hc Ha]. split; [done| |done]. intros e He. destruct (Hc e He). lia. Qed.

Lemma unchanged_entry ancestor l l' e : unchanged l l' -> entry ancestor l' e <-> entry ancestor l e.
Proof. intros [_ Hh]. unfold entry. by rewrite Hh. Qed.

Lemma recorded_unchanged ancestor l0 l l' height time :
  unchanged l l' -> recorded ancestor l0 l height time -> recorded ancestor l0 l' height time.
Proof.
  intros [Ha Hh] [Ho Hc Hk]. split; unfold intact, saved, entry in *; rewrite ?Ha, ?Hh; auto.
Qed.

Lemma start_applying ancestor l0 l height time job block now :
  recorded ancestor l0 l height time -> height <= block.1 -> time < now -> has_history job l = false ->
  applying ancestor l0 l job block now.
Proof.
  intros Hr Hb Ht Hh. split.
  - eapply recorded_weaken; [exact Hb| |exact Hr]. lia.
  - intros e He Hn. destruct (rec_clock _ _ _ _ _ Hr e He). lia.
  - intros k h Hk Hj. by destruct (has_history_false _ _ _ _ Hh Hk).
Qed.

Lemma applying_unchanged ancestor l0 l l' job block now :
  unchanged l l' -> applying ancestor l0 l job block now -> applying ancestor l0 l' job block now.
Proof.
  intros Hu [Hr Hn Hj]. split; [by eapply (recorded_unchanged _ _ l)| |].
  - intros e He. apply Hn. by apply (unchanged_entry _ l l').
  - destruct Hu as [_ ->]. done.
Qed.

Lemma applying_resave ancestor l0 l l' job block now pk row' h :
  applying ancestor l0 l job block now -> history l !! (job, pk, MINA_TOKEN) = Some h ->
  accounts l' = <[(pk, MINA_TOKEN) := row']> (accounts l) -> history l' = history l ->
  applying ancestor l0 l' job block now.
Proof.
  intros [[Ho Hc Ha] Hn Hj] Hh Hacc Hhis.
  assert (forall e, entry ancestor l' e <-> entry ancestor l e) as He by (intros; unfold entry; by rewrite Hhis).
  split; [split| |by rewrite Hhis].
  - by rewrite Hhis.
  - intros e. rewrite He. auto.
  - intros key. unfold intact, saved. setoid_rewrite He. rewrite Hacc.
    destruct (decide (key = (pk, MINA_TOKEN))) as [->|Hne]; [|by rewrite lookup_insert_ne by done; apply Ha].
    destruct (Ha (pk, MINA_TOKEN)) as [[Hno _]|(e & Hin & Hk & _ & Hb & Hmin)].
    + exfalso. apply (Hno ((job, pk, MINA_TOKEN), h)); [|done]. split; [done|]. by apply (Hj _ _ Hh).
    + right. exists e. rewrite lookup_insert_eq. eauto 8.
  - intros e. rewrite He. auto.
Qed.

Lemma entry_insert ancestor l l' k h e :
  history l !! k = None -> ancestor < (hr_block h).1 -> history l' = <[k := h]> (history l) ->
  entry ancestor l' e <-> e = (k, h) \/ entry ancestor l e.
Proof.
  intros Hk Hb Hl. unfold entry. rewrite Hl. destruct e as [k' h']. cbn [fst snd].
  destruct (decide (k' = k)) as [->|Hne].
  - rewrite lookup_insert_eq, Hk. split; [intros [[= <-] _]; by left|].
    intros [[= <-]|[? _]]; [by split|done].
  - rewrite lookup_insert_ne by done. split; [by right|]. intros [[= -> _]|?]; [done|done].
Qed.

Lemma applying_save ancestor l0 l l' job block now pk row row' :
  ancestor < block.1 -> applying ancestor l0 l job block now ->
  accounts l !! (pk, MINA_TOKEN) = Some row -> history l !! (job, pk, MINA_TOKEN) = None ->
  accounts l' = <[(pk, MINA_TOKEN) := row']> (accounts l) ->
  history l' = <[(job, pk, MINA_TOKEN) :=
                 {| account_before := account_json row; hr_block := block; hr_created_at := now |}]> (history l) ->
  applying ancestor l0 l' job block now.
Proof.
  intros Hb [[Ho Hc Ha] Hn Hj] Hrow Hno Hacc Hhis.
  set (h := {| account_before := account_json row; hr_block := block; hr_created_at := now |}) in *.
  assert (forall e, entry ancestor l' e <-> e = ((job, pk, MINA_TOKEN), h) \/ entry ancestor l e) as He.
  { intros e. by eapply entry_insert. }
  split; [split| |].
  - intros k h'. rewrite Hhis, lookup_insert_Some. intros [[_ <-]|[_ Hk]]; [cbn; lia|by apply Ho].
  - intros e. rewrite He. intros [->|Hin]; [cbn; lia|by apply Hc].
  - intros key. unfold intact, saved. setoid_rewrite He. rewrite Hacc.
    destruct (decide (key = (pk, MINA_TOKEN))) as [->|Hne].
    + rewrite lookup_insert_eq. right.
      destruct (Ha (pk, MINA_TOKEN)) as [[Hnone Hsame]|(e & Hin & Hk & _ & Hbef & Hmin)].
      * exists ((job, pk, MINA_TOKEN), h). rewrite <- Hsame, Hrow. split_and!; [by left|done|by eexists|done|].
        intros e' [->|Hin] Hk; [by left|]. by destruct (Hnone e').
      * exists e. split_and!; [by right|done|by eexists|done|]. intros e' [->|Hin'] Hk'; [|by apply Hmin].
        right. unfold before. cbn. destruct (Hc e Hin) as [Hc1 Hc2].
        destruct (decide (hr_created_at e.2 = now)) as [Heq|Hneq]; [|lia].
        pose proof (Hn e Hin Heq) as Hjob. destruct Hin as [Hin _]. destruct e as [[[j' pk'] tok'] h'].
        cbn in *. injection Hk as -> ->. subst j'. congruence.
    + rewrite lookup_insert_ne by done. destruct (Ha key) as [[Hnone Hsame]|(e & Hin & Hk & Hs & Hbef & Hmin)].
      * left. split; [|done]. intros e [->|Hin]; [intros <-; by apply Hne|by apply Hnone].
      * right. exists e. split_and!; [by right|done|done|done|]. intros e' [->|Hin'] Hk'; [subst key; by destruct Hne|].
        by apply Hmin.
  - intros e. rewrite He. intros [->|Hin]; [done|by apply Hn].
  - intros k h'. rewrite Hhis, lookup_insert_Some. intros [[<- <-]|[_ Hk]]; [done|by apply Hj].
Qed.

Lemma applying_touch ancestor l0 l l' job block now :
  ancestor < block.1 -> applying ancestor l0 l job block now -> touch job block now l l' ->
  applying ancestor l0 l' job block now.
Proof.
  intros Hb Ha [Hu|pk row row' Hrow Hacc Hhis]; [by eapply applying_unchanged|].
  destruct (history l !! (job, pk, MINA_TOKEN)) as [h|] eqn:Hh; [by eapply applying_resave|by eapply applying_save].
Qed.

Lemma recorded_applied ancestor l0 l l' height time job block now :
  ancestor < block.1 -> height <= block.1 -> time < now -> recorded ancestor l0 l height time ->
  applied_once job block now l l' -> recorded ancestor l0 l' block.1 now.
Proof.
  intros Hb Hh Ht Hr [Hu|[Hj Htouch]].
  - eapply recorded_unchanged; [exact Hu|]. eapply recorded_weaken; [exact Hh| |exact Hr]. lia.
  - eapply app_recorded, (rtc_ind_l (fun l => applying ancestor l0 l job block now -> applying ancestor l0 l' job block now));
      [done| |exact Htouch|by eapply start_applying].
    intros l1 l2 Ht1 _ IH Ha. apply IH. by eapply applying_touch.
Qed.

Lemma commit_cases {A} (t : ltx A) now l :
  (commit t now l).2 = l \/ exists a l', t now l = Ok (a, l') /\ (commit t now l).2 = refresh l'.
Proof. unfold commit. destruct (t now l) as [[a l']| |]; eauto. Qed.

Lemma run_recorded ancestor l0 height time l :
  (forall k h, history l0 !! k = Some h -> (hr_block h).1 <= ancestor) ->
  confirmed_run ancestor l0 height time l -> recorded ancestor l0 l height time.
Proof.
  intros H0'. induction 1 as [height time|height time l c job values block hash now Hrun IH Hb Hh Ht|
                              height time l db Hrun IH Hdom].
  - split; [done| |].
    + intros e [He Hn]. specialize (H0' _ _ He). unfold newer_than in Hn. lia.
    + intros key. left. split; [|done]. intros e [He Hn]. specialize (H0' _ _ He). unfold newer_than in Hn. lia.
  - destruct (commit_cases (apply_confirmed c job values block hash) now l) as [->|(u & l' & Hr & ->)].
    + eapply recorded_weaken; [exact Hh| |exact IH]. lia.
    + eapply (recorded_unchanged _ _ l'); [done|]. eapply recorded_applied; [exact Hb|exact Hh|exact Ht|exact IH|].
      destruct c; [eapply apply_confirmed_settlement_once; exact Hr|eapply apply_confirmed_bridge_once; exact Hr].
  - by eapply (recorded_unchanged _ _ l).
Qed.

(** ** The rollback *)

Lemma histories_sorted ancestor l : StronglySorted later (histories ancestor l).
Proof. apply StronglySorted_merge_sort; apply _. Qed.

Lemma rolled_accounts ancestor l0 l height time key :
  recorded ancestor l0 l height time ->
  account_json <$> foldl restore_account (accounts l) (histories ancestor l) !! key =
  account_json <$> accounts l0 !! key.
Proof.
  intros Hr. destruct (rec_accounts _ _ _ _ _ Hr key) as [[Hnone Hsame]|(e & Hin & <- & Hs & Hbef & Hmin)].
  - rewrite restore_other; [done|]. apply Forall_forall. intros e He%elem_of_histories. apply Hnone.
    destruct He as [Hn Hk]. by split.
  - rewrite Hbef. apply restore_first; [apply histories_sorted| | |done].
    + apply elem_of_histories. destruct Hin as [Hk Hn]. by split.
    + intros e' [Hn Hk]%elem_of_histories Ha. apply Hmin; [by split|done].
Qed.

(** What a committed rollback leaves in the tables. *)
Lemma rollback_after_Ok ancestor now l u l' :
  rollback_after ancestor now l = Ok (u, l') ->
  exists db, Indexer.rollback_after ancestor now (gateway l) = Ok (tt, db) /\
    let rolled := with_gateway db (rollback_explorer ancestor (rollback_rows ancestor (rollback_accounts ancestor l))) in
    l' = cascade rolled /\ references_ok rolled = true.
Proof.
  unfold rollback_after. intros Ht. inv_ltx.
  match goal with H : to_i64 _ = Ok _ |- _ => apply to_i64_Ok in H as -> end.
  match goal with H : Indexer.rollback_after _ _ _ = Ok (?u, ?db) |- _ => destruct u; exists db end.
  split_and!; [assumption|done|assumption].
Qed.

(** ** The nonces the gateway reads *)

Definition nonce_entry (kv : (string * string) * AccountRow) : option (string * string) :=
  if bool_decide (kv.1.2 = MINA_TOKEN) then pair kv.1.1 <$> nonce_of (account_json kv.2) else None.

Lemma nonce_entry_Some k row pk n :
  nonce_entry (k, row) = Some (pk, n) <-> k = (pk, MINA_TOKEN) /\ nonce_of (account_json row) = Some n.
Proof.
  unfold nonce_entry. destruct k as [pk' tok]. cbn. case_bool_decide as Ht; [|naive_solver].
  destruct (nonce_of _); naive_solver.
Qed.

Lemma nonce_keys_NoDup l : NoDup l.*1 -> NoDup (omap nonce_entry l).*1.
Proof.
  induction l as [|[k row] l IH]; [intros; apply NoDup_nil_2|]. cbn [fmap list_fmap]. intros [Hn Hl]%NoDup_cons.
  cbn. destruct (nonce_entry (k, row)) as [[pk n]|] eqn:Hk; [|by apply IH]. cbn. apply NoDup_cons.
  split; [|by apply IH]. intros ([pk' n'] & -> & Hin)%list_elem_of_fmap.
  apply list_elem_of_omap in Hin as ([k' row'] & Hin & Hk').
  apply nonce_entry_Some in Hk as [-> _]. apply nonce_entry_Some in Hk' as [-> _].
  apply Hn. apply list_elem_of_fmap. by exists ((pk', MINA_TOKEN), row').
Qed.

Lemma lookup_nonces_of rows pk : nonces_of rows !! pk = (account_json <$> rows !! (pk, MINA_TOKEN)) ≫= nonce_of.
Proof.
  apply option_eq. intros n. unfold nonces_of. fold nonce_entry.
  rewrite <- elem_of_list_to_map by (apply nonce_keys_NoDup, NoDup_fst_map_to_list).
  rewrite list_elem_of_omap. split.
  - intros ([k row] & Hin%elem_of_map_to_list & [-> Hn]%nonce_entry_Some). by rewrite Hin.
  - intros Hn. destruct (rows !! (pk, MINA_TOKEN)) as [row|] eqn:Hrow; [|done].
    exists ((pk, MINA_TOKEN), row). split; [by apply elem_of_map_to_list|]. by apply nonce_entry_Some.
Qed.

Lemma nonces_of_ext rows rows' :
  (forall key, account_json <$> rows !! key = account_json <$> rows' !! key) -> nonces_of rows = nonces_of rows'.
Proof. intros He. apply map_eq. intros pk. by rewrite !lookup_nonces_of, He. Qed.


End runs.

(** ** The gateway's side of these transactions *)

Section frames.
Context `{Externals} `{!JsonObjects} `{Keccak}.

(** Only the account columns and the pending commands change. *)
Definition accounts_only (db db' : Db) : Prop :=
  exists key account nonces pending, db' = with_accounts key account nonces pending db.
#[export] Instance accounts_only_preorder : PreOrder accounts_only.
Proof.
  split; [intros db; by exists (outer_public_key db), (outer_account db), (account_nonces db), (pending_commands db); destruct db|].
  intros a b c (k & x & n & p & ->) (k' & x' & n' & p' & ->). by exists k', x', n', p'.
Qed.

Definition framed {A} (t : ltx A) : Prop := lrespects (fun _ l l' => accounts_only (gateway l) (gateway l')) t.

Lemma delete_pending_framed job now db u db' : delete_pending job now db = Ok (u, db') -> accounts_only db db'.
Proof.
  intros Hr. unfold delete_pending in Hr. inv_tx.
  eexists _, _, _, _. reflexivity.
Qed.

#[local] Instance framed_preorder : PreOrder (fun l l' => accounts_only (gateway l) (gateway l')).
Proof. split; [intros l; reflexivity|intros l1 l2 l3 ??; by etrans]. Qed.

Ltac framed_tac :=
  unfold framed; repeat lrespects_step; first [reflexivity|by eexists _, _, _, _|by eapply delete_pending_framed].

Lemma apply_confirmed_framed c job values block hash : framed (apply_confirmed c job values block hash).
Proof.
  destruct c; unfold apply_confirmed, apply_confirmed_settlement, apply_confirmed_bridge, apply_settlement_update,
    apply_bridge_update, update_outer_account, update_outer_account_actions, update_fee_payer, advance_fee_payer,
    fetch_account, snapshot_account, store_account, store_inner_action_leaves, bind_deposit,
    insert_bridge_action, insert_action; cbv zeta; framed_tac.
Qed.

Lemma index_block_framed block s : framed (for_each (insert_deposit block) s;; insert_block block).
Proof. unfold insert_deposit, insert_block. framed_tac. Qed.

Lemma commit_framed {A} (t : ltx A) now l : framed t -> accounts_only (gateway l) (gateway (commit t now l).2).
Proof.
  intros Ht. unfold commit. destruct (t now l) as [[a l']| |] eqn:Hr; [|reflexivity..].
  etrans; [by eapply Ht|]. by eexists _, _, _, _.
Qed.

(** ** The action a settlement records *)

Definition keeps_actions {A} (t : ltx A) : Prop := lrespects (fun _ l l' => gateway_actions l' = gateway_actions l) t.
#[local] Instance same_actions_preorder : PreOrder (fun l l' => gateway_actions l' = gateway_actions l).
Proof. split; [intros l; reflexivity|intros l1 l2 l3 ??; congruence]. Qed.
Ltac keeps_actions_tac := unfold keeps_actions; repeat lrespects_step; reflexivity.

Lemma update_outer_account_keeps job pk receipt block : keeps_actions (update_outer_account job pk receipt block).
Proof. unfold update_outer_account, fetch_account, snapshot_account, store_account. keeps_actions_tac. Qed.
Lemma update_fee_payer_keeps job pk nonce block : keeps_actions (update_fee_payer job pk nonce block).
Proof.
  unfold update_fee_payer, advance_fee_payer, fetch_account, snapshot_account, store_account. cbv zeta. keeps_actions_tac.
Qed.
Lemma store_leaves_keeps input receipt block hash : keeps_actions (store_inner_action_leaves input receipt block hash).
Proof. unfold store_inner_action_leaves. keeps_actions_tac. Qed.

(** A row that is there already only loses its mark. *)
Lemma settlement_action job input submission values block hash now l u l' old :
  let key := (hash, 0, V1.outer_action_state_length_after (settlement_of values)) in
  apply_settlement_update job input submission values block hash now l = Ok (u, l') ->
  gateway_actions l !! key = Some old -> gateway_actions l' !! key = Some (reinstate old).
Proof.
  intros key Hr Hold. unfold apply_settlement_update in Hr. inv_ltx.
  match goal with H : update_outer_account _ _ _ _ _ _ = Ok _ |- _ => apply update_outer_account_keeps in H end.
  match goal with H : update_fee_payer _ _ _ _ _ _ = Ok _ |- _ => apply update_fee_payer_keeps in H end.
  unfold insert_action in *. inv_ltx. cbn in *.
  match goal with |- gateway_actions ?l2 !! _ = _ => assert (forall l1 : Ledger,
    (if bool_decide (is_Some (pointer input "/proof/innerActionBatch"))
     then batch ← try_lift (context (inner_action_batch values) "settlement receipt does not bind an inner-action batch");
          store_inner_action_leaves input batch block hash
     else mret ()) now l1 = Ok (u, l2) -> gateway_actions l2 = gateway_actions l1) as Hlast end.
  { intros l1 Hr1. destruct (bool_decide _); inv_ltx; [by eapply store_leaves_keeps|done]. }
  apply Hlast in Hr. rewrite Hr. cbn. rewrite lookup_partial_alter_eq.
  repeat match goal with H : gateway_actions _ = gateway_actions _ |- _ => rewrite H end.
  cbn. fold key. by rewrite Hold.
Qed.

Definition with_sdb (db : Db) (s : Sys) : Sys := {| sdb := db; issued := issued s; threads := threads s |}.

Lemma accounts_only_step s db : accounts_only (sdb s) db -> sys_step s [] (with_sdb db s).
Proof. intros (key & account & nonces & pending & ->). apply step_accounts. Qed.

Lemma rollback_run s now l ancestor :
  sdb s = gateway l ->
  exists tr, sys_run s tr (with_sdb (gateway (commit (Ledger.rollback_after ancestor) now l).2) s) /\
    (tr = [] \/ tr = [Reorganized]).
Proof.
  intros Hs. unfold commit. destruct (Ledger.rollback_after ancestor now l) as [[[] l']| |] eqn:Hr.
  - apply rollback_after_Ok in Hr as (db & Hdb & -> & _). exists [Reorganized]. split; [|by right]. cbn [snd].
    change [Reorganized] with ([] ++ [Reorganized] ++ []). rewrite app_assoc. eapply run_snoc.
    + eapply run_snoc; [apply run_nil|]. apply (step_operation s (RollbackAfter ancestor) now (Ok tt) db); [set_solver|].
      cbn. unfold transact. by rewrite Hs, Hdb.
    + cbn [drawn issued threads]. rewrite (left_id_L ∅ (∪)). apply (step_accounts {| sdb := db; issued := issued s; threads := threads s |}).
  - exists []. split; [|by left]. cbn [snd]. rewrite <- Hs. destruct s. apply run_nil.
  - exists []. split; [|by left]. cbn [snd]. rewrite <- Hs. destruct s. apply run_nil.
Qed.

End frames.
