(* ===== verification/Convergence.v ===== *)
(** * The chain index converges

    On a chain that stands still, [index_blocks] ends with exactly that chain
    and its deposits, after at most one rollback. *)

From stdpp Require Import gmap strings.
From S2P Require Import Prelude Rpc Database Program Worker Indexer System Ledger Accounts ChainIndex Reorganization.

(** ** Running the indexer *)

Section runs.
Context `{Externals}.

(** [Q] holds of what [t] returns and leaves. *)
Definition yields (node : Node) {A} (t : ix A) (s : nat * Ledger) (Q : outcome error A -> nat * Ledger -> Prop) : Prop :=
  Q (t node s).1 (t node s).2.

(** The continuation after [Ok]; anything else ends the run. *)
Definition onwards {A B} (f : A -> nat * Ledger -> Prop) (Q : outcome error B -> nat * Ledger -> Prop)
    (r : outcome error A) (s : nat * Ledger) : Prop :=
  match r with Ok a => f a s | Err e => Q (Err e) s | Panic w => Q (Panic w) s end.

Lemma yields_bind node {A B} (t : ix A) (f : A -> ix B) s Q :
  yields node t s (onwards (fun a s => yields node (f a) s Q) Q) -> yields node (t ≫= f) s Q.
Proof. unfold yields, onwards, mbind, ix_bind. destruct (t node s) as [[a|e|w] s1]; done. Qed.

Lemma yields_mono node {A} (t : ix A) s (P Q : outcome error A -> nat * Ledger -> Prop) :
  yields node t s P -> (forall r s, P r s -> Q r s) -> yields node t s Q.
Proof. unfold yields. auto. Qed.

Lemma yields_mret node {A} (a : A) s (Q : outcome error A -> nat * Ledger -> Prop) :
  Q (Ok a) s -> yields node (mret a) s Q.
Proof. done. Qed.
Lemma yields_lift node {A} (o : outcome error A) s (Q : outcome error A -> nat * Ledger -> Prop) :
  Q o s -> yields node (ix_lift o) s Q.
Proof. done. Qed.
Lemma yields_select node {A} (f : Ledger -> A) s (Q : outcome error A -> nat * Ledger -> Prop) :
  Q (Ok (f s.2)) s -> yields node (select f) s Q.
Proof. done. Qed.
Lemma yields_ensure node b why s (Q : outcome error unit -> nat * Ledger -> Prop) :
  b = true -> Q (Ok tt) s -> yields node (ix_lift (ensure b why)) s Q.
Proof. by intros ->. Qed.

(** ** The views of the tables *)

Lemma canonical_block_Some l n b :
  canonical_block l n = Some b <-> blocks l !! n = Some b /\ bk_canonical b = true.
Proof.
  unfold canonical_block. destruct (blocks l !! n) as [b'|]; cbn; [|by split; [|intros [? _]]].
  destruct (bk_canonical b') eqn:Hc; split; [by intros [= <-]|by intros [[= <-] _]|done|intros [[= <-] ?]; congruence].
Qed.

(** The highest canonical row. *)
Definition highest (rows : gmap Z BlockRow) (r : option (Z * string)) : Prop :=
  match r with
  | Some (n, h) => (exists b, rows !! n = Some b /\ bk_canonical b = true /\ bk_hash b = h) /\
                   forall m b, rows !! m = Some b -> bk_canonical b = true -> m <= n
  | None => forall m b, rows !! m = Some b -> bk_canonical b = false
  end.

Lemma latest_block_highest l : highest (blocks l) (latest_block l).
Proof.
  unfold latest_block.
  apply (map_fold_weak_ind (fun r rows => highest rows r)); [by intros ?? ?%lookup_empty_Some|].
  intros n b rows r Hn IH. destruct (bk_canonical b) eqn:Hc; cbn.
  - destruct r as [[k h]|]; cbn in IH |- *.
    + destruct IH as [(b' & Hk & Hck & Hh) Hmax]. destruct (k <? n) eqn:Hlt; cbn.
      * apply Z.ltb_lt in Hlt. split; [exists b; by rewrite lookup_insert_eq|].
        intros m b1 [[<- _]|[_ Hm]]%lookup_insert_Some Hc1; [lia|]. specialize (Hmax _ _ Hm Hc1). lia.
      * apply Z.ltb_ge in Hlt. assert (n <> k) by (intros ->; congruence).
        split; [exists b'; by rewrite lookup_insert_ne|].
        intros m b1 [[<- _]|[_ Hm]]%lookup_insert_Some Hc1; [done|]. by eapply Hmax.
    + split; [exists b; by rewrite lookup_insert_eq|].
      intros m b1 [[<- _]|[_ Hm]]%lookup_insert_Some Hc1; [lia|]. by rewrite (IH _ _ Hm) in Hc1.
  - destruct r as [[k h]|]; cbn in IH |- *.
    + destruct IH as [(b' & Hk & Hck & Hh) Hmax]. assert (n <> k) by (intros ->; congruence).
      split; [exists b'; by rewrite lookup_insert_ne|].
      intros m b1 [[<- <-]|[_ Hm]]%lookup_insert_Some Hc1; [congruence|]. by eapply Hmax.
    + intros m b1 [[_ <-]|[_ Hm]]%lookup_insert_Some; [done|]. by eapply IH.
Qed.

Lemma finalized_height_exists l n :
  finalized_height l = Some n ->
  exists b, canonical_block l n = Some b /\ bk_finalized b = true.
Proof.
  unfold finalized_height, canonical_block. revert n.
  apply (map_fold_weak_ind (fun r (rows : gmap Z BlockRow) => forall n, r = Some n ->
    exists b, (b ← rows !! n; if bk_canonical b then Some b else None) = Some b /\ bk_finalized b = true)); [done|].
  intros k b rows r Hk IH n. destruct (bk_canonical b) eqn:Hc, (bk_finalized b) eqn:Hf; cbn; intros Hr.
  1: assert (n = k \/ r = Some n) as [->|Hr'] by (destruct r as [m|]; cbn in Hr; [|naive_solver];
       injection Hr as <-; destruct (Z.max_spec k m) as [[_ ->]|[_ ->]]; auto).
  1: exists b; by rewrite lookup_insert_eq; cbn; rewrite Hc.
  all: rename Hr into Hr0; try rename Hr' into Hr0; destruct (IH n) as (b' & Hb' & Hf'); [assumption|];
    exists b'; (split; [|done]); rewrite lookup_insert_ne; [done|]; intros ->; by rewrite Hk in Hb'.
Qed.

End runs.

(** ** A chain that stands still *)

Section convergence.
Context `{Externals} (chain : Z -> BlockRef) (logs : Z -> list BridgeDepositLog) (head : Z) (node : Node).

Definition on_chain (log : BridgeDepositLog) : Prop := exists n, 0 <= n <= head /\ log ∈ logs n.

(** A log of block [n] as the bridge contract emits it, in range of the
    columns. *)
Record log_ok (n : Z) (log : BridgeDepositLog) : Prop := {
  lk_number : bl_block_number log = n;
  lk_hash : bl_block_hash log = br_hash (chain n);
  lk_nonce : 0 < bl_nonce log < 2 ^ 63;
  lk_amounts : 0 < bl_amount log /\ 0 < bl_zeko_amount log;
  lk_timeout : bl_timeout log < 2 ^ 63;
  lk_index : bl_log_index log < 2 ^ 63
}.

(** The node answers for the chain at every call. *)
Record stable : Prop := {
  st_head : 0 <= head < 2 ^ 63;
  st_block t n : 0 <= n <= head -> block_at node t n = Ok (chain n);
  st_number n : 0 <= n <= head -> br_number (chain n) = n;
  st_parent n : 0 < n <= head -> br_parent_hash (chain n) = br_hash (chain (n - 1));
  st_hash n m : 0 <= n <= head -> 0 <= m <= head -> br_hash (chain n) = br_hash (chain m) -> n = m;
  st_logs t n : 0 <= n <= head -> deposit_logs_at node t (chain n) = Ok (logs n);
  st_log n log : 0 <= n <= head -> log ∈ logs n -> log_ok n log;
  st_nonce log log' : on_chain log -> on_chain log' -> bl_nonce log = bl_nonce log' -> log = log';
  st_id log log' : on_chain log -> on_chain log' -> bl_transaction_hash log = bl_transaction_hash log' ->
    bl_log_index log = bl_log_index log' -> log = log'
}.

(** ** What the indexer maintains *)

(** A deposit that clients see. *)
Definition served (l : Ledger) (nonce : Z) (c : DepositColumns) : Prop :=
  exists d, deposits l !! nonce = Some d /\ dp_removed d = false /\ dp_columns d = c.

(** Canonical rows are a linked range, and keep the genesis block. *)
Record linked (l : Ledger) : Prop := {
  li_nonneg n b : canonical_block l n = Some b -> 0 <= n;
  li_range n m k : is_Some (canonical_block l n) -> is_Some (canonical_block l m) -> n <= k <= m ->
    is_Some (canonical_block l k);
  li_parent n b b' : canonical_block l n = Some b -> canonical_block l (n + 1) = Some b' -> bk_parent b' = bk_hash b;
  li_genesis b : canonical_block l 0 = Some b -> bk_hash b = br_hash (chain 0)
}.

(** The deposits served are the logs of the canonical rows. *)
Record logged (l : Ledger) : Prop := {
  lo_served nonce c : served l nonce c ->
    exists b, canonical_block l (dc_block c).1 = Some b /\ bk_hash b = (dc_block c).2 /\
      (0 <= (dc_block c).1 <= head -> bk_hash b = br_hash (chain (dc_block c).1) ->
       exists log, log ∈ logs (dc_block c).1 /\ bl_nonce log = nonce /\ deposit_columns log = c);
  lo_log n b log : canonical_block l n = Some b -> 0 <= n <= head -> bk_hash b = br_hash (chain n) ->
    log ∈ logs n -> served l (bl_nonce log) (deposit_columns log)
}.

(** The finalized block of the node, where the mode uses one. *)
Definition finality_input (mode : FinalityMode) (finalized_block : option BlockRef) : Prop :=
  match mode, finalized_block with
  | Finalized, Some block => exists k, 0 <= k <= head /\ block = chain k
  | Confirmations, None => True
  | _, _ => False
  end.

(** Rows, stale ones included, do not contradict the chain: a hash names one
    block, a log of the chain is stored under its nonce or not at all, and
    consensus-finalized rows are of the chain. *)
Record consistent (mode : FinalityMode) (finalized_block : option BlockRef) (l : Ledger) : Prop := {
  co_hash m b n : blocks l !! m = Some b -> 0 <= n <= head -> bk_hash b = br_hash (chain n) ->
    m = n /\ bk_parent b = br_parent_hash (chain n);
  co_id nonce d log : deposits l !! nonce = Some d -> on_chain log ->
    dc_transaction_hash (dp_columns d) = bl_transaction_hash log -> dc_log_index (dp_columns d) = bl_log_index log ->
    nonce = bl_nonce log;
  co_final n b : canonical_block l n = Some b -> bk_finalized b = true ->
    match mode, finalized_block with
    | Finalized, Some block => n <= br_number block /\ bk_hash b = br_hash (chain n)
    | _, _ => True
    end
}.

(** ** What convergence means *)

Definition view (b : BlockRow) : string * string := (bk_hash b, bk_parent b).
Definition chain_view (n : Z) : string * string := (br_hash (chain n), br_parent_hash (chain n)).

(** The canonical rows are the blocks from [lo] before [next], and exactly
    their logs, or those of [S], are served. *)
Definition aligned (l : Ledger) (lo next : Z) : Prop :=
  forall n, view <$> canonical_block l n = if (lo <=? n) && (n <? next) then Some (chain_view n) else None.
Definition serves (l : Ledger) (S : BridgeDepositLog -> Prop) : Prop :=
  forall nonce c, served l nonce c <-> exists log, S log /\ bl_nonce log = nonce /\ deposit_columns log = c.
Definition between (lo next : Z) (log : BridgeDepositLog) : Prop := exists n, lo <= n < next /\ log ∈ logs n.

Record synced (l : Ledger) (lo next : Z) : Prop := {
  sy_range : 0 <= lo <= next /\ lo <= head /\ next <= head + 1;
  sy_rows : aligned l lo next;
  sy_deposits : serves l (between lo next)
}.

Lemma canonical_hash_view l n : canonical_hash l n = fst <$> (view <$> canonical_block l n).
Proof. unfold canonical_hash. by destruct (canonical_block l n). Qed.

Lemma aligned_hash l lo next n :
  aligned l lo next -> canonical_hash l n = if (lo <=? n) && (n <? next) then Some (br_hash (chain n)) else None.
Proof. intros Ha. rewrite canonical_hash_view, Ha. by destruct (_ && _). Qed.

Lemma in_range lo n next : lo <= n < next -> (lo <=? n) && (n <? next) = true.
Proof. intros. apply andb_true_intro. split; [apply Z.leb_le|apply Z.ltb_lt]; lia. Qed.
Lemma out_of_range_below lo n next : ~ (lo <= n < next) -> (lo <=? n) && (n <? next) = false.
Proof. intros. destruct (lo <=? n) eqn:?, (n <? next) eqn:?; try done. exfalso. lia. Qed.

Lemma between_on_chain lo next log : 0 <= lo -> next <= head + 1 -> between lo next log -> on_chain log.
Proof. intros ?? (n & ? & ?). exists n. split; [lia|done]. Qed.

(** ** The common ancestor *)

Lemma yields_block t l n (Q : outcome error BlockRef -> nat * Ledger -> Prop) :
  stable -> 0 <= n <= head -> Q (Ok (chain n)) (S t, l) -> yields node (node_block n) (t, l) Q.
Proof. intros Hst Hn HQ. unfold yields, node_block. cbn. by rewrite (st_block Hst). Qed.

Lemma to_i64_small n : n < 2 ^ 63 -> to_i64 n = Ok n.
Proof. intros Hn. unfold to_i64. by rewrite (proj2 (Z.ltb_lt _ _) Hn). Qed.

(** Where the walk down from block [m] stops. *)
Definition ancestor_of (l : Ledger) (m a : Z) : Prop :=
  0 <= a <= m /\ (canonical_hash l a = Some (br_hash (chain a)) \/ canonical_hash l a = None) /\
  forall k, a < k <= m -> exists h, canonical_hash l k = Some h /\ h <> br_hash (chain k).

Lemma common_ancestor_yields fuel m t l :
  stable -> linked l -> 0 <= m <= head -> (Z.to_nat m < fuel)%nat ->
  yields node (common_ancestor fuel (chain m)) (t, l)
    (fun r s => s.2 = l /\ exists a, r = Ok a /\ ancestor_of l m a).
Proof.
  intros Hst Hli. revert m t. induction fuel as [|fuel IH]; intros m t Hm Hf; [lia|].
  pose proof (st_head Hst) as Hhd. cbn [common_ancestor]. rewrite (st_number Hst) by done.
  apply yields_bind, yields_lift. rewrite to_i64_small by lia. cbn [onwards].
  apply yields_bind, yields_select. cbn [onwards snd].
  case_bool_decide as Hsame; [|case_bool_decide as Hnone].
  - apply yields_mret. split; [done|]. exists m. split; [done|]. split; [lia|]. split; [by left|lia].
  - apply yields_mret. split; [done|]. exists m. split; [done|]. split; [lia|]. split; [by right|lia].
  - destruct (canonical_hash l m) as [h|] eqn:Hh; [|done].
    assert (h <> br_hash (chain m)) as Hne by congruence.
    assert (0 < m) as Hpos.
    { destruct (decide (m = 0)) as [->|]; [|lia]. unfold canonical_hash in Hh.
      destruct (canonical_block l 0) as [b|] eqn:Hb; [|done]. injection Hh as <-.
      by destruct Hne; apply (li_genesis _ Hli). }
    apply yields_bind, yields_ensure; [by apply Z.ltb_lt|]. cbn [onwards].
    apply yields_bind, yields_block; [done|lia|]. cbn [onwards].
    eapply yields_mono; [apply IH; lia|]. intros r s (Hs & a & Hr & Ha & Hstop & Habove). split; [done|].
    exists a. split; [done|]. split; [lia|]. split; [done|]. intros k Hk.
    destruct (decide (k = m)) as [->|]; [by exists h|]. apply Habove. lia.
Qed.

(** ** Rolling back to it *)

(** Only what lies at or below the ancestor is left. *)
Record cut (a : Z) (l l' : Ledger) : Prop := {
  cut_rows n : canonical_block l' n = if n <=? a then canonical_block l n else None;
  cut_served nonce c : served l' nonce c <-> served l nonce c /\ (dc_block c).1 <= a
}.

(** What the stored rows say is unchanged but for their flags. *)
Definition same_rows (l l' : Ledger) : Prop :=
  (forall m b', blocks l' !! m = Some b' -> exists b, blocks l !! m = Some b /\ bk_hash b = bk_hash b' /\
     bk_parent b = bk_parent b') /\
  (forall nonce d', deposits l' !! nonce = Some d' -> exists d, deposits l !! nonce = Some d /\
     dp_columns d = dp_columns d').

Lemma rollback_cut a now l :
  is_ok (commit (Ledger.rollback_after a) now l).1 = true ->
  (commit (Ledger.rollback_after a) now l).1 = Ok tt /\
  cut a l (commit (Ledger.rollback_after a) now l).2 /\ same_rows l (commit (Ledger.rollback_after a) now l).2.
Proof.
  unfold commit. destruct (Ledger.rollback_after a now l) as [[[] l']| |] eqn:Hr; try done. intros _. split; [done|].
  apply rollback_after_Ok in Hr as (db & _ & -> & _). cbn [snd]. split; [split|split].
  - intros n. unfold canonical_block. cbn. rewrite map_lookup_imap. destruct (blocks l !! n) as [b|]; cbn; [|by case_match].
    unfold orphan_block. rewrite (Z.ltb_antisym n a). destruct (n <=? a), (bk_canonical b) eqn:Hc; cbn; by rewrite ?Hc.
  - intros nonce c. unfold served. cbn. setoid_rewrite lookup_fmap. split.
    + intros (d' & Hd & Hrem & Hc). destruct (deposits l !! nonce) as [d|]; [|done]. cbn in Hd. injection Hd as <-.
      cbn in Hrem, Hc. apply orb_false_iff in Hrem as [Hrem Hb]. subst c. split; [by exists d|]. lia.
    + intros [(d & Hd & Hrem & Hc) Hb]. rewrite Hd. cbn. eexists. split; [done|]. cbn. subst c.
      split; [|done]. rewrite Hrem. cbn. lia.
  - intros m b'. cbn. rewrite map_lookup_imap. destruct (blocks l !! m) as [b|]; cbn; [|done]. intros [= <-].
    exists b. unfold orphan_block. by case_match.
  - intros nonce d'. cbn. rewrite lookup_fmap. destruct (deposits l !! nonce) as [d|]; cbn; [|done]. intros [= <-].
    by exists d.
Qed.


Lemma consistent_cut mode fb a l l' :
  consistent mode fb l -> cut a l l' -> same_rows l l' -> consistent mode fb l'.
Proof.
  intros [Hh Hi Hf] [Hrows _] [Hb Hd]. split.
  - intros m b' n Hm Hn Heq. destruct (Hb _ _ Hm) as (b & Hmb & Hbh & <-).
    rewrite <- Hbh in Heq. by eapply Hh.
  - intros nonce d' log Hn Ho Ht Hx. destruct (Hd _ _ Hn) as (d & Hnd & Hc). rewrite <- Hc in *. by eapply Hi.
  - intros n b. rewrite Hrows. destruct (n <=? a); [apply Hf|done].
Qed.

Lemma rollback_yields mode a t l :
  0 <= a < 2 ^ 63 ->
  (mode = Finalized -> forall n b, canonical_block l n = Some b -> bk_finalized b = true -> n <= a) ->
  (forall now, is_ok (commit (Ledger.rollback_after a) now l).1 = true) ->
  yields node (rollback_canonical_chain mode a) (t, l)
    (fun r s => r = Ok tt /\ cut a l s.2 /\ same_rows l s.2).
Proof.
  intros Ha Hf Hok. unfold rollback_canonical_chain. apply yields_bind.
  assert (yields node (execute (Ledger.rollback_after a)) (t, l)
            (fun r s => r = Ok tt /\ cut a l s.2 /\ same_rows l s.2)) as Hrun.
  { unfold yields, execute. cbn. by apply rollback_cut. }
  destruct mode; [|by apply yields_mret].
  apply yields_bind, yields_lift. rewrite to_i64_small by lia. cbn [onwards].
  apply yields_bind, yields_select. cbn [onwards snd].
  apply yields_ensure; [|done]. apply negb_true_iff. unfold would_reorg_finalized.
  destruct (finalized_height l) as [n|] eqn:Hn; [|done]. cbn.
  apply finalized_height_exists in Hn as (b & Hb & Hfb). apply Z.ltb_ge. by eapply Hf.
Qed.

(** ** What is left is the chain *)

Lemma matches_below mode fb l a n b :
  stable -> linked l -> consistent mode fb l -> 0 <= a <= head -> canonical_hash l a = Some (br_hash (chain a)) ->
  n <= a -> canonical_block l n = Some b -> view b = chain_view n.
Proof.
  intros Hst Hli Hco Ha Hhash Hn. remember (Z.to_nat (a - n)) as d eqn:Hd.
  revert n b Hn Hd. induction d as [|d IH]; intros n b Hn Hd Hb.
  - assert (n = a) as -> by lia. unfold canonical_hash in Hhash. rewrite Hb in Hhash. injection Hhash as Hhash.
    apply canonical_block_Some in Hb as [Hb _]. destruct (co_hash _ _ _ Hco _ _ _ Hb Ha Hhash) as [_ Hp].
    unfold view, chain_view. congruence.
  - pose proof (li_nonneg _ Hli _ _ Hb) as Hpos.
    destruct (li_range _ Hli n a (n + 1)) as [b' Hb']; [by eexists| |lia|].
    { unfold canonical_hash in Hhash. destruct (canonical_block l a); [by eexists|done]. }
    assert (view b' = chain_view (n + 1)) as [= _ Hp] by (apply IH; [lia|lia|done]).
    rewrite (li_parent _ Hli _ _ _ Hb Hb'), (st_parent Hst) in Hp by lia.
    replace (n + 1 - 1) with n in Hp by lia. apply canonical_block_Some in Hb as [Hb _].
    destruct (co_hash _ _ _ Hco _ _ n Hb ltac:(lia) Hp) as [_ Hp']. unfold view, chain_view. congruence.
Qed.

Lemma lowest_row l a :
  linked l -> is_Some (canonical_block l a) ->
  exists lo, 0 <= lo <= a /\ forall k, k <= a -> is_Some (canonical_block l k) <-> lo <= k.
Proof.
  intros Hli [b Hb]. pose proof (li_nonneg _ Hli _ _ Hb) as Hpos. remember (Z.to_nat a) as d eqn:Hd.
  revert a b Hb Hpos Hd. induction d as [|d IH]; intros a b Hb Hpos Hd.
  - exists a. split; [lia|]. intros k Hk. split; [|intros ?; assert (k = a) as -> by lia; by eexists].
    intros [b' Hb']. pose proof (li_nonneg _ Hli _ _ Hb'). lia.
  - destruct (canonical_block l (a - 1)) as [b1|] eqn:Hb1.
    + destruct (IH (a - 1) b1) as (lo & Hlo & Hk); [done|lia|lia|]. exists lo. split; [lia|]. intros k Hka.
      destruct (decide (k = a)) as [->|]; [|apply Hk; lia]. split; [lia|by eexists].
    + exists a. split; [lia|]. intros k Hk. split; [|intros ?; assert (k = a) as -> by lia; by eexists].
      intros Hs. destruct (decide (k = a)) as [->|]; [lia|].
      destruct (li_range _ Hli k a (a - 1)) as [b2 Hb2]; [done|by eexists|lia|]. congruence.
Qed.

Lemma settle_match mode fb l l' a :
  stable -> linked l -> logged l -> consistent mode fb l -> cut a l l' -> 0 <= a <= head ->
  canonical_hash l a = Some (br_hash (chain a)) -> exists lo, lo <= a /\ synced l' lo (a + 1).
Proof.
  intros Hst Hli Hlo Hco [Hrows Hserved] Ha Hhash.
  assert (is_Some (canonical_block l a)) as Hs.
  { unfold canonical_hash in Hhash. destruct (canonical_block l a); [by eexists|done]. }
  destruct (lowest_row l a Hli Hs) as (lo & Hlow & Hbelow).
  assert (forall n b, n <= a -> canonical_block l n = Some b -> view b = chain_view n) as Hview.
  { intros n b. by eapply matches_below. }
  exists lo. split; [lia|]. split; [lia| |].
  - intros n. rewrite Hrows. destruct (decide (n <= a)) as [Hn|Hn].
    + rewrite (proj2 (Z.leb_le _ _) Hn). pose proof (Hbelow n Hn) as Hiff.
      destruct (canonical_block l n) as [b|] eqn:Hb; cbn.
      * assert (lo <= n) by (apply Hiff; by eexists). rewrite in_range by lia. f_equal. by apply Hview.
      * rewrite out_of_range_below; [done|]. intros ?. destruct Hiff as [_ [b ?]]; [lia|done].
    + rewrite (proj2 (Z.leb_gt _ _)) by lia. by rewrite out_of_range_below by lia.
  - intros nonce c. rewrite Hserved. split.
    + intros [Hsv Hc]. destruct (lo_served _ Hlo _ _ Hsv) as (b & Hb & Hbh & Hlog).
      pose proof (Hview _ _ Hc Hb) as [= Hh _]. pose proof (li_nonneg _ Hli _ _ Hb).
      destruct Hlog as (log & Hin & Hn & Hcol); [lia|done|]. exists log. split; [|done].
      exists (dc_block c).1. split; [|done]. split; [|lia]. apply Hbelow; [done|by eexists].
    + intros (log & (n & Hn & Hin) & <- & <-). destruct (proj2 (Hbelow n ltac:(lia))) as [b Hb]; [lia|].
      pose proof (Hview n b ltac:(lia) Hb) as [= Hh _]. split.
      * eapply (lo_log _ Hlo n); [done|lia|done|done].
      * cbn. rewrite (lk_number _ _ (st_log Hst n log ltac:(lia) Hin)). lia.
Qed.

Lemma settle_empty l l' a lo :
  linked l -> logged l -> cut a l l' -> canonical_hash l a = None ->
  (exists m, a <= m /\ is_Some (canonical_block l m)) -> 0 <= lo <= head -> synced l' lo lo.
Proof.
  intros Hli Hlog [Hrows Hserved] Hnone (m & Hm & Hsm) Hlo.
  assert (forall n, canonical_block l' n = None) as Hempty.
  { intros n. rewrite Hrows. destruct (n <=? a) eqn:Hn; [|done]. apply Z.leb_le in Hn.
    destruct (canonical_block l n) as [b|] eqn:Hb; [|done]. exfalso.
    destruct (li_range _ Hli n m a) as [b' Hb']; [by eexists|done|lia|].
    unfold canonical_hash in Hnone. by rewrite Hb' in Hnone. }
  split; [lia| |].
  - intros n. rewrite Hempty, out_of_range_below by lia. done.
  - intros nonce c. rewrite Hserved. split; [|intros (? & (n & ? & _) & _); lia].
    intros [Hsv Hc]. destruct (lo_served _ Hlog _ _ Hsv) as (b & Hb & _).
    specialize (Hrows (dc_block c).1). rewrite Hempty, (proj2 (Z.leb_le _ _) Hc) in Hrows. congruence.
Qed.


(** ** Indexing the next block *)

Lemma insert_deposit_Ok mode fb n log now l (S : BridgeDepositLog -> Prop) :
  stable -> 0 <= n <= head -> log ∈ logs n -> (forall x, S x -> on_chain x) -> consistent mode fb l -> serves l S ->
  exists l', insert_deposit (chain n) log now l = Ok (tt, l') /\ blocks l' = blocks l /\
    consistent mode fb l' /\ serves l' (fun x => S x \/ x = log).
Proof.
  intros Hst Hn Hin HS Hco Hsv. destruct (st_log Hst n log Hn Hin) as [Hnum Hhash Hnonce [Ham Hza] Ht Hi].
  assert (on_chain log) as Hlog by by exists n.
  assert (deposit_unique (bl_nonce log) (deposit_columns log) (deposits l) = true) as Hu.
  { apply bool_decide_eq_true. intros k d Hk. cbn.
    destruct (decide (dc_transaction_hash (dp_columns d) = bl_transaction_hash log)) as [Htx|]; [|by right; left].
    destruct (decide (dc_log_index (dp_columns d) = bl_log_index log)) as [Hix|]; [|by right; right].
    left. by eapply (co_id _ _ _ Hco). }
  eexists. split; [|split; [|split]].
  - unfold insert_deposit, check. rewrite (st_number Hst) by done. rewrite Hnum, Hhash, Z.eqb_refl.
    rewrite bool_decide_eq_true_2 by done. rewrite !to_i64_small by (lia || pose proof (st_head Hst); lia).
    assert ((0 <? bl_nonce log) && (0 <? bl_amount log) && (0 <? bl_zeko_amount log) = true) as Hpos by lia.
    unfold mbind, ltx_bind, try_lift. cbn -[deposit_unique deposit_columns Z.ltb]. rewrite Hpos. cbn -[deposit_unique deposit_columns]. by rewrite Hu.
  - done.
  - split; [apply Hco| |apply Hco]. intros k d log' Hk Ho Htx Hix. cbn in Hk.
    apply lookup_insert_Some in Hk as [[<- <-]|[_ Hk]]; [|by eapply (co_id _ _ _ Hco)].
    cbn in Htx, Hix. f_equal. by apply (st_id Hst).
  - intros k c. unfold served. cbn. destruct (decide (k = bl_nonce log)) as [->|Hne].
    + setoid_rewrite lookup_insert_eq. split.
      * intros (d & [= <-] & _ & <-). exists log. split; [by right|done].
      * intros (x & Hx & Hxn & <-). assert (x = log) as ->; [|by eexists].
        destruct Hx as [Hx|]; [|done]. apply (st_nonce Hst); auto.
    + setoid_rewrite lookup_insert_ne; [|done]. pose proof (Hsv k c) as Hold. unfold served in Hold. rewrite Hold.
      split; [|]; intros (x & Hx & Hxn & Hxc); exists x; (split; [|done]); [by left|].
      destruct Hx as [|Hx]; [done|]. subst x. by destruct Hne.
Qed.

Lemma serves_ext l (S S' : BridgeDepositLog -> Prop) : (forall x, S x <-> S' x) -> serves l S -> serves l S'.
Proof. intros He Hs nonce c. rewrite (Hs nonce c). by setoid_rewrite He. Qed.

Lemma insert_deposits_Ok mode fb n s now l (S : BridgeDepositLog -> Prop) :
  stable -> 0 <= n <= head -> s ⊆ logs n -> (forall x, S x -> on_chain x) -> consistent mode fb l -> serves l S ->
  exists l', for_each (insert_deposit (chain n)) s now l = Ok (tt, l') /\ blocks l' = blocks l /\
    consistent mode fb l' /\ serves l' (fun x => S x \/ x ∈ s).
Proof.
  intros Hst Hn. revert l S. induction s as [|log s IH]; intros l S Hs HS Hco Hsv.
  - exists l. split_and!; [done|done|done|]. eapply serves_ext; [|exact Hsv]. intros x. cbn. set_solver.
  - destruct (insert_deposit_Ok mode fb n log now l S) as (l1 & Hr & Hb & Hco1 & Hsv1); try done; [set_solver|].
    destruct (IH l1 (fun x => S x \/ x = log)) as (l2 & Hr2 & Hb2 & Hco2 & Hsv2); [set_solver| |done|done|].
    { intros x [Hx|Hx]; [by apply HS|]. exists n. split; [done|]. set_solver. }
    exists l2. split_and!; [|congruence|done|].
    + cbn. apply ltx_bind_Ok. by exists tt, l1.
    + eapply serves_ext; [|exact Hsv2]. intros x. cbn. set_solver.
Qed.

Lemma insert_block_Ok mode fb n now l :
  stable -> 0 <= n <= head -> consistent mode fb l ->
  exists l', insert_block (chain n) now l = Ok (tt, l') /\ deposits l' = deposits l /\ consistent mode fb l' /\
    (forall m, canonical_block l' m = if decide (m = n) then Some (block_row (chain n)) else canonical_block l m).
Proof.
  intros Hst Hn Hco. pose proof (st_head Hst) as Hhd.
  assert (block_unique n (br_hash (chain n)) (blocks l) = true) as Hu.
  { apply bool_decide_eq_true. intros m b Hb. destruct (decide (bk_hash b = br_hash (chain n))) as [Hh|]; [|by right].
    left. by destruct (co_hash _ _ _ Hco _ _ _ Hb Hn Hh). }
  assert (forall m, canonical_block (with_blocks (<[n := block_row (chain n)]> (blocks l)) l) m =
                    if decide (m = n) then Some (block_row (chain n)) else canonical_block l m) as Hrows.
  { intros m. unfold canonical_block. cbn.
    case_decide as Hm; [by rewrite Hm, lookup_insert_eq|by rewrite lookup_insert_ne]. }
  eexists. split; [|split; [|split]].
  - unfold insert_block, check. rewrite (st_number Hst), to_i64_small by lia. unfold mbind, ltx_bind, try_lift.
    cbn -[block_unique]. by rewrite Hu.
  - done.
  - split; [|apply Hco|].
    + intros m b k Hm Hk Hh. cbn in Hm. apply lookup_insert_Some in Hm as [[<- <-]|[_ Hm]]; [|by eapply (co_hash _ _ _ Hco)].
      cbn in Hh |- *. rewrite (st_hash Hst n k) by done. done.
    + intros m b. rewrite Hrows. case_decide; [by intros [= <-]|apply (co_final _ _ _ Hco)].
  - exact Hrows.
Qed.

(** Transactions end with [refresh], which these tables do not see. *)
Lemma consistent_refresh mode fb l : consistent mode fb l -> consistent mode fb (refresh l).
Proof. intros [? ? ?]. by split. Qed.

Lemma index_block_yields mode fb t l lo next :
  stable -> consistent mode fb l -> synced l lo next -> next <= head ->
  yields node (index_bridge_deposits (chain next)) (t, l)
    (fun r s => r = Ok tt /\ consistent mode fb s.2 /\ synced s.2 lo (next + 1)).
Proof.
  intros Hst Hco [Hrange Hrows Hdep] Hle. assert (0 <= next <= head) as Hn by lia.
  unfold index_bridge_deposits. apply yields_bind. unfold node_deposit_logs, yields at 1. cbn [fst snd].
  rewrite (st_logs Hst) by done. cbn [onwards fst snd]. unfold yields, execute. cbn [fst snd].
  destruct (insert_deposits_Ok mode fb next (logs next) (now_at node (S t)) l (between lo next))
    as (l1 & Hr1 & Hb1 & Hco1 & Hsv1); try done.
  { intros x. apply between_on_chain; lia. }
  destruct (insert_block_Ok mode fb next (now_at node (S t)) l1) as (l2 & Hr2 & Hd2 & Hco2 & Hrows2); try done.
  assert ((for_each (insert_deposit (chain next)) (logs next);; insert_block (chain next)) (now_at node (S t)) l =
          Ok (tt, l2)) as Hr by (apply ltx_bind_Ok; by exists tt, l1).
  unfold commit. rewrite Hr. cbn [fst snd]. split; [done|]. split; [by apply consistent_refresh|]. split; [lia| |].
  - intros n. change (canonical_block (refresh l2) n) with (canonical_block l2 n). rewrite Hrows2.
    case_decide as Heq; [subst n; by rewrite in_range by lia|].
    assert (canonical_block l1 n = canonical_block l n) as -> by (unfold canonical_block; by rewrite Hb1).
    rewrite Hrows. destruct (decide (lo <= n < next)); [by rewrite !in_range by lia|].
    by rewrite !out_of_range_below by lia.
  - eapply (serves_ext _ (fun x => between lo next x \/ x ∈ logs next)).
    + intros x. split.
      * intros [(n & ? & ?)|?]; [exists n|exists next]; (split; [lia|done]).
      * intros (n & ? & ?). destruct (decide (n = next)) as [->|]; [by right|]. left. exists n. split; [lia|done].
    + intros k c. specialize (Hsv1 k c). unfold served in *. cbn. rewrite Hd2. exact Hsv1.
Qed.


Lemma ensure_parent_passes fuel mode t l lo next :
  stable -> synced l lo next -> next <= head ->
  yields node (ensure_parent fuel mode (chain next)) (t, l) (fun r s => r = Ok tt /\ s.2 = l).
Proof.
  intros Hst [Hrange Hrows _] Hle. pose proof (st_head Hst). unfold ensure_parent. rewrite (st_number Hst) by lia.
  destruct (next =? 0) eqn:Hz; [by apply yields_mret|]. apply Z.eqb_neq in Hz.
  apply yields_bind, yields_lift. rewrite to_i64_small by lia. cbn [onwards].
  apply yields_bind, yields_select. cbn [onwards snd].
  rewrite (aligned_hash _ _ _ _ Hrows), (st_parent Hst) by lia.
  destruct ((lo <=? next - 1) && (next - 1 <? next)); [by rewrite bool_decide_eq_true_2|].
  by rewrite bool_decide_eq_false_2, bool_decide_eq_true_2.
Qed.

Lemma index_through_yields mode fb fuel config t l lo next :
  stable -> ic_finality_mode config = mode -> consistent mode fb l -> synced l lo next ->
  (Z.to_nat (head + 1 - next) <= fuel)%nat ->
  yields node (index_through fuel config head next) (t, l)
    (fun r s => r = Ok tt /\ consistent mode fb s.2 /\ synced s.2 lo (head + 1)).
Proof.
  intros Hst Hmode. revert t l next. induction fuel as [|fuel IH]; intros t l next Hco Hsy Hf; cbn [index_through].
  - pose proof (sy_range _ _ _ Hsy). rewrite (proj2 (Z.leb_gt _ _)) by lia. apply yields_mret.
    assert (next = head + 1) as -> by lia. done.
  - destruct (next <=? head) eqn:Hle.
    + apply Z.leb_le in Hle. pose proof (sy_range _ _ _ Hsy).
      apply yields_bind, yields_block; [done|lia|]. cbn [onwards].
      apply yields_bind. eapply yields_mono; [by eapply ensure_parent_passes|].
      intros r [t1 l1] [-> Hl]. cbn in Hl. subst l1. cbn [onwards].
      apply yields_bind. eapply yields_mono; [by eapply index_block_yields|].
      intros r [t2 l2] (-> & Hco2 & Hsy2). cbn [onwards]. rewrite (st_number Hst) by lia.
      apply IH; [done|done|lia].
    + apply Z.leb_gt in Hle. pose proof (sy_range _ _ _ Hsy). apply yields_mret.
      assert (next = head + 1) as -> by lia. done.
Qed.

(** ** Finality *)

Definition finality (config : IndexConfig) (finalized_block : option BlockRef) : option Z :=
  match finalized_block with
  | Some block => Some (br_number block)
  | None => let behind := Z.max (ic_confirmations config) 1 - 1 in
            if behind <=? head then Some (head - behind) else None
  end.

(** The tables hold the blocks from [lo] to the head and their deposits. *)
Record in_sync (l : Ledger) (lo : Z) (through : option Z) : Prop := {
  is_range : 0 <= lo <= head;
  is_rows n : canonical_block l n =
    if (lo <=? n) && (n <=? head) then
      Some {| bk_hash := br_hash (chain n); bk_parent := br_parent_hash (chain n); bk_canonical := true;
              bk_finalized := from_option (fun height => n <=? height) false through |}
    else None;
  is_deposits : serves l (between lo (head + 1));
  is_head : config_head l = (head, br_hash (chain head))
}.

Lemma finalized_through_yields config fb t l lo :
  stable -> finality_input (ic_finality_mode config) fb -> consistent (ic_finality_mode config) fb l ->
  synced l lo (head + 1) ->
  yields node (finalized_through config head fb) (t, l) (fun r s => r = Ok (finality config fb) /\ s.2 = l).
Proof.
  intros Hst Hin Hco Hsy. pose proof (st_head Hst).
  destruct (ic_finality_mode config), fb as [block|]; try done; cbn [finalized_through].
  destruct Hin as (k & Hk & ->).
  apply yields_bind, yields_ensure; [rewrite (st_number Hst) by done; apply Z.leb_le; lia|]. cbn [onwards].
  apply yields_bind, yields_lift. rewrite (st_number Hst), to_i64_small by lia. cbn [onwards].
  apply yields_bind, yields_select. cbn [onwards snd].
  apply yields_bind, yields_ensure.
  { rewrite (aligned_hash _ _ _ _ (sy_rows _ _ _ Hsy)). destruct (_ && _); [|done]. by apply bool_decide_eq_true. }
  cbn [onwards]. apply yields_bind, yields_select. cbn [onwards snd].
  assert (forall n, finalized_height l = Some n -> 0 <= n <= k) as Hprev.
  { intros n (b & Hb & Hfb)%finalized_height_exists. pose proof (sy_range _ _ _ Hsy).
    destruct (co_final _ _ _ Hco _ _ Hb Hfb) as [Hle _]. rewrite (st_number Hst) in Hle by done. split; [|done].
    pose proof (sy_rows _ _ _ Hsy n) as Hn. rewrite Hb in Hn. destruct (decide (lo <= n < head + 1)); [lia|].
    by rewrite out_of_range_below in Hn. }
  assert (from_option (fun height => to_u64 height;; mret tt) (mret tt) (finalized_height l) = Ok tt /\
          from_option (fun height => height <=? k) true (finalized_height l) = true) as [Hnat Hnew].
  { destruct (finalized_height l) as [n|]; [|done]. specialize (Hprev n eq_refl). cbn. unfold to_u64.
    rewrite (proj2 (Z.leb_le 0 n)), (proj2 (Z.leb_le n k)) by lia. done. }
  apply yields_bind, yields_lift. rewrite Hnat. cbn [onwards].
  apply yields_bind, yields_ensure; [exact Hnew|]. cbn [onwards]. apply yields_mret. unfold finality. by rewrite (st_number Hst).
Qed.

Lemma advance_finality_yields config fb t l lo :
  stable -> finality_input (ic_finality_mode config) fb -> consistent (ic_finality_mode config) fb l ->
  synced l lo (head + 1) ->
  yields node (advance_finality config head fb) (t, l)
    (fun r s => r = Ok tt /\ in_sync s.2 lo (finality config fb)).
Proof.
  intros Hst Hin Hco Hsy. pose proof (st_head Hst). pose proof (sy_range _ _ _ Hsy). unfold advance_finality.
  apply yields_bind, yields_block; [done|lia|]. cbn [onwards].
  apply yields_bind, yields_lift. rewrite to_i64_small by lia. cbn [onwards].
  apply yields_bind, yields_select. cbn [onwards snd].
  apply yields_bind, yields_ensure.
  { rewrite (aligned_hash _ _ _ _ (sy_rows _ _ _ Hsy)), in_range by lia. by apply bool_decide_eq_true. }
  cbn [onwards]. apply yields_bind. eapply yields_mono; [by eapply finalized_through_yields|].
  intros r [t1 l1] [-> Hl]. cbn in Hl. subst l1. cbn [onwards].
  unfold yields, execute, mbind, ix_bind. cbn. split; [done|]. split; [lia| | |done].
  - intros n. pose proof (sy_rows _ _ _ Hsy n) as Hrow. unfold canonical_block in *. cbn. rewrite map_lookup_imap.
    replace (n <=? head) with (n <? head + 1) by (destruct (n <? head + 1) eqn:?; destruct (n <=? head) eqn:?; lia).
    destruct (blocks l !! n) as [b|] eqn:Hb; cbn in *; [|by destruct (_ && _)].
    destruct (bk_canonical b) eqn:Hc; cbn in *; [|by destruct (_ && _)].
    destruct (_ && _); [|done]. injection Hrow as Hh Hp. unfold finalize_block. by rewrite Hc, Hh, Hp.
  - intros k c. exact (sy_deposits _ _ _ Hsy k c).
Qed.


(** ** One call, then perhaps another *)

(** What is canonical is of the chain: up to some block, or nothing. *)
Definition resettled (l : Ledger) : Prop :=
  (exists lo a, lo <= a <= head /\ synced l lo (a + 1)) \/ (forall lo, 0 <= lo <= head -> synced l lo lo).

Lemma tip_of_synced l lo next :
  synced l lo next -> latest_block l = if lo <? next then Some (next - 1, br_hash (chain (next - 1))) else None.
Proof.
  intros [Hrange Hrows _]. pose proof (latest_block_highest l) as Hh.
  destruct (latest_block l) as [[n h]|]; cbn in Hh.
  - destruct Hh as [(b & Hb & Hc & <-) Hmax].
    assert (canonical_block l n = Some b) as Hcb by by apply canonical_block_Some.
    pose proof (Hrows n) as Hn. rewrite Hcb in Hn. cbn in Hn.
    destruct (decide (lo <= n < next)) as [Hin|Hout]; [|by rewrite out_of_range_below in Hn].
    rewrite in_range in Hn by done. injection Hn as Hh Hp.
    rewrite (proj2 (Z.ltb_lt _ _)) by lia. assert (n = next - 1) as ->; [|by rewrite Hh].
    pose proof (Hrows (next - 1)) as Hlast. rewrite in_range in Hlast by lia.
    destruct (canonical_block l (next - 1)) as [b'|] eqn:Hb'; [|done].
    apply canonical_block_Some in Hb' as [Hb' Hc']. specialize (Hmax _ _ Hb' Hc'). lia.
  - destruct (lo <? next) eqn:Hlt; [|done]. apply Z.ltb_lt in Hlt. pose proof (Hrows lo) as Hlo.
    rewrite in_range in Hlo by lia. destruct (canonical_block l lo) as [b|] eqn:Hb; [|done].
    apply canonical_block_Some in Hb as [Hb Hc]. by rewrite (Hh _ _ Hb) in Hc.
Qed.

Lemma resume_yields config fb fuel t l :
  stable -> finality_input (ic_finality_mode config) fb -> 0 <= default head (ic_start_block config) ->
  (Z.to_nat (head + 1) <= fuel)%nat -> consistent (ic_finality_mode config) fb l -> resettled l ->
  yields node (next ← ix_lift (first_block config head (latest_block l));
               index_through fuel config head next;; advance_finality config head fb) (t, l)
    (fun r s => r = Ok tt /\ exists lo, in_sync s.2 lo (finality config fb)).
Proof.
  intros Hst Hin Hstart Hf Hco Hre. pose proof (st_head Hst).
  assert (exists lo next, synced l lo next /\ first_block config head (latest_block l) = Ok next) as (lo & next & Hsy & ->).
  { destruct Hre as [(lo & a & Ha & Hsy)|Hall].
    - exists lo, (a + 1). split; [done|]. rewrite (tip_of_synced _ _ _ Hsy), (proj2 (Z.ltb_lt _ _)) by lia.
      pose proof (sy_range _ _ _ Hsy). cbn. unfold to_u64. rewrite (proj2 (Z.leb_le _ _)) by lia. cbn. f_equal. lia.
    - set (first := Z.min (default head (ic_start_block config)) head). exists first, first.
      assert (synced l first first) as Hsy by (apply Hall; lia). split; [done|].
      rewrite (tip_of_synced _ _ _ Hsy), Z.ltb_irrefl. done. }
  pose proof (sy_range _ _ _ Hsy).
  apply yields_bind, yields_lift. cbn [onwards]. apply yields_bind.
  eapply yields_mono; [eapply index_through_yields; [done|done|exact Hco|exact Hsy|lia]|].
  intros r [t1 l1] (-> & Hco1 & Hsy1). cbn [onwards].
  eapply yields_mono; [by eapply advance_finality_yields|]. intros r s [-> Hs]. split; [done|by exists lo].
Qed.

(** A tip of the chain below or at the head settles by itself. *)
Lemma settled_tip mode fb l n h :
  stable -> linked l -> logged l -> consistent mode fb l -> latest_block l = Some (n, h) -> n <= head ->
  h = br_hash (chain n) -> resettled l.
Proof.
  intros Hst Hli Hlo Hco Hlat Hn ->. pose proof (latest_block_highest l) as Hh. rewrite Hlat in Hh.
  destruct Hh as [(b & Hb & Hc & Hbh) Hmax].
  assert (canonical_block l n = Some b) as Hcb by by apply canonical_block_Some.
  pose proof (li_nonneg _ Hli _ _ Hcb).
  assert (forall m b', canonical_block l m = Some b' -> m <= n) as Hle.
  { intros m b' [Hm Hcm]%canonical_block_Some. by eapply Hmax. }
  assert (cut n l l) as Hcut.
  { split.
    - intros m. destruct (m <=? n) eqn:Hm; [done|]. apply Z.leb_gt in Hm.
      destruct (canonical_block l m) as [b'|] eqn:Hb'; [|done]. specialize (Hle _ _ Hb'). lia.
    - intros k c. split; [|by intros [? _]]. intros Hsv. split; [done|].
      destruct (lo_served _ Hlo _ _ Hsv) as (b' & Hb' & _). by eapply Hle. }
  left. destruct (settle_match mode fb l l n) as (lo & Hlo' & Hsy); try done.
  - unfold canonical_hash. rewrite Hcb. cbn. congruence.
  - by exists lo, n.
Qed.

Lemma empty_tip l : logged l -> latest_block l = None -> resettled l.
Proof.
  intros Hlo Hlat. pose proof (latest_block_highest l) as Hh. rewrite Hlat in Hh. right. intros lo Hr.
  assert (forall n, canonical_block l n = None) as Hnone.
  { intros n. destruct (canonical_block l n) as [b|] eqn:Hb; [|done].
    apply canonical_block_Some in Hb as [Hb Hc]. by rewrite (Hh _ _ Hb) in Hc. }
  split; [lia| |].
  - intros n. rewrite Hnone, out_of_range_below by lia. done.
  - intros k c. split; [|intros (? & (? & ? & _) & _); lia]. intros Hsv.
    destruct (lo_served _ Hlo _ _ Hsv) as (b & Hb & _). by rewrite Hnone in Hb.
Qed.

(** Every rollback the walk may choose commits. *)
Definition rolls_back (l : Ledger) : Prop :=
  forall a now, 0 <= a <= head -> is_ok (commit (Ledger.rollback_after a) now l).1 = true.

(** The walk down from block [m] and the rollback. *)
Lemma unwind_yields {B} mode fb fuel t l m (f : Z -> ix B) (Q : outcome error B -> nat * Ledger -> Prop) :
  stable -> linked l -> logged l -> consistent mode fb l -> finality_input mode fb ->
  rolls_back l ->
  0 <= m <= head -> (Z.to_nat m < fuel)%nat ->
  (exists n, m <= n /\ is_Some (canonical_block l n)) ->
  (forall n b, canonical_block l n = Some b -> n <= m \/ m = head) ->
  (forall a t' l', ancestor_of l m a -> consistent mode fb l' -> resettled l' -> yields node (f a) (t', l') Q) ->
  yields node (ancestor ← common_ancestor fuel (chain m); rollback_canonical_chain mode ancestor;; f ancestor) (t, l) Q.
Proof.
  intros Hst Hli Hlo Hco Hin Hok Hm Hf (top & Htop & Hstop) Hrows Hnext. pose proof (st_head Hst).
  apply yields_bind. eapply yields_mono; [by apply common_ancestor_yields|].
  intros r [t1 l1] (Hl & a & -> & Ha). cbn in Hl. subst l1. cbn [onwards].
  pose proof Ha as (Har & Hstopped & Habove).
  apply yields_bind. eapply yields_mono; [apply rollback_yields; [lia| |intros now; apply Hok; lia]|].
  - intros -> n b Hb Hfb. destruct fb as [block|]; [|done]. destruct Hin as (k & Hk & ->).
    destruct (co_final _ _ _ Hco _ _ Hb Hfb) as [Hle Hh]. rewrite (st_number Hst) in Hle by done.
    destruct (decide (n <= a)) as [|Hna]; [done|]. exfalso.
    destruct (Habove n) as (h & Hh' & Hne); [destruct (Hrows _ _ Hb); lia|].
    unfold canonical_hash in Hh'. rewrite Hb in Hh'. cbn in Hh'. congruence.
  - intros r [t2 l2] (-> & Hcut & Hsame). cbn [onwards snd] in *.
    apply Hnext; [done|by eapply consistent_cut|]. destruct Hstopped as [Hmatch|Hnone].
    + destruct (settle_match mode fb l l2 a) as (lo & Hlo' & Hsy); try done; [lia|]. left. exists lo, a. split; [lia|done].
    + right. intros lo Hlo'. apply (settle_empty l l2 a lo Hli Hlo Hcut Hnone); [|done]. exists top. split; [lia|done].
Qed.

(** The two ways a call can end. *)
Definition settles (config : IndexConfig) (fb : option BlockRef) (r : outcome error unit) (s : nat * Ledger) : Prop :=
  (r = Ok tt /\ exists lo, in_sync s.2 lo (finality config fb)) \/
  ((exists e, r = Err e) /\ consistent (ic_finality_mode config) fb s.2 /\ resettled s.2).

Lemma current_tip_settled fuel config l t (Q : outcome error (option (Z * string)) -> nat * Ledger -> Prop) :
  stable -> resettled l -> (forall t', Q (Ok (latest_block l)) (t', l)) ->
  yields node (current_tip fuel config head) (t, l) Q.
Proof.
  intros Hst Hre HQ. pose proof (st_head Hst). unfold current_tip. apply yields_bind, yields_select. cbn [onwards snd].
  revert HQ. destruct (latest_block l) as [[n h]|] eqn:Hlat; intros HQ; [|apply yields_mret, HQ].
  assert (exists lo a, lo <= a <= head /\ synced l lo (a + 1)) as (lo & a & Ha & Hsy).
  { destruct Hre as [?|Hall]; [done|]. assert (synced l head head) as Hsy by (apply Hall; lia).
    by rewrite (tip_of_synced _ _ _ Hsy), Z.ltb_irrefl in Hlat. }
  pose proof (sy_range _ _ _ Hsy). rewrite (tip_of_synced _ _ _ Hsy) in Hlat. rewrite (proj2 (Z.ltb_lt _ _)) in Hlat by lia.
  injection Hlat as <- <-. replace (a + 1 - 1) with a in * by lia.
  apply yields_bind, yields_lift. unfold to_u64. rewrite (proj2 (Z.leb_le 0 a)) by lia. cbn [onwards].
  destruct (head <=? a) eqn:Hle; [|apply yields_mret, HQ]. apply Z.leb_le in Hle. assert (a = head) as -> by lia.
  apply yields_bind, yields_block; [done|lia|]. cbn [onwards].
  rewrite Z.ltb_irrefl, bool_decide_eq_true_2 by done. apply yields_mret, HQ.
Qed.

Lemma second_call config fb fuel t l :
  stable -> finality_input (ic_finality_mode config) fb -> 0 <= default head (ic_start_block config) ->
  (Z.to_nat (head + 1) <= fuel)%nat -> consistent (ic_finality_mode config) fb l -> resettled l ->
  yields node (index_blocks fuel config head fb) (t, l)
    (fun r s => r = Ok tt /\ exists lo, in_sync s.2 lo (finality config fb)).
Proof.
  intros Hst Hin Hstart Hf Hco Hre. unfold index_blocks. apply yields_bind, current_tip_settled; [done|done|].
  intros t'. cbn [onwards]. by apply resume_yields.
Qed.

(** An indexed tip below the head that is not on the chain. *)
Lemma reorg_below_head config fb fuel t l n h :
  stable -> finality_input (ic_finality_mode config) fb -> (Z.to_nat (head + 1) < fuel)%nat ->
  linked l -> logged l -> consistent (ic_finality_mode config) fb l ->
  rolls_back l ->
  latest_block l = Some (n, h) -> 0 <= n < head -> h <> br_hash (chain n) ->
  yields node (index_through fuel config head (n + 1);; advance_finality config head fb) (t, l) (settles config fb).
Proof.
  intros Hst Hin Hf Hli Hlo Hco Hok Hlat Hn Hne. pose proof (st_head Hst).
  pose proof (latest_block_highest l) as Hh. rewrite Hlat in Hh. destruct Hh as [(b & Hb & Hc & Hbh) Hmax].
  assert (canonical_block l n = Some b) as Hcb by by apply canonical_block_Some.
  destruct fuel as [|fuel]; [lia|]. cbn [index_through]. rewrite (proj2 (Z.leb_le _ _)) by lia.
  apply yields_bind, yields_bind, yields_block; [done|lia|]. cbn [onwards].
  apply yields_bind. unfold ensure_parent at 1. rewrite (st_number Hst) by lia.
  rewrite (proj2 (Z.eqb_neq _ _)) by lia. replace (n + 1 - 1) with n by lia.
  apply yields_bind, yields_lift. rewrite to_i64_small by lia. cbn [onwards].
  apply yields_bind, yields_select. cbn [onwards snd].
  assert (canonical_hash l n = Some h) as Hch by (unfold canonical_hash; by rewrite Hcb, <- Hbh).
  rewrite Hch, (st_parent Hst) by lia. replace (n + 1 - 1) with n by lia.
  rewrite bool_decide_eq_false_2 by congruence. rewrite bool_decide_eq_false_2 by done.
  apply yields_bind, yields_block; [done|lia|]. cbn [onwards].
  apply yields_bind, yields_ensure; [by apply bool_decide_eq_true|]. cbn [onwards].
  eapply (unwind_yields (ic_finality_mode config) fb); try done; [lia|lia| | |].
  - exists n. split; [done|by eexists].
  - intros m b' [Hm Hcm]%canonical_block_Some. left. by eapply Hmax.
  - intros a t' l' (Ha & [Hsame|Hnone] & Habove) Hco' Hre'.
    all: destruct (decide (a = n)) as [->|Hna]; [congruence|].
    all: apply yields_lift; rewrite (proj2 (Z.eqb_neq _ _)) by lia; cbn; right; split; [by eexists|done].
Qed.

Lemma first_call config fb fuel t l :
  stable -> finality_input (ic_finality_mode config) fb -> 0 <= default head (ic_start_block config) ->
  (Z.to_nat (head + 1) < fuel)%nat -> linked l -> logged l -> consistent (ic_finality_mode config) fb l ->
  rolls_back l ->
  yields node (index_blocks fuel config head fb) (t, l) (settles config fb).
Proof.
  intros Hst Hin Hstart Hf Hli Hlo Hco Hok. pose proof (st_head Hst). unfold index_blocks.
  pose proof (latest_block_highest l) as Hh. apply yields_bind.
  assert (resettled l -> yields node (current_tip fuel config head) (t, l) (onwards (fun latest s =>
    yields node (next ← ix_lift (first_block config head latest); index_through fuel config head next;;
                 advance_finality config head fb) s (settles config fb)) (settles config fb))) as Hsettled.
  { intros Hre. apply current_tip_settled; [done|done|]. intros t'. cbn [onwards].
    eapply yields_mono; [apply resume_yields; [done|done|done|lia|done|done]|]. intros r s Hs. by left. }
  destruct (latest_block l) as [[n h]|] eqn:Hlat; [|by apply Hsettled, empty_tip].
  destruct Hh as [(b & Hb & Hc & Hbh) Hmax].
  assert (canonical_block l n = Some b) as Hcb by by apply canonical_block_Some.
  pose proof (li_nonneg _ Hli _ _ Hcb) as Hpos.
  destruct (decide (n <= head /\ h = br_hash (chain n))) as [[Hle Heq]|Hno].
  { by eapply Hsettled, settled_tip. }
  unfold current_tip. apply yields_bind, yields_select. cbn [onwards snd]. rewrite Hlat.
  apply yields_bind, yields_lift. unfold to_u64. rewrite (proj2 (Z.leb_le 0 n)) by lia. cbn [onwards].
  destruct (head <=? n) eqn:Hle.
  - apply Z.leb_le in Hle. apply yields_bind, yields_block; [done|lia|]. cbn [onwards].
    assert ((head <? n) || negb (bool_decide (h = br_hash (chain head))) = true) as ->.
    { destruct (head <? n) eqn:Hlt; [done|]. apply Z.ltb_ge in Hlt. assert (n = head) as -> by lia.
      rewrite bool_decide_eq_false_2; [done|]. intros ->. by apply Hno. }
    eapply (unwind_yields (ic_finality_mode config) fb); try done; [lia|lia| |by right|].
    + exists n. split; [lia|by eexists].
    + intros a t' l' _ Hco' Hre'. apply yields_select. cbn [onwards snd].
      eapply yields_mono; [apply resume_yields; [done|done|done|lia|done|done]|]. intros r s Hs. by left.
  - apply Z.leb_gt in Hle. apply yields_mret. cbn [onwards]. apply yields_bind, yields_lift.
    unfold first_block, to_u64. rewrite (proj2 (Z.leb_le 0 n)) by lia. cbn [mbind outcome_bind onwards].
    eapply reorg_below_head; try done. intros ->. apply Hno. split; [lia|done].
Qed.

End convergence.
