(* ===== verification/Recovery.v ===== *)
(** * Recovery and reconciliation ([api/src/indexer.rs])

    [recover_gateway_state] replays accepted events that no confirmed job
    accounts for, [reconcile_jobs] follows the receipts of submitted jobs, and
    [tick] is the round of the indexer that calls everything. *)

From stdpp Require Import gmap strings sorting.
From S2P Require Import Prelude Hashing Codec PublicValues Rpc Database Program OuterWriter Submission Worker Indexer.
From S2P Require Import TxLogic Coordination System Ledger Accounts ChainIndex ExplorerIndex Reorganization Convergence.

Section recovery.
Context `{Externals} `{!JsonObjects} `{Keccak}.

(** ** Accepted events *)

Record AcceptedEvent := { ae_kind : ProofKind; ae_block : Z * string; ae_transaction_hash : string; ae_log_index : Z }.

(** [ORDER BY ethereum_block_number, ethereum_log_index]. *)
Definition event_le (a b : AcceptedEvent) : Prop :=
  (ae_block a).1 < (ae_block b).1 \/ ((ae_block a).1 = (ae_block b).1 /\ ae_log_index a <= ae_log_index b).
#[export] Instance event_le_dec : RelDecision event_le.
Proof. unfold RelDecision, event_le. solve_decision. Defined.

(** The join with [gateway_blocks]. *)
Definition in_final_block (l : Ledger) (block : Z * string) : bool :=
  from_option (fun b => bk_finalized b && bool_decide (bk_hash b = block.2)) false (canonical_block l block.1).

Definition accepted_events (l : Ledger) : list AcceptedEvent :=
  merge_sort event_le
    (omap (fun row => if negb (te_removed row.2) && in_final_block l (te_block row.2)
                      then Some {| ae_kind := Bridge; ae_block := te_block row.2; ae_transaction_hash := row.1.1;
                                   ae_log_index := row.1.2 |}
                      else None) (map_to_list (transition_events l)) ++
     omap (fun row => if negb (se_removed row.2) && in_final_block l (se_block row.2)
                      then Some {| ae_kind := Settlement; ae_block := se_block row.2; ae_transaction_hash := row.1.1;
                                   ae_log_index := row.1.2 |}
                      else None) (map_to_list (settlement_events l))).

(** Whether a confirmed job of the transaction has changed the accounts. *)
Definition confirmed_by (hash : string) (l : Ledger) (job : uuid) : bool :=
  from_option (fun j => same_text (j_transaction_hash j) hash && bool_decide (j_status j = confirmed)) false
    (jobs (gateway l) !! job).
Definition already_applied (hash : string) (l : Ledger) : bool :=
  existsb (fun row => confirmed_by hash l row.1.1.1) (map_to_list (history l)).

(** ** The input of a recovered settlement *)

Definition recovered_action (receipt : V1.SettlementPublicValuesV1) : list bytes :=
  let fields := os_fields (V1.state_after receipt) in
  [zeros 32; fields !!! 2%nat; fields !!! 3%nat; fields !!! 4%nat; V1.synchronized_outer_action_state receipt;
   u32_word (V1.synchronized_outer_action_state_length receipt); u32_word (V1.slot_lower receipt);
   u32_word (V1.slot_upper receipt)].

Definition row_not_found : error := [Sqlx "no rows returned by a query that expected to return at least one row" SqlxOther].

Definition recovered_settlement_input (config : IndexConfig) (public_values : bytes) : ix Value :=
  values ← ix_lift (settlement_values public_values);
  let receipt := settlement_of values in
  configured ← select (fun l => outer_public_key (gateway l));
  outer ← ix_lift (context configured "VIRTUAL_MINA_OUTER_PUBLIC_KEY is required for gateway recovery");
  payer ← ix_lift (context (ic_fee_payer_public_key config)
            "VIRTUAL_MINA_FEE_PAYER_PUBLIC_KEY is required for gateway recovery");
  row ← select (fun l => accounts l !! (payer, MINA_TOKEN));
  row ← ix_lift (match row with Some row => Ok row | None => Err row_not_found end);
  nonce ← ix_lift (context (parse_u64 (default "0"%string (nonce_of (account_json row))))
            "virtual Mina fee-payer nonce is invalid");
  mret (object_value [
    ("recoveredFromEthereum", bool_value true);
    ("submission", object_value [
      ("outerAccountPublicKey", string_value outer);
      ("feePayerPublicKey", string_value payer);
      ("nonce", u64_value nonce)]);
    ("proof", object_value [("binding", object_value [
      ("actions", array_value [array_value (map (fun field => string_value (hex field)) (recovered_action receipt))])])])
    ]%string).

(** ** One event *)

Definition apply_receipt (kind : ProofKind) (job : uuid) (input : Value) (public_values_hex : string)
    (block : Z * string) (hash : string) : ix unit :=
  execute (match kind with
           | Bridge => apply_confirmed_bridge job public_values_hex block hash
           | Settlement => apply_confirmed_settlement job input public_values_hex block hash
           end).

Definition insert_recovered_job (id : uuid) (kind : ProofKind) (input : Value) (public_values_hex hash : string)
    (block : Z * string) : ltx unit :=
  height ← try_lift (to_i64 block.1);
  on_gateway (now ← now_; insert_recovered id (recovered_job now kind input public_values_hex hash (height, block.2))).

Definition confirm_event (job : uuid) (public_values_hex hash : string) (block : Z * string) : ltx unit :=
  height ← try_lift (to_i64 block.1);
  on_gateway (now ← now_;
    update_job job (fun _ => true) (confirm_recovered now public_values_hex hash (height, block.2));; mret tt).

Definition event_job (config : IndexConfig) (e : AcceptedEvent) (public_values : bytes) (block : Z * string)
    : ix (uuid * Value) :=
  let hash := ae_transaction_hash e in
  existing ← select (fun l => find_transaction hash (jobs (gateway l)));
  match existing with
  | Some (id, j) =>
    input ← (if bool_decide (ae_kind e = Settlement) && bool_decide (get (j_input j) "submission" = None)
             then recovered_settlement_input config public_values else mret (j_input j));
    mret (id, input)
  | None =>
    input ← (match ae_kind e with
             | Settlement => recovered_settlement_input config public_values
             | Bridge => mret (object_value [("recoveredFromEthereum"%string, bool_value true)])
             end);
    id ← ask_node (fun node t => Ok (uuid_at node t));
    execute (insert_recovered_job id (ae_kind e) input (hex public_values) hash block);;
    mret (id, input)
  end.

Definition recover_accepted (config : IndexConfig) (e : AcceptedEvent) : ix unit :=
  height ← ix_lift (to_u64 (ae_block e).1);
  let block := (height, (ae_block e).2) in
  let hash := ae_transaction_hash e in
  done_ ← select (already_applied hash);
  if (done_ : bool) then mret tt
  else
    public_values ← ask_node (fun node t => public_values_at node t (ae_kind e) hash);
    '(job, input) ← event_job config e public_values block;
    apply_receipt (ae_kind e) job input (hex public_values) block hash;;
    execute (confirm_event job (hex public_values) hash block).

Definition recover_gateway_state (config : IndexConfig) : ix unit :=
  events ← select accepted_events;
  for_logs (recover_accepted config) events.

(** ** Receipts of submitted jobs *)

Definition state_applied (l : Ledger) (id : uuid) (j : Job) : bool :=
  has_history id l || (bool_decide (j_kind j = Settlement) && bool_decide (get (j_input j) "submission" = None)).

(** Whether the block a job was confirmed in is final, at or below [$2]. *)
Definition submitted_finally (l : Ledger) (finalized : option Z) (j : Job) : bool :=
  from_option (fun block => in_final_block l block && from_option (fun height => block.1 <=? height) false finalized)
    false (j_submitted_block j).
Definition reconcile_row (mode : FinalityMode) (finalized : option Z) (l : Ledger) (id : uuid) (j : Job) : bool :=
  reconcilable j &&
  ((match mode with Confirmations => true | Finalized => false end) || negb (bool_decide (j_status j = confirmed)) ||
   negb (submitted_finally l finalized j) ||
   ((bool_decide (j_kind j = Bridge) || negb (bool_decide (get (j_input j) "submission" = None))) &&
    negb (has_history id l))).

Definition submitted_rows (mode : FinalityMode) (finalized : option Z) (l : Ledger) : list (uuid * Job * bool) :=
  omap (fun row => if reconcile_row mode finalized l row.1 row.2 then Some (row, state_applied l row.1 row.2) else None)
    (map_to_list (jobs (gateway l))).

Definition revert_submitted (id : uuid) (confirmations : Z) (r : Receipt) : ltx unit :=
  try_lift (to_i64 (rc_gas_used r));;
  on_gateway (now ← now_;
    update_job id (fun _ => true) (revert_job now confirmations r);;
    delete_pending id).

Definition confirm_submitted (id : uuid) (confirmations : Z) (is_confirmed : bool) (r : Receipt) : ltx unit :=
  try_lift (to_i64 (rc_block_number r));;
  try_lift (to_i64 (rc_gas_used r));;
  on_gateway (now ← now_;
    update_job id (fun _ => true) (reconcile_job_row now confirmations is_confirmed r);;
    mret tt).

Definition reconcile_receipt (config : IndexConfig) (head : Z) (finalized : option Z) (id : uuid) (j : Job)
    (applied : bool) (hash : string) (r : Receipt) : ix unit :=
  let confirmations := Z.max (head - rc_block_number r) 0 + 1 in
  number ← ix_lift (to_i64 (rc_block_number r));
  canonical ← select (fun l => canonical_hash l number);
  let is_confirmed := transaction_is_finalized (ic_finality_mode config) (rc_block_number r) confirmations
                        (ic_confirmations config) finalized in
  if negb (bool_decide (canonical = Some (rc_block_hash r))) then mret tt
  else if bool_decide (j_status j = reorged) && (negb is_confirmed || rc_succeeded r) then mret tt
  else if negb (rc_succeeded r) && is_confirmed then execute (revert_submitted id confirmations r)
  else
    (if is_confirmed && (negb (bool_decide (j_status j = confirmed)) || negb applied) then
       values ← ix_lift (context (j_public_values j) (match j_kind j with
                  | Settlement => "settlement public values missing"
                  | Bridge => "bridge public values missing"
                  end));
       apply_receipt (j_kind j) id (j_input j) values (rc_block_number r, rc_block_hash r) hash
     else mret tt);;
    execute (confirm_submitted id confirmations is_confirmed r).

Definition reconcile_submitted (config : IndexConfig) (head : Z) (finalized : option Z) (row : uuid * Job * bool)
    : ix unit :=
  let '((id, j), applied) := row in
  match j_transaction_hash j with
  | None => mret tt
  | Some hash =>
    receipt ← ask_node (fun node t => receipt_at node t hash);
    match receipt with
    | None => mret tt
    | Some r => reconcile_receipt config head finalized id j applied hash r
    end
  end.

Definition reconcile_jobs (config : IndexConfig) (head : Z) (finalized_block : option BlockRef) : ix unit :=
  let finalized := br_number <$> finalized_block in
  ix_lift (match finalized with Some height => to_i64 height;; mret tt | None => mret tt end);;
  rows ← select (submitted_rows (ic_finality_mode config) finalized);
  for_logs (reconcile_submitted config head finalized) rows.

(** ** The round of the indexer *)

Definition tick (fuel : nat) (config : IndexConfig) : ix unit :=
  head ← ask_node head_at;
  finalized_block ← (match ic_finality_mode config with
                     | Finalized => block ← ask_node finalized_block_at; mret (Some block)
                     | Confirmations => mret None
                     end);
  index_blocks fuel config head finalized_block;;
  index_explorer_events_through fuel config head;;
  recover_gateway_state config;;
  reconcile_jobs config head finalized_block;;
  execute (on_gateway finish_recovery).

End recovery.

(** ** What recovery keeps *)

Section kept.
Context `{Externals} `{!JsonObjects} `{Keccak}.

(** The accepted events stay, and so do the snapshots. *)
Definition grows (l l' : Ledger) : Prop :=
  transition_events l' = transition_events l /\ settlement_events l' = settlement_events l /\
  blocks l' = blocks l /\ forall k, is_Some (history l !! k) -> is_Some (history l' !! k).
(** Beyond that, what was applied stays applied. *)
Definition keeps (l l' : Ledger) : Prop :=
  grows l l' /\
  (all_typed (gateway l) -> all_typed (gateway l') /\ forall hash, already_applied hash l = true -> already_applied hash l' = true).

#[export] Instance grows_preorder : PreOrder grows.
Proof. unfold grows. split; [intros l; by split_and!|]. intros a b c (?&?&?&?) (?&?&?&?). split_and!; [congruence..|auto]. Qed.
#[export] Instance keeps_preorder : PreOrder keeps.
Proof.
  split; [intros l; split; [reflexivity|auto]|]. intros a b c [? Hab] [? Hbc]. split; [by etrans|].
  intros Ha. destruct (Hab Ha) as [Hb ?]. destruct (Hbc Hb). auto.
Qed.

Lemma confirmed_by_true hash l job :
  confirmed_by hash l job = true <->
  exists j, jobs (gateway l) !! job = Some j /\ same_text (j_transaction_hash j) hash = true /\ j_status j = confirmed.
Proof.
  unfold confirmed_by. destruct (jobs (gateway l) !! job) as [j|]; cbn; [|naive_solver].
  rewrite andb_true_iff, bool_decide_eq_true. naive_solver.
Qed.
Lemma already_applied_true hash l :
  already_applied hash l = true <->
  exists k, is_Some (history l !! k) /\ confirmed_by hash l k.1.1 = true.
Proof.
  unfold already_applied. rewrite existsb_exists. split.
  - intros ([k row] & Hin & Hc). exists k. split; [|done]. exists row. apply elem_of_map_to_list. by apply list_elem_of_In.
  - intros (k & [row Hk] & Hc). exists (k, row). split; [|done]. by apply list_elem_of_In, elem_of_map_to_list.
Qed.
Lemma has_history_true job l : has_history job l = true <-> exists k, is_Some (history l !! k) /\ k.1.1 = job.
Proof.
  unfold has_history. rewrite bool_decide_eq_true, Exists_exists. split.
  - intros ([k row] & Hin%elem_of_map_to_list & Hk). exists k. split; [by exists row|done].
  - intros (k & [row Hk] & <-). exists (k, row). split; [by apply elem_of_map_to_list|done].
Qed.

(** A transaction that keeps the jobs keeps what was applied. *)
Lemma keeps_same_jobs l l' : grows l l' -> jobs (gateway l') = jobs (gateway l) -> keeps l l'.
Proof.
  intros Hg Hj. split; [done|]. intros Ha. split; [by unfold all_typed; rewrite Hj|].
  intros hash. rewrite !already_applied_true. intros (k & Hk & Hc). exists k. split; [by apply Hg|].
  unfold confirmed_by in *. by rewrite Hj.
Qed.

End kept.

(** ** Receipts leave a snapshot *)

Section snapshots.
Context `{Externals} `{!JsonObjects} `{Keccak}.

Definition growing {A} (t : ltx A) : Prop := lrespects (fun _ => grows) t.

Lemma fetch_account_growing pk what : growing (fetch_account pk what).
Proof. unfold growing, fetch_account. repeat lrespects_step. Qed.
Lemma snapshot_account_Ok job pk account block now l u l' :
  snapshot_account job pk account block now l = Ok (u, l') -> grows l l' /\ has_history job l' = true.
Proof.
  unfold snapshot_account. intros Hr. inv_ltx. rewrite has_history_true.
  match type of Hr with (match ?o with _ => _ end) _ _ = _ => destruct o as [h|] eqn:Hh end; inv_ltx.
  - split; [reflexivity|]. exists (job, pk, MINA_TOKEN). by rewrite Hh.
  - split.
    + unfold grows. split_and!; [done..|]. intros k Hk. cbn. by apply lookup_insert_is_Some'; right.
    + exists (job, pk, MINA_TOKEN). split; [|done]. cbn. by rewrite lookup_insert_eq.
Qed.
Lemma snapshot_account_growing job pk account block : growing (snapshot_account job pk account block).
Proof. intros now l u l' Hr. by eapply snapshot_account_Ok. Qed.

Ltac grown := unfold grows; split_and!; done.
Lemma store_account_growing pk account block : growing (store_account pk account block).
Proof. unfold growing, store_account. repeat lrespects_step. grown. Qed.
Ltac growing_tac :=
  unfold growing; repeat first
    [apply fetch_account_growing|apply snapshot_account_growing|apply store_account_growing|lrespects_step];
  try grown.
Lemma advance_fee_payer_growing job pk expected increment block : growing (advance_fee_payer job pk expected increment block).
Proof. unfold advance_fee_payer, store_account. cbv zeta. growing_tac. Qed.
Lemma grows_history job l l' : grows l l' -> has_history job l = true -> has_history job l' = true.
Proof. rewrite !has_history_true. intros (_ & _ & _ & Hg) (k & Hk & ?). eauto. Qed.

(** The job has a snapshot when the transaction ends. *)
Definition snapshots (job : uuid) {A} (t : ltx A) : Prop :=
  forall now l a l', t now l = Ok (a, l') -> grows l l' /\ has_history job l' = true.

Lemma snapshots_after {A B} job (t : ltx A) (f : A -> ltx B) :
  growing t -> (forall a, snapshots job (f a)) -> snapshots job (t ≫= f).
Proof.
  intros Ht Hf now l b l' (a & l1 & Hg%Ht & [Hg' Hh]%Hf)%ltx_bind_Ok. split; [by etrans|done].
Qed.
Lemma snapshots_before {A B} job (t : ltx A) (f : A -> ltx B) :
  snapshots job t -> (forall a, growing (f a)) -> snapshots job (t ≫= f).
Proof.
  intros Ht Hf now l b l' (a & l1 & [Hg Hh]%Ht & Hg'%Hf)%ltx_bind_Ok. split; [by etrans|by eapply grows_history].
Qed.

Lemma update_outer_account_snapshots job pk receipt block : snapshots job (update_outer_account job pk receipt block).
Proof.
  unfold update_outer_account. apply snapshots_after; [apply fetch_account_growing|intros row].
  apply snapshots_before; [intros now l u l'; apply snapshot_account_Ok|intros _].
  growing_tac.
Qed.
Lemma update_outer_account_actions_snapshots job pk state states block :
  snapshots job (update_outer_account_actions job pk state states block).
Proof.
  unfold update_outer_account_actions. apply snapshots_after; [apply fetch_account_growing|intros row].
  apply snapshots_before; [intros now l u l'; apply snapshot_account_Ok|intros _].
  growing_tac.
Qed.

Lemma apply_confirmed_growing c job values block hash : growing (apply_confirmed c job values block hash).
Proof.
  destruct c; unfold apply_confirmed, apply_confirmed_settlement, apply_confirmed_bridge, apply_settlement_update,
    apply_bridge_update, update_outer_account, update_outer_account_actions, update_fee_payer, advance_fee_payer,
    store_inner_action_leaves, bind_deposit, insert_bridge_action, insert_action; cbv zeta; growing_tac.
Qed.

(** The receipts that change accounts. *)
Definition recoverable (c : confirmation) : Prop :=
  match c with ConfirmSettlement input => is_Some (get input "submission") | ConfirmBridge => True end.

Lemma apply_settlement_update_snapshots job input submission values block hash :
  snapshots job (apply_settlement_update job input submission values block hash).
Proof.
  unfold apply_settlement_update. cbv zeta.
  do 4 (apply snapshots_after; [growing_tac|intros ?]). apply snapshots_after; [growing_tac|intros _].
  apply snapshots_before; [apply update_outer_account_snapshots|intros _].
  unfold update_fee_payer, advance_fee_payer, insert_action, store_inner_action_leaves. cbv zeta. growing_tac.
Qed.
Lemma apply_bridge_update_snapshots job v block hash : snapshots job (apply_bridge_update job v block hash).
Proof.
  unfold apply_bridge_update. do 2 (apply snapshots_after; [growing_tac|intros ?]).
  apply snapshots_before; [apply update_outer_account_actions_snapshots|intros _].
  unfold insert_bridge_action, insert_action. growing_tac.
Qed.

Lemma snapshots_unless job now l u l' (t : ltx unit) :
  snapshots job t -> (if has_history job l then mret tt else t) now l = Ok (u, l') -> has_history job l' = true.
Proof. destruct (has_history job l) eqn:Hh; [|intros Ht; apply Ht]. intros _ Hr. inv_ltx. done. Qed.

Lemma apply_confirmed_snapshots c job values block hash :
  recoverable c -> snapshots job (apply_confirmed c job values block hash).
Proof.
  intros Hc now l u l' Hr. split; [by eapply apply_confirmed_growing|].
  destruct c as [input|]; cbn in Hr, Hc; [unfold apply_confirmed_settlement in Hr|unfold apply_confirmed_bridge in Hr];
    inv_ltx.
  - destruct Hc as [submission Hsub]. rewrite Hsub in Hr.
    by eapply snapshots_unless; [apply apply_settlement_update_snapshots|].
  - by eapply snapshots_unless; [apply apply_bridge_update_snapshots|].
Qed.

End snapshots.

(** ** Runs of recovery *)

Section recovery_runs.
Context `{Externals} `{!JsonObjects} `{Keccak}.

Lemma yields_execute node {A} (t : ltx A) s (Q : outcome error A -> nat * Ledger -> Prop) :
  (forall a now l, t now s.2 = Ok (a, l) -> Q (Ok a) (S s.1, refresh l)) ->
  (forall e, Q (Err e) (S s.1, s.2)) -> (forall w, Q (Panic w) (S s.1, s.2)) ->
  yields node (execute t) s Q.
Proof.
  intros Hok He Hw. unfold yields, execute, commit. cbn.
  destruct (t (now_at node s.1) s.2) as [[a l]|e|w] eqn:Hr; cbn; [by eapply Hok|apply He|apply Hw].
Qed.

Lemma keeps_refresh l : keeps l (refresh l).
Proof. by apply keeps_same_jobs; [unfold grows; split_and!|]. Qed.
Lemma keeps_with_jobs l db :
  (all_typed (gateway l) -> all_typed db /\
   forall hash, already_applied hash l = true -> already_applied hash (with_gateway db l) = true) ->
  keeps l (with_gateway db l).
Proof. intros Hj. split; [unfold grows; by split_and!|done]. Qed.

Definition known (hash : string) (l : Ledger) (job : uuid) : Prop :=
  exists j, jobs (gateway l) !! job = Some j /\ job_of_transaction hash j = true.

(** A new row says nothing of the others. *)
Lemma keeps_insert l id j :
  jobs (gateway l) !! id = None -> typed j ->
  keeps l (with_gateway (with_jobs (<[id := j]> (jobs (gateway l))) (gateway l)) l).
Proof.
  intros Hn Hp. apply keeps_with_jobs. intros Ha. split; [by apply typed_insert|].
  intros hash. rewrite !already_applied_true. intros (k & Hk & Hc). exists k. split; [done|].
  apply confirmed_by_true in Hc as (j' & Hj' & ?). apply confirmed_by_true. exists j'. split; [|done].
  cbn. rewrite lookup_insert_ne; [done|congruence].
Qed.

(** Confirming the job of a transaction. *)
Lemma known_hash hash j h :
  typed j -> job_of_transaction hash j = true -> j_transaction_hash j = Some h ->
  to_ascii_lowercase h = to_ascii_lowercase hash.
Proof.
  intros Ha Ht Hh. unfold job_of_transaction in Ht. apply orb_true_iff in Ht as [Ht|Ht];
    apply same_text_Some in Ht as (h' & Hh' & <-); [congruence|].
  destruct (j_prepared_transaction j) as [p|] eqn:Hp; [|done]. injection Hh' as <-. by eapply ty_hash.
Qed.

Lemma keeps_confirm l now values hash block job j :
  jobs (gateway l) !! job = Some j -> job_of_transaction hash j = true ->
  let j' := confirm_recovered now values hash block j in
  let l' := with_gateway (with_jobs (<[job := j']> (jobs (gateway l))) (gateway l)) l in
  keeps l l' /\ (has_history job l = true -> already_applied hash l' = true).
Proof.
  intros Hj Ht j' l'. split.
  - apply keeps_with_jobs. intros Ha. split.
    + apply typed_insert; [|done]. apply confirm_evolves; [done|by eapply Ha].
    + intros hash0. rewrite !already_applied_true. intros (k & Hk & Hc). exists k. split; [done|].
      apply confirmed_by_true in Hc as (i & Hi & Hi' & Hs). apply confirmed_by_true. subst l'. cbn.
      destruct (decide (job = k.1.1)) as [->|Hne]; [|exists i; by rewrite lookup_insert_ne].
      exists j'. rewrite lookup_insert_eq. split_and!; [done| |done]. assert (i = j) as -> by congruence.
      apply same_text_Some in Hi' as (h & Hh & Hl). apply same_text_Some. exists hash. split; [done|].
      rewrite <- Hl. symmetry. eapply known_hash; [by eapply Ha|done|done].
  - rewrite has_history_true, already_applied_true. intros (k & Hk & <-). exists k. split; [done|].
    apply confirmed_by_true. exists j'. subst l'. cbn. rewrite lookup_insert_eq. split_and!; [done| |done].
    apply same_text_Some. by exists hash.
Qed.

(** [serde_json]: the members of an object that is built can be read. *)
Hypothesis get_object : forall fields key v, (key, v) ∈ fields -> is_Some (get (object_value fields) key).

Lemma recovered_input_yields node config values s (Q : outcome error Value -> nat * Ledger -> Prop) :
  (forall r, (forall v, r = Ok v -> is_Some (get v "submission")) -> Q r s) ->
  yields node (recovered_settlement_input config values) s Q.
Proof.
  intros HQ. unfold recovered_settlement_input.
  assert (forall A B (o : outcome error A) (f : A -> ix B) (P : outcome error B -> nat * Ledger -> Prop),
    (forall e, P (Err e) s) -> (forall w, P (Panic w) s) -> (forall a, yields node (f a) s P) ->
    yields node (a ← ix_lift o; f a) s P) as Hlift.
  { intros A B o f P He Hw Hf. apply yields_bind, yields_lift. destruct o; cbn; auto. }
  assert (forall e, Q (Err e) s) by (intros e; by apply HQ).
  assert (forall w, Q (Panic w) s) by (intros w; by apply HQ).
  apply Hlift; [done..|intros v]. cbv zeta. apply yields_bind, yields_select. cbn [onwards].
  do 2 (apply Hlift; [done..|intros ?]). apply yields_bind, yields_select. cbn [onwards].
  do 2 (apply Hlift; [done..|intros ?]). apply yields_mret, HQ. intros v' [= <-].
  eapply get_object. right. by left.
Qed.

(** What the selection of a job establishes. *)
Definition selected (e : AcceptedEvent) (s : nat * Ledger) (r : outcome error (uuid * Value)) (s' : nat * Ledger) : Prop :=
  keeps s.2 s'.2 /\
  forall job input, r = Ok (job, input) ->
    known (ae_transaction_hash e) s'.2 job /\ (ae_kind e = Settlement -> is_Some (get input "submission")).

Lemma event_job_selects node config e values block s :
  yields node (event_job config e values block) s (selected e s).
Proof.
  unfold event_job. cbv zeta. apply yields_bind, yields_select. cbn [onwards].
  destruct (find_transaction _ _) as [[id j]|] eqn:Hf.
  - apply find_transaction_known in Hf as [Hj Ht]. apply yields_bind.
    assert (forall r, (forall v, r = Ok v -> ae_kind e = Settlement -> is_Some (get v "submission")) ->
      onwards (fun input s1 => yields node (mret (id, input)) s1 (selected e s)) (selected e s) r s) as Hdone.
    { intros [v| |] Hr; cbn; [apply yields_mret|..]; (split; [reflexivity|]); intros job input; [|done..].
      intros [= <- <-]. split; [by exists j|by apply Hr]. }
    destruct (bool_decide _ && bool_decide _) eqn:Hb; [apply recovered_input_yields; intros r Hr; apply Hdone; auto|].
    apply yields_mret, Hdone. intros v [= <-] Hk. apply andb_false_iff in Hb as [Hb|Hb];
      apply bool_decide_eq_false in Hb; [congruence|]. destruct (get (j_input j) "submission"); [done|congruence].
  - apply yields_bind. pose (input_ok := fun v => ae_kind e = Settlement -> is_Some (get v "submission")).
    apply yields_mono with (P := fun r s1 => s1 = s /\ forall v, r = Ok v -> input_ok v).
    { subst input_ok. destruct (ae_kind e); [|by apply yields_mret; split].
      apply recovered_input_yields. intros r Hr. split; [done|]. auto. }
    intros [v|err|w] s1 [-> Hv]; cbn; [|by split; [reflexivity|]..]. apply yields_bind.
    unfold yields, ask_node. cbn. apply yields_bind, yields_execute;
      [|intros err; cbn; by split; [reflexivity|]..]. intros [] now l' Hr. apply yields_mret. cbn.
    unfold insert_recovered_job in Hr. inv_ltx. unfold insert_recovered in *. inv_tx.
    match goal with H : _ && _ = true |- _ => apply andb_true_iff in H as [Hn%bool_decide_eq_true _] end.
    match goal with H : write_db _ _ _ = Ok _ |- _ => injection H as <- end.
    split.
    + cbn. etrans; [|apply keeps_refresh]. by apply keeps_insert; [|apply recovered_typed].
    + intros job input [= <- <-]. split; [|by apply Hv]. eexists. cbn. rewrite lookup_insert_eq. split; [done|].
      unfold job_of_transaction. apply orb_true_iff. left. apply same_text_Some. by eexists.
Qed.

(** What one event, or a list of them, establishes. *)
Definition replayed (e : AcceptedEvent) (l : Ledger) : Prop :=
  0 <= (ae_block e).1 /\ already_applied (ae_transaction_hash e) l = true.
Definition replays (events : list AcceptedEvent) (s : nat * Ledger) (r : outcome error unit) (s' : nat * Ledger) : Prop :=
  keeps s.2 s'.2 /\ (r = Ok tt -> all_typed (gateway s.2) -> forall e, e ∈ events -> replayed e s'.2).

Lemma apply_confirmed_keeps c job values block hash now l u l' :
  apply_confirmed c job values block hash now l = Ok (u, l') ->
  keeps l l' /\ jobs (gateway l') = jobs (gateway l).
Proof.
  intros Hr. assert (jobs (gateway l') = jobs (gateway l)) as Hj.
  { apply apply_confirmed_framed in Hr as (k & a & n & p & ->). done. }
  split; [|done]. apply keeps_same_jobs; [by eapply apply_confirmed_growing|done].
Qed.

Lemma confirm_event_Ok job values hash block now l u l' :
  known hash l job -> confirm_event job values hash block now l = Ok (u, l') ->
  keeps l l' /\ (has_history job l = true -> already_applied hash l' = true).
Proof.
  intros (j & Hj & Ht) Hr. unfold confirm_event in Hr. inv_ltx. inv_tx.
  match goal with H : update_job _ _ _ _ _ = Ok _ |- _ =>
    apply update_job_Ok in H as [(_ & j1 & Hj1 & _ & _ & _ & ->)|(_ & -> & Hn)] end.
  - assert (j1 = j) as -> by congruence. by eapply keeps_confirm.
  - by rewrite Hj in Hn.
Qed.

Definition confirmation_of (kind : ProofKind) (input : Value) : confirmation :=
  match kind with Settlement => ConfirmSettlement input | Bridge => ConfirmBridge end.

Lemma apply_receipt_execute kind job input values block hash :
  apply_receipt kind job input values block hash =
  execute (apply_confirmed (confirmation_of kind input) job values block hash).
Proof. by destruct kind. Qed.

Lemma apply_and_confirm node kind job input values block hash s :
  known hash s.2 job -> (kind = Settlement -> is_Some (get input "submission")) ->
  yields node (apply_receipt kind job input values block hash;; execute (confirm_event job values hash block)) s
    (fun r s' => keeps s.2 s'.2 /\ (r = Ok tt -> already_applied hash s'.2 = true)).
Proof.
  intros Hkn Hin. rewrite apply_receipt_execute. apply yields_bind, yields_execute; [|by split; [reflexivity|]..].
  intros [] now l1 Hr. pose proof Hr as [Hk1 Hj1]%apply_confirmed_keeps.
  apply apply_confirmed_snapshots in Hr as [_ Hh]; [|destruct kind; cbn; auto].
  assert (keeps s.2 (refresh l1)) as Hk by (etrans; [done|apply keeps_refresh]).
  cbn [onwards fst snd]. apply yields_execute; cbn [fst snd]; [|by split..].
  intros [] now' l2 Hr2. apply confirm_event_Ok in Hr2 as [Hk2 Ha];
    [|destruct Hkn as (j & Hj & Ht); exists j; split; [by rewrite <- Hj, <- Hj1|done]].
  split; [etrans; [exact Hk|]; etrans; [exact Hk2|apply keeps_refresh]|]. intros _.
  change (already_applied hash l2 = true). by apply Ha.
Qed.

Lemma recover_accepted_replays node config e s :
  yields node (recover_accepted config e) s (replays [e] s).
Proof.
  assert (forall r s', keeps s.2 s'.2 -> r <> Ok tt -> replays [e] s r s') as Hfail by by split.
  unfold recover_accepted. cbv zeta. apply yields_bind, yields_lift. unfold to_u64.
  destruct (0 <=? _) eqn:Hz; [|by apply Hfail]. apply Z.leb_le in Hz.
  assert (forall r s', keeps s.2 s'.2 -> (r = Ok tt -> already_applied (ae_transaction_hash e) s'.2 = true) ->
    replays [e] s r s') as Hdone.
  { intros r s' Hk Ha. split; [done|]. intros Hr _ e' ->%list_elem_of_singleton. split; auto. }
  cbn [onwards]. apply yields_bind, yields_select. cbn [onwards].
  destruct (already_applied _ _) eqn:Hdo; [by apply yields_mret, Hdone|].
  apply yields_bind. unfold yields at 1, ask_node. destruct (public_values_at _ _ _ _); [|by apply Hfail..].
  cbn [onwards fst snd]. apply yields_bind. eapply yields_mono; [apply event_job_selects|].
  intros [[job input]|err|w] s1 [Hk Hsel]; [|by apply Hfail..].
  destruct (Hsel _ _ eq_refl) as [Hkn Hin]. cbn [onwards].
  eapply yields_mono; [by apply apply_and_confirm|].
  intros r s2 [Hk2 Ha]. apply Hdone; [by etrans|done].
Qed.

Lemma recover_all_replay node config events s :
  yields node (for_logs (recover_accepted config) events) s (replays events s).
Proof.
  revert s. induction events as [|e events IH]; intros s.
  { apply yields_mret. split; [reflexivity|]. by intros _ _ e ?%elem_of_nil. }
  apply yields_bind. eapply yields_mono; [apply recover_accepted_replays|].
  intros [[]|err|w] s1 [Hk He]; [|by split..]. cbn [onwards].
  eapply yields_mono; [apply IH|]. intros r s2 [Hk2 Hs]. split; [by etrans|]. intros Hr Ha e' Hin.
  destruct Hk as [_ Hk]. destruct (Hk Ha) as [Ha1 _]. destruct Hk2 as [_ Hk2]. destruct (Hk2 Ha1) as [_ Hm].
  apply elem_of_cons in Hin as [->|Hin]; [|by apply Hs].
  destruct (He eq_refl Ha e) as [? ?]; [by left|]. split; auto.
Qed.

Lemma replayed_again node config events s :
  (forall e, e ∈ events -> replayed e s.2) -> for_logs (recover_accepted config) events node s = (Ok tt, s).
Proof.
  intros He. induction events as [|e events IH]; [done|]. cbn [for_logs].
  destruct (He e ltac:(by left)) as [Hz Ha].
  assert (recover_accepted config e node s = (Ok tt, s)) as Hr.
  { unfold recover_accepted, to_u64. rewrite (proj2 (Z.leb_le _ _) Hz). cbv zeta.
    unfold mbind, ix_bind at 1, ix_lift. unfold ix_bind at 1, select. cbn [fst snd]. by rewrite Ha. }
  unfold mbind, ix_bind at 1. rewrite Hr. apply IH. intros e' ?. apply He. by right.
Qed.

Lemma accepted_events_grow l l' : grows l l' -> accepted_events l' = accepted_events l.
Proof.
  intros (Ht & Hs & Hb & _). unfold accepted_events, in_final_block, canonical_block. by rewrite Ht, Hs, Hb.
Qed.

End recovery_runs.
