(* ===== verification/Admission.v ===== *)
(** * From a reservation to the worker

    A free gateway grants a lease; the settlement proof prepared under it is
    admitted while the lease lasts, and is then the next job a worker
    claims. *)

From Stdlib Require Import Ascii Decimal DecimalString DecimalPos DecimalZ.
From stdpp Require Import gmap strings.
From S2P Require Import Prelude Rpc Database Program OuterWriter Submission Worker TxLogic Coordination.

(** ** Fencing tokens are printed and parsed back *)

Lemma printed_digits z : 0 <= z -> exists d, Z.to_int z = Pos d /\ d <> Nil.
Proof.
  intros Hz. destruct z as [|p|p]; [by eexists|exists (Pos.to_uint p); split; [done|apply Unsigned.to_uint_nonnil]|lia].
Qed.

(** No printed number starts with a plus sign. *)
Lemma match_sign {A} (x : string -> A) (y : A) z :
  0 <= z -> match i64_to_string z with String "+"%char rest => x rest | _ => y end = y.
Proof.
  intros (d & Hd & Hn)%printed_digits. unfold i64_to_string. rewrite Hd. cbn [NilZero.string_of_int].
  destruct d; try done; cbn; congruence.
Qed.

Lemma parse_i64_to_string z : 0 <= z < 2 ^ 63 -> parse_i64 (i64_to_string z) = Some z.
Proof.
  intros Hz. unfold parse_i64. rewrite match_sign by lia. destruct (printed_digits z) as (d & Hd & Hn); [lia|].
  unfold i64_to_string. rewrite NilZero.isi by (rewrite Hd; congruence). cbn. rewrite DecimalZ.of_to.
  destruct (Z.leb_spec (- 2 ^ 63) z), (Z.ltb_spec z (2 ^ 63)); first [done|lia].
Qed.

Lemma parse_u64_to_string z : is_u64 z -> parse_u64 (i64_to_string z) = Some z.
Proof.
  intros Hz. unfold is_u64 in Hz. unfold parse_u64. rewrite match_sign by lia.
  destruct (printed_digits z) as (d & Hd & Hn); [lia|]. unfold i64_to_string.
  pose proof (DecimalZ.of_to z) as Ht. rewrite Hd in *. cbn [NilZero.string_of_int]. rewrite NilZero.usu by done.
  cbn [fmap option_fmap option_map mbind option_bind]. rewrite Ht. destruct (Z.ltb_spec z (2 ^ 64)); [done|lia].
Qed.

Section admission.
Context `{Externals}.

(** ** Databases in which every other job is settled *)

Definition only_unfinished (id : uuid) (js : gmap uuid Job) : Prop :=
  forall id' j, js !! id' = Some j -> id' <> id -> settled j = true.

Lemma settled_not_live j : settled j = true -> status_in live_statuses j = false.
Proof. intros Hs. apply not_true_iff_false. intros Hl%live_unfinished. congruence. Qed.

Lemma settled_not_active j : settled j = true -> status_in active_statuses j = false.
Proof.
  intros Hs. apply not_true_iff_false. intros Ha. apply settled_not_live in Hs.
  apply (status_in_subset _ live_statuses) in Ha; [congruence|]. unfold live_statuses. set_solver.
Qed.

Lemma count_one p (js : gmap uuid Job) id :
  (forall id' j, js !! id' = Some j -> id' <> id -> p j = false) -> (count_jobs p js <= 1)%nat.
Proof.
  intros Hp. unfold count_jobs. rewrite <- size_dom.
  transitivity (size ({[id]} : gset uuid)); [|by rewrite size_singleton].
  apply subseteq_size. intros i [j Hj]%elem_of_dom. apply elem_of_singleton.
  apply map_lookup_filter_Some in Hj as [Hj Hpj]. destruct (decide (i = id)); [done|]. cbn in Hpj.
  rewrite (Hp i j) in Hpj; done.
Qed.

Lemma only_unique id js : only_unfinished id js -> unique_ok js = true.
Proof.
  intros Ho. unfold unique_ok. apply andb_true_iff; rewrite !Nat.leb_le.
  split; apply (count_one _ _ id); intros id' j Hj Hne; pose proof (Ho _ _ Hj Hne) as Hs.
  - unfold in_active_settlement. by rewrite (settled_not_active j Hs), andb_false_r.
  - unfold in_active_bridge. fold live_statuses. by rewrite (settled_not_live j Hs), andb_false_r.
Qed.

Lemma only_insert id j js : only_unfinished id js -> only_unfinished id (<[id := j]> js).
Proof. intros Ho id' j' Hj Hne. rewrite lookup_insert_ne in Hj by done. eauto. Qed.

Lemma only_no_busy id js : only_unfinished id js -> busy_jobs (Some id) js = ∅.
Proof.
  intros Ho. apply map_empty. intros i. apply map_lookup_filter_None. right. intros j Hj [Hne Hs]. cbn in *.
  specialize (Ho i j Hj ltac:(congruence)). congruence.
Qed.

(** ** The lease *)

Definition leased (o : Owner) (fresh : uuid) (name : string) (expiry : Z) (c : Checkpoint) : Owner := {|
  reservation_id := Some fresh; owner_id := Some name; fencing_token := fencing_token o + 1;
  expires_at := Some expiry; checkpoint := Some c; job_id := None |}.

(** What [acquire] returns and leaves when nobody holds the writer. *)
Lemma acquire_free fresh request c now db res db1 :
  reservation_id (writer db) = None ->
  acquire_with_checkpoint fresh request c now db = Ok (res, db1) ->
  exists expiry account,
    db1 = with_writer (leased (writer db) fresh (ar_owner_id request) expiry c) db /\
    res = {| r_reservation_id := fresh; r_fencing_token := i64_to_string (fencing_token (writer db) + 1);
             r_expires_at := Some expiry; r_checkpoint := c |} /\
    recovery_ready db = true /\ fencing_token (writer db) + 1 < 2 ^ 63 /\
    outer_account db = Some account /\ account_matches account c = true /\
    forall id, ~ unfinished db id.
Proof.
  intros Hfree Ht. unfold acquire_with_checkpoint in Ht.
  apply tx_bind_Ok in Ht as (seconds & ? & [_ ->]%lift_Ok & Ht).
  apply tx_bind_Ok in Ht as (? & ? & [_ ->]%require_Ok & Ht).
  apply tx_bind_Ok in Ht as (? & db0 & [Hready Hl]%lock_Ok & Ht).
  assert (jobs db0 = jobs db /\ outer_account db0 = outer_account db /\ reservation_id (writer db0) = None /\
    fencing_token (writer db0) = fencing_token (writer db) /\ forall o, with_writer o db0 = with_writer o db)
    as (Hjobs & Hacc & Hres & Hft & Hww).
  { subst db0. by destruct (releasable _ _ _). }
  apply tx_bind_Ok in Ht as (o & ? & [-> ->]%owner_Ok & Ht).
  apply tx_bind_Ok in Ht as (? & ? & [= <- <-] & Ht). rewrite Hres in Ht. cbn [bool_decide is_Some] in Ht.
  apply tx_bind_Ok in Ht as (? & db2 & Hu & Ht).
  apply tx_bind_Ok in Ht as (o & ? & [-> ->]%owner_Ok & [Hr ->]%lift_Ok).
  rewrite bool_decide_eq_false_2 in Hu by by intros [? ?].
  apply tx_bind_Ok in Hu as (? & ? & [-> Hn]%no_jobs_Ok & Hu).
  apply tx_bind_Ok in Hu as (account & ? & [Ha ->]%virtual_account_Ok & Hu).
  apply tx_bind_Ok in Hu as (? & ? & [Hm ->]%require_Ok & (Hlt & _ & ->)%update_writer_Ok).
  cbn in Hlt, Hr. injection Hr as <-. exists (now + seconds * second), account.
  rewrite Hft in *. rewrite Hww, <- Hacc. split_and!; try done.
  intros id [j Hj]. apply (Hn id); [done|]. exists j. by rewrite Hjobs.
Qed.

(** ** Admission *)

Lemma lock_keeps_lease now db :
  recovery_ready db = true -> releasable now (jobs db) (writer db) = false -> lock now db = Ok (tt, db).
Proof.
  intros Hr Hl. unfold lock. apply tx_bind_Ok. exists db, db. split; [done|].
  apply tx_bind_Ok. exists tt, db. split; [by apply require_Ok|].
  apply tx_bind_Ok. exists now, db. split; [done|]. by rewrite Hl.
Qed.

Lemma insert_new id kind input key digest now db :
  jobs db !! id = None -> find_key key (jobs db) = None ->
  unique_ok (<[id := new_job kind input key digest now]> (jobs db)) = true ->
  insert_job id kind input key digest now db =
    Ok (Some id, with_jobs (<[id := new_job kind input key digest now]> (jobs db)) db).
Proof.
  intros Hid Hk Hu. unfold insert_job. apply tx_bind_Ok. exists now, db. split; [done|].
  apply tx_bind_Ok. exists db, db. split; [done|]. rewrite Hk.
  apply tx_bind_Ok. exists tt, db. split; [apply require_Ok; by rewrite bool_decide_eq_true_2|].
  apply tx_bind_Ok. exists tt, db. split; [by apply require_Ok|]. apply tx_bind_Ok. by eexists _, _.
Qed.

Lemma attach_Ok id token input now db c account expiry :
  let o := writer db in
  owner_matches o token = true -> job_id o = None -> is_Some (owner_id o) -> checkpoint o = Some c ->
  expires_at o = Some expiry -> now < expiry -> fencing_token o < 2 ^ 63 ->
  only_unfinished id (jobs db) -> outer_account db = Some account -> account_matches account c = true ->
  proof_matches_checkpoint input c = Ok true -> is_ok (ledger_hashes input) = true ->
  attach_settlement id (Some token) input now db =
    Ok (tt, with_writer {| reservation_id := reservation_id o; owner_id := owner_id o;
              fencing_token := fencing_token o; expires_at := None; checkpoint := Some c; job_id := Some id |} db).
Proof.
  intros o Hm Hj Hown Hc He Hnow Hft Ho Ha Ham Hp [h Hh]%is_ok_Ok. unfold attach_settlement.
  apply tx_bind_Ok. exists token, db. split; [done|]. apply tx_bind_Ok. exists o, db. split; [done|].
  apply tx_bind_Ok. exists tt, db. split; [apply require_Ok; by rewrite Hm, Hj|].
  apply tx_bind_Ok. exists tt, db. split.
  { unfold ensure_no_jobs. apply tx_bind_Ok. exists db, db. split; [done|]. apply require_Ok.
    split; [|done]. apply bool_decide_eq_true. by apply only_no_busy. }
  apply tx_bind_Ok. exists c, db. split; [by apply some_or_Ok|].
  apply tx_bind_Ok. exists account, db. split.
  { unfold virtual_account. apply tx_bind_Ok. exists db, db. split; [done|]. by apply some_or_Ok. }
  apply tx_bind_Ok. exists true, db. split; [rewrite Ham; by apply lift_Ok|].
  apply tx_bind_Ok. exists tt, db. split; [by apply require_Ok|].
  apply tx_bind_Ok. exists h, db. split; [by apply lift_Ok|].
  apply tx_bind_Ok. exists now, db. split; [done|].
  apply tx_bind_Ok. exists tt, db. split; [apply require_Ok; rewrite He; cbn; split; [by apply Z.ltb_lt|done]|].
  apply update_writer_Ok. cbn. rewrite Hc. split_and!; [done| |done].
  unfold owner_ok. cbn. unfold owner_matches in Hm. apply andb_true_iff in Hm as [Hid%bool_decide_eq_true _].
  rewrite Hid. rewrite (bool_decide_eq_true_2 (is_Some (owner_id o))) by done. by rewrite !orb_true_r.
Qed.

(** ** The claim *)

Lemma claim_live j : status_in [queued; approved] j = true -> status_in live_statuses j = true.
Proof. apply status_in_subset. unfold live_statuses, active_statuses. set_solver. Qed.

Lemma next_claim_only now db id j :
  jobs db !! id = Some j -> only_unfinished id (jobs db) -> claimable now db id j = true ->
  next_claim now db = Some (id, j).
Proof.
  intros Hj Ho Hc. destruct (next_claim now db) as [[id' j']|] eqn:Hn.
  - apply next_claim_Some in Hn as [Hj' Hc']. destruct (decide (id' = id)) as [->|Hne]; [by simplify_eq|].
    exfalso. pose proof (settled_not_live _ (Ho _ _ Hj' Hne)) as Hl. unfold claimable in Hc'.
    apply andb_true_iff in Hc' as [Hc' _]. apply andb_true_iff in Hc' as [Hc' _].
    apply andb_true_iff in Hc' as [Hc' _]. apply andb_true_iff in Hc' as [Hc' _].
    apply claim_live in Hc'. congruence.
  - exfalso. unfold next_claim in Hn. destruct (filter _ _) as [|] eqn:Hf; [|done].
    assert ((id, j) ∈ ([] : list (uuid * Job))) as Hin; [|by apply elem_of_nil in Hin].
    rewrite <- Hf. apply list_elem_of_filter. split; [done|]. by apply elem_of_map_to_list.
Qed.

Lemma only_unblocked id j js : only_unfinished id js -> existsb (blocks id j) (map_to_list js) = false.
Proof.
  intros Ho. apply not_true_iff_false. intros (kv & Hin & Hb)%existsb_exists. destruct kv as [id' j'].
  apply list_elem_of_In, elem_of_map_to_list in Hin. unfold blocks in Hb. cbn in Hb.
  apply andb_true_iff in Hb as [Hb _]. apply andb_true_iff in Hb as [Hne%bool_decide_eq_true Ha].
  by rewrite (settled_not_active _ (Ho _ _ Hin Hne)) in Ha.
Qed.

Lemma claim_only now db id j :
  recovery_ready db = true -> job_id (writer db) = Some id -> jobs db !! id = Some j ->
  only_unfinished id (jobs db) -> status_in [queued; approved] j = true ->
  unknown_proof_request j = false -> from_option (fun t => t <=? now) true (j_next_attempt_at j) = true ->
  row_ok (claim_update now j) = true ->
  exists db', claim_job now db = Ok (Some (claimed_job id j), db').
Proof.
  intros Hr Hw Hj Ho Hs Hu Hn Hrow. unfold claim_job. eexists.
  apply tx_bind_Ok. exists db, db. split; [done|]. rewrite Hr. cbn [negb].
  apply tx_bind_Ok. exists tt, db. split.
  { apply lock_keeps_lease; [done|]. unfold releasable. rewrite Hw, Hj. cbn. apply live_unfinished.
    by apply claim_live. }
  apply tx_bind_Ok. exists db, db. split; [done|]. apply tx_bind_Ok. exists now, db. split; [done|].
  rewrite (next_claim_only now db id j Hj Ho).
  - apply tx_bind_Ok. eexists true, _. split; [|done]. apply update_job_Ok. left. split; [done|].
    exists j. split_and!; try done. apply (only_unique id). by apply only_insert.
  - unfold claimable. rewrite Hs, Hu, Hn, (only_unblocked id j _ Ho), Hw.
    rewrite (bool_decide_eq_false_2 (Some id <> Some id)) by congruence. by rewrite andb_false_r.
Qed.

(** ** A settlement prepared under a lease *)

Definition job_key (print : uuid -> string) (header : option string) (kind : ProofKind) (input : Value)
    : option string :=
  match header with Some key => Some key | None => default_idempotency_key print kind input end.

Lemma create_reserved print id fresh' name' header input value fresh name token c expiry account now db :
  let o := leased (writer db) fresh name expiry c in
  let db1 := with_writer o db in
  let j := new_job Settlement input (job_key print header Settlement input) (proof_input_digest input) now in
  recovery_ready db = true -> fencing_token o < 2 ^ 63 -> (forall id, ~ unfinished db id) ->
  outer_account db = Some account -> account_matches account c = true ->
  jobs db !! id = None -> find_key (job_key print header Settlement input) (jobs db) = None ->
  get input "reservation" = Some value -> is_null value = false -> parse_reservation value = Some token ->
  owner_matches o token = true -> now < expiry ->
  proof_matches_checkpoint input c = Ok true -> is_ok (ledger_hashes input) = true ->
  create_job print id fresh' name' header Settlement input now db1 =
    Ok (id, with_writer {| reservation_id := Some fresh; owner_id := Some name;
              fencing_token := fencing_token o; expires_at := None; checkpoint := Some c; job_id := Some id |}
              (with_jobs (<[id := j]> (jobs db)) db)) /\
  only_unfinished id (<[id := j]> (jobs db)).
Proof.
  intros o db1 j Hr Hft Hn Ha Ham Hid Hkey Hget Hnull Hparse Hm Hnow Hp Hh.
  assert (only_unfinished id (<[id := j]> (jobs db))) as Ho.
  { apply only_insert. intros id' j' Hj' _. destruct (settled j') eqn:Hs; [done|]. destruct (Hn id'). by exists j'. }
  split; [|exact Ho]. unfold create_job. fold (job_key print header Settlement input). cbv zeta.
  apply tx_bind_Ok. exists tt, db1. split.
  { apply lock_keeps_lease; [done|]. unfold releasable. cbn. by apply Z.leb_gt. }
  apply tx_bind_Ok. exists (Some id), (with_jobs (<[id := j]> (jobs db)) db1).
  split; [apply (insert_new id Settlement input _ _ now db1); [done|done|by apply (only_unique id)]|].
  apply tx_bind_Ok. eexists id, _. split; [by apply some_or_Ok|].
  rewrite bool_decide_eq_true_2 by done. apply tx_bind_Ok. eexists tt, _. split; [|done].
  unfold attach_job. rewrite Hget, Hnull. apply tx_bind_Ok. eexists token, _. split; [by apply some_or_Ok|].
  by apply (attach_Ok id token input now (with_jobs (<[id := j]> (jobs db)) db1) c account expiry).
Qed.

End admission.
