(* ===== verification/Withdrawals.v ===== *)
(** * Withdrawal proofs ([api/src/main.rs])

    How the gateway answers a claimant: the leaves of a settlement are read
    back from [gateway_inner_action_leaves], checked against the root they
    were stored under, and one of them is served with its membership proof and
    its progress.  The lists of native and token withdrawals are built from
    the same proofs.

    [batch_of] is the specification of a batch of rows; [build_exact] states
    that [build_inner_action_batch_proof] answers exactly for the rows of a
    batch whose leaves hash to the root of the rows. *)

From Stdlib Require Import Strings.Byte.
From stdpp Require Import gmap strings sorting.
From S2P Require Import Prelude Hashing Codec PublicValues BridgeValues InnerActionTree ActionBatch.
From S2P Require Import Rpc Database Program OuterWriter Submission Worker Indexer System Ledger Accounts Reorganization Admission.

(** [FromStr] and [Display] of the fixed-size byte strings of alloy. *)
Class AlloyText := {
  parse_b256 : string -> option bytes;
  parse_address : string -> option bytes;
  address_to_string : bytes -> string
}.

Definition HISTORICAL_ERC20_ACTION_ENCODING_V1 : Z := 1.

Record ActionIdentity := {
  ai_encoding_version : Z;
  ai_registry_index : option Z;
  ai_record_commitment : option string
}.

(** [u32::try_from] of a signed column. *)
Definition to_u32 (z : Z) : outcome error Z :=
  if (0 <=? z) && (z <=? u32_MAX) then Ok z else Err (message "out of range integral type conversion attempted").

(** ** Progress and identity *)

Definition withdrawal_progress (global_action_index recipient_cursor current_slot claimable_slot : Z)
    (claim_action : string) : string * string :=
  if global_action_index <? recipient_cursor then ("processed", "none")%string
  else if current_slot <? claimable_slot then ("waitingForDelay", "waitForWithdrawalDelay")%string
  else ("claimable"%string, claim_action).

Definition ensure_native_withdrawal_kind (token : option string) : outcome error unit :=
  ensure (bool_decide (token = None)) (message "inner action is not a claimable native withdrawal").

Definition ensure_registry_erc20_action_encoding (version : Z) : outcome error unit :=
  ensure (version =? ERC20_ACTION_ENCODING_V2)
    (message ("unsupported registry ERC20 action encoding version " ++ i64_to_string version)%string).

(** A row with its offset. *)
Abbreviation offset_row := (Z * LeafRow)%type.

Section withdrawals.
Context `{Externals} `{!JsonObjects} `{Keccak} `{AlloyText}.

Definition decode_action_identity (encoding_version : Z) (registry_index : option Z) (record_commitment : option string)
    : outcome error ActionIdentity :=
  encoding_version ← to_u32 encoding_version;
  if (encoding_version =? 0) || (encoding_version =? HISTORICAL_ERC20_ACTION_ENCODING_V1) then
    ensure (bool_decide (registry_index = None) && bool_decide (record_commitment = None))
      (message "unregistered action has registry identity");;
    mret {| ai_encoding_version := encoding_version; ai_registry_index := None; ai_record_commitment := None |}
  else if encoding_version =? ERC20_ACTION_ENCODING_V2 then
    registry_index ← context registry_index "registry action is missing its index";
    registry_index ← to_u32 registry_index;
    record_commitment ← context record_commitment "registry action is missing its record commitment";
    record_commitment ← context (parse_b256 record_commitment) "registry action record commitment is invalid";
    ensure (negb (bool_decide (record_commitment = zeros 32))) (message "registry action record commitment is zero");;
    mret {| ai_encoding_version := encoding_version; ai_registry_index := Some registry_index;
            ai_record_commitment := Some (hex record_commitment) |}
  else Err (message ("unsupported action encoding version " ++ i64_to_string encoding_version)%string).

(** ** The proof of one leaf *)

Record InnerActionBatchProof := {
  bp_target : LeafRow;
  bp_siblings : list string;
  bp_global_action_index : Z;
  bp_commit_slot_upper : Z
}.

(** One iteration of the loop over the rows: its leaf. *)
Definition batch_leaf (start_index : Z) (expected_root : bytes) (commit_slot_upper : Z) (e : nat * offset_row)
    : outcome error bytes :=
  let '(expected_offset, (action_offset, row)) := e in
  let expected_offset := Z.of_nat expected_offset in
  ensure (expected_offset <=? u32_MAX) (message "out of range integral type conversion attempted");;
  ensure (expected_offset <? 2 ^ 31) (message "out of range integral type conversion attempted");;
  ensure (action_offset =? expected_offset) (message "inner-action batch is not contiguous");;
  global_action_index ← to_u32 (lf_global_action_index row);
  expected_index ← context (checked_add_u32 start_index expected_offset) "inner action index overflow";
  ensure (global_action_index =? expected_index) (message "inner-action batch is not contiguous");;
  root ← context (parse_b256 (lf_inner_action_root row)) "invalid hex";
  ensure (bool_decide (root = expected_root)) (message "inner-action batch metadata is inconsistent");;
  slot ← to_u32 (lf_commit_slot_upper row);
  ensure (slot =? commit_slot_upper) (message "inner-action batch metadata is inconsistent");;
  context (parse_b256 (lf_leaf row)) "indexed inner-action leaf is invalid".

Definition build_inner_action_batch_proof (rows : list offset_row) (offset : Z)
    : outcome error InnerActionBatchProof :=
  first ← context (head rows) "settlement inner-action batch not found";
  ensure (Z.of_nat (length rows) <=? MAX_LEAVES) (message "inner-action batch exceeds proof tree capacity");;
  start_index ← to_u32 (lf_global_action_index first.2);
  expected_root ← context (parse_b256 (lf_inner_action_root first.2)) "indexed inner-action root is invalid";
  commit_slot_upper ← to_u32 (lf_commit_slot_upper first.2);
  leaves ← map_ok (batch_leaf start_index expected_root commit_slot_upper) (imap pair rows);
  siblings ← context (merkle_proof leaves offset) "withdrawal offset is outside the batch";
  leaf ← expect (leaves !! Z.to_nat offset) "index out of bounds";
  ensure (verify_merkle_proof leaf offset siblings expected_root)
    (message "indexed inner actions do not reproduce their settlement root");;
  target ← context (rows !! Z.to_nat offset) "withdrawal offset is outside the batch";
  global_action_index ← to_u32 (lf_global_action_index target.2);
  mret {| bp_target := target.2; bp_siblings := map hex siblings; bp_global_action_index := global_action_index;
          bp_commit_slot_upper := commit_slot_upper |}.

(** [WHERE settlement_sequence = $1 AND NOT removed ORDER BY action_offset]. *)
Definition offset_le (a b : offset_row) : Prop := a.1 <= b.1.
#[export] Instance offset_le_dec : RelDecision offset_le.
Proof. intros a b. unfold offset_le. apply _. Defined.
Definition live_leaf (sequence : Z) (e : (Z * Z) * LeafRow) : option offset_row :=
  if bool_decide (e.1.1 = sequence) && negb (lf_removed e.2) then Some (e.1.2, e.2) else None.
Definition batch_rows (sequence : Z) (l : Ledger) : list offset_row :=
  merge_sort offset_le (omap (live_leaf sequence) (map_to_list (leaves l))).

Definition load_inner_action_batch_proof (l : Ledger) (sequence offset : Z) : outcome error InnerActionBatchProof :=
  sequence ← to_i64 sequence;
  build_inner_action_batch_proof (batch_rows sequence l) offset.

(** ** What a claimant is served *)

Record NativeWithdrawalProof := {
  np_settlement_sequence : Z;
  np_offset : Z;
  np_global_action_index : Z;
  np_recipient : string;
  np_amount : string;
  np_action_fields_hash : string;
  np_siblings : list string;
  np_inner_action_root : string;
  np_commit_slot_upper : Z;
  np_claimable_slot : Z;
  np_current_virtual_slot : Z;
  np_recipient_cursor : Z;
  np_status : string;
  np_next_action : string
}.

Record TokenWithdrawalProof := {
  tp_token : string;
  tp_asset_id : string;
  tp_action_identity : ActionIdentity;
  tp_withdrawal : NativeWithdrawalProof
}.

(** The contracts answer for the cursors, the slot and the delay. *)
Record Contracts := {
  current_virtual_slot : outcome error Z;
  withdrawal_delay_slots : outcome error Z;
  next_withdrawal_index : bytes -> outcome error Z;
  next_token_withdrawal_index : bytes -> bytes -> outcome error Z
}.

(** The fields the two answers share. *)
Definition withdrawal_answer (p : InnerActionBatchProof) (sequence offset current_slot delay recipient_cursor : Z)
    (recipient amount claim_action : string) : NativeWithdrawalProof :=
  let claimable_slot := wrapping_add_u64 (bp_commit_slot_upper p) delay in
  let progress := withdrawal_progress (bp_global_action_index p) recipient_cursor current_slot claimable_slot claim_action in
  {| np_settlement_sequence := sequence;
     np_offset := offset;
     np_global_action_index := bp_global_action_index p;
     np_recipient := recipient;
     np_amount := amount;
     np_action_fields_hash := lf_action_fields_hash (bp_target p);
     np_siblings := bp_siblings p;
     np_inner_action_root := lf_inner_action_root (bp_target p);
     np_commit_slot_upper := bp_commit_slot_upper p;
     np_claimable_slot := claimable_slot;
     np_current_virtual_slot := current_slot;
     np_recipient_cursor := recipient_cursor;
     np_status := progress.1;
     np_next_action := progress.2 |}.

(** [zeko_amount::text]. *)
Definition amount_text (row : LeafRow) : option string := i64_to_string <$> lf_zeko_amount row.

Definition load_native_withdrawal_proof_at (contracts : Contracts) (l : Ledger) (sequence offset current_slot delay : Z)
    : outcome error NativeWithdrawalProof :=
  p ← load_inner_action_batch_proof l sequence offset;
  ensure_native_withdrawal_kind (lf_token (bp_target p));;
  recipient ← context (lf_recipient (bp_target p)) "inner action is not a claimable native withdrawal";
  amount ← context (amount_text (bp_target p)) "withdrawal amount missing";
  context (parse_u64 amount) "withdrawal amount is outside the supported native range";;
  recipient_address ← context (parse_address recipient) "indexed withdrawal recipient is invalid";
  recipient_cursor ← next_withdrawal_index contracts recipient_address;
  mret (withdrawal_answer p sequence offset current_slot delay recipient_cursor recipient amount "claimNativeWithdrawal").

Definition load_native_withdrawal_proof (contracts : Contracts) (l : Ledger) (sequence offset : Z)
    : outcome error NativeWithdrawalProof :=
  current_slot ← current_virtual_slot contracts;
  delay ← withdrawal_delay_slots contracts;
  load_native_withdrawal_proof_at contracts l sequence offset current_slot delay.

Definition load_token_withdrawal_proof_at (contracts : Contracts) (l : Ledger) (sequence offset current_slot delay : Z)
    : outcome error TokenWithdrawalProof :=
  p ← load_inner_action_batch_proof l sequence offset;
  let target := bp_target p in
  token ← context (lf_token target) "inner action is not a claimable ERC20 withdrawal";
  asset_id ← context (lf_asset_id target) "ERC20 withdrawal asset id missing";
  version ← context (lf_action_encoding_version target) "ERC20 withdrawal action encoding version missing";
  action_identity ← decode_action_identity version (lf_registry_index target) (lf_record_commitment target);
  ensure_registry_erc20_action_encoding (ai_encoding_version action_identity);;
  recipient ← context (lf_recipient target) "ERC20 withdrawal recipient missing";
  amount ← context (amount_text target) "ERC20 withdrawal amount missing";
  context (parse_u64 amount) "withdrawal amount is outside the supported UInt64 range";;
  token_address ← context (parse_address token) "indexed withdrawal token is invalid";
  recipient_address ← context (parse_address recipient) "indexed withdrawal recipient is invalid";
  recipient_cursor ← next_token_withdrawal_index contracts token_address recipient_address;
  mret {| tp_token := token; tp_asset_id := asset_id; tp_action_identity := action_identity;
          tp_withdrawal := withdrawal_answer p sequence offset current_slot delay recipient_cursor recipient amount
                             "claimERC20Withdrawal" |}.

Definition load_token_withdrawal_proof (contracts : Contracts) (l : Ledger) (sequence offset : Z)
    : outcome error TokenWithdrawalProof :=
  current_slot ← current_virtual_slot contracts;
  delay ← withdrawal_delay_slots contracts;
  load_token_withdrawal_proof_at contracts l sequence offset current_slot delay.

End withdrawals.

(** ** The lists of withdrawals *)

Inductive response (A : Type) : Type :=
| Json (a : A)
| ApiError (status : Z) (why : string).
Arguments Json {A} a.
Arguments ApiError {A} status why%_string.

Record ListWithdrawalsQuery := {
  lw_token : bool;
  lw_recipient : option string;
  lw_after : option Z;
  lw_limit : option Z
}.

Definition page_limit (limit : option Z) : Z := Z.max 1 (Z.min 100 (default 20 limit)).

(** [ORDER BY global_action_index]. *)
Definition index_le (a b : (Z * Z) * Z) : Prop := a.2 <= b.2.
#[export] Instance index_le_dec : RelDecision index_le.
Proof. intros a b. unfold index_le. apply _. Defined.

Section lists.
Context `{Externals} `{!JsonObjects} `{Keccak} `{AlloyText}.

(** The location and the index of a row of the list; [token] tells the two
    queries apart. *)
Definition listed (token : bool) (recipient : option string) (after : option Z) (e : (Z * Z) * LeafRow)
    : option ((Z * Z) * Z) :=
  let row := e.2 in
  if bool_decide (is_Some (lf_recipient row)) && Bool.eqb (bool_decide (is_Some (lf_token row))) token &&
     negb (lf_removed row) &&
     from_option (fun r => bool_decide (to_ascii_lowercase <$> lf_recipient row = Some (to_ascii_lowercase r))) true recipient &&
     from_option (fun after => after <? lf_global_action_index row) true after
  then Some (e.1, lf_global_action_index row) else None.

Definition withdrawal_rows (token : bool) (recipient : option string) (after : option Z) (l : Ledger)
    : list ((Z * Z) * Z) :=
  merge_sort index_le (omap (listed token recipient after) (map_to_list (leaves l))).
Definition withdrawal_page (token : bool) (recipient : option string) (after : option Z) (limit : Z) (l : Ledger)
    : list (Z * Z) :=
  map fst (take (Z.to_nat limit) (withdrawal_rows token recipient after l)).

(** A location, decoded, and its proof. *)
Definition location (e : Z * Z) : outcome error (Z * Z) :=
  sequence ← (if 0 <=? e.1 then Ok e.1 else Err (message "out of range integral type conversion attempted"));
  offset ← to_u32 e.2;
  mret (sequence, offset).

Fixpoint withdrawal_proofs {A} (load : Z -> Z -> outcome error A) (rows : list (Z * Z)) (invalid failed : string)
    : response (list A) :=
  match rows with
  | [] => Json []
  | e :: rows =>
    match location e with
    | Ok (sequence, offset) =>
      match load sequence offset with
      | Ok proof =>
        match withdrawal_proofs load rows invalid failed with
        | Json proofs => Json (proof :: proofs)
        | ApiError status why => ApiError status why
        end
      | _ => ApiError 500 failed
      end
    | _ => ApiError 500 invalid
    end
  end.

(** The part the two handlers share. *)
Definition list_withdrawals {A} (token : bool) (load : Z -> Z -> Z -> Z -> outcome error A) (invalid failed : string)
    (contracts : Contracts) (l : Ledger) (query : ListWithdrawalsQuery) : response (list A) :=
  match (match lw_recipient query with
         | None => Some None
         | Some r => Some <$> (address_to_string <$> parse_address r)
         end) with
  | None => ApiError 400 "recipient must be a 20-byte Ethereum address"
  | Some recipient =>
    match (match lw_after query with None => Ok None | Some after => Some <$> to_i64 after end) with
    | Ok after =>
      let rows := withdrawal_page token recipient after (page_limit (lw_limit query)) l in
      match current_virtual_slot contracts with
      | Ok current_slot =>
        match withdrawal_delay_slots contracts with
        | Ok delay => withdrawal_proofs (fun sequence offset => load sequence offset current_slot delay) rows invalid failed
        | _ => ApiError 502 "could not read withdrawal delay"
        end
      | _ => ApiError 502 "could not read settlement virtual slot"
      end
    | _ => ApiError 400 "after is too large"
    end
  end.

Definition list_native_withdrawals (contracts : Contracts) (l : Ledger) (query : ListWithdrawalsQuery)
    : response (list NativeWithdrawalProof) :=
  list_withdrawals false (load_native_withdrawal_proof_at contracts l) "invalid indexed withdrawal location"
    "could not build withdrawal proof" contracts l query.
Definition list_token_withdrawals (contracts : Contracts) (l : Ledger) (query : ListWithdrawalsQuery)
    : response (list TokenWithdrawalProof) :=
  list_withdrawals true (load_token_withdrawal_proof_at contracts l) "invalid indexed token withdrawal location"
    "could not build token withdrawal proof" contracts l query.

End lists.

(** ** Specification of a batch *)

Lemma Ok_inj {A} (x y : A) : Ok (E := error) x = Ok y -> x = y.
Proof. by intros [= ->]. Qed.

Lemma map_ok_Ok {A B} (f : A -> outcome error B) l k : map_ok f l = Ok k <-> Forall2 (fun a b => f a = Ok b) l k.
Proof.
  revert k. induction l as [|a l IH]; intros k; cbn.
  - split; [intros [= <-]; constructor|intros Hk; by inversion Hk].
  - split.
    + intros (b & Hb & (bs & Hbs & [= <-])%bind_Ok)%bind_Ok. constructor; [done|by apply IH].
    + intros Hk. inversion Hk as [|? b ? bs Hb Hbs]; subst. apply bind_Ok. exists b. split; [done|].
      apply bind_Ok. exists bs. split; [by apply IH|done].
Qed.

Lemma to_u32_Ok z n : to_u32 z = Ok n <-> n = z /\ is_u32 z.
Proof.
  unfold to_u32, is_u32, u32_MAX. destruct (Z.leb_spec 0 z), (Z.leb_spec z (2 ^ 32 - 1)); cbn; split; try done;
    try (intros [-> ?]; lia); [intros [= ->]; lia|by intros [-> _]].
Qed.

Section batches.
Context `{Externals} `{!JsonObjects} `{Keccak} `{AlloyText}.
Context (fetched : list offset_row) (start slot : Z) (committed : bytes).

(** Row [i] of a batch that starts at [start]. *)
Definition row_at (i : nat) (e : offset_row) (leaf : bytes) : Prop :=
  e.1 = Z.of_nat i /\ lf_global_action_index e.2 = start + Z.of_nat i /\ is_u32 (start + Z.of_nat i) /\
  parse_b256 (lf_inner_action_root e.2) = Some committed /\
  lf_commit_slot_upper e.2 = slot /\ is_u32 slot /\ parse_b256 (lf_leaf e.2) = Some leaf.

(** The rows are those of one batch, whole and in order, and their leaves hash
    to the root they carry. *)
Definition batch_of (leaves : list bytes) : Prop :=
  (0 < length fetched)%nat /\ Z.of_nat (length fetched) <= MAX_LEAVES /\
  Forall2 (fun ie leaf => row_at ie.1 ie.2 leaf) (imap pair fetched) leaves /\
  InnerActionTree.root (E := Empty_set) leaves = Ok committed.

Lemma batch_leaf_Ok i e leaf :
  Z.of_nat i < MAX_LEAVES -> is_u32 start ->
  batch_leaf start committed slot (i, e) = Ok leaf <-> row_at i e leaf.
Proof.
  intros Hi Hs. destruct e as [offset row]. unfold batch_leaf, row_at, is_u32 in *. cbn [fst snd].
  change MAX_LEAVES with 65536 in Hi.
  rewrite ensure_true by (unfold u32_MAX; apply Z.leb_le; lia). rewrite ensure_true by (apply Z.ltb_lt; lia).
  split.
  - intros Hb. inv_ok. bool_props.
    repeat match goal with Hc : _ = Ok _ |- _ => apply context_Ok in Hc end.
    repeat match goal with Hc : to_u32 _ = Ok _ |- _ => apply to_u32_Ok in Hc as [-> ?] end.
    unfold checked_add_u32, is_u32 in *. repeat case_match; simplify_eq. bool_props. split_and!; try done; try lia.
  - intros (-> & Hg & Hr & Hroot & Hsl & Hu & Hleaf).
    rewrite ensure_true by apply Z.eqb_refl.
    rewrite Hg, Hroot, Hsl, Hleaf. unfold checked_add_u32.
    rewrite (proj2 (Z.ltb_lt _ _)) by lia. rewrite (proj2 (to_u32_Ok (start + Z.of_nat i) _)) by (split; [reflexivity|exact Hr]).
    cbn [mbind outcome_bind context]. rewrite ensure_true by apply Z.eqb_refl.
    rewrite ensure_true by by apply bool_decide_eq_true.
    rewrite (proj2 (to_u32_Ok slot _)) by (split; [reflexivity|exact Hu]). cbn [mbind outcome_bind context].
    by rewrite ensure_true by apply Z.eqb_refl.
Qed.

End batches.

Section build.
Context `{Externals} `{!JsonObjects} `{Keccak} `{AlloyText}.

Definition served_proof (start slot offset : Z) (siblings : list bytes) (target : offset_row) : InnerActionBatchProof :=
  {| bp_target := target.2; bp_siblings := map hex siblings; bp_global_action_index := start + offset;
     bp_commit_slot_upper := slot |}.

Lemma batch_row fetched start slot committed leaves i target :
  batch_of fetched start slot committed leaves -> fetched !! i = Some target ->
  exists leaf, leaves !! i = Some leaf /\ row_at start slot committed i target leaf.
Proof.
  intros (_ & _ & Hf & _) Ht.
  assert (imap pair fetched !! i = Some (i, target)) as Hi by (by rewrite list_lookup_imap, Ht).
  destruct (Forall2_lookup_l _ _ _ _ _ Hf Hi) as (leaf & Hl & Hr). by exists leaf.
Qed.

Lemma batch_length fetched start slot committed leaves :
  batch_of fetched start slot committed leaves -> length leaves = length fetched.
Proof. intros (_ & _ & Hf & _). apply Forall2_length in Hf. by rewrite length_imap in Hf. Qed.

(** The loop of the source collects the leaves of a batch, and fails on other
    rows. *)
Lemma batch_leaves fetched start slot committed leaves :
  Z.of_nat (length fetched) <= MAX_LEAVES -> is_u32 start ->
  map_ok (batch_leaf start committed slot) (imap pair fetched) = Ok leaves <->
  Forall2 (fun ie leaf => row_at start slot committed ie.1 ie.2 leaf) (imap pair fetched) leaves.
Proof.
  intros Hlen Hs. rewrite map_ok_Ok, !Forall2_same_length_lookup.
  assert (forall i ie leaf, imap pair fetched !! i = Some ie ->
    batch_leaf start committed slot ie = Ok leaf <-> row_at start slot committed ie.1 ie.2 leaf) as Hb.
  { intros i ie leaf Hi. rewrite list_lookup_imap in Hi. destruct (fetched !! i) as [e|] eqn:He; [|done].
    injection Hi as <-. apply lookup_lt_Some in He. apply batch_leaf_Ok; [|done].
    apply (Z.lt_le_trans _ _ _ (proj1 (Nat2Z.inj_lt _ _) He) Hlen). }
  split; intros [Hl Hf]; (split; [exact Hl|]); intros i ie leaf Hi Hleaf; apply (Hb i ie leaf Hi); by eapply Hf.
Qed.

(** The honest proof verifies exactly against the root of the leaves. *)
Lemma proof_verifies leaves offset leaf siblings committed :
  0 <= offset -> leaves !! Z.to_nat offset = Some leaf -> merkle_proof leaves offset = Some siblings ->
  verify_merkle_proof leaf offset siblings committed = true <-> InnerActionTree.root (E := Empty_set) leaves = Ok committed.
Proof.
  intros Ho Hl Hp. assert (Z.of_nat (length leaves) <= MAX_LEAVES) as Hlen.
  { unfold merkle_proof in Hp. destruct (Z.ltb_spec MAX_LEAVES (Z.of_nat (length leaves))); [done|lia]. }
  pose proof (merkle_proof_accepts leaves offset Hlen Ho) as Hm. rewrite Hl, Hp in Hm.
  destruct Hm as (? & r & [= <-] & _ & Hr & Hv). rewrite Hr. unfold verify_merkle_proof in *.
  destruct (MAX_LEAVES <=? offset); [done|]. apply bool_decide_eq_true in Hv. rewrite bool_decide_eq_true. naive_solver.
Qed.

(** [build_inner_action_batch_proof] answers exactly for the rows of a whole
    batch that reproduces its root, with the tree's proof of the position
    asked for. *)
Lemma build_exact fetched offset p :
  0 <= offset ->
  build_inner_action_batch_proof fetched offset = Ok p <->
  exists start slot committed leaves siblings target,
    batch_of fetched start slot committed leaves /\ merkle_proof leaves offset = Some siblings /\
    fetched !! Z.to_nat offset = Some target /\ p = served_proof start slot offset siblings target.
Proof.
  intros Ho. unfold build_inner_action_batch_proof. split.
  - intros (first & Hfirst%context_Ok & Hb)%bind_Ok. apply bind_Ok in Hb as ([] & Hlen%ensure_Ok & Hb).
    apply Z.leb_le in Hlen. apply bind_Ok in Hb as (start & [-> Hstart]%to_u32_Ok & Hb).
    apply bind_Ok in Hb as (committed & Hc%context_Ok & Hb). apply bind_Ok in Hb as (slot & [-> Hslot]%to_u32_Ok & Hb).
    apply bind_Ok in Hb as (leaves & Hleaves%batch_leaves & Hb); [|done..].
    apply bind_Ok in Hb as (siblings & Hs%context_Ok & Hb). apply bind_Ok in Hb as (leaf & Hleaf%expect_Ok & Hb).
    apply bind_Ok in Hb as ([] & Hv%ensure_Ok & Hb). apply bind_Ok in Hb as (target & Ht%context_Ok & Hb).
    apply bind_Ok in Hb as (index & [-> Hi]%to_u32_Ok & [= <-]).
    rewrite (proof_verifies leaves) in Hv by done.
    assert (batch_of fetched (lf_global_action_index first.2) (lf_commit_slot_upper first.2) committed leaves) as Hbatch.
    { split_and!; [by destruct fetched; cbn; [|lia]|done..]. }
    eexists _, _, _, _, _, _. split_and!; [exact Hbatch|exact Hs|exact Ht|].
    destruct (batch_row _ _ _ _ _ _ _ Hbatch Ht) as (? & _ & _ & Hg & _).
    unfold served_proof. f_equal. rewrite Hg. lia.
  - intros (start & slot & committed & leaves & siblings & target & Hbatch & Hs & Ht & ->).
    destruct (lookup_lt_is_Some_2 fetched 0 ltac:(apply Hbatch)) as (first & Hfirst).
    pose proof (batch_row _ _ _ _ _ _ _ Hbatch Hfirst) as (? & _ & _ & Hg0 & Hu0 & Hroot & Hslot & Hus & _).
    rewrite Z.add_0_r in Hg0, Hu0.
    destruct (batch_row _ _ _ _ _ _ _ Hbatch Ht) as (leaf & Hleaf & _ & Hg & Hu & _).
    rewrite Z2Nat.id in Hg, Hu by done.
    assert (head fetched = Some first) as -> by by destruct fetched.
    destruct Hbatch as (Hne & Hlen & Hf & Hr).
    cbn [context mbind outcome_bind]. rewrite ensure_true by by apply Z.leb_le.
    rewrite (proj2 (to_u32_Ok (lf_global_action_index first.2) start)) by (rewrite Hg0; by split). cbn [mbind outcome_bind].
    rewrite Hroot. cbn [context mbind outcome_bind].
    rewrite (proj2 (to_u32_Ok (lf_commit_slot_upper first.2) slot)) by (rewrite Hslot; by split). cbn [mbind outcome_bind].
    rewrite (proj2 (batch_leaves fetched start slot committed leaves Hlen Hu0)) by exact Hf. cbn [mbind outcome_bind].
    rewrite Hs, Hleaf. cbn [context expect mbind outcome_bind].
    rewrite ensure_true by (by apply (proof_verifies leaves)).
    rewrite Ht. cbn [context mbind outcome_bind].
    rewrite Hg, (proj2 (to_u32_Ok _ (start + offset))) by (by split). cbn [mbind outcome_bind]. done.
Qed.

End build.

(** ** The rows a confirmed settlement stores *)

Lemma NoDup_omap_inj {A B} (f : A -> option B) (s : list A) :
  (forall a b c, f a = Some c -> f b = Some c -> a = b) -> NoDup s -> NoDup (omap f s).
Proof.
  intros Hinj. induction 1 as [|a s Ha _ IH]; cbn; [constructor|]. destruct (f a) as [c|] eqn:Hc; [|done].
  constructor; [|done]. intros (b & Hb & Hbc)%list_elem_of_omap. by rewrite (Hinj a b c Hc Hbc) in Ha.
Qed.

Section stored.
Context `{Externals} `{!JsonObjects} `{Keccak} `{AlloyText}.

Lemma elem_of_batch_rows sequence l e :
  e ∈ batch_rows sequence l <-> leaves l !! (sequence, e.1) = Some e.2 /\ lf_removed e.2 = false.
Proof.
  unfold batch_rows. rewrite merge_sort_Permutation, list_elem_of_omap. split.
  - intros ([[s o] row] & Hin%elem_of_map_to_list & Hlive). unfold live_leaf in Hlive. cbn in *.
    case_bool_decide; cbn in *; [|done]. destruct (lf_removed row) eqn:Hr; [done|]. injection Hlive as <-. by subst.
  - intros [Hl Hr]. exists ((sequence, e.1), e.2). rewrite elem_of_map_to_list. split; [done|].
    unfold live_leaf. cbn. rewrite bool_decide_true by done. rewrite Hr. by destruct e.
Qed.

#[local] Instance offset_le_total : Total offset_le.
Proof. intros a b. unfold offset_le. lia. Qed.
#[local] Instance offset_le_trans : Transitive offset_le.
Proof. intros a b c. unfold offset_le. lia. Qed.

Lemma batch_rows_NoDup sequence l : NoDup (batch_rows sequence l).
Proof.
  unfold batch_rows. rewrite merge_sort_Permutation. apply NoDup_omap_inj; [|apply NoDup_map_to_list].
  intros [[s1 o1] r1] [[s2 o2] r2] c E1 E2. unfold live_leaf in *. cbn in *. repeat case_match; bool_props; naive_solver.
Qed.

(** A sorted list of distinct offsets with the same rows is the batch. *)
Lemma batch_rows_eq sequence l fetched :
  StronglySorted offset_le fetched -> NoDup fetched ->
  (forall e, e ∈ fetched <-> leaves l !! (sequence, e.1) = Some e.2 /\ lf_removed e.2 = false) ->
  batch_rows sequence l = fetched.
Proof.
  intros Hs Hn He. apply (StronglySorted_unique_strong offset_le).
  - intros x y Hx%elem_of_batch_rows Hy%He Hxy Hyx. unfold offset_le in *.
    assert (x.1 = y.1) as Heq by lia. rewrite Heq in Hx. destruct x, y. cbn in *. f_equal; [done|]. naive_solver congruence.
  - apply StronglySorted_merge_sort; apply _.
  - done.
  - apply NoDup_Permutation; [|done|].
    + apply batch_rows_NoDup.
    + intros e. by rewrite elem_of_batch_rows, He.
Qed.

(** The rows of a batch depend on the leaves of its sequence only. *)
Lemma batch_rows_ext sequence l l' :
  (forall offset, leaves l !! (sequence, offset) = leaves l' !! (sequence, offset)) -> batch_rows sequence l = batch_rows sequence l'.
Proof.
  intros Hl. apply batch_rows_eq.
  - apply StronglySorted_merge_sort; apply _.
  - apply batch_rows_NoDup.
  - intros e. by rewrite elem_of_batch_rows, Hl.
Qed.

(** [INSERT] one row after another. *)
Definition insert_rows (m : gmap (Z * Z) LeafRow) (rows : list ((Z * Z) * LeafRow)) : gmap (Z * Z) LeafRow :=
  foldl (fun m row => <[row.1 := row.2]> m) m rows.

Lemma insert_rows_in m rows k v : NoDup rows.*1 -> (k, v) ∈ rows -> insert_rows m rows !! k = Some v.
Proof.
  induction rows as [|row rows IH] using rev_ind; intros Hn Hin; [by apply not_elem_of_nil in Hin|].
  unfold insert_rows in *. rewrite foldl_snoc. rewrite fmap_app in Hn. apply NoDup_app in Hn as (Hn & Hd & _).
  apply elem_of_app in Hin as [Hin|<-%list_elem_of_singleton].
  - rewrite lookup_insert_ne; [by apply IH|]. intros Hk. apply (Hd k); [|cbn; set_solver].
    apply list_elem_of_fmap. by exists (k, v).
  - by rewrite lookup_insert_eq.
Qed.

Lemma insert_rows_out m rows k : k ∉ rows.*1 -> insert_rows m rows !! k = m !! k.
Proof.
  induction rows as [|row rows IH] using rev_ind; intros Hk; [done|].
  unfold insert_rows in *. rewrite foldl_snoc. rewrite fmap_app, elem_of_app in Hk. cbn in Hk.
  rewrite lookup_insert_ne by set_solver. apply IH. tauto.
Qed.

(** The columns of the withdrawal of a row. *)
Definition row_columns (f : LeafRow) :=
  (lf_token f, lf_asset_id f, lf_action_encoding_version f, lf_registry_index f, lf_record_commitment f,
   lf_recipient f, lf_zeko_amount f).

(** What is stored for action [i] of a batch. *)
Definition stored_row (receipt : V2.SettlementPublicValuesV2) (batch : InnerActionBatchWitnessV2) (i : nat)
    (action : InnerActionWitnessV2) (f : LeafRow) (leaf : bytes) : Prop :=
  exists fields_hash,
    action_fields_hash (ia_fields action) = Ok (E := error) fields_hash /\
    leaf_of_action receipt batch (V2.inner_action_start_index receipt + Z.of_nat i) action fields_hash = Ok leaf /\
    withdrawal_columns action = Ok (row_columns f) /\
    V2.inner_action_start_index receipt + Z.of_nat i < 2 ^ 32 /\
    lf_global_action_index f = V2.inner_action_start_index receipt + Z.of_nat i /\
    lf_action_fields_hash f = hex fields_hash /\ lf_leaf f = hex leaf /\
    lf_inner_action_root f = hex (V2.inner_action_root receipt) /\
    lf_commit_slot_upper f = V1.slot_upper (V2.settlement receipt) /\ lf_removed f = false.

Lemma leaf_rows_Ok input receipt block hash rows :
  leaf_rows input receipt block hash = Ok rows ->
  exists batch leaves,
    pointer input "/proof/innerActionBatch" ≫= parse_inner_action_batch = Some batch /\
    ib_bridge_address batch = V2.bridge_address receipt /\
    Z.of_nat (length (ib_actions batch)) = V2.inner_action_count receipt /\
    InnerActionTree.root (E := error) leaves = Ok (V2.inner_action_root receipt) /\
    length leaves = length (ib_actions batch) /\ length rows = length (ib_actions batch) /\
    forall i action, ib_actions batch !! i = Some action -> exists f leaf,
      rows !! i = Some ((V1.batch_sequence (V2.settlement receipt), Z.of_nat i), f) /\
      leaves !! i = Some leaf /\ stored_row receipt batch i action f leaf.
Proof.
  unfold leaf_rows. intros (batch & Hb%context_Ok & Hr)%bind_Ok.
  apply bind_Ok in Hr as ([] & Ha%ensure_Ok & Hr). apply bind_Ok in Hr as ([] & Hc%ensure_Ok & Hr).
  apply bind_Ok in Hr as (entries & He%map_ok_Ok & Hr). apply bind_Ok in Hr as (computed & Hroot & Hr).
  apply bind_Ok in Hr as ([] & Hcr%ensure_Ok & Hr%map_ok_Ok). bool_props. subst computed.
  exists batch, (map snd entries).
  assert (length entries = length (ib_actions batch)) as Hl by (apply Forall2_length in He; by rewrite length_imap in He).
  split_and!; [done..|by rewrite length_map|by rewrite <- (Forall2_length _ _ _ Hr)|].
  intros i action Hi. assert (imap pair (ib_actions batch) !! i = Some (i, action)) as Hp by (by rewrite list_lookup_imap, Hi).
  destruct (Forall2_lookup_l _ _ _ _ _ He Hp) as ([[[[o g] a] fh] leaf] & Hei & Hentry).
  destruct (Forall2_lookup_l _ _ _ _ _ Hr Hei) as ([key f] & Hri & Hrow).
  unfold leaf_entry in Hentry. inv_ok. repeat match goal with Hx : _ = Ok _ |- _ => apply context_Ok in Hx end.
  unfold leaf_row in Hrow. apply bind_Ok in Hrow as ([[[[[[??]?]?]?]?]?] & Hcols & Hrow). inv_ok.
  repeat match goal with Hx : to_i64 _ = Ok _ |- _ => apply to_i64_Ok in Hx as -> end.
  eexists _, leaf. unfold checked_add_u32 in *. case_match; simplify_eq. bool_props.
  split_and!; [exact Hri|change (map snd entries) with (snd <$> entries); by rewrite list_lookup_fmap, Hei|].
  eexists. split_and!; cbn; done.
Qed.

End stored.

(** ** The batch that is read back *)

Definition with_offsets `{Externals} (k : nat) (rows : list ((Z * Z) * LeafRow)) : list offset_row :=
  imap (fun i row => (Z.of_nat (k + i), row.2)) rows.

Section read_back.
Context `{Externals} `{!JsonObjects} `{Keccak} `{AlloyText}.
Hypothesis parse_hex : forall b, length b = 32%nat -> parse_b256 (hex b) = Some b.

Lemma with_offsets_sorted k rows : StronglySorted offset_le (with_offsets k rows).
Proof.
  revert k. induction rows as [|row rows IH]; intros k; [constructor|]. unfold with_offsets. cbn [imap].
  constructor.
  - rewrite (imap_ext _ (fun i row => (Z.of_nat (S k + i), row.2))); [apply IH|]. intros. cbn. do 2 f_equal. lia.
  - apply list.Forall_forall. intros e (i & Hi)%list_elem_of_lookup. rewrite list_lookup_imap in Hi.
    destruct (rows !! i); [|done]. injection Hi as <-. unfold offset_le. cbn. lia.
Qed.

Lemma elem_of_with_offsets rows e : e ∈ with_offsets 0 rows <-> exists i row, rows !! i = Some row /\ e = (Z.of_nat i, row.2).
Proof.
  unfold with_offsets. rewrite list_elem_of_lookup. split.
  - intros (i & Hi). rewrite list_lookup_imap in Hi. destruct (rows !! i) as [row|] eqn:Hr; [|done].
    injection Hi as <-. by exists i, row.
  - intros (i & row & Hr & ->). exists i. by rewrite list_lookup_imap, Hr.
Qed.

Lemma with_offsets_NoDup rows : NoDup (with_offsets 0 rows).
Proof.
  apply NoDup_alt. intros i j e Hi Hj. unfold with_offsets in *. rewrite list_lookup_imap in Hi, Hj.
  destruct (rows !! i), (rows !! j); try done. cbn in *. injection Hi as <-. injection Hj as Hij _. lia.
Qed.

(** Rows keyed by their positions, over a table without a live row of their
    sequence, are what the query returns. *)
Lemma insert_batch sequence rows l l' :
  (forall i row, rows !! i = Some row -> row.1 = (sequence, Z.of_nat i) /\ lf_removed row.2 = false) ->
  (forall offset f, leaves l !! (sequence, offset) = Some f -> lf_removed f = true) ->
  leaves l' = insert_rows (leaves l) rows -> batch_rows sequence l' = with_offsets 0 rows.
Proof.
  intros Hk Hold Hl. assert (NoDup rows.*1) as Hn.
  { apply NoDup_alt. intros i j k Hi Hj. rewrite list_lookup_fmap in Hi, Hj.
    destruct (rows !! i) as [a|] eqn:Ha, (rows !! j) as [b|] eqn:Hb; try done. cbn in *. simplify_eq.
    apply Hk in Ha as [Ha _]. apply Hk in Hb as [Hb _]. assert ((sequence, Z.of_nat i) = (sequence, Z.of_nat j)) by congruence.
    simplify_eq. lia. }
  apply batch_rows_eq; [apply with_offsets_sorted|apply with_offsets_NoDup|]. intros e.
  rewrite elem_of_with_offsets, Hl. split.
  - intros (i & row & Hi & ->). destruct (Hk i row Hi) as [Hkey Hr]. cbn. split; [|done].
    apply insert_rows_in; [done|]. rewrite <- Hkey. destruct row. by eapply list_elem_of_lookup_2.
  - intros [Hin Hr]. destruct (decide ((sequence, e.1) ∈ rows.*1)) as [Hd|Hd].
    + apply list_elem_of_fmap in Hd as (row & Hkey & (i & Hi)%list_elem_of_lookup). exists i, row. split; [done|].
      destruct (Hk i row Hi) as [Hkey' _]. rewrite (insert_rows_in _ _ _ row.2) in Hin; [|done|].
      * injection Hin as ->. destruct e as [o f]. cbn in *. f_equal. congruence.
      * rewrite Hkey. destruct row. by eapply list_elem_of_lookup_2.
    + rewrite insert_rows_out in Hin by done. apply Hold in Hin. congruence.
Qed.

Lemma leaf_of_action_length receipt batch index action fields_hash leaf :
  leaf_of_action receipt batch index action fields_hash = Ok leaf -> length leaf = 32%nat.
Proof.
  unfold leaf_of_action. destruct (ia_withdrawal action), (ia_token_withdrawal action); intros Hl; inv_ok; try apply keccak256_length.
  unfold erc20_withdrawal_leaf in Hl. inv_ok. apply keccak256_length.
Qed.

(** The rows a receipt stores are read back as they were stored. *)
Lemma stored_rows input receipt block hash rows l l' :
  let sequence := V1.batch_sequence (V2.settlement receipt) in
  leaf_rows input receipt block hash = Ok rows ->
  (forall offset f, leaves l !! (sequence, offset) = Some f -> lf_removed f = true) ->
  leaves l' = insert_rows (leaves l) rows -> batch_rows sequence l' = with_offsets 0 rows.
Proof.
  intros sequence Hr Hold Hl. apply (insert_batch _ _ l); [|done..]. intros i row Hi.
  destruct (leaf_rows_Ok _ _ _ _ _ Hr) as (batch & leaves & _ & _ & _ & _ & _ & Hlr & Hrows).
  destruct (lookup_lt_is_Some_2 (ib_actions batch) i) as [action Hact]; [rewrite <- Hlr; by eapply lookup_lt_Some|].
  destruct (Hrows i action Hact) as (f & leaf & Hri & _ & ? & Hst). rewrite Hi in Hri. injection Hri as ->. cbn. tauto.
Qed.

(** What was stored is a batch with the root of the receipt. *)
Lemma stored_batch input receipt block hash rows l l' :
  let sequence := V1.batch_sequence (V2.settlement receipt) in
  leaf_rows input receipt block hash = Ok rows -> V2.typed receipt -> (0 < length rows)%nat ->
  (forall offset f, leaves l !! (sequence, offset) = Some f -> lf_removed f = true) ->
  leaves l' = insert_rows (leaves l) rows ->
  exists batch leaves,
    pointer input "/proof/innerActionBatch" ≫= parse_inner_action_batch = Some batch /\
    ib_bridge_address batch = V2.bridge_address receipt /\
    length leaves = length (ib_actions batch) /\
    batch_of (batch_rows sequence l') (V2.inner_action_start_index receipt) (V1.slot_upper (V2.settlement receipt))
      (V2.inner_action_root receipt) leaves /\
    forall i action, ib_actions batch !! i = Some action -> exists f leaf,
      batch_rows sequence l' !! i = Some (Z.of_nat i, f) /\ leaves !! i = Some leaf /\
      stored_row receipt batch i action f leaf.
Proof.
  intros sequence Hr Hty Hne Hold Hl.
  destruct (leaf_rows_Ok _ _ _ _ _ Hr) as (batch & leaves & Hb & Ha & _ & Hroot & Hll & Hlr & Hrows).
  assert (forall i row, rows !! i = Some row -> exists action f leaf, ib_actions batch !! i = Some action /\
    row = ((sequence, Z.of_nat i), f) /\ leaves !! i = Some leaf /\ stored_row receipt batch i action f leaf) as Hrow.
  { intros i row Hi. destruct (lookup_lt_is_Some_2 (ib_actions batch) i) as [action Hact];
      [rewrite <- Hlr; by eapply lookup_lt_Some|].
    destruct (Hrows i action Hact) as (f & leaf & Hri & Hli & Hst). exists action, f, leaf.
    split_and!; [done|unfold sequence; congruence|done..]. }
  assert (batch_rows sequence l' = with_offsets 0 rows) as -> by by eapply stored_rows.
  exists batch, leaves. split_and!; [done..| |].
  - destruct Hty as ((_ & _ & Hty) & _ & Hlroot & Hustart & _). unfold batch_of, with_offsets. rewrite length_imap.
    assert (Z.of_nat (length leaves) <= MAX_LEAVES /\ InnerActionTree.root (E := Empty_set) leaves = Ok (V2.inner_action_root receipt))
      as [Hmax Hroot'].
    { assert (Z.of_nat (length leaves) <= MAX_LEAVES) as Hm.
      { unfold InnerActionTree.root in Hroot. apply bind_Ok in Hroot as ([] & Hm%assert_Ok & _). by apply Z.leb_le in Hm. }
      split; [done|]. pose proof (root_ok_eq (E := error) leaves Hm) as Hsub.
      rewrite (root_ok_eq (E := Empty_set) leaves Hm). congruence. }
    split_and!; [done|by rewrite Hlr, <- Hll| |done].
    apply Forall2_same_length_lookup. split; [rewrite !length_imap; congruence|].
    intros i ie leaf Hi Hli. rewrite !list_lookup_imap in Hi. destruct (rows !! i) as [row|] eqn:Hri; [|done].
    cbn in Hi. injection Hi as <-. destruct (Hrow i row Hri) as (action & f & leaf' & _ & -> & Hli' & fh & Hst).
    rewrite Hli in Hli'. injection Hli' as <-. destruct Hst as (_ & Hleaf & _ & Hlt & Hg & _ & Hlf & Hrt & Hsl & _).
    unfold row_at. cbn. unfold is_u32 in *.
    rewrite Hlf, Hrt, Hsl, !parse_hex by first [done|by eapply leaf_of_action_length].
    split_and!; try done; try lia; tauto.
  - intros i action Hact. destruct (Hrows i action Hact) as (f & leaf & Hri & Hli & Hst). exists f, leaf.
    split_and!; [|done..]. unfold with_offsets. by rewrite list_lookup_imap, Hri.
Qed.

(** The answer for one position of a batch. *)
Lemma load_batch_position sequence l start slot committed leaves i f leaf :
  0 <= sequence < 2 ^ 63 -> batch_of (batch_rows sequence l) start slot committed leaves ->
  batch_rows sequence l !! i = Some (Z.of_nat i, f) -> leaves !! i = Some leaf ->
  exists siblings,
    load_inner_action_batch_proof l sequence (Z.of_nat i) =
      Ok (served_proof start slot (Z.of_nat i) siblings (Z.of_nat i, f)) /\
    length siblings = TREE_DEPTH /\ verify_merkle_proof leaf (Z.of_nat i) siblings committed = true.
Proof.
  intros Hs Hb Hi Hl. pose proof (batch_length _ _ _ _ _ Hb) as Hlen. pose proof Hb as (_ & Hmax & _ & Hroot).
  rewrite <- Hlen in Hmax. pose proof (merkle_proof_accepts leaves (Z.of_nat i) Hmax ltac:(lia)) as Hm.
  rewrite Nat2Z.id, Hl in Hm. destruct Hm as (siblings & r & Hp & Hpl & Hr & Hv). exists siblings.
  split_and!; [|done|].
  - unfold load_inner_action_batch_proof. unfold to_i64. rewrite (proj2 (Z.ltb_lt _ _)) by lia. cbn [mbind outcome_bind].
    apply build_exact; [lia|]. exists start, slot, committed, leaves, siblings, (Z.of_nat i, f).
    by rewrite Nat2Z.id.
  - rewrite Hroot in Hr. by injection Hr as <-.
Qed.

(** Positions outside a batch, and sequences without one, are errors. *)
Lemma load_outside sequence l offset :
  0 <= offset -> batch_rows sequence l !! Z.to_nat offset = None ->
  forall p, load_inner_action_batch_proof l sequence offset <> Ok p.
Proof.
  intros Ho Hn p Hp. unfold load_inner_action_batch_proof in Hp. apply bind_Ok in Hp as (s & ->%to_i64_Ok & Hp).
  apply build_exact in Hp as (? & ? & ? & ? & ? & ? & _ & _ & Ht & _); congruence.
Qed.

Hypothesis parse_address_hex : forall b, length b = 20%nat -> parse_address (hex b) = Some b.

(** The withdrawals have the types of the source. *)
Definition withdrawals_typed (a : InnerActionWitnessV2) : Prop :=
  (forall w, ia_withdrawal a = Some w -> native_typed w) /\ (forall w, ia_token_withdrawal a = Some w -> token_typed w).

Lemma parse_amount z : is_u64 z -> parse_u64 (i64_to_string z) = Some z.
Proof. apply parse_u64_to_string. Qed.

Lemma load_native_text contracts l sequence offset current delay p text recipient amount :
  load_inner_action_batch_proof l sequence offset = Ok p -> parse_address text = Some recipient -> is_u64 amount ->
  row_columns (bp_target p) = (None, None, None, None, None, Some text, Some amount) ->
  load_native_withdrawal_proof_at contracts l sequence offset current delay =
  (cursor ← next_withdrawal_index contracts recipient;
   mret (withdrawal_answer p sequence offset current delay cursor text (i64_to_string amount) "claimNativeWithdrawal")).
Proof.
  intros Hp Htext Hu [= Ht _ _ _ _ Hr Ha]. unfold load_native_withdrawal_proof_at, amount_text.
  rewrite Hp. cbn [mbind outcome_bind]. unfold ensure_native_withdrawal_kind.
  rewrite Ht, Hr, Ha, ensure_true by by apply bool_decide_eq_true.
  cbn [context mbind outcome_bind fmap option_fmap option_map]. rewrite parse_amount by done.
  cbn [context mbind outcome_bind]. by rewrite Htext.
Qed.

Lemma load_native_served contracts l sequence offset current delay p w :
  load_inner_action_batch_proof l sequence offset = Ok p -> native_typed w ->
  row_columns (bp_target p) = (None, None, None, None, None, Some (hex (nw_recipient w)), Some (nw_amount w)) ->
  load_native_withdrawal_proof_at contracts l sequence offset current delay =
  (cursor ← next_withdrawal_index contracts (nw_recipient w);
   mret (withdrawal_answer p sequence offset current delay cursor (hex (nw_recipient w))
           (i64_to_string (nw_amount w)) "claimNativeWithdrawal")).
Proof. intros Hp [Hlr Hu] Hc. by apply load_native_text; [|apply parse_address_hex|..]. Qed.

Definition token_identity (w : TokenWithdrawalV3) : ActionIdentity := {|
  ai_encoding_version := tw_encoding_version w; ai_registry_index := Some (tw_registry_index w);
  ai_record_commitment := Some (hex (tw_record_commitment w)) |}.

Lemma load_token_text contracts l sequence offset current delay p w token_text recipient_text :
  load_inner_action_batch_proof l sequence offset = Ok p -> is_u32 (tw_registry_index w) ->
  length (tw_record_commitment w) = 32%nat -> is_u64 (tw_amount w) ->
  parse_address token_text = Some (tw_token w) -> parse_address recipient_text = Some (tw_recipient w) ->
  tw_encoding_version w = ERC20_ACTION_ENCODING_V2 -> tw_record_commitment w <> zeros 32 ->
  row_columns (bp_target p) =
    (Some token_text, Some (hex (tw_asset_id w)), Some (tw_encoding_version w), Some (tw_registry_index w),
     Some (hex (tw_record_commitment w)), Some recipient_text, Some (tw_amount w)) ->
  load_token_withdrawal_proof_at contracts l sequence offset current delay =
  (cursor ← next_token_withdrawal_index contracts (tw_token w) (tw_recipient w);
   mret {| tp_token := token_text; tp_asset_id := hex (tw_asset_id w); tp_action_identity := token_identity w;
           tp_withdrawal := withdrawal_answer p sequence offset current delay cursor recipient_text
                              (i64_to_string (tw_amount w)) "claimERC20Withdrawal" |}).
Proof.
  intros Hp Hui Hlc Hu Htt Htr Hv Hc [= Ht Has Hve Hri Hrc Hr Ha].
  unfold load_token_withdrawal_proof_at, amount_text. rewrite Hp. cbn [mbind outcome_bind].
  rewrite Ht, Has, Hve, Hri, Hrc, Hr, Ha, Hv. cbn [context mbind outcome_bind fmap option_fmap option_map].
  unfold decode_action_identity. change (to_u32 ERC20_ACTION_ENCODING_V2) with (Ok (E := error) ERC20_ACTION_ENCODING_V2).
  cbn [mbind outcome_bind]. change (ERC20_ACTION_ENCODING_V2 =? 0) with false.
  change (ERC20_ACTION_ENCODING_V2 =? HISTORICAL_ERC20_ACTION_ENCODING_V1) with false.
  change (ERC20_ACTION_ENCODING_V2 =? ERC20_ACTION_ENCODING_V2) with true. cbn [orb context mbind outcome_bind].
  rewrite (proj2 (to_u32_Ok (tw_registry_index w) _)) by (split; [reflexivity|exact Hui]). cbn [mbind outcome_bind].
  rewrite parse_hex by done. cbn [context mbind outcome_bind].
  rewrite ensure_true by (by rewrite bool_decide_false). cbn [mbind outcome_bind mret outcome_ret].
  unfold ensure_registry_erc20_action_encoding. cbn [ai_encoding_version]. rewrite ensure_true by done.
  rewrite parse_amount by done. cbn [context mbind outcome_bind].
  rewrite Htt, Htr. cbn [context mbind outcome_bind]. unfold token_identity. by rewrite Hv.
Qed.

Lemma load_token_served contracts l sequence offset current delay p w :
  load_inner_action_batch_proof l sequence offset = Ok p -> token_typed w ->
  tw_encoding_version w = ERC20_ACTION_ENCODING_V2 -> tw_record_commitment w <> zeros 32 ->
  row_columns (bp_target p) =
    (Some (hex (tw_token w)), Some (hex (tw_asset_id w)), Some (tw_encoding_version w), Some (tw_registry_index w),
     Some (hex (tw_record_commitment w)), Some (hex (tw_recipient w)), Some (tw_amount w)) ->
  load_token_withdrawal_proof_at contracts l sequence offset current delay =
  (cursor ← next_token_withdrawal_index contracts (tw_token w) (tw_recipient w);
   mret {| tp_token := hex (tw_token w); tp_asset_id := hex (tw_asset_id w); tp_action_identity := token_identity w;
           tp_withdrawal := withdrawal_answer p sequence offset current delay cursor (hex (tw_recipient w))
                              (i64_to_string (tw_amount w)) "claimERC20Withdrawal" |}).
Proof.
  intros Hp (_ & Hui & Hlc & Hlt & _ & Hlr & Hu) Hv Hc Hcols.
  by apply load_token_text; [done|done|done|done|apply parse_address_hex|apply parse_address_hex|..].
Qed.

End read_back.

(** ** A confirmed settlement stores its batch *)

Section settled.
Context `{Externals} `{!JsonObjects} `{Keccak}.

Definition keeps_leaves {A} (t : ltx A) : Prop := lrespects (fun _ l l' => leaves l' = leaves l) t.
#[local] Instance same_leaves_preorder : PreOrder (fun l l' => leaves l' = leaves l).
Proof. split; [intros l; reflexivity|intros l1 l2 l3 ??; congruence]. Qed.
Ltac keeps_leaves_tac := unfold keeps_leaves; repeat lrespects_step; reflexivity.

Lemma update_outer_account_leaves job pk receipt block : keeps_leaves (update_outer_account job pk receipt block).
Proof. unfold update_outer_account, fetch_account, snapshot_account, store_account. keeps_leaves_tac. Qed.
Lemma update_fee_payer_leaves job pk nonce block : keeps_leaves (update_fee_payer job pk nonce block).
Proof.
  unfold update_fee_payer, advance_fee_payer, fetch_account, snapshot_account, store_account. cbv zeta. keeps_leaves_tac.
Qed.

Lemma settlement_stores job input submission text b values receipt block hash now l0 l :
  decode_receipt text = Ok b -> settlement_values b = Ok values -> inner_action_batch values = Some receipt ->
  get input "submission" = Some submission -> is_Some (pointer input "/proof/innerActionBatch") ->
  has_history job l0 = false ->
  commit (apply_confirmed_settlement job input text block hash) now l0 = (Ok tt, l) ->
  exists rows, leaf_rows input receipt block hash = Ok rows /\ leaves l = insert_rows (leaves l0) rows /\
    V1.batch_sequence (settlement_of values) < 2 ^ 63.
Proof.
  intros Hb Hv Hbatch Hsub Hp Hno Hc. unfold commit in Hc.
  destruct (apply_confirmed_settlement job input text block hash now l0) as [[u l1]| |] eqn:Hr; try done.
  destruct u. injection Hc as <-. unfold apply_confirmed_settlement in Hr. inv_ltx.
  repeat match goal with Hx : ?o = Ok ?x, Hy : ?o = Ok ?y |- _ => assert (x = y) as <- by congruence; clear Hy end.
  rewrite Hsub in Hr. destruct (has_history job _) eqn:Hno'; [by unfold has_history in *; cbn in *; congruence|].
  unfold apply_settlement_update in Hr. inv_ltx.
  match goal with Hx : update_outer_account _ _ _ _ _ _ = Ok _ |- _ => apply update_outer_account_leaves in Hx end.
  match goal with Hx : update_fee_payer _ _ _ _ _ _ = Ok _ |- _ => apply update_fee_payer_leaves in Hx end.
  unfold insert_action in *. inv_ltx. rewrite bool_decide_true in Hr by done. inv_ltx.
  unfold store_inner_action_leaves in Hr. inv_ltx. cbn in *.
  match goal with Hx : leaf_rows _ ?r _ _ = Ok ?rows |- _ => assert (r = receipt) as -> by congruence; exists rows end.
  split_and!; [done| |].
  - injection Hr as <-. cbn. repeat match goal with Hx : leaves _ = leaves _ |- _ => rewrite Hx end. done.
  - match goal with Hx : to_i64 _ = Ok _ |- _ => unfold to_i64 in Hx; destruct (Z.ltb_spec (V1.batch_sequence (settlement_of values)) (2 ^ 63)); done end.
Qed.

End settled.

Section confirmed.
Context `{Externals} `{!JsonObjects} `{Keccak} `{AlloyText}.

Lemma settlement_batch_typed b values receipt :
  settlement_values b = Ok values -> inner_action_batch values = Some receipt ->
  V2.typed receipt /\ V1.batch_sequence (settlement_of values) = V1.batch_sequence (V2.settlement receipt).
Proof.
  unfold settlement_values. intros Hv Hr. destruct (decode_values b) as [v| |] eqn:Hd; try done. injection Hv as <-.
  apply decode_values_canonical in Hd as [Hty _]. unfold PublicValues.typed in Hty.
  destruct v; cbn in *; [done|injection Hr as <-..]; cbn; unfold V3.typed, V4.typed in *; by destruct_and?.
Qed.

(** The confirmed batch, position by position. *)
Lemma confirmed_batch (parse_hex : forall x, length x = 32%nat -> parse_b256 (hex x) = Some x)
    job input submission text b values receipt batch block hash now l0 l :
  decode_receipt text = Ok b -> settlement_values b = Ok values -> inner_action_batch values = Some receipt ->
  get input "submission" = Some submission ->
  pointer input "/proof/innerActionBatch" ≫= parse_inner_action_batch = Some batch -> has_history job l0 = false ->
  let sequence := V1.batch_sequence (V2.settlement receipt) in
  let start := V2.inner_action_start_index receipt in
  let slot := V1.slot_upper (V2.settlement receipt) in
  (forall offset f, leaves l0 !! (sequence, offset) = Some f -> lf_removed f = true) ->
  commit (apply_confirmed_settlement job input text block hash) now l0 = (Ok tt, l) ->
  (forall offset, Z.of_nat (length (ib_actions batch)) <= offset ->
     forall p, load_inner_action_batch_proof l sequence offset <> Ok p) /\
  forall i action, ib_actions batch !! i = Some action ->
  exists f leaf siblings fields_hash,
    load_inner_action_batch_proof l sequence (Z.of_nat i) =
      Ok (served_proof start slot (Z.of_nat i) siblings (Z.of_nat i, f)) /\
    action_fields_hash (E := error) (ia_fields action) = Ok fields_hash /\
    leaf_of_action receipt batch (start + Z.of_nat i) action fields_hash = Ok leaf /\
    withdrawal_columns action = Ok (row_columns f) /\ lf_action_fields_hash f = hex fields_hash /\
    length siblings = TREE_DEPTH /\ verify_merkle_proof leaf (Z.of_nat i) siblings (V2.inner_action_root receipt) = true.
Proof.
  intros Hb Hv Hrec Hsub Hp Hno sequence start slot Hold Hc.
  assert (is_Some (pointer input "/proof/innerActionBatch")) as Hpt by (destruct (pointer input _); [by eexists|done]).
  destruct (settlement_stores _ _ _ _ _ _ _ _ _ _ _ _ Hb Hv Hrec Hsub Hpt Hno Hc) as (rows & Hrows & Hl & Hseq).
  destruct (settlement_batch_typed b values receipt Hv Hrec) as [Hty Hsame]. rewrite Hsame in Hseq. fold sequence in Hseq.
  pose proof (proj1 (proj2 (proj2 (proj1 Hty)))) as Hu. fold sequence in Hu. unfold is_u64 in Hu.
  pose proof (leaf_rows_Ok _ _ _ _ _ Hrows) as (batch' & _ & Hp' & _ & _ & _ & _ & Hlr & _).
  rewrite Hp in Hp'. injection Hp' as <-.
  assert (batch_rows sequence l = with_offsets 0 rows) as Hbr.
  { by eapply stored_rows. }
  split.
  - intros offset Ho. apply load_outside; [lia|]. rewrite Hbr. unfold with_offsets. rewrite list_lookup_imap.
    rewrite (lookup_ge_None_2 rows) by lia. done.
  - intros i action Hi. assert (0 < length rows)%nat as Hne by (apply lookup_lt_Some in Hi; lia).
    destruct (stored_batch parse_hex _ _ _ _ _ l0 l Hrows Hty Hne Hold Hl) as (batch' & lvs & Hp' & _ & _ & Hbatch & Hpos).
    rewrite Hp in Hp'. injection Hp' as <-. destruct (Hpos i action Hi) as (f & leaf & Hri & Hli & Hst).
    destruct (load_batch_position _ _ _ _ _ _ _ _ _ ltac:(split; [apply Hu|exact Hseq]) Hbatch Hri Hli) as (siblings & Hload & Hls & Hver).
    destruct Hst as (fields_hash & Hfh & Hleaf & Hcols & _ & _ & Hlf & _).
    by exists f, leaf, siblings, fields_hash.
Qed.

(** An action that is no withdrawal has no withdrawal proof. *)
Lemma load_not_withdrawal contracts l sequence offset current delay p a :
  load_inner_action_batch_proof l sequence offset = Ok p -> lf_recipient (bp_target p) = None ->
  load_native_withdrawal_proof_at contracts l sequence offset current delay <> Ok a.
Proof.
  intros Hp Hr Ha. unfold load_native_withdrawal_proof_at in Ha. rewrite Hp in Ha. cbn [mbind outcome_bind] in Ha.
  apply bind_Ok in Ha as ([] & _ & Ha). rewrite Hr in Ha. done.
Qed.

End confirmed.
