(* ===== verification/Archive.v ===== *)
(** * Withdrawals of the Zeko archive ([api/src/withdrawal_activity.rs])

    The archive node of the rollup lists every inner action, settled or not.
    From it the gateway answers the withdrawals that wait for a settlement,
    and restores the leaves of settlements whose own batch it never saw.

    The archive's joined action rows, the answers of the bridge contract and
    ruint's decimal parser are parameters.  [parse_withdrawal_exact] describes
    the accepted parameters, [recovered_rows_match] compares the rows restored
    with those of [apply_confirmed_settlement], [recovered_batch] reads them
    back, [pages_complete] is about pagination. *)

From Stdlib Require Import Strings.Byte.
From stdpp Require Import gmap strings sorting.
From S2P Require Import Prelude Hashing Codec PublicValues InnerActionTree ActionBatch.
From S2P Require Import Rpc Database Program OuterWriter Submission Worker System Ledger Accounts Reorganization Withdrawals.

(** [U256::from_str_radix(_, 10)] of ruint. *)
Class DecimalText := { u256_from_decimal : string -> option Z }.

Record ArchiveNativeWithdrawal := { an_recipient : bytes; an_amount : Z }.
Record ArchiveTokenWithdrawal := {
  at_encoding_version : Z;
  at_registry_index : Z;
  at_record_commitment : bytes;
  at_asset_id : bytes;
  at_recipient : bytes;
  at_amount : Z
}.
Inductive ArchiveWithdrawal :=
| Native (w : ArchiveNativeWithdrawal)
| Token (w : ArchiveTokenWithdrawal).

Record ArchiveInnerAction := {
  aa_global_action_index : Z;
  aa_transaction_hash : string;
  aa_block_height : Z;
  aa_timestamp : string;
  aa_fields : list bytes;
  aa_withdrawal : option ArchiveWithdrawal
}.

Record TokenWithdrawalIdentity := {
  ti_encoding_version : Z;
  ti_registry_index : Z;
  ti_record_commitment : bytes;
  ti_asset_id : bytes
}.
#[export] Instance TokenWithdrawalIdentity_eq_dec : EqDecision TokenWithdrawalIdentity.
Proof. solve_decision. Defined.

(** ** The rows of the archive *)

(** A row of [action_rows]: one action of an account update of an applied
    command in a canonical block. *)
Record ArchiveItem := {
  it_height : Z;
  it_block_id : Z;
  it_timestamp : string;
  it_hash : string;
  it_sequence_no : Z;
  it_update_ordinal : Z;
  it_action_ordinal : Z;
  it_public_key : string;
  it_balance_change : Z;
  it_increment_nonce : bool;
  it_call_depth : Z;
  it_fields : list string
}.

(** [ORDER BY] several columns. *)
Fixpoint lex_le (a b : list Z) : bool :=
  match a, b with
  | x :: a, y :: b => (x <? y) || ((x =? y) && lex_le a b)
  | _, _ => true
  end.
Definition ordered_by {A} (key : A -> list Z) (a b : A) : Prop := lex_le (key a) (key b) = true.
#[export] Instance ordered_by_dec {A} (key : A -> list Z) : RelDecision (ordered_by key).
Proof. intros a b. unfold ordered_by. apply _. Defined.

Definition item_key (i : ArchiveItem) : list Z :=
  [it_height i; it_block_id i; it_sequence_no i; it_update_ordinal i; it_action_ordinal i].
(** [numbered_inner_actions]. *)
Definition numbered_inner_actions (items : list ArchiveItem) (inner_public_key : string) : list (Z * ArchiveItem) :=
  imap (fun i item => (Z.of_nat i, item))
    (merge_sort (ordered_by item_key) (filter (fun i => it_public_key i = inner_public_key) items)).

(** The update that withdrew, in the same command before the inner action. *)
Definition wide (i : ArchiveItem) : bool := (length (it_fields i) =? 11)%nat || (length (it_fields i) =? 14)%nat.
Definition candidate (inner i : ArchiveItem) : bool :=
  bool_decide (it_hash i = it_hash inner) && (it_update_ordinal i <? it_update_ordinal inner) &&
  (it_balance_change i <? 0) &&
  ((it_increment_nonce i && (it_call_depth i =? 0) && (length (it_fields i) =? 3)%nat) || wide i).
Definition candidate_key (i : ArchiveItem) : list Z :=
  [if wide i then 0 else 1; - it_update_ordinal i; - it_action_ordinal i].
Definition withdrawal_fields (items : list ArchiveItem) (inner : ArchiveItem) : option (list string) :=
  it_fields <$> head (merge_sort (ordered_by candidate_key) (filter (fun i => candidate inner i = true) items)).

(** ** Parsing *)

Section parsing.
Context `{DecimalText}.

Definition decimal (s : string) : outcome error Z := context (u256_from_decimal s) "invalid digit".

Definition parse_fields (fields : list string) : outcome error (list bytes) :=
  map_ok (fun field =>
    value ← context (u256_from_decimal field) ("invalid archive action field " ++ field)%string;
    mret (to_be 32 value)) fields.

Definition all_zero (l : bytes) : bool := forallb (fun b => bool_decide (b = Byte.x00)) l.

Definition parse_native_withdrawal (fields : list string) : outcome error ArchiveNativeWithdrawal :=
  ensure (length fields =? 3)%nat (message "withdrawal action must have three fields");;
  recipient ← decimal (fields !!! 0%nat);
  parity ← decimal (fields !!! 1%nat);
  amount ← decimal (fields !!! 2%nat);
  ensure (parity =? 0) (message "Ethereum withdrawal recipient must use even parity");;
  let recipient_bytes := to_be 32 recipient in
  ensure (all_zero (take 12 recipient_bytes)) (message "withdrawal recipient does not fit 160 bits");;
  ensure ((0 <? amount) && (amount <=? u64_MAX)) (message "withdrawal amount is outside UInt64");;
  mret {| an_recipient := drop 12 recipient_bytes; an_amount := amount |}.

Definition parse_token_withdrawal (fields : list string) : outcome error ArchiveTokenWithdrawal :=
  ensure (length fields =? 14)%nat (message "invalid ERC20 withdrawal parameter width");;
  fields ← map_ok decimal fields;
  ensure (fields !!! 0%nat =? ERC20_ACTION_ENCODING_V2) (message "unsupported ERC20 withdrawal encoding version");;
  registry_index ← context (if fields !!! 1%nat <=? u32_MAX then Some (fields !!! 1%nat) else None)
                     "ERC20 registry index is outside UInt32";
  let record_commitment := to_be 32 (fields !!! 2%nat) in
  ensure (negb (bool_decide (record_commitment = zeros 32))) (message "ERC20 record commitment is zero");;
  let asset_high := to_be 32 (fields !!! 3%nat) in
  let asset_low := to_be 32 (fields !!! 4%nat) in
  ensure (all_zero (take 16 asset_high) && all_zero (take 16 asset_low)) (message "ERC20 asset limbs exceed 128 bits");;
  let asset_id := drop 16 asset_high ++ drop 16 asset_low in
  ensure (negb (bool_decide (asset_id = zeros 32))) (message "ERC20 asset id is zero");;
  let amount := fields !!! 11%nat in
  let recipient_bytes := to_be 32 (fields !!! 12%nat) in
  ensure (fields !!! 13%nat =? 0) (message "Ethereum withdrawal recipient must use even parity");;
  ensure (all_zero (take 12 recipient_bytes)) (message "withdrawal recipient does not fit 160 bits");;
  ensure (negb (all_zero (drop 12 recipient_bytes))) (message "withdrawal recipient is zero");;
  ensure ((0 <? amount) && (amount <=? u64_MAX)) (message "withdrawal amount is outside UInt64");;
  mret {| at_encoding_version := ERC20_ACTION_ENCODING_V2;
          at_registry_index := registry_index;
          at_record_commitment := record_commitment;
          at_asset_id := asset_id;
          at_recipient := drop 12 recipient_bytes;
          at_amount := amount |}.

Definition parse_withdrawal (fields : list string) : outcome error ArchiveWithdrawal :=
  if (length fields =? 3)%nat then Native <$> parse_native_withdrawal fields
  else Token <$> parse_token_withdrawal fields.

(** A row of the query, decoded. *)
Definition archive_action (items : list ArchiveItem) (row : Z * ArchiveItem) : outcome error ArchiveInnerAction :=
  let '(index, item) := row in
  fields ← parse_fields (it_fields item);
  withdrawal ← match withdrawal_fields items item with
               | None => mret None
               | Some fields => Some <$> parse_withdrawal fields
               end;
  index ← to_u32 index;
  ensure (0 <=? it_height item) (message "out of range integral type conversion attempted");;
  mret {| aa_global_action_index := index;
          aa_transaction_hash := it_hash item;
          aa_block_height := it_height item;
          aa_timestamp := it_timestamp item;
          aa_fields := fields;
          aa_withdrawal := withdrawal |}.

Definition load_archive_inner_actions (archive : outcome error (list ArchiveItem)) (inner_public_key : string)
    : outcome error (list ArchiveInnerAction) :=
  items ← archive;
  map_ok (archive_action items) (numbered_inner_actions items inner_public_key).

End parsing.

(** ** Withdrawals that wait for a settlement *)

(** The recipient of a withdrawal of the kind asked for. *)
Definition recipient_of (tokens : bool) (action : ArchiveInnerAction) : option bytes :=
  match aa_withdrawal action with
  | Some (Token w) => if tokens then Some (at_recipient w) else None
  | Some (Native w) => if tokens then None else Some (an_recipient w)
  | None => None
  end.
Definition on_page (settled : gset Z) (tokens : bool) (recipient : option bytes) (after : option Z)
    (action : ArchiveInnerAction) : bool :=
  if bool_decide (aa_global_action_index action ∈ settled) ||
     from_option (fun after => aa_global_action_index action <=? after) false after then false
  else match recipient_of tokens action with
       | None => false
       | Some address => from_option (fun recipient => bool_decide (recipient = address)) true recipient
       end.
Definition pending_action_page (actions : list ArchiveInnerAction) (settled : gset Z) (tokens : bool)
    (recipient : option bytes) (after : option Z) (limit : nat) : list ArchiveInnerAction :=
  take limit (filter (fun action => on_page settled tokens recipient after action = true) actions).

Definition token_withdrawal_identity (w : ArchiveTokenWithdrawal) : TokenWithdrawalIdentity := {|
  ti_encoding_version := at_encoding_version w;
  ti_registry_index := at_registry_index w;
  ti_record_commitment := at_record_commitment w;
  ti_asset_id := at_asset_id w |}.

(** The [HashSet] filter: first occurrences, in order. *)
Fixpoint first_seen (seen : list TokenWithdrawalIdentity) (l : list TokenWithdrawalIdentity)
    : list TokenWithdrawalIdentity :=
  match l with
  | [] => []
  | i :: l => if bool_decide (i ∈ seen) then first_seen seen l else i :: first_seen (i :: seen) l
  end.
Definition token_of (action : ArchiveInnerAction) : option ArchiveTokenWithdrawal :=
  match aa_withdrawal action with Some (Token w) => Some w | _ => None end.
Definition unique_token_withdrawal_identities (ws : list ArchiveTokenWithdrawal) : list TokenWithdrawalIdentity :=
  first_seen [] (map token_withdrawal_identity ws).

(** ** The identity of a token ([ethereum.rs]) *)

(** What the bridge contract answers at one block. *)
Record TokenRegistry := {
  asset_token_by_registry_index : Z -> outcome error bytes;
  canonical_token_registered : bytes -> outcome error bool;
  asset_id_by_token : bytes -> outcome error bytes;
  registry_index_by_token : bytes -> outcome error Z;
  record_commitment_by_token : bytes -> outcome error bytes
}.
Record RegistryNode := {
  rn_latest_block : outcome error BlockRef;
  rn_registry : BlockRef -> TokenRegistry
}.

Definition resolve_identity (r : TokenRegistry) (i : TokenWithdrawalIdentity) : outcome error bytes :=
  ensure (ti_encoding_version i =? ERC20_ACTION_ENCODING_V2)
    (message ("unsupported ERC20 withdrawal encoding version " ++ i64_to_string (ti_encoding_version i))%string);;
  ensure (negb (bool_decide (ti_record_commitment i = zeros 32))) (message "archived ERC20 registry identity is zero");;
  token ← asset_token_by_registry_index r (ti_registry_index i);
  ensure (negb (bool_decide (token = zeros 20))) (message "archived ERC20 token is zero");;
  registered ← canonical_token_registered r token;
  ensure registered (message "archived ERC20 token is not canonically registered");;
  asset_id ← asset_id_by_token r token;
  ensure (bool_decide (asset_id = ti_asset_id i)) (message "archived ERC20 asset id does not match Ethereum");;
  index ← registry_index_by_token r token;
  matches ← (if index =? ti_registry_index i
             then commitment ← record_commitment_by_token r token;
                  mret (bool_decide (commitment = ti_record_commitment i))
             else mret false);
  ensure matches (message "archived ERC20 registry identity does not match Ethereum");;
  mret token.

(** The map, as a list of its entries; the order in which the source iterates
    over the set is not specified, and is the order given here. *)
Abbreviation resolution := (list (TokenWithdrawalIdentity * bytes)).
Definition resolve_token_withdrawal_identities (node : RegistryNode) (identities : list TokenWithdrawalIdentity) : outcome error resolution :=
  match first_seen [] identities with
  | [] => mret []
  | identities =>
    snapshot ← rn_latest_block node;
    read_pinned_snapshot (br_hash snapshot)
      (map_ok (fun i => token ← resolve_identity (rn_registry node snapshot) i; mret (i, token)) identities)
  end.
Definition resolved_token (r : resolution) (i : TokenWithdrawalIdentity) : option bytes :=
  snd <$> (snd <$> list_find (fun e => e.1 = i) r).

(** ** What the gateway reads *)

Record ArchiveView := {
  av_archive : option (outcome error (list ArchiveItem));
  av_inner_public_key : option string;
  (* the answer of the contract to the [n]-th resolution *)
  av_resolve : nat -> list TokenWithdrawalIdentity -> outcome error resolution;
  av_chain_id : outcome error Z;
  av_bridge_address : bytes
}.

Record PendingWithdrawal := {
  pw_token : option string;
  pw_asset_id : option string;
  pw_global_action_index : Z;
  pw_transaction_hash : string;
  pw_block_height : Z;
  pw_timestamp : string;
  pw_recipient : string;
  pw_amount : string;
  pw_status : string;
  pw_next_action : string
}.

Section pending.
Context `{Externals} `{!JsonObjects} `{AlloyText} `{DecimalText}.

Definition settled_indices (l : Ledger) : gset Z :=
  list_to_set (omap (fun e : (Z * Z) * LeafRow => if lf_removed e.2 then None else Some (lf_global_action_index e.2))
    (map_to_list (leaves l))).

(** A withdrawal of the page; actions without one are left out. *)
Definition pending_withdrawal (resolved : resolution) (action : ArchiveInnerAction) (w : ArchiveWithdrawal)
    : outcome error PendingWithdrawal :=
  '(recipient, amount, token, asset_id) ← match w with
    | Native w => mret (an_recipient w, an_amount w, None, None)
    | Token w =>
      token ← context (resolved_token resolved (token_withdrawal_identity w)) "archived ERC20 identity was not resolved";
      mret (at_recipient w, at_amount w, Some (address_to_string token), Some (hex (at_asset_id w)))
    end;
  mret {| pw_token := token;
          pw_asset_id := asset_id;
          pw_global_action_index := aa_global_action_index action;
          pw_transaction_hash := aa_transaction_hash action;
          pw_block_height := aa_block_height action;
          pw_timestamp := aa_timestamp action;
          pw_recipient := address_to_string recipient;
          pw_amount := i64_to_string amount;
          pw_status := "pendingSettlement";
          pw_next_action := "waitForSettlement" |}.

Definition pending_withdrawals (view : ArchiveView) (l : Ledger) (tokens : bool) (recipient : option bytes)
    (after : option Z) (limit : nat) : outcome error (list PendingWithdrawal) :=
  archive ← context (av_archive view) "Zeko archive is not configured";
  inner_public_key ← context (av_inner_public_key view) "VIRTUAL_MINA_INNER_PUBLIC_KEY is not configured";
  actions ← load_archive_inner_actions archive inner_public_key;
  let actions := pending_action_page actions (settled_indices l) tokens recipient after limit in
  let identities := unique_token_withdrawal_identities (omap token_of actions) in
  resolved ← av_resolve view 0%nat identities;
  map_ok (fun e => pending_withdrawal resolved e.1 e.2)
    (omap (fun action => pair action <$> aa_withdrawal action) actions).

Definition list_pending_withdrawals (view : ArchiveView) (l : Ledger) (query : ListWithdrawalsQuery)
    : response (list PendingWithdrawal) :=
  match (match lw_recipient query with None => Some None | Some r => Some <$> parse_address r end) with
  | None => ApiError 400 "recipient must be a 20-byte Ethereum address"
  | Some recipient =>
    match (match lw_after query with None => Ok None | Some after => Some <$> to_u32 after end) with
    | Ok after =>
      match pending_withdrawals view l (lw_token query) recipient after (Z.to_nat (page_limit (lw_limit query))) with
      | Ok rows => Json rows
      | _ => ApiError 502 "could not read pending withdrawals from the Zeko archive"
      end
    | _ => ApiError 400 "after is too large"
    end
  end.

End pending.

(** ** Leaves restored from the archive *)

(** An accepted settlement, and an entry of the first loop of [recover_batch]:
    the offset, the action, the hash of its fields, its leaf and its token. *)
Abbreviation settlement_row := ((string * Z) * SettlementEvent)%type.
Abbreviation archive_entry := (nat * ArchiveInnerAction * bytes * bytes * option bytes)%type.

Section recovery.
Context `{Externals} `{!JsonObjects} `{Keccak} `{AlloyText} `{DecimalText}.

Definition parse_hex_bytes32 (value : string) : outcome error bytes :=
  b ← decode_receipt value;
  ensure (length b =? 32)%nat (message "expected 32-byte hex value");;
  mret b.

Definition archived_token (w : ArchiveTokenWithdrawal) (token : bytes) : TokenWithdrawalV3 := {|
  tw_encoding_version := at_encoding_version w; tw_registry_index := at_registry_index w;
  tw_record_commitment := at_record_commitment w; tw_token := token; tw_asset_id := at_asset_id w;
  tw_recipient := at_recipient w; tw_amount := at_amount w; tw_params_fields := [] |}.
Definition archived_native (w : ArchiveNativeWithdrawal) : NativeWithdrawalV2 :=
  {| nw_recipient := an_recipient w; nw_amount := an_amount w |}.

Definition inconsistent {A} : outcome error A := Err (message "archive withdrawal token classification is inconsistent").

Definition archive_action_leaf (chain_id : Z) (bridge : bytes) (global_action_index : Z) (action_fields_hash : bytes)
    (withdrawal : option ArchiveWithdrawal) (token : option bytes) : outcome error bytes :=
  match withdrawal, token with
  | Some (Native w), None =>
    mret (native_withdrawal_leaf chain_id bridge global_action_index (archived_native w) action_fields_hash)
  | Some (Token w), Some token =>
    erc20_withdrawal_leaf chain_id bridge global_action_index (archived_token w token) action_fields_hash
  | None, None => mret (raw_inner_action_leaf chain_id bridge global_action_index action_fields_hash)
  | _, _ => inconsistent
  end.

Definition recovered_entry (chain_id : Z) (bridge : bytes) (resolved : resolution) (start : Z) (e : nat * ArchiveInnerAction)
    : outcome error archive_entry :=
  let '(offset, action) := e in
  ensure (Z.of_nat offset <=? u32_MAX) (message "out of range integral type conversion attempted");;
  expected_index ← context (checked_add_u32 start (Z.of_nat offset)) "inner action index overflow";
  ensure (aa_global_action_index action =? expected_index) (message "archive inner actions are not contiguous");;
  fields_hash ← action_fields_hash (aa_fields action);
  token ← match aa_withdrawal action with
          | Some (Token w) =>
            Some <$> context (resolved_token resolved (token_withdrawal_identity w)) "archived ERC20 identity was not resolved"
          | _ => mret None
          end;
  leaf ← archive_action_leaf chain_id bridge (aa_global_action_index action) fields_hash (aa_withdrawal action) token;
  mret (offset, action, fields_hash, leaf, token).

(** Token, asset, encoding version, registry index, record commitment,
    recipient and amount. *)
Definition archive_columns (withdrawal : option ArchiveWithdrawal) (token : option bytes)
    : outcome error (option string * option string * option Z * option Z * option string * option string * option Z) :=
  match withdrawal, token with
  | Some (Native w), None =>
    mret (None, None, None, None, None, Some (address_to_string (an_recipient w)), Some (an_amount w))
  | Some (Token w), Some token =>
    ensure (at_encoding_version w <? 2 ^ 31) (message "out of range integral type conversion attempted");;
    mret (Some (address_to_string token), Some (hex (at_asset_id w)), Some (at_encoding_version w),
          Some (at_registry_index w), Some (hex (at_record_commitment w)),
          Some (address_to_string (at_recipient w)), Some (at_amount w))
  | None, None => mret (None, None, None, None, None, None, None)
  | _, _ => inconsistent
  end.

(** The row of the second loop. *)
Definition recovered_row (settlement : settlement_row) (sequence : Z) (expected_root : bytes) (e : archive_entry)
    : outcome error ((Z * Z) * LeafRow) :=
  let '(offset, action, fields_hash, leaf, token) := e in
  '(token, asset_id, version, registry_index, record_commitment, recipient, amount) ←
    archive_columns (aa_withdrawal action) token;
  sequence ← to_i64 sequence;
  ensure (Z.of_nat offset <? 2 ^ 31) (message "out of range integral type conversion attempted");;
  mret ((sequence, Z.of_nat offset), {|
    lf_global_action_index := aa_global_action_index action;
    lf_action_fields := fields_value (aa_fields action);
    lf_action_fields_hash := hex fields_hash;
    lf_leaf := hex leaf;
    lf_token := token;
    lf_asset_id := asset_id;
    lf_action_encoding_version := version;
    lf_registry_index := registry_index;
    lf_record_commitment := record_commitment;
    lf_recipient := recipient;
    lf_zeko_amount := amount;
    lf_inner_action_root := hex expected_root;
    lf_commit_slot_upper := se_slot_upper settlement.2;
    lf_block := se_block settlement.2;
    lf_transaction_hash := settlement.1.1;
    lf_removed := false |}).

(** The entries of a batch, whose leaves hash to the root of the event. *)
Definition recovered_entries (view : ArchiveView) (resolved : resolution) (start : Z) (actions : list ArchiveInnerAction)
    (chain_id : Z) (expected_root : bytes) : outcome error (list archive_entry) :=
  entries ← map_ok (recovered_entry chain_id (av_bridge_address view) resolved start) (imap pair actions);
  computed ← root (map (fun e : archive_entry => e.1.2) entries);
  ensure (bool_decide (computed = expected_root))
    (message "archive actions do not reproduce the Ethereum-accepted inner-action root");;
  mret entries.

(** [n] counts the batches; the transaction runs when other threads have
    turned the tables into [between n] of what they were. *)
Definition recover_batch (view : ArchiveView) (between : nat -> Ledger -> Ledger) (n : nat) (sequence start : Z)
    (actions : list ArchiveInnerAction) (chain_id : Z) (settlement : settlement_row) (root_text : string)
    (now : Z) (l : Ledger) : outcome error unit * Ledger :=
  match (expected_root ← parse_hex_bytes32 root_text;
         resolved ← av_resolve view n (unique_token_withdrawal_identities (omap token_of actions));
         entries ← recovered_entries view resolved start actions chain_id expected_root;
         mret (expected_root, entries)) with
  | Ok (expected_root, entries) =>
    commit (rows ← try_lift (map_ok (recovered_row settlement sequence expected_root) entries);
            modify (fun l => with_leaves (foldl (fun m row => <[row.1 := row.2]> m) (leaves l) rows) l))
      now (between n l)
  | Err e => (Err e, l)
  | Panic why => (Panic why, l)
  end.

(** The settlements with a batch and without live leaves. *)
Definition has_live_leaf (sequence : Z) (l : Ledger) : bool :=
  bool_decide (Exists (fun e => e.1.1 = sequence /\ lf_removed e.2 = false) (map_to_list (leaves l))).
Definition awaiting_leaves (l : Ledger) (row : settlement_row) : bool :=
  negb (se_removed row.2) &&
  from_option (fun b : string * Z * Z * Z => let '(_, _, count, _) := b in 0 <? count) false (se_inner_batch row.2) &&
  negb (has_live_leaf (se_batch_sequence row.2) l).
Definition sequence_key (row : settlement_row) : list Z := [se_batch_sequence row.2].
Definition awaiting_settlements (l : Ledger) : list settlement_row :=
  merge_sort (ordered_by sequence_key) (filter (fun row => awaiting_leaves l row = true) (map_to_list (settlement_events l))).

(** Sequence, root, start and end of a settlement's range. *)
Definition settlement_range (row : settlement_row) : outcome error (Z * string * Z * Z * Z) :=
  '(root_text, start, count, _) ← context (se_inner_batch row.2) "unexpected null; try decoding as an `Option`";
  sequence ← (if 0 <=? se_batch_sequence row.2 then Ok (se_batch_sequence row.2)
              else Err (message "out of range integral type conversion attempted"));
  start ← to_u32 start;
  count ← to_u32 count;
  end_ ← context (checked_add_u32 start count) "inner action range overflow";
  mret (sequence, root_text, start, count, end_).

Fixpoint recover_settlements (view : ArchiveView) (between : nat -> Ledger -> Ledger) (n : nat)
    (actions : list ArchiveInnerAction) (chain_id : Z) (settlements : list settlement_row) (now : Z) (l : Ledger)
    : outcome error unit * Ledger :=
  match settlements with
  | [] => (Ok tt, l)
  | row :: settlements =>
    match settlement_range row with
    | Ok (sequence, root_text, start, count, end_) =>
      let batch := filter (fun a => start <= aa_global_action_index a < end_) actions in
      if negb (Z.of_nat (length batch) =? count) then
        recover_settlements view between n actions chain_id settlements now l
      else
        match recover_batch view between n sequence start batch chain_id row root_text now l with
        | (Ok _, l) => recover_settlements view between (S n) actions chain_id settlements now l
        | (o, l) =>
          (with_context o ("recover settlement " ++ i64_to_string sequence ++ " inner-action batch")%string, l)
        end
    | Err e => (Err e, l)
    | Panic why => (Panic why, l)
    end
  end.

Definition recover_settled_inner_actions (view : ArchiveView) (between : nat -> Ledger -> Ledger) (now : Z) (l : Ledger)
    : outcome error unit * Ledger :=
  match av_archive view, av_inner_public_key view with
  | Some archive, Some inner_public_key =>
    match (actions ← load_archive_inner_actions archive inner_public_key;
           chain_id ← av_chain_id view;
           mret (actions, chain_id)) with
    | Ok (actions, chain_id) =>
      recover_settlements view between 0 actions chain_id (awaiting_settlements l) now l
    | Err e => (Err e, l)
    | Panic why => (Panic why, l)
    end
  | _, _ => (Ok tt, l)
  end.

End recovery.

(** ** Resolved identities *)

Lemma elem_of_first_seen seen l i : i ∈ first_seen seen l <-> i ∈ l /\ i ∉ seen.
Proof.
  revert seen. induction l as [|j l IH]; intros seen; cbn [first_seen]; [rewrite elem_of_nil; tauto|].
  case_bool_decide as Hj; rewrite !elem_of_cons, IH; [naive_solver|]. rewrite not_elem_of_cons.
  destruct (decide (i = j)); naive_solver.
Qed.

Lemma first_seen_NoDup seen l : NoDup (first_seen seen l).
Proof.
  revert seen. induction l as [|j l IH]; intros seen; [constructor|]. cbn [first_seen]. case_bool_decide; [done|].
  constructor; [|done]. rewrite elem_of_first_seen, not_elem_of_cons. tauto.
Qed.

(** The contract knows the token under the whole identity. *)
Definition registered_as (r : TokenRegistry) (i : TokenWithdrawalIdentity) (token : bytes) : Prop :=
  ti_encoding_version i = ERC20_ACTION_ENCODING_V2 /\ ti_record_commitment i <> zeros 32 /\ token <> zeros 20 /\
  asset_token_by_registry_index r (ti_registry_index i) = Ok token /\ canonical_token_registered r token = Ok true /\
  asset_id_by_token r token = Ok (ti_asset_id i) /\ registry_index_by_token r token = Ok (ti_registry_index i) /\
  record_commitment_by_token r token = Ok (ti_record_commitment i).

Lemma resolve_identity_exact r i token : resolve_identity r i = Ok token <-> registered_as r i token.
Proof.
  unfold resolve_identity, registered_as. split.
  - intros ([] & Hv%ensure_Ok & Hr)%bind_Ok. apply bind_Ok in Hr as ([] & Hc%ensure_Ok & Hr).
    apply bind_Ok in Hr as (tk & H1 & Hr). apply bind_Ok in Hr as ([] & Ht%ensure_Ok & Hr).
    apply bind_Ok in Hr as (registered & H2 & Hr). apply bind_Ok in Hr as ([] & ->%ensure_Ok & Hr).
    apply bind_Ok in Hr as (asset & H3 & Hr). apply bind_Ok in Hr as ([] & Ha%ensure_Ok & Hr).
    apply bind_Ok in Hr as (index & H4 & Hr). apply bind_Ok in Hr as (same & Hs & Hr).
    apply bind_Ok in Hr as ([] & ->%ensure_Ok & [= <-]).
    destruct (Z.eqb_spec index (ti_registry_index i)); [|done]. apply bind_Ok in Hs as (commitment & H5 & Hs).
    injection Hs as Hs. bool_props. subst. by split_and!.
  - intros (Hv & Hc & Ht & H1 & H2 & H3 & H4 & H5). rewrite Hv. rewrite ensure_true by done. cbn [mbind outcome_bind].
    rewrite ensure_true by by rewrite bool_decide_false. cbn [mbind outcome_bind]. rewrite H1. cbn [mbind outcome_bind].
    rewrite ensure_true by by rewrite bool_decide_false. cbn [mbind outcome_bind]. rewrite H2. cbn [mbind outcome_bind].
    rewrite ensure_true by done. cbn [mbind outcome_bind]. rewrite H3. cbn [mbind outcome_bind].
    rewrite ensure_true by by apply bool_decide_eq_true. cbn [mbind outcome_bind]. rewrite H4. cbn [mbind outcome_bind].
    rewrite Z.eqb_refl, H5. cbn [mbind outcome_bind mret outcome_ret].
    by rewrite bool_decide_true by done.
Qed.

(** An answer resolves exactly the identities asked for, all at one block. *)
Lemma resolved_at node ids resolved :
  resolve_token_withdrawal_identities node ids = Ok resolved ->
  forall i, (i ∉ ids -> resolved_token resolved i = None) /\
  (i ∈ ids -> exists snapshot token, rn_latest_block node = Ok snapshot /\
     resolved_token resolved i = Some token /\ registered_as (rn_registry node snapshot) i token).
Proof.
  unfold resolve_token_withdrawal_identities. intros Hr i.
  pose proof (elem_of_first_seen [] ids i) as Hi. pose proof (first_seen_NoDup [] ids) as Hnd.
  destruct (first_seen [] ids) as [|j js] eqn:Hs.
  { injection Hr as <-. split; [done|]. intros Hin. exfalso. eapply not_elem_of_nil, Hi. split; [done|apply not_elem_of_nil]. }
  rewrite <- Hs in *. clear Hs j js. apply bind_Ok in Hr as (snapshot & Hsnap & Hr%read_pinned_snapshot_Ok%map_ok_Ok).
  assert (forall k e, resolved !! k = Some e -> exists token, e = (e.1, token) /\ first_seen [] ids !! k = Some e.1 /\
    registered_as (rn_registry node snapshot) e.1 token) as Hat.
  { intros k e Hk. destruct (Forall2_lookup_r _ _ _ _ _ Hr Hk) as (i' & Hi' & He). apply bind_Ok in He as (token & Ht & [= <-]).
    exists token. split_and!; [done..|]. by apply resolve_identity_exact. }
  unfold resolved_token. destruct (list_find (fun e => e.1 = i) resolved) as [[k e]|] eqn:Hf.
  - apply list_find_Some in Hf as (Hk & He & _). destruct (Hat k e Hk) as (token & He' & Hki & Hreg). subst i. cbn. split.
    + intros Hn. exfalso. apply Hn, Hi. by eapply list_elem_of_lookup_2.
    + intros _. exists snapshot, token. split_and!; [done| |done]. by rewrite He'.
  - apply list_find_None in Hf. split; [done|]. intros Hin. exfalso.
    assert (i ∈ first_seen [] ids) as (k & Hk)%list_elem_of_lookup by (apply Hi; split; [done|apply not_elem_of_nil]).
    destruct (Forall2_lookup_l _ _ _ _ _ Hr Hk) as (e & Hke & He). apply bind_Ok in He as (token & _ & [= <-]).
    apply (proj1 (list.Forall_forall _ _) Hf (i, token)); [|done]. by eapply list_elem_of_lookup_2.
Qed.

(** ** The parameters of a withdrawal *)

(** The numbers that encode a withdrawal in the action of its sender. *)
Definition withdrawal_params (w : ArchiveWithdrawal) (values : list Z) : Prop :=
  match w with
  | Native w =>
    length (an_recipient w) = 20%nat /\ 0 < an_amount w <= u64_MAX /\
    values = [from_be (an_recipient w); 0; an_amount w]
  | Token w =>
    at_encoding_version w = ERC20_ACTION_ENCODING_V2 /\ is_u32 (at_registry_index w) /\
    length (at_record_commitment w) = 32%nat /\ at_record_commitment w <> zeros 32 /\
    length (at_asset_id w) = 32%nat /\ at_asset_id w <> zeros 32 /\
    length (at_recipient w) = 20%nat /\ at_recipient w <> zeros 20 /\ 0 < at_amount w <= u64_MAX /\
    exists others, length others = 6%nat /\
      values = [2; at_registry_index w; from_be (at_record_commitment w); from_be (take 16 (at_asset_id w));
                from_be (drop 16 (at_asset_id w))] ++ others ++ [at_amount w; from_be (at_recipient w); 0]
  end.

Section limbs.

Lemma all_zero_zeros l : all_zero l = true <-> l = zeros (length l).
Proof.
  unfold all_zero, zeros. induction l as [|b l IH]; [done|]. cbn [forallb length replicate].
  rewrite andb_true_iff, bool_decide_eq_true, IH. split; [intros [-> <-]; done|intros [= -> <-]; done].
Qed.

(** A word whose first [n] bytes vanish is its last bytes. *)
Lemma word_tail z n :
  (n <= 32)%nat -> 0 <= z < 2 ^ 256 -> all_zero (take n (to_be 32 z)) = true -> z = from_be (drop n (to_be 32 z)).
Proof.
  intros Hn Hz Ha. apply all_zero_zeros in Ha. rewrite length_take, length_to_be, Nat.min_l in Ha by done.
  rewrite <- (from_be_to_be_small 32 z) at 1 by done. rewrite <- (take_drop n (to_be 32 z)) at 1. rewrite Ha.
  generalize (drop n (to_be 32 z)). intros k. clear. unfold from_be. rewrite foldl_app. f_equal.
  induction n as [|n IH]; [done|]. unfold zeros in *. rewrite replicate_S. cbn. exact IH.
Qed.

Lemma to_be_word k : length k = 32%nat -> to_be 32 (from_be k) = k.
Proof. intros Hk. by rewrite to_be_from_be_n. Qed.

(** Conversely, a short word is padded with zero bytes. *)
Lemma word_of_tail n k : (n + length k = 32)%nat -> to_be 32 (from_be k) = zeros n ++ k.
Proof.
  intros Hk. rewrite <- (to_be_word (zeros n ++ k)) by (rewrite length_app, length_zeros; lia). f_equal.
  unfold from_be. rewrite foldl_app. f_equal. clear. induction n as [|n IH]; [done|]. unfold zeros. rewrite replicate_S. cbn. exact IH.
Qed.

Lemma from_be_word_range k : (length k <= 32)%nat -> 0 <= from_be k < 2 ^ 256.
Proof.
  intros Hk. pose proof (from_be_nonneg k). pose proof (from_be_bound k) as Hb. split; [done|].
  eapply Z.lt_le_trans; [exact Hb|]. change (2 ^ 256) with (256 ^ 32). apply Z.pow_le_mono_r; lia.
Qed.

End limbs.

#[local] Opaque to_be from_be zeros all_zero.

Section exact.
Context `{DecimalText}.
Hypothesis decimal_range : forall s z, u256_from_decimal s = Some z -> 0 <= z < 2 ^ 256.

Definition parsed (fields : list string) (values : list Z) : Prop :=
  Forall2 (fun f v => u256_from_decimal f = Some v) fields values.

Lemma decimal_Ok s z : decimal s = Ok z <-> u256_from_decimal s = Some z.
Proof. unfold decimal, context. destruct (u256_from_decimal s); split; congruence. Qed.

Lemma map_decimal fields values : map_ok decimal fields = Ok values <-> parsed fields values.
Proof. rewrite map_ok_Ok. unfold parsed. split; intros Hf; (eapply Forall2_impl; [exact Hf|]); intros ? ? ?; by apply decimal_Ok. Qed.

Lemma parse_native_exact fields w :
  parse_native_withdrawal fields = Ok w <-> exists values, parsed fields values /\ withdrawal_params (Native w) values.
Proof.
  unfold parse_native_withdrawal. split.
  - intros Hp. inv_ok. bool_props. destruct fields as [|f0 [|f1 [|f2 [|? ?]]]]; try done. cbn in *.
    repeat match goal with Hx : decimal _ = Ok _ |- _ => apply decimal_Ok in Hx end.
    match goal with Hx : u256_from_decimal f0 = Some ?r, Hy : u256_from_decimal f2 = Some ?a |- _ =>
      exists [r; 0; a]; pose proof (decimal_range _ _ Hx) end.
    split; [repeat constructor; congruence|]. cbn [withdrawal_params an_recipient an_amount].
    split_and!; [by rewrite length_drop, length_to_be|lia..|]. do 2 f_equal. by apply word_tail; [lia|..].
  - intros (values & Hp & Hl & Ha & ->). inversion Hp as [|f0 ? l1 ? H0 Hp1]; subst.
    inversion Hp1 as [|f1 ? l2 ? H1 Hp2]; subst. inversion Hp2 as [|f2 ? l3 ? H2 Hp3]; subst. inversion Hp3; subst. cbn.
    unfold decimal. rewrite H0, H1, H2. cbn [context mbind outcome_bind].
    rewrite (word_of_tail 12) by lia. rewrite take_app_length' by done. rewrite drop_app_length' by done.
    rewrite !ensure_true; [by destruct w|..]; try done; [apply andb_true_iff; rewrite Z.ltb_lt, Z.leb_le; lia].
Qed.

Lemma fourteen {A} (l : list A) : length l = 14%nat ->
  exists a b c d e o1 o2 o3 o4 o5 o6 x y z, l = [a; b; c; d; e; o1; o2; o3; o4; o5; o6; x; y; z].
Proof. intros Hl. do 14 (destruct l as [|? l]; [done|]). destruct l; [|done]. by repeat eexists. Qed.

(** Two limbs of 128 bits. *)
Lemma limbs_join high low :
  0 <= high < 2 ^ 256 -> 0 <= low < 2 ^ 256 ->
  all_zero (take 16 (to_be 32 high)) = true -> all_zero (take 16 (to_be 32 low)) = true ->
  let asset := drop 16 (to_be 32 high) ++ drop 16 (to_be 32 low) in
  length asset = 32%nat /\ from_be (take 16 asset) = high /\ from_be (drop 16 asset) = low.
Proof.
  intros Hh Hl Ah Al. cbv zeta. pose proof (length_to_be 32 high) as Lh. pose proof (length_to_be 32 low) as Ll.
  rewrite length_app, !length_drop, Lh, Ll, take_app_length', drop_app_length' by (rewrite length_drop; lia).
  split; [done|]. split; symmetry; by apply word_tail; [lia|..].
Qed.

Lemma limbs_split asset : length asset = 32%nat ->
  let high := to_be 32 (from_be (take 16 asset)) in
  let low := to_be 32 (from_be (drop 16 asset)) in
  all_zero (take 16 high) = true /\ all_zero (take 16 low) = true /\ drop 16 high ++ drop 16 low = asset.
Proof.
  intros Hl. cbv zeta.
  rewrite !(word_of_tail 16) by (rewrite ?length_take, ?length_drop; lia).
  rewrite !take_app_length', !drop_app_length' by done. split; [done|]. split; [done|]. apply take_drop.
Qed.

Lemma not_all_zero l n : length l = n -> negb (all_zero l) = true <-> l <> zeros n.
Proof.
  intros <-. rewrite negb_true_iff. pose proof (all_zero_zeros l) as Hz. destruct (all_zero l); split; try done.
  - intros Hn. by destruct Hn; apply Hz.
  - intros _ Heq. by apply Hz in Heq.
Qed.

Lemma u32_context z n why : context (if z <=? u32_MAX then Some z else None) why = Ok n <-> n = z /\ z <= u32_MAX.
Proof. unfold context. destruct (Z.leb_spec z u32_MAX); split; [intros [= ->]|intros [-> _]|done|intros [-> ?]]; try done; lia. Qed.

Lemma parse_token_Ok fields w :
  parse_token_withdrawal fields = Ok w -> exists values, parsed fields values /\ withdrawal_params (Token w) values.
Proof.
  unfold parse_token_withdrawal. intros Hp. apply bind_Ok in Hp as ([] & Hw%ensure_Ok%Nat.eqb_eq & Hp). apply bind_Ok in Hp as (values & Hv%map_decimal & Hp).
  assert (Forall (fun v => 0 <= v < 2 ^ 256) values) as Hr.
  { apply list.Forall_forall. intros v (i & Hi)%list_elem_of_lookup.
    destruct (Forall2_lookup_r _ _ _ _ _ Hv Hi) as (f & _ & Hf). by eapply decimal_range. }
  exists values. split; [done|]. inv_ok. bool_props.
  destruct (fourteen values) as (a & b & c & d & e & o1 & o2 & o3 & o4 & o5 & o6 & x & y & z & ->);
    [by apply Forall2_length in Hv; congruence|].
  cbn in *. rewrite !Forall_cons in Hr. destruct Hr as (_ & Hb & Hc & Hd & He & _ & _ & _ & _ & _ & _ & _ & Hy & _).
  match goal with Hx : OuterWriter.context _ _ = Ok _ |- _ => apply u32_context in Hx as [-> Hu] end.
  destruct (limbs_join d e) as (La & Lh & Ll); [done..|].
  rewrite length_to_be, Lh, Ll, from_be_to_be_small, length_drop, length_to_be by done.
  assert (y = from_be (drop 12 (to_be 32 y))) as <- by by apply word_tail; [lia|..].
  unfold is_u32, u32_MAX, ERC20_ACTION_ENCODING_V2 in *.
  split_and!; try done; try lia.
  - apply not_all_zero; [by rewrite length_drop, length_to_be|]. by apply negb_true_iff.
  - exists [o1; o2; o3; o4; o5; o6]. by subst.
Qed.

Lemma parse_token_accepts fields w values :
  parsed fields values -> withdrawal_params (Token w) values -> parse_token_withdrawal fields = Ok w.
Proof.
  intros Hv (Hver & Hidx & Lc & Nc & La & Na & Lr & Nr & Ham & others & Lo & ->). unfold parse_token_withdrawal.
  rewrite (Forall2_length _ _ _ Hv). cbn [length app]. rewrite !length_app, Lo. rewrite ensure_true by done. cbn [mbind outcome_bind].
  rewrite (proj2 (map_decimal _ _) Hv). destruct others as [|o1 [|o2 [|o3 [|o4 [|o5 [|o6 [|? ?]]]]]]]; try done.
  cbn. destruct (limbs_split _ La) as (Ah & Al & Haj). rewrite Ah, Al, Haj, to_be_word by done.
  unfold is_u32, u32_MAX in *. rewrite (proj2 (Z.leb_le (at_registry_index w) _)) by lia. cbn.
  rewrite (word_of_tail 12) by lia. rewrite take_app_length', drop_app_length' by done.
  rewrite !ensure_true; [by destruct w; cbn in *; subst|..]; try done.
  - apply andb_true_iff. rewrite Z.ltb_lt, Z.leb_le. lia.
  - by apply (not_all_zero _ 20).
  - by rewrite bool_decide_false.
  - by rewrite bool_decide_false.
Qed.

End exact.

(** ** The rows of the archive and those of the settlement *)

Section matching.
Context `{Externals} `{!JsonObjects} `{Keccak} `{AlloyText} `{DecimalText}.

(** The archive's record of a withdrawal of a batch. *)
Definition same_withdrawal (resolved : resolution) (action : InnerActionWitnessV2) (archived : option ArchiveWithdrawal) : Prop :=
  match ia_withdrawal action, ia_token_withdrawal action, archived with
  | Some w, None, Some (Native w') => archived_native w' = w
  | None, Some w, Some (Token w') =>
    resolved_token resolved (token_withdrawal_identity w') = Some (tw_token w) /\
    tw_encoding_version w = at_encoding_version w' /\ tw_registry_index w = at_registry_index w' /\
    tw_record_commitment w = at_record_commitment w' /\ tw_asset_id w = at_asset_id w' /\
    tw_recipient w = at_recipient w' /\ tw_amount w = at_amount w'
  | None, None, None => True
  | _, _, _ => False
  end.

(** Action [i] of a batch that starts at [start]. *)
Definition archived_as (resolved : resolution) (start : Z) (i : nat) (action : InnerActionWitnessV2) (a : ArchiveInnerAction) : Prop :=
  aa_global_action_index a = start + Z.of_nat i /\ aa_fields a = ia_fields action /\
  same_withdrawal resolved action (aa_withdrawal a).

(** Two rows that differ in the text of their addresses only. *)
Definition same_row (a b : (Z * Z) * LeafRow) : Prop :=
  a.1 = b.1 /\
  lf_global_action_index a.2 = lf_global_action_index b.2 /\ lf_action_fields a.2 = lf_action_fields b.2 /\
  lf_action_fields_hash a.2 = lf_action_fields_hash b.2 /\ lf_leaf a.2 = lf_leaf b.2 /\
  (exists token, lf_token a.2 = hex <$> token /\ lf_token b.2 = address_to_string <$> token) /\
  lf_asset_id a.2 = lf_asset_id b.2 /\ lf_action_encoding_version a.2 = lf_action_encoding_version b.2 /\
  lf_registry_index a.2 = lf_registry_index b.2 /\ lf_record_commitment a.2 = lf_record_commitment b.2 /\
  (exists recipient, lf_recipient a.2 = hex <$> recipient /\ lf_recipient b.2 = address_to_string <$> recipient) /\
  lf_zeko_amount a.2 = lf_zeko_amount b.2 /\ lf_inner_action_root a.2 = lf_inner_action_root b.2 /\
  lf_commit_slot_upper a.2 = lf_commit_slot_upper b.2 /\ lf_block a.2 = lf_block b.2 /\
  lf_transaction_hash a.2 = lf_transaction_hash b.2 /\ lf_removed a.2 = lf_removed b.2.

(** The event of a settlement with that receipt. *)
Definition event_of (receipt : V2.SettlementPublicValuesV2) (block : Z * string) (hash : string) (row : settlement_row) : Prop :=
  row.1.1 = hash /\ se_block row.2 = block /\ se_slot_upper row.2 = V1.slot_upper (V2.settlement receipt).

Lemma erc20_leaf_params chain_id bridge index w token fields_hash leaf w' :
  tw_token w = token -> tw_encoding_version w = at_encoding_version w' -> tw_registry_index w = at_registry_index w' ->
  tw_record_commitment w = at_record_commitment w' -> tw_asset_id w = at_asset_id w' ->
  tw_recipient w = at_recipient w' -> tw_amount w = at_amount w' ->
  erc20_withdrawal_leaf (E := error) chain_id bridge index w fields_hash = Ok leaf ->
  erc20_withdrawal_leaf (E := error) chain_id bridge index (archived_token w' token) fields_hash = Ok leaf.
Proof.
  intros E1 E2 E3 E4 E5 E6 E7. unfold erc20_withdrawal_leaf, erc20_withdrawal_encoded, archived_token. cbn.
  by rewrite E1, E2, E3, E4, E5, E6, E7.
Qed.

Lemma leaf_entry_Ok receipt batch i action e :
  leaf_entry receipt batch (i, action) = Ok e ->
  exists fields_hash leaf,
    e = (i, V2.inner_action_start_index receipt + Z.of_nat i, action, fields_hash, leaf) /\
    action_fields_hash (E := error) (ia_fields action) = Ok fields_hash /\
    Z.of_nat i <= u32_MAX /\ V2.inner_action_start_index receipt + Z.of_nat i < 2 ^ 32 /\
    leaf_of_action receipt batch (V2.inner_action_start_index receipt + Z.of_nat i) action fields_hash = Ok leaf.
Proof.
  unfold leaf_entry. intros He. inv_ok. bool_props.
  repeat match goal with Hx : OuterWriter.context _ _ = Ok _ |- _ => apply context_Ok in Hx end.
  unfold checked_add_u32 in *. destruct (Z.ltb_spec (V2.inner_action_start_index receipt + Z.of_nat i) (2 ^ 32)); [|done].
  simplify_eq. by eexists _, _.
Qed.

Lemma leaf_row_Ok receipt block hash offset index action fields_hash leaf row :
  leaf_row receipt block hash (offset, index, action, fields_hash, leaf) = Ok row ->
  exists f, row = ((V1.batch_sequence (V2.settlement receipt), Z.of_nat offset), f) /\
    withdrawal_columns action = Ok (row_columns f) /\ V1.batch_sequence (V2.settlement receipt) < 2 ^ 63 /\
    Z.of_nat offset < 2 ^ 31 /\
    lf_global_action_index f = index /\ lf_action_fields f = fields_value (ia_fields action) /\
    lf_action_fields_hash f = hex fields_hash /\ lf_leaf f = hex leaf /\
    lf_inner_action_root f = hex (V2.inner_action_root receipt) /\
    lf_commit_slot_upper f = V1.slot_upper (V2.settlement receipt) /\ lf_block f = block /\
    lf_transaction_hash f = hash /\ lf_removed f = false.
Proof.
  unfold leaf_row, to_i64. intros ([[[[[[token asset] version] ri] rc] recipient] amount] & Hcols & Hr)%bind_Ok.
  destruct (Z.ltb_spec (V1.batch_sequence (V2.settlement receipt)) (2 ^ 63)); [|done].
  inv_ok. destruct (block.1 <? 2 ^ 63); [|done]. inv_ok. bool_props.
  eexists. split; [reflexivity|]. cbn. destruct block. by split_and!.
Qed.

(** The leaf and the columns of an archived action are those of the batch. *)
Lemma archived_leaf resolved receipt batch start i action a fields_hash leaf cols :
  archived_as resolved start i action a ->
  leaf_of_action receipt batch (start + Z.of_nat i) action fields_hash = Ok leaf ->
  withdrawal_columns action = Ok cols ->
  let '(token, asset_id, version, ri, rc, recipient, amount) := cols in
  exists token_bytes recipient_bytes,
    match aa_withdrawal a with
    | Some (Token w) => resolved_token resolved (token_withdrawal_identity w) = token_bytes /\ is_Some token_bytes
    | _ => token_bytes = None
    end /\
    archive_action_leaf (V1.chain_id (V2.settlement receipt)) (ib_bridge_address batch) (start + Z.of_nat i) fields_hash
      (aa_withdrawal a) token_bytes = Ok leaf /\
    token = hex <$> token_bytes /\ recipient = hex <$> recipient_bytes /\
    archive_columns (aa_withdrawal a) token_bytes =
      Ok (address_to_string <$> token_bytes, asset_id, version, ri, rc, address_to_string <$> recipient_bytes, amount).
Proof.
  intros (_ & _ & Hw) Hl Hc. unfold same_withdrawal, leaf_of_action, withdrawal_columns in *.
  destruct (ia_withdrawal action) as [w|], (ia_token_withdrawal action) as [w'|], (aa_withdrawal a) as [[n|t]|]; try done.
  - inv_ok. exists None, (Some (an_recipient n)). done.
  - destruct Hw as (Ht & E1 & E2 & E3 & E4 & E5 & E6). inv_ok. exists (Some (tw_token w')), (Some (at_recipient t)).
    split; [by split; [|eexists]|]. cbn [archive_action_leaf]. split; [by eapply erc20_leaf_params|].
    unfold erc20_withdrawal_leaf in Hl. inv_ok. bool_props. unfold ERC20_ACTION_ENCODING_V2 in *.
    split; [done|]. split; [by rewrite E5|]. cbn. unfold ensure in *.
    rewrite <- E1, <- E2, <- E3, <- E4, <- E6. repeat case_match; simplify_eq; try done. all: lia.
  - inv_ok. by exists None, None.
Qed.

(** One action: the same hash and leaf, and rows that differ in the text of
    the addresses. *)
Lemma entry_matches resolved receipt batch block hash settlement i action a e row :
  leaf_entry receipt batch (i, action) = Ok e -> leaf_row receipt block hash e = Ok row ->
  event_of receipt block hash settlement ->
  archived_as resolved (V2.inner_action_start_index receipt) i action a ->
  exists e' row',
    recovered_entry (V1.chain_id (V2.settlement receipt)) (ib_bridge_address batch) resolved
      (V2.inner_action_start_index receipt) (i, a) = Ok e' /\
    e'.1.2 = e.2 /\
    recovered_row settlement (V1.batch_sequence (V2.settlement receipt)) (V2.inner_action_root receipt) e' = Ok row' /\
    same_row row row'.
Proof.
  intros (fields_hash & leaf & -> & Hfh & Hi & Hu & Hleaf)%leaf_entry_Ok Hr (Hh & Hb & Hs) Ha.
  apply leaf_row_Ok in Hr as (f & -> & Hcols & Hseq & Hoff & Hg & Hfs & Hfsh & Hlf & Hrt & Hsl & Hbl & Hth & Hrm).
  pose proof (archived_leaf _ _ _ _ _ _ _ _ _ _ Ha Hleaf Hcols) as Hal. unfold row_columns in Hal.
  destruct Hal as (token & recipient & Htok & Hleaf' & Et & Er & Hcols'). destruct Ha as (Hag & Haf & _).
  unfold recovered_entry. rewrite Haf, Hag. unfold checked_add_u32. rewrite (proj2 (Z.ltb_lt _ _) Hu).
  rewrite ensure_true by by apply Z.leb_le. cbn [OuterWriter.context mbind outcome_bind].
  rewrite ensure_true by apply Z.eqb_refl. cbn [mbind outcome_bind]. rewrite Hfh. cbn [mbind outcome_bind].
  exists (i, a, fields_hash, leaf, token). eexists. split_and!; [|done| |].
  - destruct (aa_withdrawal a) as [[n|w]|]; [subst token; cbn [mret outcome_ret mbind outcome_bind]; by rewrite Hleaf'| |subst token; cbn [mret outcome_ret mbind outcome_bind]; by rewrite Hleaf'].
    destruct Htok as [-> [tk ->]]. cbn [OuterWriter.context fmap outcome_fmap mbind outcome_bind]. by rewrite Hleaf'.
  - unfold recovered_row. rewrite Hcols'. cbn [mbind outcome_bind]. unfold to_i64. rewrite (proj2 (Z.ltb_lt _ _) Hseq).
    cbn [mbind outcome_bind]. rewrite ensure_true by by apply Z.ltb_lt. reflexivity.
  - unfold same_row. cbn. rewrite Hag, Haf. split_and!; try done; try congruence; by eexists.
Qed.

Lemma Forall2_choice {A B} (R : A -> B -> Prop) l :
  (forall a, a ∈ l -> exists b, R a b) -> exists k, Forall2 R l k.
Proof.
  induction l as [|a l IH]; intros Hl; [by exists []|].
  destruct (Hl a) as [b Hb]; [left|]. destruct IH as [k Hk]; [intros; apply Hl; by right|]. exists (b :: k). by constructor.
Qed.

(** A whole batch: when the archive has the actions of a confirmed settlement,
    its rows are those the settlement stored. *)
Lemma rows_match input receipt block hash rows batch resolved view settlement acts :
  leaf_rows input receipt block hash = Ok rows ->
  pointer input "/proof/innerActionBatch" ≫= parse_inner_action_batch = Some batch ->
  event_of receipt block hash settlement ->
  av_bridge_address view = V2.bridge_address receipt -> length acts = length (ib_actions batch) ->
  (forall i action a, ib_actions batch !! i = Some action -> acts !! i = Some a ->
     archived_as resolved (V2.inner_action_start_index receipt) i action a) ->
  exists entries rows',
    recovered_entries view resolved (V2.inner_action_start_index receipt) acts (V1.chain_id (V2.settlement receipt))
      (V2.inner_action_root receipt) = Ok entries /\
    map_ok (recovered_row settlement (V1.batch_sequence (V2.settlement receipt)) (V2.inner_action_root receipt)) entries = Ok rows' /\
    Forall2 same_row rows rows'.
Proof.
  unfold leaf_rows. intros (batch' & Hb%context_Ok & Hr)%bind_Ok Hp Hev Haddr Hlen Hall.
  rewrite Hp in Hb. injection Hb as <-.
  apply bind_Ok in Hr as ([] & Ha%ensure_Ok & Hr). apply bind_Ok in Hr as ([] & _ & Hr).
  apply bind_Ok in Hr as (es & He%map_ok_Ok & Hr). apply bind_Ok in Hr as (computed & Hroot & Hr).
  apply bind_Ok in Hr as ([] & Hcr%ensure_Ok & Hr%map_ok_Ok). bool_props. subst computed.
  set (R := fun (ia : nat * ArchiveInnerAction) (er : archive_entry * ((Z * Z) * LeafRow)) =>
    recovered_entry (V1.chain_id (V2.settlement receipt)) (ib_bridge_address batch) resolved
      (V2.inner_action_start_index receipt) ia = Ok er.1 /\
    recovered_row settlement (V1.batch_sequence (V2.settlement receipt)) (V2.inner_action_root receipt) er.1 = Ok er.2 /\
    exists e row, es !! ia.1 = Some e /\ rows !! ia.1 = Some row /\ er.1.1.2 = e.2 /\ same_row row er.2).
  destruct (Forall2_choice R (imap pair acts)) as [ers Hers].
  { intros ia (i & Hi)%list_elem_of_lookup. rewrite list_lookup_imap in Hi. destruct (acts !! i) as [a|] eqn:Hai; [|done].
    injection Hi as <-. destruct (lookup_lt_is_Some_2 (ib_actions batch) i) as [action Hact]; [rewrite <- Hlen; by eapply lookup_lt_Some|].
    assert (imap pair (ib_actions batch) !! i = Some (i, action)) as Hpi by (by rewrite list_lookup_imap, Hact).
    destruct (Forall2_lookup_l _ _ _ _ _ He Hpi) as (e & Hei & Hentry).
    destruct (Forall2_lookup_l _ _ _ _ _ Hr Hei) as (row & Hri & Hrow).
    destruct (entry_matches resolved receipt batch block hash settlement i action a e row Hentry Hrow Hev ltac:(by apply Hall))
      as (e' & row' & H1' & H2' & H3' & H4').
    exists (e', row'). split; [done|]. split; [done|]. by exists e, row. }
  pose proof (Forall2_length _ _ _ Hers) as Hl1. rewrite length_imap in Hl1.
  pose proof (Forall2_length _ _ _ He) as Hl2. rewrite length_imap in Hl2. pose proof (Forall2_length _ _ _ Hr) as Hl3.
  assert (forall i er, ers !! i = Some er -> exists e row, es !! i = Some e /\ rows !! i = Some row /\ er.1.1.2 = e.2 /\ same_row row er.2)
    as Hat.
  { intros i er Hi. destruct (Forall2_lookup_r _ _ _ _ _ Hers Hi) as (ia & Hia & _ & _ & e & row & Hx).
    rewrite list_lookup_imap in Hia. destruct (acts !! i); [|done]. injection Hia as <-. by exists e, row. }
  exists ers.*1, ers.*2. split_and!.
  - unfold recovered_entries. rewrite Haddr, <- Ha.
    rewrite (proj2 (map_ok_Ok _ _ ers.*1)).
    2: { apply Forall2_fmap_r. eapply Forall2_impl; [exact Hers|]. by intros ia er (Hx & _). }
    cbn [mbind outcome_bind].
    assert (map (fun e : archive_entry => e.1.2) ers.*1 = map snd es) as ->.
    { apply list_eq. intros i. change map with (@fmap list _). rewrite <- list_fmap_compose, !list_lookup_fmap.
      destruct (ers !! i) as [er|] eqn:Hi.
      - destruct (Hat i er Hi) as (e & row & -> & _ & Heq & _). cbn. by rewrite Heq.
      - apply lookup_ge_None in Hi. rewrite (lookup_ge_None_2 es); [done|lia]. }
    rewrite Hroot. cbn [mbind outcome_bind]. by rewrite ensure_true by by apply bool_decide_eq_true.
  - apply map_ok_Ok. apply Forall2_fmap. apply Forall_Forall2_diag. apply list.Forall_forall.
    intros er (i & Hi)%list_elem_of_lookup. destruct (Forall2_lookup_r _ _ _ _ _ Hers Hi) as (ia & _ & _ & Hx & _). exact Hx.
  - apply Forall2_fmap_r. apply Forall2_same_length_lookup. split; [lia|]. intros i row er Hri Hi.
    destruct (Hat i er Hi) as (_ & row' & _ & Hri' & _ & Hs). assert (row = row') as -> by congruence. exact Hs.
Qed.

End matching.

(** ** Restored batches are served *)

Section served.
Context `{Externals} `{!JsonObjects} `{Keccak} `{AlloyText} `{DecimalText}.

Lemma recovered_entry_Ok chain_id bridge resolved start i a e :
  recovered_entry chain_id bridge resolved start (i, a) = Ok e ->
  exists fields_hash leaf token, e = (i, a, fields_hash, leaf, token) /\
    aa_global_action_index a = start + Z.of_nat i /\ start + Z.of_nat i < 2 ^ 32 /\
    action_fields_hash (E := error) (aa_fields a) = Ok fields_hash /\
    (forall t, token = Some t -> exists w, aa_withdrawal a = Some (Token w) /\
       resolved_token resolved (token_withdrawal_identity w) = Some t) /\
    archive_action_leaf chain_id bridge (start + Z.of_nat i) fields_hash (aa_withdrawal a) token = Ok leaf.
Proof.
  unfold recovered_entry. intros He. inv_ok. bool_props.
  match goal with Hx : OuterWriter.context (checked_add_u32 _ _) _ = Ok _ |- _ => apply context_Ok in Hx; rename Hx into Hadd end.
  unfold checked_add_u32 in Hadd. destruct (Z.ltb_spec (start + Z.of_nat i) (2 ^ 32)); [|done]. simplify_eq.
  match goal with Hx : archive_action_leaf _ _ _ _ _ _ = Ok _ |- _ => rewrite <- Hadd in Hx end.
  eexists _, _, _. split_and!; try done. intros t ->.
  destruct (aa_withdrawal a) as [[n|w]|]; try done. exists w. split; [done|].
  match goal with Hx : _ = Ok (Some t) |- _ => revert Hx end. unfold OuterWriter.context.
  destruct (resolved_token _ _); cbn; congruence.
Qed.

(** The entries of a batch: one for each action, whose leaves hash to the
    root. *)
Lemma recovered_entries_Ok view resolved start acts chain_id committed entries :
  recovered_entries view resolved start acts chain_id committed = Ok entries ->
  length entries = length acts /\
  InnerActionTree.root (E := error) (map (fun e : archive_entry => e.1.2) entries) = Ok committed /\
  forall i a, acts !! i = Some a -> exists e, entries !! i = Some e /\
    recovered_entry chain_id (av_bridge_address view) resolved start (i, a) = Ok e.
Proof.
  unfold recovered_entries. intros (es & He%map_ok_Ok & Hr)%bind_Ok. apply bind_Ok in Hr as (computed & Hroot & Hr).
  apply bind_Ok in Hr as ([] & Hc%ensure_Ok & [= <-]). bool_props. subst computed. split_and!; [|done|].
  - apply Forall2_length in He. by rewrite length_imap in He.
  - intros i a Hi. assert (imap pair acts !! i = Some (i, a)) as Hp by (by rewrite list_lookup_imap, Hi).
    destruct (Forall2_lookup_l _ _ _ _ _ He Hp) as (e & Hei & Hentry). by exists e.
Qed.

Lemma recovered_row_Ok settlement sequence committed i a fields_hash leaf token row :
  recovered_row settlement sequence committed (i, a, fields_hash, leaf, token) = Ok row ->
  exists f, row = ((sequence, Z.of_nat i), f) /\ sequence < 2 ^ 63 /\
    archive_columns (aa_withdrawal a) token = Ok (row_columns f) /\
    lf_global_action_index f = aa_global_action_index a /\ lf_action_fields_hash f = hex fields_hash /\
    lf_leaf f = hex leaf /\ lf_inner_action_root f = hex committed /\
    lf_commit_slot_upper f = se_slot_upper settlement.2 /\ lf_removed f = false.
Proof.
  unfold recovered_row, to_i64. intros ([[[[[[tk asset] version] ri] rc] recipient] amount] & Hcols & Hr)%bind_Ok.
  destruct (Z.ltb_spec sequence (2 ^ 63)); [|done]. inv_ok. eexists. split; [reflexivity|]. by split_and!.
Qed.

(** A committed batch. *)
Lemma recover_batch_Ok view between n sequence start acts chain_id settlement root_text now l l' :
  recover_batch view between n sequence start acts chain_id settlement root_text now l = (Ok tt, l') ->
  exists committed resolved entries rows,
    parse_hex_bytes32 root_text = Ok committed /\
    av_resolve view n (unique_token_withdrawal_identities (omap token_of acts)) = Ok resolved /\
    recovered_entries view resolved start acts chain_id committed = Ok entries /\
    map_ok (recovered_row settlement sequence committed) entries = Ok rows /\
    leaves l' = insert_rows (leaves (between n l)) rows.
Proof.
  unfold recover_batch. destruct (_ ≫= _) as [[committed entries]|e|why] eqn:Hr; [|done..].
  apply bind_Ok in Hr as (c & Hroot & Hr). apply bind_Ok in Hr as (resolved & Hres & Hr).
  apply bind_Ok in Hr as (es & Hes & [= -> ->]). unfold commit.
  destruct (_ ≫= _) as [[[] l1]|e|why] eqn:Ht; [|done..]. intros [= <-].
  apply ltx_bind_Ok in Ht as (rows & l2 & [Hrows ->]%try_lift_Ok & [= <-]).
  exists committed, resolved, entries, rows. by split_and!.
Qed.

Lemma archive_action_leaf_length chain_id bridge index fields_hash w token leaf :
  archive_action_leaf chain_id bridge index fields_hash w token = Ok leaf -> length leaf = 32%nat.
Proof.
  unfold archive_action_leaf. intros Hl. destruct w as [[n|t]|], token as [k|]; inv_ok; try apply keccak256_length; try done.
  unfold erc20_withdrawal_leaf in Hl. inv_ok. apply keccak256_length.
Qed.

(** What is stored for action [i] of a restored batch. *)
Definition restored_row (chain_id : Z) (bridge : bytes) (resolved : resolution) (start : Z) (i : nat) (a : ArchiveInnerAction)
    (f : LeafRow) (leaf : bytes) : Prop :=
  exists fields_hash token,
    aa_global_action_index a = start + Z.of_nat i /\ start + Z.of_nat i < 2 ^ 32 /\
    action_fields_hash (E := error) (aa_fields a) = Ok fields_hash /\
    (forall t, token = Some t -> exists w, aa_withdrawal a = Some (Token w) /\
       resolved_token resolved (token_withdrawal_identity w) = Some t) /\
    archive_action_leaf chain_id bridge (start + Z.of_nat i) fields_hash (aa_withdrawal a) token = Ok leaf /\
    archive_columns (aa_withdrawal a) token = Ok (row_columns f) /\ lf_action_fields_hash f = hex fields_hash.

Hypothesis parse_hex : forall b, length b = 32%nat -> parse_b256 (hex b) = Some b.

(** The rows of a restored batch, and what they hold. *)
Lemma restored_rows view resolved start acts chain_id committed entries settlement sequence rows :
  recovered_entries view resolved start acts chain_id committed = Ok entries ->
  map_ok (recovered_row settlement sequence committed) entries = Ok rows -> 0 <= start ->
  length rows = length acts /\
  forall i a, acts !! i = Some a -> exists f leaf,
    rows !! i = Some ((sequence, Z.of_nat i), f) /\ map (fun e : archive_entry => e.1.2) entries !! i = Some leaf /\
    restored_row chain_id (av_bridge_address view) resolved start i a f leaf /\ lf_removed f = false /\
    sequence < 2 ^ 63 /\ lf_global_action_index f = start + Z.of_nat i /\ lf_leaf f = hex leaf /\ length leaf = 32%nat /\
    lf_inner_action_root f = hex committed /\ lf_commit_slot_upper f = se_slot_upper settlement.2.
Proof.
  intros (Hl & _ & He)%recovered_entries_Ok Hr%map_ok_Ok Hs. split; [by rewrite <- (Forall2_length _ _ _ Hr)|].
  intros i a Hi. destruct (He i a Hi) as (e & Hei & (fields_hash & leaf & token & -> & Hg & Hu & Hfh & Ht & Hleaf)%recovered_entry_Ok).
  destruct (Forall2_lookup_l _ _ _ _ _ Hr Hei) as (row & Hri & (f & -> & Hseq & Hcols & Hgf & Hff & Hlf & Hrt & Hsl & Hrm)%recovered_row_Ok).
  exists f, leaf. split_and!; try done; try congruence.
  - change map with (@fmap list _). by rewrite list_lookup_fmap, Hei.
  - by exists fields_hash, token.
  - by eapply archive_action_leaf_length.
Qed.

Lemma restored_batch view resolved start acts chain_id committed entries settlement sequence rows l l' :
  recovered_entries view resolved start acts chain_id committed = Ok entries ->
  map_ok (recovered_row settlement sequence committed) entries = Ok rows ->
  0 <= start -> acts <> [] -> length committed = 32%nat -> is_u32 (se_slot_upper settlement.2) ->
  (forall offset f, leaves l !! (sequence, offset) = Some f -> lf_removed f = true) ->
  leaves l' = insert_rows (leaves l) rows ->
  let lvs := map (fun e : archive_entry => e.1.2) entries in
  sequence < 2 ^ 63 /\
  batch_of (batch_rows sequence l') start (se_slot_upper settlement.2) committed lvs /\
  forall i a, acts !! i = Some a -> exists f leaf,
    batch_rows sequence l' !! i = Some (Z.of_nat i, f) /\ lvs !! i = Some leaf /\
    restored_row chain_id (av_bridge_address view) resolved start i a f leaf.
Proof.
  intros He Hr Hs Hne Hlc Hslot Hold Hl lvs. destruct (restored_rows _ _ _ _ _ _ _ _ _ _ He Hr Hs) as (Hlen & Hrow).
  apply recovered_entries_Ok in He as (Hle & Hroot & _).
  assert (forall i row, rows !! i = Some row -> exists a, acts !! i = Some a) as Hact.
  { intros i row Hi. apply lookup_lt_is_Some_2. rewrite <- Hlen. by eapply lookup_lt_Some. }
  assert (batch_rows sequence l' = with_offsets 0 rows) as Hbr.
  { apply (insert_batch _ _ l); [|done..]. intros i row Hi. destruct (Hact i row Hi) as [a Ha].
    destruct (Hrow i a Ha) as (f & leaf & Hri & _ & _ & Hrm & _). rewrite Hi in Hri. by injection Hri as ->. }
  destruct acts as [|a0 acts'] eqn:Hacts; [done|]. rewrite <- Hacts in *. clear Hne.
  assert (0 < length acts)%nat as Hpos by (rewrite Hacts; cbn; lia).
  split_and!.
  - destruct (Hrow 0%nat a0) as (f & leaf & _ & _ & _ & _ & Hseq & _); [by rewrite Hacts|done].
  - rewrite Hbr. unfold batch_of, with_offsets. rewrite length_imap, Hlen.
    assert (Z.of_nat (length lvs) <= MAX_LEAVES) as Hmax.
    { unfold InnerActionTree.root in Hroot. apply bind_Ok in Hroot as ([] & Hm%assert_Ok & _). by apply Z.leb_le in Hm. }
    assert (length lvs = length acts) as Hll by (unfold lvs; by rewrite length_map).
    split_and!; [done|lia| |].
    + apply Forall2_same_length_lookup. split; [rewrite !length_imap; congruence|].
      intros i ie leaf Hi Hli. rewrite !list_lookup_imap in Hi. destruct (rows !! i) as [row|] eqn:Hri; [|done].
      cbn in Hi. injection Hi as <-. destruct (Hact i row Hri) as [a Ha].
      destruct (Hrow i a Ha) as (f & leaf' & Hri' & Hli' & (fh & tk & _ & Hu & _) & _ & _ & Hg & Hlf & Hlleaf & Hrt & Hsl).
      fold lvs in Hli'. rewrite Hri in Hri'. injection Hri' as ->. rewrite Hli in Hli'. injection Hli' as <-.
      unfold row_at. cbn. unfold is_u32 in *. rewrite Hlf, Hrt, Hsl, !parse_hex by done. split_and!; try done; lia.
    + pose proof (root_ok_eq (E := error) lvs Hmax) as Hsub. rewrite (root_ok_eq (E := Empty_set) lvs Hmax).
      unfold lvs in *. congruence.
  - intros i a Ha. destruct (Hrow i a Ha) as (f & leaf & Hri & Hli & Hst & _). exists f, leaf.
    split_and!; [|done..]. rewrite Hbr. unfold with_offsets. by rewrite list_lookup_imap, Hri.
Qed.

Definition in_batch (start end_ : Z) (acts : list ArchiveInnerAction) : list ArchiveInnerAction :=
  filter (fun a => start <= aa_global_action_index a < end_) acts.

(** The batch of a settlement as it is served. *)
Definition restored (view : ArchiveView) (chain_id : Z) (sequence start slot : Z) (committed : bytes)
    (batch : list ArchiveInnerAction) (l : Ledger) : Prop :=
  exists lvs resolved,
    (exists n, av_resolve view n (unique_token_withdrawal_identities (omap token_of batch)) = Ok resolved) /\
    0 <= sequence < 2 ^ 63 /\ batch_of (batch_rows sequence l) start slot committed lvs /\
    forall i a, batch !! i = Some a -> exists f leaf,
      batch_rows sequence l !! i = Some (Z.of_nat i, f) /\ lvs !! i = Some leaf /\
      restored_row chain_id (av_bridge_address view) resolved start i a f leaf.

Lemma settlement_range_Ok row sequence root_text start count end_ :
  settlement_range row = Ok (sequence, root_text, start, count, end_) ->
  sequence = se_batch_sequence row.2 /\ 0 <= sequence /\ is_u32 start /\ end_ = start + count /\
  exists slot, se_inner_batch row.2 = Some (root_text, start, count, slot).
Proof.
  unfold settlement_range. intros ([[[r s] c] slot] & Hb%context_Ok & Hr)%bind_Ok.
  apply bind_Ok in Hr as (q & Hq & Hr). destruct (Z.leb_spec 0 (se_batch_sequence row.2)); [|done]. injection Hq as <-.
  apply bind_Ok in Hr as (s' & [-> Hs]%to_u32_Ok & Hr). apply bind_Ok in Hr as (c' & [-> Hc]%to_u32_Ok & Hr).
  apply bind_Ok in Hr as (e & He%context_Ok & [= <- <- <- <- <-]). unfold checked_add_u32 in He.
  case_match; simplify_eq. split_and!; try done. by eexists.
Qed.

(** Leaves of other sequences are not touched. *)
Lemma insert_rows_frame (settlement : settlement_row) (sequence : Z) (committed : bytes) (entries : list archive_entry) (rows : list ((Z * Z) * LeafRow)) (m : gmap (Z * Z) LeafRow)
    (other offset : Z) :
  map_ok (recovered_row settlement sequence committed) entries = Ok rows -> other <> sequence ->
  insert_rows m rows !! (other, offset) = m !! (other, offset).
Proof.
  intros Hr%map_ok_Ok Hne. apply insert_rows_out. intros (row & Hk & (i & Hi)%list_elem_of_lookup)%list_elem_of_fmap.
  destruct (Forall2_lookup_r _ _ _ _ _ Hr Hi) as ([[[[o a] fh] leaf] token] & _ & (f & -> & _)%recovered_row_Ok).
  cbn in Hk. congruence.
Qed.

Section loop.
Context (view : ArchiveView) (between : nat -> Ledger -> Ledger) (acts : list ArchiveInnerAction) (chain_id now : Z).
Hypothesis between_leaves : forall n l, leaves (between n l) = leaves l.

Lemma recover_settlements_frame settlements n l l' other offset :
  recover_settlements view between n acts chain_id settlements now l = (Ok tt, l') ->
  other ∉ map (fun row : settlement_row => se_batch_sequence row.2) settlements ->
  leaves l' !! (other, offset) = leaves l !! (other, offset).
Proof.
  revert n l. induction settlements as [|row settlements IH]; intros n l Hr Hn; cbn in Hr; [by injection Hr as ->|].
  cbn in Hn. destruct (settlement_range row) as [[[[[s r] st] c] en]| |] eqn:Hrange; try done.
  apply settlement_range_Ok in Hrange as (-> & _). rewrite not_elem_of_cons in Hn. destruct Hn as [Hne Hn].
  destruct (negb _); [by eapply IH|].
  destruct (recover_batch _ _ _ _ _ _ _ _ _ _ _) as [[[]| |] l1] eqn:Hb; try done.
  rewrite (IH _ _ Hr Hn). apply recover_batch_Ok in Hb as (c0 & res & es & rows & _ & _ & _ & Hrows & ->).
  rewrite between_leaves. by eapply insert_rows_frame.
Qed.

(** Every settlement whose actions the archive has is restored. *)
Lemma recover_settlements_restores settlements n l l' :
  recover_settlements view between n acts chain_id settlements now l = (Ok tt, l') ->
  NoDup (map (fun row : settlement_row => se_batch_sequence row.2) settlements) ->
  (forall row, row ∈ settlements -> awaiting_leaves l row = true) ->
  forall row sequence root_text start count end_, row ∈ settlements ->
    settlement_range row = Ok (sequence, root_text, start, count, end_) ->
    Z.of_nat (length (in_batch start end_ acts)) = count -> is_u32 (se_slot_upper row.2) ->
    exists committed, parse_hex_bytes32 root_text = Ok committed /\
      restored view chain_id sequence start (se_slot_upper row.2) committed (in_batch start end_ acts) l'.
Proof.
  revert n l. induction settlements as [|row0 settlements IH]; intros n l Hr Hnd Haw row sequence root_text start count end_ Hin Hrange Hcount Hslot;
    [by apply not_elem_of_nil in Hin|].
  cbn in Hr, Hnd. apply NoDup_cons in Hnd as [Hfresh Hnd].
  assert (forall row', row' ∈ settlements -> awaiting_leaves l row' = true) as Haw' by (intros; apply Haw; by right).
  apply elem_of_cons in Hin as [->|Hin].
  - rewrite Hrange in Hr. fold (in_batch start end_ acts) in Hr. rewrite (proj2 (Z.eqb_eq _ _) Hcount) in Hr. cbn in Hr.
    apply settlement_range_Ok in Hrange as (-> & Hs0 & Hst & _ & slot & Hib).
    destruct (recover_batch _ _ _ _ _ _ _ _ _ _ _) as [[[]| |] l1] eqn:Hb; try done.
    apply recover_batch_Ok in Hb as (committed & res & es & rows & Hroot & Hres & Hes & Hrows & Hl1).
    exists committed. split; [done|]. specialize (Haw row0 ltac:(by left)). unfold awaiting_leaves in Haw.
    rewrite Hib in Haw. cbn in Haw. bool_props.
    destruct (restored_batch _ _ _ _ _ _ _ _ _ _ l l1 Hes Hrows) as (Hseq & Hbatch & Hpos); try done.
    + apply Hst.
    + intros He. rewrite He in Hcount. cbn in Hcount. lia.
    + unfold parse_hex_bytes32 in Hroot. inv_ok. by bool_props.
    + intros offset f Hf. unfold has_live_leaf in *. destruct (lf_removed f) eqn:Hrm; [done|]. bool_props. exfalso.
      match goal with Hx : ~ Exists _ _ |- _ => apply Hx end. apply Exists_exists. exists ((se_batch_sequence row0.2, offset), f).
      by rewrite elem_of_map_to_list.
    + by rewrite Hl1, between_leaves.
    + exists (map (fun e : archive_entry => e.1.2) es), res.
      assert (batch_rows (se_batch_sequence row0.2) l' = batch_rows (se_batch_sequence row0.2) l1) as ->.
      { apply batch_rows_ext. intros offset. by eapply recover_settlements_frame. }
      split; [by eexists|]. by split_and!.
  - destruct (settlement_range row0) as [[[[[s r] st] c] en]| |] eqn:Hrange0; try done.
    apply settlement_range_Ok in Hrange0 as (-> & _).
    destruct (negb _); [by eapply IH|].
    destruct (recover_batch _ _ _ _ _ _ _ _ _ _ _) as [[[]| |] l1] eqn:Hb; try done.
    eapply IH; try done. intros row' Hrow'. specialize (Haw' row' Hrow').
    apply recover_batch_Ok in Hb as (c0 & res & es & rows & _ & _ & _ & Hrows & Hl1).
    revert Haw'. unfold awaiting_leaves. rewrite !andb_true_iff, !negb_true_iff. intros [[? ?] Hno]. split_and!; [done..|].
    unfold has_live_leaf in *. bool_props. apply bool_decide_eq_false. intros ([[s' o] f] & Hf & Hs' & Hrm)%Exists_exists.
    cbn in Hs'. subst s'. match goal with Hx : ~ Exists _ _ |- _ => apply Hx end. apply Exists_exists.
    exists ((se_batch_sequence row'.2, o), f). split; [|done]. apply elem_of_map_to_list. apply elem_of_map_to_list in Hf.
    rewrite Hl1, (insert_rows_frame _ _ _ _ _ _ _ _ Hrows), between_leaves in Hf; [done|].
    intros Heq. apply Hfresh. rewrite <- Heq. change map with (@fmap list _). apply list_elem_of_fmap. by exists row'.
Qed.

End loop.

End served.

(** ** What a run restores *)

Section run.
Context `{Externals} `{!JsonObjects} `{Keccak} `{AlloyText} `{DecimalText}.
Hypothesis parse_hex : forall b, length b = 32%nat -> parse_b256 (hex b) = Some b.
Hypothesis parse_printed : forall b, length b = 20%nat -> parse_address (address_to_string b) = Some b.
Hypothesis decimal_range : forall s z, u256_from_decimal s = Some z -> 0 <= z < 2 ^ 256.

(** The withdrawals of the archive have their types. *)
Lemma loaded_withdrawal archive inner_public_key acts a w :
  load_archive_inner_actions archive inner_public_key = Ok acts -> a ∈ acts -> aa_withdrawal a = Some w ->
  exists values, withdrawal_params w values.
Proof.
  unfold load_archive_inner_actions. intros (items & _ & Hl%map_ok_Ok)%bind_Ok (i & Hi)%list_elem_of_lookup Hw.
  destruct (Forall2_lookup_r _ _ _ _ _ Hl Hi) as ([index item] & _ & Ha). unfold archive_action in Ha. inv_ok. cbn in Hw. subst.
  destruct (withdrawal_fields items item) as [fields|]; [|discriminate]. inv_ok.
  match goal with Hx : parse_withdrawal fields = Ok _ |- _ => rename Hx into Hp end. unfold parse_withdrawal in Hp.
  destruct (length fields =? 3)%nat; inv_ok; simplify_eq.
  - match goal with Hx : parse_native_withdrawal _ = Ok _ |- _ => apply (parse_native_exact decimal_range) in Hx as (v & _ & Hv); by exists v end.
  - match goal with Hx : parse_token_withdrawal _ = Ok _ |- _ => apply (parse_token_Ok decimal_range) in Hx as (v & _ & Hv); by exists v end.
Qed.

Lemma elem_of_awaiting l row : row ∈ awaiting_settlements l -> awaiting_leaves l row = true.
Proof. unfold awaiting_settlements. rewrite merge_sort_Permutation. by intros [Ha _]%list_elem_of_filter. Qed.

Lemma run_restores view between now archive key acts chain_id l l' row sequence root_text start count end_ :
  (forall n l, leaves (between n l) = leaves l) ->
  av_archive view = Some archive -> av_inner_public_key view = Some key ->
  load_archive_inner_actions archive key = Ok acts -> av_chain_id view = Ok chain_id ->
  NoDup (map (fun row : settlement_row => se_batch_sequence row.2) (awaiting_settlements l)) ->
  recover_settled_inner_actions view between now l = (Ok tt, l') ->
  row ∈ awaiting_settlements l -> settlement_range row = Ok (sequence, root_text, start, count, end_) ->
  Z.of_nat (length (in_batch start end_ acts)) = count -> is_u32 (se_slot_upper row.2) ->
  exists committed, parse_hex_bytes32 root_text = Ok committed /\
    restored view chain_id sequence start (se_slot_upper row.2) committed (in_batch start end_ acts) l'.
Proof.
  intros Hb Ha Hk Hl Hc Hnd Hr Hin Hrange Hcount Hslot. unfold recover_settled_inner_actions in Hr.
  rewrite Ha, Hk, Hl, Hc in Hr. cbn in Hr.
  eapply recover_settlements_restores; try done. apply elem_of_awaiting.
Qed.

(** What is served for action [i] of a restored batch. *)
Definition claimable (contracts : Contracts) (l : Ledger) (resolved : resolution) (sequence : Z) (i : nat) (p : InnerActionBatchProof)
    (a : ArchiveInnerAction) (current delay : Z) : Prop :=
  match aa_withdrawal a with
  | Some (Native w) =>
    load_native_withdrawal_proof_at contracts l sequence (Z.of_nat i) current delay =
    (cursor ← next_withdrawal_index contracts (an_recipient w);
     mret (withdrawal_answer p sequence (Z.of_nat i) current delay cursor (address_to_string (an_recipient w))
             (i64_to_string (an_amount w)) "claimNativeWithdrawal"))
  | Some (Token w) =>
    exists token, resolved_token resolved (token_withdrawal_identity w) = Some token /\
    load_token_withdrawal_proof_at contracts l sequence (Z.of_nat i) current delay =
    (cursor ← next_token_withdrawal_index contracts token (at_recipient w);
     mret {| tp_token := address_to_string token; tp_asset_id := hex (at_asset_id w);
             tp_action_identity := token_identity (archived_token w token);
             tp_withdrawal := withdrawal_answer p sequence (Z.of_nat i) current delay cursor
                                (address_to_string (at_recipient w)) (i64_to_string (at_amount w)) "claimERC20Withdrawal" |})
  | None => forall answer, load_native_withdrawal_proof_at contracts l sequence (Z.of_nat i) current delay <> Ok answer
  end.

Lemma restored_claimable contracts l chain_id bridge resolved sequence start i a f leaf p current delay :
  (forall identity token, resolved_token resolved identity = Some token -> length token = 20%nat) ->
  (forall w, aa_withdrawal a = Some w -> exists values, withdrawal_params w values) ->
  restored_row chain_id bridge resolved start i a f leaf ->
  load_inner_action_batch_proof l sequence (Z.of_nat i) = Ok p -> bp_target p = f ->
  claimable contracts l resolved sequence i p a current delay.
Proof.
  intros Htok Htyped (fields_hash & token & _ & _ & _ & Ht & Hleaf & Hcols & _) Hload <-. unfold claimable.
  destruct (aa_withdrawal a) as [[w|w]|] eqn:Hw.
  - destruct (Htyped _ eq_refl) as (v & Hl & Ham & _). destruct token; [done|]. apply Ok_inj in Hcols.
    eapply load_native_text; [exact Hload|by apply parse_printed| |by rewrite <- Hcols]. unfold is_u64, u64_MAX in *. lia.
  - destruct (Htyped _ eq_refl) as (v & Hver & Hidx & Lc & Nc & La & Na & Lr & Nr & Ham & _).
    destruct token as [token|]; [|done]. destruct (Ht _ eq_refl) as (w' & [= <-] & Hres). exists token. split; [done|].
    cbn in Hcols. apply bind_Ok in Hcols as ([] & _ & Hcols). apply Ok_inj in Hcols.
    apply (load_token_text parse_hex _ _ _ _ _ _ _ (archived_token w token)); cbn; try done.
    + unfold is_u64, u64_MAX in *. lia.
    + apply parse_printed. by eapply Htok.
    + by apply parse_printed.
  - intros answer. eapply load_not_withdrawal; [exact Hload|]. destruct token; [done|]. apply Ok_inj in Hcols.
    unfold row_columns in Hcols. by inversion Hcols.
Qed.

End run.

(** ** Pages *)

Section pages.
Context `{DecimalText}.

(** Action [i] of the archive has index [i]. *)
Lemma load_indices archive inner_public_key acts i a :
  load_archive_inner_actions archive inner_public_key = Ok acts -> acts !! i = Some a -> aa_global_action_index a = Z.of_nat i.
Proof.
  unfold load_archive_inner_actions. intros (items & _ & Hl%map_ok_Ok)%bind_Ok Hi.
  destruct (Forall2_lookup_r _ _ _ _ _ Hl Hi) as ([index item] & Hrow & Ha).
  unfold numbered_inner_actions in Hrow. rewrite list_lookup_imap in Hrow. destruct (merge_sort _ _ !! i); [|done].
  injection Hrow as <- <-. unfold archive_action in Ha. inv_ok.
  by repeat match goal with Hx : to_u32 _ = Ok _ |- _ => apply to_u32_Ok in Hx as [-> _] end.
Qed.

Definition index_lt (a b : ArchiveInnerAction) : Prop := aa_global_action_index a < aa_global_action_index b.

Lemma sorted_indices acts :
  (forall i a, acts !! i = Some a -> aa_global_action_index a = Z.of_nat i) -> StronglySorted index_lt acts.
Proof.
  assert (forall k, (forall i a, acts !! i = Some a -> aa_global_action_index a = k + Z.of_nat i) -> StronglySorted index_lt acts) as Hk;
    [|intros Hi; apply (Hk 0); intros i a Ha; by rewrite (Hi i a Ha)].
  induction acts as [|a acts IH]; intros k Hi; constructor.
  - apply (IH (k + 1)). intros i b Hb. rewrite (Hi (S i) b Hb). lia.
  - apply list.Forall_forall. intros b (i & Hb)%list_elem_of_lookup. unfold index_lt.
    rewrite (Hi 0%nat a eq_refl), (Hi (S i) b Hb). lia.
Qed.

Lemma StronglySorted_filter {A} (R : A -> A -> Prop) (P : A -> Prop) `{!forall x, Decision (P x)} k :
  StronglySorted R k -> StronglySorted R (filter P k).
Proof.
  induction 1 as [|a k Hs IH Ha]; [constructor|]. rewrite filter_cons. destruct (decide (P a)); [|done].
  constructor; [done|]. apply list.Forall_forall. intros b [_ Hb]%list_elem_of_filter.
  by eapply (proj1 (list.Forall_forall _ _) Ha).
Qed.

Lemma filter_keeps {A} (P : A -> Prop) `{!forall x, Decision (P x)} k : Forall P k -> filter P k = k.
Proof. induction 1 as [|a k Ha _ IH]; [done|]. by rewrite filter_cons_True, IH. Qed.
Lemma filter_drops {A} (P : A -> Prop) `{!forall x, Decision (P x)} k : Forall (fun a => ~ P a) k -> filter P k = [].
Proof. induction 1 as [|a k Ha _ IH]; [done|]. by rewrite filter_cons_False, IH. Qed.

(** What follows the last element of a prefix of a sorted list. *)
Lemma after_last k n a :
  StronglySorted index_lt k -> last (take n k) = Some a ->
  filter (fun b => aa_global_action_index a < aa_global_action_index b) k = drop n k.
Proof.
  intros Hs Hl. assert (exists k1, take n k = k1 ++ [a]) as [k1 Hk1].
  { apply last_Some in Hl as [k1 ->]. by exists k1. }
  rewrite <- (take_drop n k) in Hs |- *. rewrite Hk1 in Hs |- *. rewrite filter_app.
  assert (drop n (k1 ++ [a] ++ drop n k) = drop n k) as Hd.
  { rewrite <- (take_drop n k) at 2. rewrite Hk1. by rewrite <- app_assoc. }
  rewrite <- app_assoc, Hd.
  apply StronglySorted_app in Hs as (Hc & H1 & H2).
  rewrite (filter_drops _ (k1 ++ [a])), (filter_keeps _ (drop n k)); [done| |].
  - apply list.Forall_forall. intros b Hb. apply (Hc a b); [|done]. apply elem_of_app. right. by left.
  - apply list.Forall_forall. intros b Hb Hlt. apply elem_of_app in Hb as [Hb|<-%list_elem_of_singleton]; [|lia].
    apply StronglySorted_app in H1 as (Hc1 & _). specialize (Hc1 b a Hb ltac:(by left)). unfold index_lt in Hc1. lia.
Qed.

(** The pages a client reads, each after the last index of the one before. *)
Fixpoint pages (fuel : nat) (acts : list ArchiveInnerAction) (settled : gset Z) (tokens : bool) (recipient : option bytes)
    (after : option Z) (limit : nat) : list ArchiveInnerAction :=
  match fuel with
  | O => []
  | S fuel =>
    let page := pending_action_page acts settled tokens recipient after limit in
    match last page with
    | None => []
    | Some a => page ++ pages fuel acts settled tokens recipient (Some (aa_global_action_index a)) limit
    end
  end.

Definition pending (acts : list ArchiveInnerAction) (settled : gset Z) (tokens : bool) (recipient : option bytes)
    (after : option Z) : list ArchiveInnerAction :=
  filter (fun action => on_page settled tokens recipient after action = true) acts.

Lemma pending_after acts settled tokens recipient after index :
  from_option (fun after => after <= index) True after ->
  pending acts settled tokens recipient (Some index) =
  filter (fun a => index < aa_global_action_index a) (pending acts settled tokens recipient after).
Proof.
  intros Ha. unfold pending. rewrite list_filter_filter. apply list_filter_iff. intros a. unfold on_page. cbn.
  destruct (Z.leb_spec (aa_global_action_index a) index) as [Hle|Hlt]; [rewrite orb_true_r; split; [done|lia]|].
  rewrite orb_false_r. destruct after as [k|]; cbn in *; [|by rewrite orb_false_r; naive_solver].
  rewrite (proj2 (Z.leb_gt (aa_global_action_index a) k)) by lia. rewrite orb_false_r. naive_solver.
Qed.

Lemma pages_complete_after fuel acts settled tokens recipient after limit :
  StronglySorted index_lt acts -> (0 < limit)%nat ->
  (length (pending acts settled tokens recipient after) < fuel)%nat ->
  pages fuel acts settled tokens recipient after limit = pending acts settled tokens recipient after.
Proof.
  intros Hs Hlim. revert after. induction fuel as [|fuel IH]; intros after Hlen; [lia|]. cbn [pages].
  unfold pending_action_page. fold (pending acts settled tokens recipient after).
  assert (StronglySorted index_lt (pending acts settled tokens recipient after)) as Hsp by by apply StronglySorted_filter.
  destruct (last (take limit (pending acts settled tokens recipient after))) as [a|] eqn:Hl.
  - assert (a ∈ pending acts settled tokens recipient after) as Hin.
    { apply last_Some_elem_of in Hl. by apply elem_of_take in Hl as (i & Hi%list_elem_of_lookup_2 & _). }
    assert (pending acts settled tokens recipient (Some (aa_global_action_index a)) =
      drop limit (pending acts settled tokens recipient after)) as Hd.
    { rewrite (pending_after _ _ _ _ after); [by apply after_last|]. destruct after as [k|]; [|done]. cbn.
      unfold pending in Hin. apply list_elem_of_filter in Hin as [Hp _]. unfold on_page in Hp. cbn in Hp.
      destruct (Z.leb_spec (aa_global_action_index a) k); [by rewrite orb_true_r in Hp|lia]. }
    rewrite IH; rewrite Hd; [by rewrite take_drop|]. rewrite length_drop.
    destruct (pending acts settled tokens recipient after) as [|x k]; [by apply not_elem_of_nil in Hin|]. cbn in *. lia.
  - apply last_None in Hl. destruct (pending acts settled tokens recipient after) as [|x k]; [done|].
    destruct limit; [lia|done].
Qed.

End pages.
