(* ===== verification/DepositBatch.v ===== *)
(** * Deposits: batches, admission and progress ([api/src/main.rs])

    [canonical_deposit_batch] builds the input of the bridge guest from the
    indexed deposits in final blocks and the state of the bridge contract;
    [queue_canonical_deposit_batch] admits a job for it and binds its
    deposits; the deposits are listed with their progress.

    A batch that was built is one the guest proves, with a receipt that the
    worker's validation against the same contract accepts; the deposits of a
    queued batch are bound to its job, and deposits bound to an unfinished job
    are not queued again. *)

From Stdlib Require Import Strings.Byte.
From stdpp Require Import gmap strings sorting.
From S2P Require Import Prelude Hashing Codec PublicValues BridgeValues InnerActionTree Field.
From S2P Require BridgeGuest.
From S2P Require Import Rpc Database Program OuterWriter Submission Worker Indexer System Ledger Accounts ChainIndex Reorganization Recovery TxLogic Coordination Withdrawals.

Abbreviation deposit_row := (Z * DepositRow)%type.

(** What the contracts answer, at the block that was the latest. *)
Record BridgeView := {
  bv_latest_block : outcome error BlockRef;
  bv_bridge_state_at : BlockRef -> option Z -> outcome error (BridgeState * option bytes);
  bv_settlement_state_at : BlockRef -> outcome error SettlementState;
  bv_chain_id : outcome error Z;
  bv_bridge_address : bytes
}.

(** [serde_json::to_value] of the guest's input. *)
Class BridgeJson `{Externals} := { bridge_input_value : BridgeGuest.BridgeTransitionInput -> Value }.

(** ** The batch *)

Definition out_of_range_conversion : error := message "out of range integral type conversion attempted".
Definition u64_column (z : Z) : outcome error Z := if 0 <=? z then Ok z else Err out_of_range_conversion.
(** [try_get] of a non-optional type on NULL. *)
Definition non_null {A} (o : option A) : outcome error A := context o "unexpected null; try decoding as an `Option`".
(** [U256::from_str_radix] of a numeric column. *)
Definition u256_column (z : Z) : outcome error Z :=
  if (0 <=? z) && (z <? 2 ^ 256) then Ok z else Err (message "invalid digit").
Definition u64_of_u256 (z : Z) : outcome error Z := if z <? 2 ^ 64 then Ok z else Err out_of_range_conversion.

Section batch.
Context `{Externals} `{AlloyText}.

(** Asset id, registry index, record commitment and amount of a row. *)
Definition deposit_identity (c : DepositColumns) (token : bytes) (ethereum_amount zeko_amount version : Z)
    : outcome error (bytes * Z * bytes * Z) :=
  if bool_decide (token = zeros 20) then
    ensure (ethereum_amount =? (zeko_amount * 1000000000) mod 2 ^ 256) (message "indexed native amount normalization mismatch");;
    ensure (version =? 0) (message "indexed native deposit has an ERC20 action version");;
    amount ← u64_of_u256 zeko_amount;
    mret (zeros 32, 0, zeros 32, amount)
  else
    ensure (ethereum_amount =? zeko_amount) (message "canonical ERC20 deposit must preserve base units");;
    asset_id ← context (dc_asset_id c) "indexed ERC20 deposit is missing its asset id";
    asset_id ← context (parse_b256 asset_id) "indexed ERC20 asset id is invalid";
    ensure (negb (bool_decide (asset_id = zeros 32))) (message "indexed ERC20 asset id is zero");;
    ensure_registry_erc20_action_encoding version;;
    registry_index ← non_null (dc_registry_index c);
    registry_index ← to_u32 registry_index;
    record_commitment ← non_null (dc_record_commitment c);
    record_commitment ← context (parse_b256 record_commitment) "indexed ERC20 record commitment is invalid";
    ensure (negb (bool_decide (record_commitment = zeros 32))) (message "indexed ERC20 record commitment is zero");;
    amount ← u64_of_u256 zeko_amount;
    mret (asset_id, registry_index, record_commitment, amount).

Record batch_state := { bt_nonce : Z; bt_state : bytes; bt_deposits : list BridgeGuest.BridgeDeposit }.

(** The deposit of a row. *)
Definition row_deposit (c : DepositColumns) : outcome error BridgeGuest.BridgeDeposit :=
  token ← context (parse_address (dc_token c)) "invalid indexed token";
  timeout ← u64_column (dc_timeout c);
  ensure (timeout =? u32_MAX) (message "deposit does not use the no-cancellation timeout");;
  ethereum_amount ← u256_column (dc_ethereum_amount c);
  zeko_amount ← u256_column (dc_zeko_amount c);
  version ← to_u32 (dc_action_encoding_version c);
  '(asset_id, registry_index, record_commitment, amount) ← deposit_identity c token ethereum_amount zeko_amount version;
  recipient ← context (parse_b256 (dc_zeko_recipient c)) "invalid indexed Zeko recipient";
  mret {|
    BridgeGuest.bd_token := token;
    BridgeGuest.bd_asset_id := asset_id;
    BridgeGuest.bd_encoding_version := version;
    BridgeGuest.bd_registry_index := registry_index;
    BridgeGuest.bd_record_commitment := record_commitment;
    BridgeGuest.bd_amount := to_be 32 ethereum_amount;
    BridgeGuest.bd_zeko_amount := Some amount;
    BridgeGuest.bd_zeko_recipient := recipient;
    BridgeGuest.bd_timeout := timeout |}.

(** One iteration of the loop over the rows. *)
Definition batch_deposit (st : batch_state) (row : deposit_row) : outcome error batch_state :=
  let c := dp_columns row.2 in
  nonce ← u64_column row.1;
  ensure (nonce =? bt_nonce st) (message "deposit nonce range is not contiguous");;
  old_state ← context (parse_b256 (dc_old_deposit_state c)) "invalid indexed old deposit state";
  new_state ← context (parse_b256 (dc_new_deposit_state c)) "invalid indexed new deposit state";
  ensure (bool_decide (old_state = bt_state st)) (message "deposit accumulator is discontinuous");;
  d ← row_deposit c;
  mret {| bt_nonce := wrapping_add_u64 (bt_nonce st) 1; bt_state := new_state; bt_deposits := bt_deposits st ++ [d] |}.

(** [ORDER BY nonce]. *)
Definition nonce_le (a b : deposit_row) : Prop := a.1 <= b.1.
#[export] Instance nonce_le_dec : RelDecision nonce_le.
Proof. intros a b. unfold nonce_le. apply _. Defined.

(** The deposits of final blocks with nonces above [lo] up to [hi]. *)
Definition final_deposit (l : Ledger) (lo hi : Z) (row : deposit_row) : bool :=
  negb (dp_removed row.2) && in_final_block l (dc_block (dp_columns row.2)) && (lo <? row.1) && (row.1 <=? hi).
Definition final_deposits (l : Ledger) (lo hi : Z) : list deposit_row :=
  merge_sort nonce_le (filter (fun row => final_deposit l lo hi row = true) (map_to_list (deposits l))).

Definition canonical_deposit_batch (view : BridgeView) (l : Ledger) : outcome error BridgeGuest.BridgeTransitionInput :=
  block ← bv_latest_block view;
  '(bridge, _) ← bv_bridge_state_at view block None;
  ensure (negb (bs_paused bridge)) (message "bridge contract is paused");;
  ensure (bs_bridged_deposit_nonce bridge <? bs_deposit_nonce bridge) (message "there are no unbridged deposits");;
  '(_, historical) ← bv_bridge_state_at view block (Some (bs_bridged_deposit_nonce bridge));
  historical ← context historical "missing bridged deposit checkpoint";
  settlement ← bv_settlement_state_at view block;
  lo ← to_i64 (bs_bridged_deposit_nonce bridge);
  hi ← to_i64 (bs_deposit_nonce bridge);
  let rows := final_deposits l lo hi in
  ensure (Z.of_nat (length rows) =? bs_deposit_nonce bridge - bs_bridged_deposit_nonce bridge)
    (message "canonical deposit log range is incomplete");;
  st ← foldM batch_deposit
         {| bt_nonce := wrapping_add_u64 (bs_bridged_deposit_nonce bridge) 1; bt_state := historical; bt_deposits := [] |} rows;
  ensure (bool_decide (bt_state st = bs_current_deposit_state bridge))
    (message "indexed deposit accumulator does not reach bridge state");;
  chain_id ← bv_chain_id view;
  mret {|
    BridgeGuest.ethereum := {|
      BridgeGuest.chain_id := chain_id;
      BridgeGuest.bridge_address := bv_bridge_address view;
      BridgeGuest.deposit_nonce := bs_bridged_deposit_nonce bridge;
      BridgeGuest.deposit_state := historical |};
    BridgeGuest.zeko := {|
      BridgeGuest.action_state := ss_action_state settlement;
      BridgeGuest.action_state_length := ss_outer_action_state_length settlement |};
    BridgeGuest.deposits := bt_deposits st |}.

End batch.

(** ** Admission *)

Section queue.
Context `{Externals} `{!BridgeJson}.

Definition retryable_statuses : list proof_status :=
  [executed; failed; proof_failed; ethereum_reverted; reorged; rejected].

(** A row of the [COUNT] and of the [UPDATE]. *)
Definition in_range (first last : Z) (row : deposit_row) : bool :=
  (first <=? row.1) && (row.1 <=? last) && negb (dp_removed row.2).
Definition free_for (id : uuid) (allow_terminal_retry : bool) (db : Db) (d : DepositRow) : bool :=
  match dp_bridge_job_id d with
  | None => true
  | Some bound =>
    bool_decide (bound = id) ||
    (allow_terminal_retry && from_option (status_in retryable_statuses) false (jobs db !! bound))
  end.
Definition eligible (id : uuid) (allow_terminal_retry : bool) (first last : Z) (l : Ledger) : Z :=
  Z.of_nat (size (filter (fun row => (in_range first last row &&
    free_for id allow_terminal_retry (gateway l) row.2) = true) (deposits l))).

Definition bind_to (job : uuid) (d : DepositRow) : DepositRow := {|
  dp_columns := dp_columns d; dp_bridge_job_id := Some job; dp_outer_action := dp_outer_action d;
  dp_synchronized := dp_synchronized d; dp_removed := dp_removed d |}.
Definition bind_range (job : uuid) (first last : Z) (rows : gmap Z DepositRow) : gmap Z DepositRow :=
  map_imap (fun nonce d => Some (if in_range first last (nonce, d) then bind_to job d else d)) rows.
Definition affected (first last : Z) (rows : gmap Z DepositRow) : Z :=
  Z.of_nat (size (filter (fun row => in_range first last row = true) rows)).

Definition nonce_range (input : BridgeGuest.BridgeTransitionInput) : outcome error (Z * Z) :=
  let before := BridgeGuest.deposit_nonce (BridgeGuest.ethereum input) in
  let count := Z.of_nat (length (BridgeGuest.deposits input)) in
  first ← context (if before + 1 <? 2 ^ 64 then Some (before + 1) else None) "bridge deposit nonce overflow";
  last ← context (if before + count <? 2 ^ 64 then Some (before + count) else None) "bridge deposit nonce overflow";
  mret (first, last).

(** The transaction; [id] and [fresh] are the new uuids. *)
Definition queue_deposit_batch (id fresh : uuid) (name : string) (header : option string) (allow_terminal_retry : bool)
    (input : BridgeGuest.BridgeTransitionInput) : ltx uuid :=
  '(first_nonce, last_nonce) ← try_lift (nonce_range input);
  let value := bridge_input_value input in
  on_gateway lock;;
  first ← try_lift (to_i64 first_nonce);
  last ← try_lift (to_i64 last_nonce);
  l ← read_ledger;
  count ← try_lift (to_i64 (wrapping_add_u64 (wrapping_sub_u64 last_nonce first_nonce) 1));
  check (eligible id allow_terminal_retry first last l =? count)
    (message "deposit batch already has a proof job; an operator must retry a failed batch");;
  actual ← on_gateway (insert_job id Bridge value header (proof_input_digest value));
  actual_id ← try_lift (context actual "idempotency key already exists with a different payload");
  (if bool_decide (actual_id = id) then on_gateway (attach_bridge fresh name id value) else mret tt);;
  l ← read_ledger;
  modify (with_deposits (bind_range actual_id first last (deposits l)));;
  check (affected first last (deposits l) =? wrapping_add_u64 (wrapping_sub_u64 last_nonce first_nonce) 1)
    (message "canonical deposit batch changed while it was queued");;
  mret actual_id.

(** The batch is read at [seen], before the transaction at [l] begins. *)
Definition queue_canonical_deposit_batch `{AlloyText} (view : BridgeView) (seen : Ledger) (id fresh : uuid) (name : string)
    (header : option string) (allow_terminal_retry : bool) (now : Z) (l : Ledger) : outcome error uuid * Ledger :=
  match canonical_deposit_batch view seen with
  | Ok input => commit (queue_deposit_batch id fresh name header allow_terminal_retry input) now l
  | Err e => (Err e, l)
  | Panic w => (Panic w, l)
  end.

End queue.

(** ** Progress *)

Definition native_deposit_progress (finalized : bool) (bridge_job_status : option proof_status)
    (bridge_proven synchronized : bool) : string * string :=
  if negb finalized then ("confirming", "waitForEthereumFinality")%string
  else if synchronized then ("synchronized", "finalizeDepositOnZeko")%string
  else if bridge_proven then ("bridgeProven", "waitForSettlementSynchronization")%string
  else match bridge_job_status with
       | None => ("locked", "requestBridgeProof")%string
       | Some (queued | validating) => ("proofQueued", "waitForBridgeProof")%string
       | Some awaiting_approval => ("awaitingProofApproval", "waitForOperatorApproval")%string
       | Some (approved | proof_requested | proving) => ("proving", "waitForBridgeProof")%string
       | Some (submitting | submitted) => ("submitting", "waitForEthereumSubmission")%string
       | Some executed => ("executed", "operatorSubmissionRequired")%string
       | Some (failed | proof_failed | ethereum_reverted | reorged | rejected) => ("proofFailed", "retryBridgeProof")%string
       | Some confirmed => ("bridgeProven", "waitForSettlementSynchronization")%string
       end.

Record NativeDepositStatus := {
  nd_nonce : Z;
  nd_token : string;
  nd_asset_id : option string;
  nd_action_identity : ActionIdentity;
  nd_sender : string;
  nd_zeko_recipient : string;
  nd_ethereum_amount : string;
  nd_zeko_amount : string;
  nd_timeout : Z;
  nd_ethereum_transaction_hash : string;
  nd_ethereum_finalized : bool;
  nd_bridge_job_id : option uuid;
  nd_bridge_job_status : option proof_status;
  nd_outer_action_sequence : option Z;
  nd_outer_action_state_after : option string;
  nd_synchronized_settlement_sequence : option Z;
  nd_status : string;
  nd_next_action : string
}.

Section progress.
Context `{Externals} `{AlloyText}.

(** [Option::map(try_from).transpose()]. *)
Definition transpose {A} (f : Z -> outcome error A) (o : option Z) : outcome error (option A) :=
  match o with None => mret None | Some z => Some <$> f z end.

(** The job the deposit is joined with. *)
Definition bridge_job_status (l : Ledger) (d : DepositRow) : option proof_status :=
  j_status <$> (dp_bridge_job_id d ≫= fun id => jobs (gateway l) !! id).

Definition native_deposit_from_row (l : Ledger) (finalized : bool) (row : deposit_row) : outcome error NativeDepositStatus :=
  let '(nonce, d) := row in
  let c := dp_columns d in
  outer_action_sequence ← transpose to_u32 (fst <$> dp_outer_action d);
  synchronized_settlement_sequence ← transpose u64_column (snd <$> dp_synchronized d);
  let '(status, next_action) :=
    native_deposit_progress finalized (bridge_job_status l d) (bool_decide (is_Some outer_action_sequence))
      (bool_decide (is_Some synchronized_settlement_sequence)) in
  nonce ← u64_column nonce;
  action_identity ← decode_action_identity (dc_action_encoding_version c) (dc_registry_index c) (dc_record_commitment c);
  timeout ← u64_column (dc_timeout c);
  mret {| nd_nonce := nonce; nd_token := dc_token c; nd_asset_id := dc_asset_id c; nd_action_identity := action_identity;
          nd_sender := dc_sender c; nd_zeko_recipient := dc_zeko_recipient c;
          nd_ethereum_amount := i64_to_string (dc_ethereum_amount c); nd_zeko_amount := i64_to_string (dc_zeko_amount c);
          nd_timeout := timeout; nd_ethereum_transaction_hash := dc_transaction_hash c;
          nd_ethereum_finalized := finalized; nd_bridge_job_id := dp_bridge_job_id d;
          nd_bridge_job_status := bridge_job_status l d; nd_outer_action_sequence := outer_action_sequence;
          nd_outer_action_state_after := snd <$> dp_outer_action d;
          nd_synchronized_settlement_sequence := synchronized_settlement_sequence;
          nd_status := status; nd_next_action := next_action |}.

(** The canonical block a deposit was seen in. *)
Definition deposit_block (l : Ledger) (d : DepositRow) : option BlockRow :=
  b ← canonical_block l (dc_block (dp_columns d)).1;
  if bool_decide (bk_hash b = (dc_block (dp_columns d)).2) && negb (dp_removed d) then Some b else None.

Definition get_native_deposit (l : Ledger) (nonce : Z) : response NativeDepositStatus :=
  match to_i64 nonce with
  | Ok nonce =>
    match d ← deposits l !! nonce; pair d <$> deposit_block l d with
    | Some (d, b) =>
      match native_deposit_from_row l (bk_finalized b) (nonce, d) with
      | Ok deposit => Json deposit
      | _ => ApiError 500 "invalid indexed deposit"
      end
    | None => ApiError 404 "canonical deposit not found"
    end
  | _ => ApiError 400 "deposit nonce is too large"
  end.

Definition listed_deposit (l : Ledger) (recipient : option string) (after : option Z) (row : deposit_row)
    : option (deposit_row * bool) :=
  b ← deposit_block l row.2;
  if from_option (fun r => bool_decide (to_ascii_lowercase (dc_zeko_recipient (dp_columns row.2)) = to_ascii_lowercase r))
       true recipient &&
     from_option (fun after => after <? row.1) true after
  then Some (row, bk_finalized b) else None.

Definition deposit_page (l : Ledger) (recipient : option string) (after : option Z) (limit : Z) : list (deposit_row * bool) :=
  take (Z.to_nat limit)
    (omap (listed_deposit l recipient after) (merge_sort nonce_le (map_to_list (deposits l)))).

Record ListDepositsQuery := {
  ld_zeko_recipient : option string;
  ld_after : option Z;
  ld_limit : option Z
}.

Definition list_native_deposits (l : Ledger) (query : ListDepositsQuery) : response (list NativeDepositStatus) :=
  match (match ld_zeko_recipient query with
         | None => Some None
         | Some r => Some <$> (hex <$> parse_b256 r)
         end) with
  | None => ApiError 400 "zekoRecipient must be a 32-byte packed Zeko address"
  | Some recipient =>
    match (match ld_after query with None => Ok None | Some after => Some <$> to_i64 after end) with
    | Ok after =>
      match Accounts.map_ok (fun e => native_deposit_from_row l e.2 e.1)
              (deposit_page l recipient after (page_limit (ld_limit query))) with
      | Ok deposits => Json deposits
      | _ => ApiError 500 "invalid indexed deposit"
      end
    | _ => ApiError 400 "after is too large"
    end
  end.

End progress.

(** ** A built batch is provable *)

Section provable.
Context `{Externals} `{AlloyText} `{Keccak} `{Poseidon}.
Hypothesis parse_b256_length : forall s b, parse_b256 s = Some b -> length b = 32%nat.
Hypothesis parse_address_length : forall s b, parse_address s = Some b -> length b = 20%nat.

(** What the contract guarantees of the deposits it logs: a positive amount, a
    recipient and a record commitment that are field elements, and the next
    state of its accumulator. *)
Definition authentic (eth : BridgeGuest.EthereumBridgeState) (row : deposit_row) : Prop :=
  let c := dp_columns row.2 in
  0 < dc_ethereum_amount c /\
  forall d old new, row_deposit c = Ok d -> parse_b256 (dc_old_deposit_state c) = Some old ->
    parse_b256 (dc_new_deposit_state c) = Some new ->
    BridgeGuest.recipient_x d < field_order /\ from_be (BridgeGuest.bd_record_commitment d) < field_order /\
    new = BridgeGuest.compute_ethereum_state old (keccak256 (BridgeGuest.leaf_encoded eth d row.1)).

Lemma u256_column_Ok z n : u256_column z = Ok n <-> n = z /\ 0 <= z < 2 ^ 256.
Proof.
  unfold u256_column. destruct (Z.leb_spec 0 z), (Z.ltb_spec z (2 ^ 256)); cbn [andb]; split; try done;
    try (intros [? ?]; lia); [intros [= ->]; lia|by intros [-> _]].
Qed.

Lemma deposit_identity_Ok c token ea za version asset index rc amount :
  0 <= za < 2 ^ 256 ->
  deposit_identity c token ea za version = Ok (asset, index, rc, amount) ->
  amount = za /\ is_u64 za /\ length asset = 32%nat /\ is_u32 index /\ length rc = 32%nat /\
  if bool_decide (token = zeros 20) then
    asset = zeros 32 /\ index = 0 /\ rc = zeros 32 /\ version = 0 /\ ea = za * 1000000000
  else asset <> zeros 32 /\ rc <> zeros 32 /\ version = 2 /\ ea = za.
Proof.
  intros Hz. unfold deposit_identity, u64_of_u256, is_u64. case_bool_decide as Ht; intros Hd.
  - inv_ok. bool_props. destruct (Z.ltb_spec za (2 ^ 64)); inv_ok.
    rewrite (Z.mod_small (_ * 1000000000)) in * by lia. split_and!; try done; lia.
  - inv_ok. repeat match goal with Hx : _ = Ok _ |- _ => apply context_Ok in Hx end.
    unfold ensure_registry_erc20_action_encoding in *.
    repeat match goal with Hx : to_u32 _ = Ok _ |- _ => apply to_u32_Ok in Hx as [-> ?] end.
    destruct (Z.ltb_spec za (2 ^ 64)); inv_ok. bool_props.
    split_and!; first [done|lia|by eapply parse_b256_length|idtac].
Qed.

Lemma u64_column_Ok z n : u64_column z = Ok n <-> n = z /\ 0 <= z.
Proof. unfold u64_column. destruct (Z.leb_spec 0 z); split; try done; [intros [= ->]; lia|by intros [-> _]|intros [_ ?]; lia]. Qed.

(** Every row the loop accepts is a deposit the guest accepts. *)
Lemma row_deposit_ok c d :
  row_deposit c = Ok d ->
  BridgeGuest.typed_deposit d /\
  (0 < dc_ethereum_amount c -> BridgeGuest.recipient_x d < field_order ->
   from_be (BridgeGuest.bd_record_commitment d) < field_order -> BridgeGuest.deposit_ok d = true).
Proof.
  unfold row_deposit. intros (token & Htok%context_Ok%parse_address_length & Hd)%bind_Ok.
  apply bind_Ok in Hd as (timeout & [-> Ht]%u64_column_Ok & Hd). apply bind_Ok in Hd as ([] & Hto%ensure_Ok & Hd).
  apply bind_Ok in Hd as (ea & [-> He]%u256_column_Ok & Hd). apply bind_Ok in Hd as (za & [-> Hz]%u256_column_Ok & Hd).
  apply bind_Ok in Hd as (version & [-> Hv]%to_u32_Ok & Hd).
  apply bind_Ok in Hd as ([[[asset index] rc] amount] & Hid%deposit_identity_Ok & Hd); [|done].
  apply bind_Ok in Hd as (recipient & Hr%context_Ok%parse_b256_length & [= <-]). apply Z.eqb_eq in Hto.
  destruct Hid as (-> & Hu & Hla & Hui & Hlr & Hcase). split.
  - unfold BridgeGuest.typed_deposit. cbn. rewrite Hto, length_to_be. split_and!; done.
  - intros Hpos Hx Hc. unfold BridgeGuest.deposit_ok. rewrite (proj2 (Z.ltb_lt _ _) Hx). cbn [andb].
    unfold BridgeGuest.amount_ok, BridgeGuest.zeko_amount_of, BridgeGuest.is_native.
    cbn [BridgeGuest.bd_token BridgeGuest.bd_asset_id BridgeGuest.bd_encoding_version BridgeGuest.bd_registry_index
         BridgeGuest.bd_record_commitment BridgeGuest.bd_amount BridgeGuest.bd_zeko_amount BridgeGuest.bd_timeout] in *.
    rewrite from_be_to_be_small by (cbn; lia). unfold is_u64, u64_MAX in *. rewrite (proj2 (Z.ltb_lt 0 _) Hpos).
    case_bool_decide as Hn.
    + destruct Hcase as (-> & -> & -> & -> & Hea). rewrite Hea. unfold BridgeGuest.WEI_PER_ZEKO_UNIT.
      rewrite Z.div_mul, Z.mod_mul by done. rewrite !Z.eqb_refl. rewrite (proj2 (Z.leb_le (dc_zeko_amount c) (2 ^ 64 - 1))) by lia. done.
    + destruct Hcase as (Ha & Hrc & -> & ->). rewrite (proj2 (Z.leb_le (dc_zeko_amount c) (2 ^ 64 - 1))) by lia.
      rewrite !bool_decide_false by done. rewrite Hto, (proj2 (Z.ltb_lt _ _) Hc), !Z.eqb_refl. done.
Qed.

Lemma next_nonce_at n k : wrapping_add_u64 (BridgeGuest.nonce_at n k) 1 = BridgeGuest.nonce_at n (S k).
Proof. unfold wrapping_add_u64, BridgeGuest.nonce_at. rewrite Zplus_mod_idemp_l. f_equal. lia. Qed.

(** The loop follows the accumulator of the contract over valid deposits. *)
Lemma deposit_batch_loop eth rows st st' k :
  bt_nonce st = BridgeGuest.nonce_at (BridgeGuest.deposit_nonce eth) k -> Forall (authentic eth) rows ->
  foldM batch_deposit st rows = Ok st' ->
  exists ds, bt_deposits st' = bt_deposits st ++ ds /\ length ds = length rows /\
    Forall (fun d => BridgeGuest.typed_deposit d /\ BridgeGuest.deposit_ok d = true) ds /\
    bt_state st' = foldl BridgeGuest.compute_ethereum_state (bt_state st)
      (map keccak256 (imap (fun j d => BridgeGuest.leaf_encoded eth d
         (BridgeGuest.nonce_at (BridgeGuest.deposit_nonce eth) (k + j))) ds)).
Proof.
  intros Hn Ha. revert st k Hn. induction Ha as [|row rows [Hpos Hau] _ IH]; intros st k Hn Hf.
  - injection Hf as <-. exists []. by rewrite app_nil_r.
  - cbn [foldM] in Hf. apply bind_Ok in Hf as (st1 & Hb1 & Hf). unfold batch_deposit in Hb1.
    apply bind_Ok in Hb1 as (nonce & [-> _]%u64_column_Ok & Hb1). apply bind_Ok in Hb1 as ([] & Hnonce%ensure_Ok & Hb1).
    apply bind_Ok in Hb1 as (old & Hold%context_Ok & Hb1). apply bind_Ok in Hb1 as (new & Hnew%context_Ok & Hb1).
    apply bind_Ok in Hb1 as ([] & Hst%ensure_Ok & Hb1). apply bind_Ok in Hb1 as (d & Hd & [= <-]). bool_props.
    destruct (row_deposit_ok _ _ Hd) as [Hty Hok]. destruct (Hau d old new Hd Hold Hnew) as (Hx & Hc & ->).
    destruct (fun Hk => IH _ (S k) Hk Hf) as (ds & Hds & Hl & Hall & Hstate); [cbn; by rewrite Hn, next_nonce_at|].
    cbn in Hds, Hstate. exists (d :: ds). split_and!.
    + by rewrite Hds, <- app_assoc.
    + cbn. by rewrite Hl.
    + constructor; [split; [done|by apply Hok]|done].
    + rewrite Hstate, Hst. cbn [imap map foldl]. rewrite Nat.add_0_r, <- Hn, <- Hnonce. do 2 f_equal.
      apply imap_ext. intros j d' _. cbn. do 2 f_equal. lia.
Qed.

(** The answers of the view, with the types of the contract. *)
Record view_answers (view : BridgeView) (block : BlockRef) (bridge : BridgeState) (historical : bytes)
    (settlement : SettlementState) (chain : Z) : Prop := {
  va_block : bv_latest_block view = Ok block;
  va_bridge : exists x, bv_bridge_state_at view block None = Ok (bridge, x);
  va_historical : exists x, bv_bridge_state_at view block (Some (bs_bridged_deposit_nonce bridge)) = Ok (x, Some historical);
  va_settlement : bv_settlement_state_at view block = Ok settlement;
  va_chain : bv_chain_id view = Ok chain;
  va_chain_u64 : is_u64 chain;
  va_address : length (bv_bridge_address view) = 20%nat;
  va_bridged : is_u64 (bs_bridged_deposit_nonce bridge);
  va_nonce : is_u64 (bs_deposit_nonce bridge);
  va_state : length historical = 32%nat;
  va_action_state : length (ss_action_state settlement) = 32%nat;
  va_canonical : from_be (ss_action_state settlement) < field_order;
  va_length : 0 <= ss_outer_action_state_length settlement;
  va_room : ss_outer_action_state_length settlement +
    (bs_deposit_nonce bridge - bs_bridged_deposit_nonce bridge) <= u32_MAX
}.

Definition view_ethereum (view : BridgeView) (bridge : BridgeState) (historical : bytes) (chain : Z)
    : BridgeGuest.EthereumBridgeState := {|
  BridgeGuest.chain_id := chain; BridgeGuest.bridge_address := bv_bridge_address view;
  BridgeGuest.deposit_nonce := bs_bridged_deposit_nonce bridge; BridgeGuest.deposit_state := historical |}.

Lemma batch_is_provable view block bridge historical settlement chain l input :
  view_answers view block bridge historical settlement chain ->
  let eth := view_ethereum view bridge historical chain in
  (forall nonce d, deposits l !! nonce = Some d -> dp_removed d = false -> authentic eth (nonce, d)) ->
  canonical_deposit_batch view l = Ok input ->
  bs_paused bridge = false /\ bs_bridged_deposit_nonce bridge < bs_deposit_nonce bridge /\
  BridgeGuest.ethereum input = eth /\
  BridgeGuest.zeko input = {| BridgeGuest.action_state := ss_action_state settlement;
                              BridgeGuest.action_state_length := ss_outer_action_state_length settlement |} /\
  Z.of_nat (length (BridgeGuest.deposits input)) = bs_deposit_nonce bridge - bs_bridged_deposit_nonce bridge /\
  BridgeGuest.typed_input input /\ BridgeGuest.input_ok input = true /\
  ethereum_state_after (BridgeGuest.output input) = bs_current_deposit_state bridge.
Proof.
  intros [Hb [x0 Hbr] [x1 Hh] Hs Hch Hcu Hadr Hbn Hdn Hst Has Hcan Hlen Hroom] eth Hau Hc.
  unfold canonical_deposit_batch in Hc. rewrite Hb in Hc. cbn [mbind outcome_bind] in Hc. rewrite Hbr in Hc.
  cbn [mbind outcome_bind] in Hc. apply bind_Ok in Hc as ([] & Hp%ensure_Ok & Hc). apply bind_Ok in Hc as ([] & Hlt%ensure_Ok & Hc).
  rewrite Hh in Hc. cbn [mbind outcome_bind context] in Hc. rewrite Hs in Hc. cbn [mbind outcome_bind] in Hc.
  apply bind_Ok in Hc as (lo & ->%to_i64_Ok & Hc). apply bind_Ok in Hc as (hi & ->%to_i64_Ok & Hc). cbv zeta in Hc.
  apply bind_Ok in Hc as ([] & Hcount%ensure_Ok & Hc). apply bind_Ok in Hc as (st & Hloop & Hc).
  apply bind_Ok in Hc as ([] & Hcur%ensure_Ok & Hc). rewrite Hch in Hc. injection Hc as <-. bool_props.
  set (rows := final_deposits l _ _) in *.
  assert (Forall (authentic eth) rows) as Hrows.
  { apply list.Forall_forall. intros [nonce d] Hin. unfold rows, final_deposits in Hin.
    rewrite merge_sort_Permutation, list_elem_of_filter in Hin. destruct Hin as [Hf Hin%elem_of_map_to_list].
    apply Hau; [done|]. unfold final_deposit in Hf. bool_props. done. }
  destruct (fun Hk => deposit_batch_loop eth rows _ _ 0%nat Hk Hrows Hloop) as (ds & Hds & Hl & Hall & Hstate).
  { unfold BridgeGuest.nonce_at, wrapping_add_u64. cbn. f_equal. lia. }
  cbn [bt_deposits bt_state app] in Hds, Hstate. rewrite Hds. cbn [BridgeGuest.ethereum BridgeGuest.zeko BridgeGuest.deposits].
  unfold is_u64, u32_MAX in *. split_and!; try done; try lia.
  - split_and!; cbn; try done; [unfold is_u32; lia|]. eapply Forall_impl; [exact Hall|]. by intros d [? _].
  - unfold BridgeGuest.input_ok, u32_MAX.
    cbn [BridgeGuest.zeko BridgeGuest.action_state BridgeGuest.action_state_length BridgeGuest.deposits].
    repeat (apply andb_true_iff; split); try (apply Z.ltb_lt; done || lia); try (apply Z.leb_le; lia).
    apply forallb_forall. intros d Hd%list_elem_of_In. by apply (proj1 (list.Forall_forall _ _) Hall d Hd).
  - rewrite BridgeGuest.ethereum_state_after_output. cbn. rewrite <- Hcur, Hstate. reflexivity.
Qed.

End provable.

(** ** The worker's validation of the batch *)

Section validated.
Context `{Externals} `{!BridgeJson} `{AlloyText} `{Keccak} `{Poseidon}.

(** A program without transactions, under fixed answers to its calls. *)
Fixpoint answered (answer : forall B, call B -> B) {A} (p : prog A) : outcome error A :=
  match p with
  | Ret a => Ok a
  | Throw e => Err e
  | Transaction _ _ => Err (message "the database is not available")
  | Call c k => answered answer (k (answer _ c))
  end.

(** The contracts answer the worker as they answered the gateway, and have not
    seen the receipt. *)
Record same_contracts (answer : forall B, call B -> B) (block : BlockRef) (bridge : BridgeState) (historical : bytes)
    (settlement : SettlementState) (chain : Z) (state_after : bytes) : Prop := {
  sc_chain : answer _ ReadChainId = Ok chain;
  sc_block : answer _ ReadLatestBlock = Ok block;
  sc_bridge : answer _ (ReadBridgeState block (bs_bridged_deposit_nonce bridge) state_after) =
    Ok ({| bs_program_vkey := bs_program_vkey bridge; bs_deposit_nonce := bs_deposit_nonce bridge;
           bs_current_deposit_state := bs_current_deposit_state bridge;
           bs_bridged_deposit_nonce := bs_bridged_deposit_nonce bridge; bs_action_state_processed := Some false;
           bs_paused := bs_paused bridge |}, Some historical);
  sc_settlement : answer _ (ReadSettlementState (Some block)) = Ok settlement;
  sc_vkey : answer _ (ReadProgramVkey Bridge) = Ok (hex (bs_program_vkey bridge))
}.

Implicit Type answer : forall B, call B -> B.

Lemma replay_last eth state ds :
  ds <> [] -> ba_state_after <$> last (BridgeGuest.replay eth state ds).1 = Some (field_to_bytes (BridgeGuest.replay eth state ds).2).
Proof.
  intros Hne. revert state. induction ds as [|d ds IH]; intros state; [done|]. cbn [BridgeGuest.replay].
  destruct ds as [|d' ds]; [done|]. specialize (IH ltac:(done) (BridgeGuest.next_action_state eth state d)).
  destruct (BridgeGuest.replay _ _ (d' :: ds)) as [acts final] eqn:Hr. cbn in IH |- *.
  destruct acts as [|a acts]; [done|]. exact IH.
Qed.

Lemma eq_ignore_ascii_case_refl a : eq_ignore_ascii_case a a = true.
Proof. by apply bool_decide_eq_true. Qed.

Lemma answered_bind answer {A B} (p : prog A) (k : A -> prog B) :
  answered answer (p ≫= k) = (answered answer p ≫= fun a => answered answer (k a)).
Proof. induction p as [a|e|C t f IH|C c f IH]; try done. exact (IH _). Qed.

(** One step whose answer is known. *)
Lemma answered_ask answer {A B} (c : call (outcome error A)) (a : A) (k : A -> prog B) r :
  answer _ c = Ok a -> answered answer (k a) = r -> answered answer (ask c ≫= k) = r.
Proof. intros Hc Hk. rewrite answered_bind. cbn. by rewrite Hc. Qed.
Lemma answered_ensure answer b why {B} (k : unit -> prog B) r :
  b = true -> answered answer (k tt) = r -> answered answer (ensure_ b why ≫= k) = r.
Proof. by intros ->. Qed.
Lemma answered_context answer {A B} (o : option A) a why (k : A -> prog B) r :
  o = Some a -> answered answer (k a) = r -> answered answer (context_ o why ≫= k) = r.
Proof. by intros ->. Qed.

Lemma batch_is_validated config answer view block bridge historical settlement chain value input :
  view_answers view block bridge historical settlement chain ->
  same_contracts answer block bridge historical settlement chain (zeko_action_state_after (BridgeGuest.output input)) ->
  parse_bridge_input value = Some input -> bridge_address config = bv_bridge_address view ->
  bs_paused bridge = false -> bs_bridged_deposit_nonce bridge < bs_deposit_nonce bridge ->
  BridgeGuest.ethereum input = view_ethereum view bridge historical chain ->
  BridgeGuest.zeko input = {| BridgeGuest.action_state := ss_action_state settlement;
                              BridgeGuest.action_state_length := ss_outer_action_state_length settlement |} ->
  Z.of_nat (length (BridgeGuest.deposits input)) = bs_deposit_nonce bridge - bs_bridged_deposit_nonce bridge ->
  ethereum_state_after (BridgeGuest.output input) = bs_current_deposit_state bridge ->
  answered answer (validate_bridge config value (BridgeGuest.output input)) = Ok tt.
Proof.
  intros [] [Hchain Hblock Hbridge Hset Hvk] Hparse Haddr Hpaused Hlt Heth Hzeko Hcount Hstate.
  unfold is_u64, u32_MAX in *.
  assert (BridgeGuest.deposits input <> []) as Hne by (intros He; rewrite He in Hcount; cbn in Hcount; lia).
  pose proof (replay_last (BridgeGuest.ethereum input) (from_be (BridgeGuest.action_state (BridgeGuest.zeko input))) _ Hne) as Hlast.
  pose proof (BridgeGuest.length_replay (BridgeGuest.ethereum input) (from_be (BridgeGuest.action_state (BridgeGuest.zeko input)))
    (BridgeGuest.deposits input)) as Hlen.
  revert Hbridge Hstate. unfold BridgeGuest.output.
  destruct (BridgeGuest.replay _ _ _) as [acts final]. cbn [fst snd] in Hlast, Hlen.
  cbn [zeko_action_state_after ethereum_state_after]. rewrite Heth, Hzeko in *. intros Hbridge Hstate.
  cbn [view_ethereum BridgeGuest.deposit_nonce BridgeGuest.deposit_state BridgeGuest.action_state_length BridgeGuest.action_state] in *.
  unfold validate_bridge. cbn [view_ethereum BridgeGuest.chain_id BridgeGuest.bridge_address
    ethereum_nonce_before ethereum_state_before ethereum_state_after ethereum_nonce_after zeko_action_state_before
    zeko_action_state_after zeko_action_state_length_before zeko_action_state_length_after actions].
  rewrite Hcount, Hstate, Hlen.
  eapply answered_ask; [exact Hvk|]. eapply answered_context; [exact Hparse|]. eapply answered_ask; [exact Hchain|].
  eapply answered_ask; [exact Hblock|]. rewrite Heth. cbn [view_ethereum BridgeGuest.chain_id BridgeGuest.bridge_address].
  apply answered_ensure; [by apply Z.eqb_eq|]. apply answered_ensure; [by apply bool_decide_eq_true|].
  eapply answered_ask; [exact Hbridge|]. cbn [bs_paused bs_bridged_deposit_nonce bs_action_state_processed bs_program_vkey
    bs_deposit_nonce bs_current_deposit_state].
  apply answered_ensure; [by rewrite Hpaused|]. apply answered_ensure; [by apply Z.eqb_eq|].
  apply answered_ensure; [by apply bool_decide_eq_true|]. apply answered_ensure; [by apply eq_ignore_ascii_case_refl|].
  eapply answered_context; [done|]. apply answered_ensure; [by apply bool_decide_eq_true|].
  apply answered_ensure; [apply Z.eqb_eq; rewrite Z.mod_small; lia|]. apply answered_ensure; [by apply bool_decide_eq_true|].
  eapply answered_ask; [exact Hset|]. apply answered_ensure; [by apply bool_decide_eq_true|].
  apply answered_ensure; [by apply Z.eqb_eq|]. cbv zeta.
  apply answered_ensure; [apply Z.leb_le; unfold u32_MAX; lia|].
  eapply answered_context; [unfold checked_add_u32; rewrite (proj2 (Z.ltb_lt _ _)) by lia; reflexivity|].
  apply answered_ensure; [apply Z.eqb_eq; lia|]. by rewrite bool_decide_true by exact Hlast.
Qed.

End validated.

(** ** A queued batch owns its deposits *)

(** The nonces of a range. *)
Definition nonces (first last : Z) : gset Z := list_to_set (seqZ first (last - first + 1)).

Lemma elem_of_nonces first last n : n ∈ nonces first last <-> first <= n <= last.
Proof. unfold nonces. rewrite elem_of_list_to_set, elem_of_seqZ. lia. Qed.
Lemma size_nonces first last : Z.of_nat (size (nonces first last)) = Z.max 0 (last - first + 1).
Proof. unfold nonces. rewrite size_list_to_set by apply NoDup_seqZ. rewrite length_seqZ. lia. Qed.

(** A selection inside a range that has as many rows as the range has one of
    every nonce. *)
Lemma range_full {A} (P : Z * A -> Prop) `{!forall x, Decision (P x)} (m : gmap Z A) first last :
  (forall n a, P (n, a) -> first <= n <= last) ->
  Z.of_nat (size (filter P m)) = Z.max 0 (last - first + 1) ->
  forall n, first <= n <= last -> exists a, m !! n = Some a /\ P (n, a).
Proof.
  intros HP Hs n Hn. assert (dom (filter P m) = nonces first last) as Hd.
  { apply set_subseteq_size_eq.
    - intros k (a & [Hk Ha]%map_lookup_filter_Some)%elem_of_dom. apply elem_of_nonces. by eapply HP.
    - pose proof (size_nonces first last). rewrite size_dom. lia. }
  assert (n ∈ dom (filter P m)) as Hin by (rewrite Hd; by apply elem_of_nonces).
  apply elem_of_dom in Hin as [a [Ha Hp]%map_lookup_filter_Some]. by exists a.
Qed.

Section queued.
Context `{Externals} `{!BridgeJson}.

Lemma in_range_true first last nonce d : in_range first last (nonce, d) = true <-> first <= nonce <= last /\ dp_removed d = false.
Proof. unfold in_range. cbn. rewrite !andb_true_iff, !Z.leb_le, negb_true_iff. tauto. Qed.

Lemma lookup_bind_range job first last rows nonce :
  bind_range job first last rows !! nonce =
  (fun d => if in_range first last (nonce, d) then bind_to job d else d) <$> rows !! nonce.
Proof. unfold bind_range. rewrite map_lookup_imap. by destruct (rows !! nonce). Qed.

Lemma nonce_range_Ok input first last :
  nonce_range input = Ok (first, last) ->
  first = BridgeGuest.deposit_nonce (BridgeGuest.ethereum input) + 1 /\ first < 2 ^ 64 /\ last < 2 ^ 64 /\
  last = BridgeGuest.deposit_nonce (BridgeGuest.ethereum input) + Z.of_nat (length (BridgeGuest.deposits input)).
Proof.
  unfold nonce_range. intros Hn. inv_ok. repeat match goal with Hx : _ = Ok _ |- _ => apply context_Ok in Hx end.
  repeat case_match; simplify_eq. bool_props. lia.
Qed.

Lemma insert_job_there id kind input key digest now db a db' :
  insert_job id kind input key digest now db = Ok (Some a, db') -> is_Some (jobs db' !! a).
Proof.
  unfold insert_job. intros (? & ? & [= <- <-] & Ht)%tx_bind_Ok.
  apply tx_bind_Ok in Ht as (? & ? & [= <- <-] & Ht).
  destruct (find_key key (jobs db)) as [[existing j]|] eqn:Hf.
  - injection Ht as Ha <-. case_bool_decide; [injection Ha as <-|done]. unfold find_key in Hf. destruct key; [|done].
    apply fmap_Some in Hf as ([i e] & (Hl & _)%list_find_Some & Heq). cbn in Heq. subst e.
    apply list_elem_of_lookup_2, elem_of_map_to_list in Hl. by exists j.
  - apply tx_bind_Ok in Ht as (? & ? & [_ ->]%require_Ok & Ht). apply tx_bind_Ok in Ht as (? & ? & [_ ->]%require_Ok & Ht).
    apply tx_bind_Ok in Ht as (? & ? & [= <- <-] & [= <- <-]). cbn. rewrite lookup_insert_eq. by eexists.
Qed.

Lemma attach_bridge_jobs fresh name id value now db u db' :
  attach_bridge fresh name id value now db = Ok (u, db') ->
  jobs db' = jobs db /\ job_id (writer db') = Some id.
Proof.
  unfold attach_bridge. intros Ha. unfold owner, ensure_no_jobs, virtual_account in Ha. inv_tx.
  apply update_writer_Ok in Ha as (_ & _ & ->). done.
Qed.

Lemma range_count first last :
  0 < first <= last -> last < 2 ^ 64 -> wrapping_add_u64 (wrapping_sub_u64 last first) 1 = last - first + 1.
Proof.
  intros Hle Hl. unfold wrapping_add_u64, wrapping_sub_u64. rewrite Zplus_mod_idemp_l. apply Z.mod_small. lia.
Qed.

Lemma lock_jobs now db u db' : lock now db = Ok (u, db') -> jobs db' = jobs db.
Proof. intros [_ ->]%lock_Ok. by destruct (releasable _ _ _). Qed.

(** The rows the [COUNT] of a full range finds. *)
Lemma eligible_full id allow first last l :
  0 < first <= last -> eligible id allow first last l = last - first + 1 ->
  forall nonce, first <= nonce <= last -> exists d,
    deposits l !! nonce = Some d /\ dp_removed d = false /\ free_for id allow (gateway l) d = true.
Proof.
  intros Hle He nonce Hn. unfold eligible in He.
  match type of He with Z.of_nat (size (filter ?P _)) = _ =>
    destruct (range_full P (deposits l) first last) with (n := nonce) as (d & Hd & Hp) end; [|lia|done|].
  - intros n a Hna. cbn in Hna. apply andb_true_iff in Hna as [[? ?]%in_range_true _]. done.
  - exists d. cbn in Hp. apply andb_true_iff in Hp as [[_ ?]%in_range_true ?]. done.
Qed.

(** What a successful queueing means for the deposits. *)
Lemma queue_Ok id fresh name header allow input now l actual l' first last :
  nonce_range input = Ok (first, last) -> 0 < first <= last ->
  queue_deposit_batch id fresh name header allow input now l = Ok (actual, l') ->
  (forall nonce, first <= nonce <= last -> exists d,
     deposits l !! nonce = Some d /\ dp_removed d = false /\ free_for id allow (gateway l) d = true /\
     deposits l' !! nonce = Some (bind_to actual d)) /\
  (forall nonce, ~ first <= nonce <= last -> deposits l' !! nonce = deposits l !! nonce) /\
  is_Some (jobs (gateway l') !! actual) /\
  (actual = id -> job_id (writer (gateway l')) = Some id).
Proof.
  intros Hr Hle Hq. unfold queue_deposit_batch in Hq. apply ltx_bind_Ok in Hq as ([f0 l0] & ? & [Hr' ->]%try_lift_Ok & Hq).
  rewrite Hr in Hr'. injection Hr' as <- <-. cbv zeta in Hq.
  apply ltx_bind_Ok in Hq as ([] & l1 & (db1 & Hlock & ->)%on_gateway_Ok & Hq).
  destruct (nonce_range_Ok _ _ _ Hr) as (_ & Hf64 & Hl64 & _).
  inv_ltx. repeat match goal with Hx : to_i64 _ = Ok _ |- _ => apply to_i64_Ok in Hx as -> end.
  rewrite range_count in * by done. bool_props.
  match goal with Hx : eligible _ _ _ _ _ = _ |- _ => pose proof (eligible_full _ _ _ _ _ Hle Hx) as Hfull end.
  match goal with Hx : insert_job _ _ _ _ _ _ _ = Ok (_, ?db) |- _ => apply insert_job_there in Hx as Hthere; rename db into db2 end.
  match goal with Hx : (if _ then _ else _) _ _ = Ok (_, ?l0) |- _ =>
    assert (deposits l0 = deposits l /\ jobs (gateway l0) = jobs db2 /\ (actual = id -> job_id (writer (gateway l0)) = Some id))
      as (Hd & Hj & Hw) end.
  { case_bool_decide as Hid.
    - inv_ltx. match goal with Hx : attach_bridge _ _ _ _ _ _ = Ok _ |- _ => apply attach_bridge_jobs in Hx as [? ?] end. done.
    - inv_ltx. done. }
  cbn. rewrite Hj, Hd. split_and!; [| |done..].
  - intros nonce Hn. destruct (Hfull nonce Hn) as (d & Hdn & Hrm & Hfree). cbn in Hdn, Hfree. exists d. split_and!; [done..| |].
    + unfold free_for in *. destruct (dp_bridge_job_id d); [|done]. cbn in Hfree. by rewrite (lock_jobs _ _ _ _ Hlock) in Hfree.
    + rewrite lookup_bind_range, Hdn. cbn. by rewrite (proj2 (in_range_true _ _ _ _)).
  - intros nonce Hn. rewrite lookup_bind_range. destruct (deposits l !! nonce) as [d|]; [|done]. cbn.
    destruct (in_range first last (nonce, d)) eqn:Hin; [|done]. by apply in_range_true in Hin as [? _].
Qed.

(** A deposit bound to a job that is not over keeps its whole range from
    being queued. *)
Lemma queue_blocked id fresh name header allow input now l first last nonce d job :
  nonce_range input = Ok (first, last) -> 0 < first <= nonce -> nonce <= last ->
  deposits l !! nonce = Some d -> dp_bridge_job_id d = Some job -> job <> id ->
  (allow = true -> forall j, jobs (gateway l) !! job = Some j -> j_status j ∉ retryable_statuses) ->
  forall actual l', queue_deposit_batch id fresh name header allow input now l <> Ok (actual, l').
Proof.
  intros Hr Hf Hl Hd Hb Hne Hst actual l' Hq.
  apply (queue_Ok _ _ _ _ _ _ _ _ _ _ _ _ Hr) in Hq as (Hq & _); [|lia].
  destruct (Hq nonce ltac:(lia)) as (d' & Hd' & _ & Hfree & _). rewrite Hd in Hd'. injection Hd' as <-.
  unfold free_for in Hfree. rewrite Hb, bool_decide_false in Hfree by done. destruct allow; [|done]. cbn in Hfree.
  destruct (jobs (gateway l) !! job) as [j|] eqn:Hj; [|done]. unfold status_in in Hfree. cbn in Hfree.
  apply bool_decide_eq_true in Hfree. by apply (Hst eq_refl j).
Qed.

End queued.
