(* ===== verification/ExampleGateway.v ===== *)
(** * A gateway to run

    A JSON implementation for the library code the gateway calls, a database
    with an approved bridge job, and a schedule in which a worker buys the
    proof, broadcasts, crashes before recording it, and a second claim
    broadcasts again. *)

From Stdlib Require Import Ascii Decimal DecimalString.
From stdpp Require Import gmap strings countable.
From S2P Require Import Prelude Codec PublicValues BridgeValues Rpc Database Program OuterWriter.
From S2P Require Import Submission Worker System.
From S2P Require BridgeGuest.

(** ** JSON trees: a string is a leaf, 0 is null, 1 an array and 2 an object
    whose children alternate between keys and values. *)

Definition json := gen_tree string.
Definition jnull : json := GenNode 0 [].
Definition jarray (l : list json) : json := GenNode 1 l.
Fixpoint jobject (l : list (string * json)) : list json :=
  match l with [] => [] | (k, v) :: l => GenLeaf k :: v :: jobject l end.

Fixpoint find_member (key : string) (l : list json) : option json :=
  match l with
  | GenLeaf k :: v :: l => if bool_decide (k = key) then Some v else find_member key l
  | _ => None
  end.

Definition json_get (v : json) (key : string) : option json :=
  match v with GenNode 2 l => find_member key l | _ => None end.

Definition json_step (v : json) (key : string) : option json :=
  match v with
  | GenNode 1 l => u ← NilZero.uint_of_string key; l !! Nat.of_uint u
  | _ => json_get v key
  end.

(** The segments of a path, without the leading slash. *)
Fixpoint segments (s acc : string) : list string :=
  match s with
  | EmptyString => [acc]
  | String c s => if bool_decide (c = "/"%char) then acc :: segments s "" else segments s (acc ++ String c "")%string
  end.
Definition json_pointer (v : json) (path : string) : option json :=
  foldl (fun v key => v ← v; json_step v key) (Some v) (drop 1 (segments path "")).

Definition json_str (v : json) : option string := match v with GenLeaf s => Some s | _ => None end.
Definition json_array (v : json) : option (list json) := match v with GenNode 1 l => Some l | _ => None end.

Fixpoint json_print (v : json) : string :=
  match v with GenLeaf s => s | GenNode _ l => String.concat "," (map json_print l) end.

Definition json_reservation (v : json) : option ReservationToken :=
  id ← json_get v "reservationId" ≫= json_str;
  token ← json_get v "fencingToken" ≫= json_str;
  id ← parse_i64 id;
  Some {| rt_id := id; rt_fencing_token := token |}.

Definition example_bridge_input : BridgeGuest.BridgeTransitionInput := {|
  BridgeGuest.ethereum := {| BridgeGuest.chain_id := 1; BridgeGuest.bridge_address := zeros 20;
                             BridgeGuest.deposit_nonce := 0; BridgeGuest.deposit_state := zeros 32 |};
  BridgeGuest.zeko := {| BridgeGuest.action_state := zeros 32; BridgeGuest.action_state_length := 0 |};
  BridgeGuest.deposits := [] |}.

#[export] Instance example_externals : Externals := {
  Value := json;
  pointer := json_pointer;
  get := json_get;
  is_null v := bool_decide (v = jnull);
  text_of := json_str;
  as_str := json_str;
  as_array := json_array;
  strings_value l := jarray (map GenLeaf l);
  parse_reservation := json_reservation;
  parse_bridge_input _ := Some example_bridge_input;
  hex_decode := example_hex_decode;
  hex_encode := example_hex_encode;
  u256_to_string := i64_to_string;
  proof_input_digest := json_print
}.

(** ** The database *)

Definition example_values : BridgeTransitionPublicValuesV2 := {|
  ethereum_state_before := zeros 32; ethereum_state_after := zeros 32;
  ethereum_nonce_before := 0; ethereum_nonce_after := 1;
  zeko_action_state_before := zeros 32; zeko_action_state_after := zeros 32;
  zeko_action_state_length_before := 0; zeko_action_state_length_after := 1;
  actions := [{| ba_fields := replicate 5 (zeros 32); ba_state_after := zeros 32 |}] |}.
Definition example_public_values : bytes :=
  match BridgeValues.encode (E := unit) example_values with Ok b => b | _ => [] end.

Definition example_approval : Approval := {|
  approval_input_digest := ""; approval_max_pgu := 10; approval_max_price_per_pgu := 10;
  approval_base_fee_atto_prove := "1"; approval_network_max_price_per_pgu := "1";
  approval_max_cost_atto_prove := "1"; approved_at := 0 |}.
Definition example_job : Job :=
  with_approval (Some example_approval) (with_public_values (Some (hex example_public_values))
    (with_status approved (new_job Bridge jnull None "" 0))).

Definition example_owner : Owner := {|
  reservation_id := Some 9; owner_id := Some "bridge:1"%string; fencing_token := 1; expires_at := None;
  checkpoint := None; job_id := Some 1 |}.
Definition example_account : json :=
  GenNode 2 (jobject [("zkappState"%string, jarray (replicate 8 (GenLeaf "0"%string)));
                      ("actionState"%string, jarray [GenLeaf "0"%string])]).
Definition example_db : Db := {|
  jobs := {[1 := example_job]}; writer := example_owner; recovery_ready := true;
  outer_public_key := Some "outer"%string; outer_account := Some example_account;
  account_nonces := {["payer"%string := "3"%string]}; pending_commands := [] |}.

Definition example_config : WorkerConfig := {|
  execute_only := false; require_proof_approval := true; local_mock_submit := false;
  min_remaining_slots := 0; submission_min_remaining_slots := 0;
  prover_config := {| gas_limit := None; pc_max_price_per_pgu := None |};
  network_explorer_base := "https://explorer"; settlement_address := zeros 20; bridge_address := zeros 20 |}.

(** ** The outside world *)

Definition example_submission : PreparedSubmission := {|
  transaction_hash := "0xaa"; raw_transaction := "0xf8"; sender := "0x01"; nonce := 7 |}.
Definition example_settlement_state : SettlementState := {|
  ss_program_vkey := zeros 32; ss_vk_hash := zeros 32; ss_action_state := zeros 32; ss_current_root := zeros 32;
  ss_outer_state := replicate 8 (zeros 32); ss_outer_action_state_length := 0; ss_batch_sequence := 0 |}.
Definition example_bridge_state : BridgeState := {|
  bs_program_vkey := zeros 32; bs_deposit_nonce := 1; bs_current_deposit_state := zeros 32;
  bs_bridged_deposit_nonce := 0; bs_action_state_processed := Some false; bs_paused := false |}.

Definition example_answer {B} (c : call B) : B :=
  match c in call B return B with
  | NewUuid => 77
  | PrepareSubmission _ _ _ => Ok example_submission
  | BroadcastSubmission prepared => Ok (transaction_hash prepared)
  | Preflight _ _ _ => Ok (example_public_values, Some 5)
  | ReadProgramVkey _ => Ok (hex (zeros 32))
  | ReadChainId => Ok 1
  | ReadLatestBlock => Ok {| br_number := 4; br_hash := "0xb4"; br_parent_hash := "0xb3" |}
  | ReadSettlementState _ => Ok example_settlement_state
  | ReadBridgeState _ _ _ => Ok (example_bridge_state, Some (zeros 32))
  | HydrateSettlement input => Ok input
  | CurrentVirtualSlot => Ok 0
  | RequestProof _ _ _ => Ok "request"%string
  | WaitProof _ _ => Ok {| pr_public_values := example_public_values; pr_proof := zeros 4 |}
  | ReadMetrics _ => Err (message "not found")
  end.

(** [n] steps of the first thread. *)
Definition run_thread (n : nat) : list action := replicate n (DoThread 0 5 (@example_answer)).

Definition crash_after_broadcast (n : nat) : list action :=
  DoClaim example_config 3 :: run_thread n ++
  [DoStop 0; DoOperation RecoverInterrupted 10; DoClaim example_config 12] ++ run_thread 3.

(** The crash falls between the first broadcast and its record. *)
Definition crashed : Sys := end_of (start example_db) (crash_after_broadcast 23).
Definition crashed_events : list event :=
  [Requested 1; Broadcast 1 example_submission; Broadcast 1 example_submission].
Lemma crashed_run : sys_run (start example_db) crashed_events crashed.
Proof. apply trace_run. vm_compute. reflexivity. Qed.

(** ** Leases: two owners in turn, the second after the first expired. *)

Definition free_db : Db := {|
  jobs := ∅;
  writer := {| reservation_id := None; owner_id := None; fencing_token := 0; expires_at := None;
               checkpoint := None; job_id := None |};
  recovery_ready := true; outer_public_key := Some "outer"%string; outer_account := Some example_account;
  account_nonces := {["payer"%string := "3"%string]}; pending_commands := [] |}.
Definition example_acquire (fresh : uuid) (name : string) (now : Z) : action :=
  DoOperation (Acquire fresh {| ar_owner_id := name; ar_ttl_seconds := Some 30 |}
    {| br_number := 4; br_hash := "0xb4"; br_parent_hash := "0xb3" |} example_settlement_state) (now * second).
Definition two_owners : Sys := end_of (start free_db) [example_acquire 5 "alice" 0; example_acquire 6 "bob" 31].
Definition three_owners : Sys := end_of two_owners [example_acquire 7 "carol" 62].

Lemma two_owners_run : sys_run (start free_db) [] two_owners.
Proof. apply trace_run. vm_compute. reflexivity. Qed.
Lemma three_owners_run : sys_run two_owners [] three_owners.
Proof. apply trace_run. vm_compute. reflexivity. Qed.

(** ** A job whose transaction may have been broadcast *)

Definition failing_job : Job :=
  with_attempts 1 (with_prepared_transaction (Some example_submission) (with_status submitting example_job)).
Definition failing_db : Db := with_jobs {[1 := failing_job]} example_db.

(** ** A worker overtaken by a restart while it validates its job *)

Definition overtaken_worker : Sys :=
  end_of (start example_db) (DoClaim example_config 3 :: run_thread 8 ++ [DoOperation RecoverInterrupted 10]).
Lemma overtaken_worker_run : sys_run (start example_db) [] overtaken_worker.
Proof. apply trace_run. vm_compute. reflexivity. Qed.

Fixpoint answer_calls {A} (n : nat) (p : prog A) : prog A :=
  match n, p with
  | S n, Call c k => answer_calls n (k (example_answer c))
  | _, _ => p
  end.
Definition is_transaction {A} (p : prog A) : bool := match p with Transaction _ _ => true | _ => false end.

(** ** Two bridge batches in blocks that a reorganization removes *)

Definition mined_bridge (height : Z) : Job :=
  with_submitted_block (Some (height, "0xb5"%string)) (with_transaction_hash (Some "0xaa"%string)
    (with_completed_at (Some 0) (with_status confirmed (new_job Bridge jnull None "" 0)))).
Definition two_bridges_db : Db := with_jobs {[1 := mined_bridge 5; 2 := mined_bridge 6]} example_db.

(** ** A settlement proof prepared under alice's lease *)

Definition zero_field : json := GenLeaf ("0x" ++ example_hex_encode (zeros 32))%string.
Definition example_reservation : json :=
  GenNode 2 (jobject [("reservationId", GenLeaf "5"); ("fencingToken", GenLeaf "1")]%string).
Definition example_settlement : json :=
  GenNode 2 (jobject [
    ("minaTransactionHash", GenLeaf "5Jt"); ("reservation", example_reservation);
    ("proof", GenNode 2 (jobject [("binding", GenNode 2 (jobject [
      ("stateBefore", GenNode 2 (jobject [("fields", jarray (replicate 8 zero_field))]));
      ("actions", jarray [jarray [zero_field; zero_field]]);
      ("accountUpdateBody", GenNode 2 (jobject [("fieldElements", jarray (replicate 37 zero_field))]))]))]))]%string).
Definition alice_request : AcquireRequest := {| ar_owner_id := "alice"; ar_ttl_seconds := Some 30 |}.
Definition example_block : BlockRef := {| br_number := 4; br_hash := "0xb4"; br_parent_hash := "0xb3" |}.

Lemma example_text_hex n b : length b = n -> example_text n (hex b) = Some b.
Proof.
  intros Hl. unfold example_text, hex. rewrite strip_hex_prefix.
  change ((b0 ← example_hex_decode (example_hex_encode b); if (length b0 =? n)%nat then Some b0 else None) = Some b).
  rewrite example_hex_decode_encode. cbn. by rewrite Hl, Nat.eqb_refl.
Qed.
