(* ===== verification/LedgerProperties.v ===== *)
(** * Properties of the indexer's tables

    Accounts across a reorganization, and the convergence of the chain index,
    with a ledger and a chain to run them on. *)

From stdpp Require Import gmap strings countable.
From S2P Require Import Prelude Hashing Codec PublicValues BridgeValues ActionBatch Rpc Database Program OuterWriter.
From S2P Require Import Submission Worker Indexer System Ledger Accounts ChainIndex Reorganization Convergence Coordination ExplorerIndex Recovery.
From S2P Require Import ExampleGateway.

(** ** A ledger *)

Fixpoint insert_member (key : string) (v : json) (l : list json) : list json :=
  match l with
  | GenLeaf k :: old :: l => if bool_decide (k = key) then GenLeaf k :: v :: l else GenLeaf k :: old :: insert_member key v l
  | _ => [GenLeaf key; v]
  end.

#[export] Instance example_objects : JsonObjects := {
  object_insert v key x := match v with GenNode 2 l => Some (GenNode 2 (insert_member key x l)) | _ => None end;
  array_value l := (jarray l : Value);
  string_value s := (GenLeaf s : Value);
  bool_value b := (GenLeaf (if b then "true" else "false")%string : Value);
  u64_value n := (GenLeaf (i64_to_string n) : Value);
  object_value l := (GenNode 2 (jobject l) : Value);
  as_u64 v := json_str v ≫= parse_u64;
  parse_inner_action_batch _ := None;
  fields_value l := (jarray (map (fun b => GenLeaf (example_hex_encode b)) l) : Value)
}.

Definition example_columns (hash : string) (height index : Z) : DepositColumns := {|
  dc_deposit_leaf := "0x01"; dc_old_deposit_state := "0x02"; dc_new_deposit_state := "0x03"; dc_token := "0x00";
  dc_asset_id := None; dc_action_encoding_version := 0; dc_registry_index := None; dc_record_commitment := None;
  dc_sender := "0x04"; dc_zeko_recipient := "0x05"; dc_ethereum_amount := 7; dc_zeko_amount := 7; dc_timeout := 9;
  dc_block := (height, hash); dc_transaction_hash := "0x06"; dc_log_index := index |}.
Definition example_deposit (hash : string) (height index : Z) : DepositRow := {|
  dp_columns := example_columns hash height index; dp_bridge_job_id := None; dp_outer_action := None;
  dp_synchronized := None; dp_removed := false |}.

Definition payer_account : json := GenNode 2 (jobject [("nonce"%string, GenLeaf "3"%string)]).
Definition example_ledger : Ledger := {|
  gateway := with_jobs {[1 := mined_bridge 5]} example_db;
  accounts := <[("outer", "1")%string := {| account_json := (example_account : Value); ac_block := None |}]>
    {[("payer", "1")%string := {| account_json := (payer_account : Value); ac_block := None |}]};
  history := ∅;
  gateway_actions := ∅;
  deposits := {[1 := example_deposit "0xb4" 4 0]};
  leaves := ∅;
  blocks := ∅;
  config_head := (0, ""%string);
  settlement_events := ∅; transition_events := ∅; claims := ∅; explorer_last_block := None |}.

(** The bridge batch of job 1, confirmed in block 5. *)
Definition example_confirmation : ltx unit :=
  apply_confirmed (H1 := checksum_keccak) ConfirmBridge 1 (hex example_public_values) (5, "0xb5"%string) "0xaa".
Definition confirmed_ledger : Ledger := (commit example_confirmation 10 example_ledger).2.
Definition outer_json (l : Ledger) : option Value := account_json <$> accounts l !! ("outer", "1")%string.

Definition rolled_back_ledger : Ledger := (commit (Ledger.rollback_after 4) 20 confirmed_ledger).2.

(** ** A chain of three blocks with one deposit *)

Definition settlement_bytes : bytes :=
  match V1.encode (E := unit) PublicValues.Examples.v1 with Ok b => b | _ => [] end.
Definition example_hash (n : Z) : string := ("0xb" ++ i64_to_string n)%string.
Definition example_chain (n : Z) : BlockRef := {|
  br_number := n; br_hash := example_hash n; br_parent_hash := example_hash (n - 1) |}.
Definition example_log : BridgeDepositLog := {|
  bl_nonce := 1; bl_deposit_leaf := "0x01"; bl_new_deposit_state := "0x03"; bl_old_deposit_state := "0x02";
  bl_token := "0x00"; bl_sender := "0x04"; bl_zeko_recipient := "0x05"; bl_amount := 7; bl_zeko_amount := 7;
  bl_timeout := 9; bl_erc20_identity := None; bl_block_number := 2; bl_block_hash := "0xb2";
  bl_transaction_hash := "0x06"; bl_log_index := 1 |}.
Definition example_logs (n : Z) : list BridgeDepositLog := if n =? 2 then [example_log] else [].
Definition example_node : Node := {|
  block_at := fun _ n => Ok (example_chain n);
  deposit_logs_at := fun _ block => Ok (example_logs (br_number block));
  settlement_logs_at := fun _ _ _ => Ok [];
  batch_logs_at := fun _ _ _ => Ok [];
  transition_logs_at := fun _ _ _ => Ok [];
  claim_logs_at := fun _ _ _ => Ok [];
  head_at := fun _ => Ok 2;
  finalized_block_at := fun _ => Ok (example_chain 0);
  public_values_at := fun _ kind _ => Ok (match kind with Bridge => example_public_values | Settlement => settlement_bytes end);
  receipt_at := fun _ _ => Ok None;
  uuid_at := fun t => Z.of_nat (100 + t);
  now_at := fun t => Z.of_nat t |}.
Definition index_config : IndexConfig := {|
  ic_start_block := Some 0; ic_finality_mode := Confirmations; ic_confirmations := 2;
  ic_fee_payer_public_key := Some "payer"%string |}.

(** Block 1 is indexed with a hash of another fork, and the deposit with it. *)
Definition fork_row : BlockRow := {|
  bk_hash := "0xf1"; bk_parent := "0xb0"; bk_canonical := true; bk_finalized := true |}.
Definition stale_ledger : Ledger := {|
  gateway := example_db;
  accounts := ∅; history := ∅; gateway_actions := ∅;
  deposits := {[1 := example_deposit "0xf1" 1 0]};
  leaves := ∅;
  blocks := <[1 := fork_row]> {[0 := block_row (example_chain 0)]};
  config_head := (1, "0xf1"%string);
  settlement_events := ∅; transition_events := ∅; claims := ∅; explorer_last_block := None |}.

(** A settlement mined in block 10, orphaned, mined again in block 12 and
    orphaned again. *)
Definition settlement_text : string := hex settlement_bytes.
Definition settlement_input : json :=
  GenNode 2 (jobject [
    ("submission", GenNode 2 (jobject [("outerAccountPublicKey", GenLeaf "outer"); ("feePayerPublicKey", GenLeaf "payer");
                                       ("nonce", GenLeaf "3"); ("commandBase64", GenLeaf "AA==")]));
    ("proof", GenNode 2 (jobject [("binding", GenNode 2 (jobject [("actions", jarray [jarray [zero_field]])]))]))]%string).
Definition mined_settlement : Job :=
  with_submitted_block (Some (10, "0xb10"%string)) (with_transaction_hash (Some "0xcc"%string)
    (with_status confirmed (new_job Settlement (settlement_input : Value) None "" 0))).
Definition settlement_ledger : Ledger :=
  with_gateway (with_jobs {[1 := mined_settlement]} example_db) example_ledger.
Definition mine (height now : Z) (l : Ledger) : outcome error unit * Ledger :=
  commit (apply_confirmed_settlement (H1 := checksum_keccak) 1 (settlement_input : Value) settlement_text
            (height, example_hash height) "0xcc") now l.
Definition orphan_above (ancestor now : Z) (l : Ledger) : outcome error unit * Ledger :=
  commit (Ledger.rollback_after ancestor) now l.
Definition served_actions (l : Ledger) : list Z :=
  omap (fun e => if gt_removed e.2 then None else Some (gt_block e.2).1) (map_to_list (gateway_actions l)).

(** ** Accepted events without confirmed jobs

    The bridge batch of job 1 in block 5 was accepted, and in block 10 a
    settlement the gateway knows nothing of. *)
Definition accepted_transition : TransitionEvent := {|
  te_old_action_state := "0x00"; te_new_action_state := "0x00"; te_new_deposit_state := "0x00";
  te_new_deposit_nonce := 1; te_block := (5, "0xb5"%string); te_removed := false |}.
Definition accepted_settlement : SettlementEvent := {|
  se_batch_sequence := 1; se_mina_transaction_hash := "0x00"; se_ledger_hash := "0x00"; se_outer_action_state := "0x00";
  se_outer_action_state_length := 1; se_inner_action_state := "0x00"; se_inner_action_state_length := 0;
  se_slot_lower := 0; se_slot_upper := 0; se_inner_batch := None; se_block := (10, "0xb10"%string);
  se_removed := false |}.
Definition final_row (hash : string) : BlockRow := {|
  bk_hash := hash; bk_parent := ""; bk_canonical := true; bk_finalized := true |}.
Definition lost_ledger : Ledger :=
  with_transition_events {[("0xaa"%string, 0) := accepted_transition]}
    (with_settlement_events {[("0xcc"%string, 0) := accepted_settlement]}
      (with_blocks (<[5 := final_row "0xb5"]> {[10 := final_row "0xb10"]}) example_ledger)).
Definition recovered_run : outcome error unit * (nat * Ledger) :=
  recover_gateway_state (H1 := checksum_keccak) index_config example_node (0%nat, lost_ledger).

Example confirmation_commits :
  is_ok (commit example_confirmation 10 example_ledger).1 && negb (bool_decide (outer_json confirmed_ledger = outer_json example_ledger)) = true.
Proof. vm_compute. reflexivity. Qed.

Lemma example_range n : 0 <= n <= 2 -> n = 0 \/ n = 1 \/ n = 2.
Proof. lia. Qed.
Ltac cases_range H := apply example_range in H as [->|[->| ->]].

Lemma example_on_chain log : on_chain example_logs 2 log -> log = example_log.
Proof. intros (n & Hn & Hin). cases_range Hn; cbn in Hin; set_solver. Qed.

Lemma example_stable : stable example_chain example_logs 2 example_node.
Proof.
  split.
  - lia.
  - done.
  - done.
  - done.
  - intros n m Hn Hm Hh. cases_range Hn; cases_range Hm; try done; vm_compute in Hh; discriminate.
  - done.
  - intros n log Hn Hin. cases_range Hn; cbn in Hin; [by apply elem_of_nil in Hin..|].
    apply list_elem_of_singleton in Hin as ->. split; cbn; try done; lia.
  - intros log log' ->%example_on_chain ->%example_on_chain. done.
  - intros log log' ->%example_on_chain ->%example_on_chain. done.
Qed.

Lemma stale_block n b :
  canonical_block stale_ledger n = Some b -> n = 0 /\ b = block_row (example_chain 0) \/ n = 1 /\ b = fork_row.
Proof.
  intros [Hb _]%canonical_block_Some. cbn in Hb. apply lookup_insert_Some in Hb as [[<- <-]|[_ Hb]]; [by right|].
  apply lookup_singleton_Some in Hb as [<- <-]. by left.
Qed.
Lemma stale_row_0 : canonical_block stale_ledger 0 = Some (block_row (example_chain 0)).
Proof. reflexivity. Qed.
Lemma stale_row_1 : canonical_block stale_ledger 1 = Some fork_row.
Proof. reflexivity. Qed.

Lemma stale_linked : linked example_chain stale_ledger.
Proof.
  split.
  - intros n b [[-> _]|[-> _]]%stale_block; lia.
  - intros n m k [b Hb] [b' Hb'] Hk. apply stale_block in Hb, Hb'.
    assert (k = 0 \/ k = 1) as [->| ->] by lia; [rewrite stale_row_0|rewrite stale_row_1]; by eexists.
  - intros n b b' [[-> ->]|[-> ->]]%stale_block Hb'; apply stale_block in Hb' as [[? ->]|[? ->]]; (done || lia).
  - by intros b [[_ ->]|[? _]]%stale_block.
Qed.

Lemma stale_logged : logged example_chain example_logs 2 stale_ledger.
Proof.
  split.
  - intros nonce c (d & Hd & _ & <-). cbn in Hd. apply lookup_singleton_Some in Hd as [<- <-].
    exists fork_row. split; [apply stale_row_1|]. split; [done|]. intros _ Hh. vm_compute in Hh. discriminate.
  - intros n b log Hb _ Hh Hin. apply stale_block in Hb as [[-> ->]|[-> ->]]; [by apply elem_of_nil in Hin|].
    vm_compute in Hh. discriminate.
Qed.

Lemma stale_consistent : consistent example_chain example_logs 2 Confirmations None stale_ledger.
Proof.
  split.
  - intros m b n Hb Hn Hh. cbn in Hb. apply lookup_insert_Some in Hb as [[<- <-]|[_ Hb]].
    + cases_range Hn; vm_compute in Hh; discriminate.
    + apply lookup_singleton_Some in Hb as [<- <-]. cases_range Hn; [done|vm_compute in Hh; discriminate..].
  - intros nonce d log Hd ->%example_on_chain _ Hi. cbn in Hd. apply lookup_singleton_Some in Hd as [<- <-].
    by cbn in Hi.
  - done.
Qed.

Lemma stale_rolls_back : rolls_back 2 stale_ledger.
Proof. intros a now Ha. cases_range Ha; vm_compute; reflexivity. Qed.

(** ** Properties *)

Section properties.
Context `{Externals}.



(** C5. Recovery completes, and then does nothing.  Whatever run of
    [recover_gateway_state] from well-typed rows, failed or cut short by the
    node, keeps the accepted events, the typing of the rows and every event
    already applied; and a run that succeeds leaves every accepted event
    applied under a confirmed job with a snapshot, so that the next run ends at
    once, without a question to the node or a change of any table. *)
Theorem recovery_completes `{E : Externals} `{J : !JsonObjects} `{K : Keccak} config node t l r t' l' :
  (forall fields key v, (key, v) ∈ fields -> is_Some (get (object_value fields) key)) ->
  all_typed (gateway l) ->
  recover_gateway_state config node (t, l) = (r, (t', l')) ->
  accepted_events l' = accepted_events l /\ all_typed (gateway l') /\
  (forall hash, already_applied hash l = true -> already_applied hash l' = true) /\
  (r = Ok tt ->
     (forall e, e ∈ accepted_events l -> already_applied (ae_transaction_hash e) l' = true) /\
     forall node', recover_gateway_state config node' (t', l') = (Ok tt, (t', l'))).
Proof.
  intros Hget Hty Hrun. pose proof (recover_all_replay Hget node config (accepted_events l) (t, l)) as Hy.
  unfold yields in Hy. change (recover_gateway_state config node (t, l))
    with (for_logs (recover_accepted config) (accepted_events l) node (t, l)) in Hrun.
  rewrite Hrun in Hy. destruct Hy as [[Hg Hk] Hs]. cbn [fst snd] in *.
  destruct (Hk Hty) as [Hty' Happ]. pose proof (accepted_events_grow _ _ Hg) as He.
  split_and!; [done..|]. intros ->. specialize (Hs eq_refl Hty). split; [intros e ?; by apply Hs|].
  intros node'. change (recover_gateway_state config node' (t', l'))
    with (for_logs (recover_accepted config) (accepted_events l') node' (t', l')).
  rewrite He. by apply replayed_again.
Qed.

(** The indexer's transactions are steps of the gateway.  Seen from the
    jobs, the writer row and the account columns the gateway reads, applying a
    confirmed receipt and indexing a block are single steps of the system,
    committed or not, and a rollback is the system's rollback and nothing
    else; so what holds of all runs of the system holds with these
    transactions in it. *)
Theorem ledger_refines_gateway `{E : Externals} `{J : !JsonObjects} `{K : Keccak} s l now :
  sdb s = gateway l ->
  (forall c job values block hash,
     sys_step s [] (with_sdb (gateway (commit (apply_confirmed c job values block hash) now l).2) s)) /\
  (forall block logs,
     sys_step s [] (with_sdb (gateway (commit (for_each (insert_deposit block) logs;; insert_block block) now l).2) s)) /\
  (forall ancestor, exists tr, (tr = [] \/ tr = [Reorganized]) /\
     sys_run s tr (with_sdb (gateway (commit (Ledger.rollback_after ancestor) now l).2) s)).
Proof.
  intros Hs. split_and!.
  - intros. apply accounts_only_step. rewrite Hs. apply commit_framed, apply_confirmed_framed.
  - intros. apply accounts_only_step. rewrite Hs. apply commit_framed, index_block_framed.
  - intros ancestor. destruct (rollback_run s now l ancestor Hs) as (tr & Hrun & Htr). by exists tr.
Qed.

(** An action row of a settlement that was mined, orphaned and mined again
    keeps the block where it was first seen: the conflict only sets [removed]
    back.  When the second block is orphaned too, the rollback compares the
    first one with the ancestor and the orphaned action stays served. *)
Theorem remined_action_outlives_rollback `{E : Externals} `{J : !JsonObjects} `{K : Keccak} job input submission text b values block hash now
    ancestor now' l old :
  decode_receipt text = Ok b -> settlement_values b = Ok values -> get input "submission" = Some submission ->
  has_history job l = false ->
  let key := (hash, 0, V1.outer_action_state_length_after (settlement_of values)) in
  gateway_actions l !! key = Some old -> (gt_block old).1 <= ancestor -> ancestor < block.1 ->
  let applied := commit (apply_confirmed_settlement job input text block hash) now l in
  let rolled := commit (Ledger.rollback_after ancestor) now' applied.2 in
  applied.1 = Ok tt -> rolled.1 = Ok tt ->
  exists a, gateway_actions rolled.2 !! key = Some a /\ gt_removed a = false.
Proof.
  intros Hb Hv Hsub Hno key Hold Hle _ applied rolled Happ Hroll.
  assert (gateway_actions applied.2 !! key = Some (reinstate old)) as Hrow.
  { subst applied. unfold commit in *. destruct (apply_confirmed_settlement job input text block hash now l) as [[u l1]| |] eqn:Hr; try done.
    cbn. unfold apply_confirmed_settlement in Hr. inv_ltx.
    repeat match goal with Hx : ?o = Ok ?x, Hy : ?o = Ok ?y |- _ => assert (x = y) as <- by congruence; clear Hy end.
    rewrite Hsub in Hr. destruct (has_history job _) eqn:Hno'; [by unfold has_history in *; cbn in *; congruence|].
    cbn in Hr. eapply settlement_action; [exact Hr|exact Hold]. }
  unfold rolled in Hroll |- *. unfold commit in Hroll |- *.
  destruct (Ledger.rollback_after ancestor now' applied.2) as [[[] l2]| |] eqn:Hr; try done.
  apply rollback_after_Ok in Hr as (db & _ & -> & _). cbn. rewrite lookup_fmap, Hrow. cbn.
  eexists. split; [done|]. cbn. lia.
Qed.

Lemma moved_deposit_fails `{E : Externals} node t block log rest l nonce d :
  deposit_logs_at node t block = Ok (log :: rest) ->
  deposits l !! nonce = Some d -> nonce <> bl_nonce log ->
  dc_transaction_hash (dp_columns d) = bl_transaction_hash log -> dc_log_index (dp_columns d) = bl_log_index log ->
  exists e, index_bridge_deposits block node (t, l) = (Err e, (S (S t), l)).
Proof.
  intros Hlogs Hd Hne Htx Hix. unfold index_bridge_deposits, mbind, ix_bind, node_deposit_logs. cbn [fst snd].
  rewrite Hlogs. unfold execute, commit. cbn [fst snd].
  assert (deposit_unique (bl_nonce log) (deposit_columns log) (deposits l) = false) as Hu.
  { apply bool_decide_eq_false. intros Hall. specialize (Hall _ _ Hd). cbn in Hall. naive_solver. }
  assert (exists e, insert_deposit block log (now_at node (S t)) l = Err e) as [e He].
  { assert (forall z, to_i64 z = Ok z \/ exists e, to_i64 z = Err e) as Hi.
    { intros z. unfold to_i64. destruct (z <? 2 ^ 63); eauto. }
    unfold insert_deposit, check, try_lift, mbind, ltx_bind. cbn -[deposit_unique deposit_columns Z.ltb to_i64].
    destruct ((_ =? _) && _); [|by eexists]. cbn -[deposit_unique deposit_columns Z.ltb to_i64].
    destruct (Hi (bl_nonce log)) as [->|[e ->]]; [|by eexists].
    destruct (Hi (bl_timeout log)) as [->|[e ->]]; [|by eexists].
    destruct (Hi (bl_block_number log)) as [->|[e ->]]; [|by eexists].
    destruct (Hi (bl_log_index log)) as [->|[e ->]]; [|by eexists].
    cbn -[deposit_unique deposit_columns Z.ltb].
    destruct ((0 <? bl_nonce log) && (0 <? bl_amount log) && (0 <? bl_zeko_amount log)); [|by eexists].
    cbn -[deposit_unique deposit_columns]. rewrite Hu. by eexists. }
  exists e. unfold mbind, ltx_bind. cbn [for_each]. unfold mbind, ltx_bind. by rewrite He.
Qed.

(** A reorganization can stop the index for ever.  The tip is on the chain,
    and the first deposit of the next block now has the transaction and log
    index under which a later deposit, removed or not, is still stored.  Only
    [nonce] resolves conflicts, so every call fails without a change. *)
Theorem moved_deposit_stops_index `{E : Externals} fuel config head finalized_block node t l tip block log rest nonce d :
  latest_block l = Some (tip, br_parent_hash block) -> 0 <= tip < head -> head < 2 ^ 63 ->
  (forall t, block_at node t (tip + 1) = Ok block) -> br_number block = tip + 1 ->
  (forall t, deposit_logs_at node t block = Ok (log :: rest)) ->
  deposits l !! nonce = Some d -> nonce <> bl_nonce log ->
  dc_transaction_hash (dp_columns d) = bl_transaction_hash log -> dc_log_index (dp_columns d) = bl_log_index log ->
  exists e t', index_blocks (S fuel) config head finalized_block node (t, l) = (Err e, (t', l)).
Proof.
  intros Hlat Htip Hhead Hblock Hnum Hlogs Hd Hne Htx Hix.
  assert (yields node (index_blocks (S fuel) config head finalized_block) (t, l)
            (fun r s => (exists e, r = Err e) /\ s.2 = l)) as Hy.
  { pose proof (latest_block_highest l) as Hh. rewrite Hlat in Hh. destruct Hh as [(b & Hb & Hc & Hbh) _].
    assert (canonical_hash l tip = Some (br_parent_hash block)) as Hhash.
    { unfold canonical_hash. rewrite (proj2 (canonical_block_Some l tip b)) by done. cbn. congruence. }
    unfold index_blocks, current_tip. apply yields_bind, yields_bind, yields_select. cbn [onwards snd]. rewrite Hlat.
    apply yields_bind, yields_lift. unfold to_u64. rewrite (proj2 (Z.leb_le 0 tip)) by lia. cbn [onwards].
    rewrite (proj2 (Z.leb_gt head tip)) by lia. apply yields_mret. cbn [onwards].
    apply yields_bind, yields_lift. unfold first_block, to_u64. rewrite (proj2 (Z.leb_le 0 tip)) by lia.
    cbn [mbind outcome_bind onwards]. apply yields_bind. cbn [index_through].
    rewrite (proj2 (Z.leb_le (tip + 1) head)) by lia. apply yields_bind.
    unfold yields at 1, node_block. cbn [fst snd]. rewrite Hblock. cbn [onwards]. apply yields_bind.
    unfold ensure_parent. rewrite Hnum, (proj2 (Z.eqb_neq _ _)) by lia. replace (tip + 1 - 1) with tip by lia.
    apply yields_bind, yields_lift. rewrite to_i64_small by lia. cbn [onwards].
    apply yields_bind, yields_select. cbn [onwards snd]. rewrite Hhash, bool_decide_eq_true_2 by done.
    apply yields_mret. cbn [onwards]. apply yields_bind.
    destruct (moved_deposit_fails node (S t) block log rest l nonce d) as [e He]; try done.
    unfold yields at 1. rewrite He. cbn. split; [by eexists|done]. }
  unfold yields in Hy. destruct (index_blocks _ _ _ _ _ _) as [r [t' l']]. cbn in Hy.
  destruct Hy as [[e ->] ->]. by exists e, t'.
Qed.

End properties.

(** ** Witnesses *)

Lemma example_run : confirmed_run (H1 := checksum_keccak) 4 example_ledger 5 10 confirmed_ledger.
Proof.
  apply (confirmed_apply (H1 := checksum_keccak) 4 example_ledger 0 0 example_ledger ConfirmBridge 1
           (hex example_public_values) (5, "0xb5"%string) "0xaa" 10); [apply confirmed_none|cbn; lia..].
Qed.

Lemma is_ok_unit (r : outcome error unit) : is_ok r = true -> r = Ok tt.
Proof. by destruct r as [[]| |]. Qed.



Lemma find_member_object fields key (v : json) : (key, v) ∈ fields -> is_Some (find_member key (jobject fields)).
Proof.
  induction fields as [|[k x] fields IH]; [by intros ?%elem_of_nil|]. intros Hin. cbn.
  case_bool_decide as Hk; [by eexists|]. apply elem_of_cons in Hin as [[= -> ->]|Hin]; [done|by apply IH].
Qed.
Lemma mined_bridge_typed height : typed (mined_bridge height).
Proof. fresh_typed. Qed.

Lemma triple_eta {A B C} (p : A * (B * C)) : p = (p.1, (p.2.1, p.2.2)).
Proof. by destruct p as [? []]. Qed.

Lemma recovery_completes_witness :
  map ae_transaction_hash (accepted_events lost_ledger) = ["0xaa"; "0xcc"]%string /\
  existsb (fun hash => already_applied hash lost_ledger) ["0xaa"; "0xcc"]%string = false /\
  (forall e, e ∈ accepted_events lost_ledger -> already_applied (ae_transaction_hash e) recovered_run.2.2 = true) /\
  recover_gateway_state (H1 := checksum_keccak) index_config example_node recovered_run.2 = (Ok tt, recovered_run.2).
Proof.
  split; [vm_compute; reflexivity|]. split; [vm_compute; reflexivity|].
  assert (recovered_run.1 = Ok tt) as Hok by (apply is_ok_unit; vm_compute; reflexivity).
  destruct (recovery_completes (K := checksum_keccak) index_config example_node 0 lost_ledger recovered_run.1
              recovered_run.2.1 recovered_run.2.2) as (_ & _ & _ & Hdone).
  - exact find_member_object.
  - intros id j Hj. cbn in Hj. apply lookup_singleton_Some in Hj as [_ <-]. apply mined_bridge_typed.
  - exact (triple_eta recovered_run).
  - destruct (Hdone Hok) as [Happ Hagain]. split; [exact Happ|]. rewrite (surjective_pairing recovered_run.2). apply Hagain.
Defined.

Lemma ledger_refines_gateway_witness :
  let s := start (gateway example_ledger) in
  sys_step s [] (with_sdb (gateway confirmed_ledger) s).
Proof.
  destruct (ledger_refines_gateway (K := checksum_keccak) (start (gateway example_ledger)) example_ledger 10 eq_refl)
    as [Hs _]. exact (Hs ConfirmBridge 1 (hex example_public_values) (5, "0xb5"%string) "0xaa"%string).
Defined.

Example remined_action_run :
  let mined := mine 10 1 settlement_ledger in
  let orphaned := orphan_above 9 2 mined.2 in
  let again := mine 12 3 orphaned.2 in
  let orphaned_again := orphan_above 11 4 again.2 in
  (is_ok mined.1, is_ok orphaned.1, is_ok again.1, is_ok orphaned_again.1,
   served_actions mined.2, served_actions orphaned.2, served_actions again.2, served_actions orphaned_again.2) =
  (true, true, true, true, [10], [], [10], [10]).
Proof. vm_compute. reflexivity. Qed.
