(* ===== verification/GatewayProperties.v ===== *)
(** * What the gateway promises

    The properties of the running gateway: one writer, dead tokens stay dead,
    one signed transaction and one bought proof per job over every
    interleaving, crash and reorganization, and the failure, retry and
    rollback behaviour of its parts. *)

From stdpp Require Import gmap strings.
From S2P Require Import Prelude Codec PublicValues BridgeValues Rpc Database Program OuterWriter.
From S2P Require Import Submission Worker Indexer TxLogic Coordination Gateway Fencing System Admission.
From S2P Require Import ExampleGateway.

(** ** Runs of the whole gateway *)

(** C1. Whatever workers, API calls, crashes, restarts and chain
    reorganizations are interleaved, every broadcast of a job carries the one
    signed transaction that is stored with it, and its proof is bought at
    most once. *)
Theorem gateway_submits_once `{Externals} db tr s :
  sys_run (start db) tr s ->
  (forall id q1 q2, Broadcast id q1 ∈ tr -> Broadcast id q2 ∈ tr -> q1 = q2) /\
  (forall id q, Broadcast id q ∈ tr -> stored id q (sdb s)) /\
  (forall id, (requests id tr <= 1)%nat).
Proof.
  intros Hr. destruct (wf_run _ _ _ Hr) as [l [_ _ _ Hb Ho _]]. split_and!; [|exact Hb|].
  - intros id q1 q2 (j1 & Hj1 & Hq1)%Hb (j2 & Hj2 & Hq2)%Hb. congruence.
  - intros id. specialize (Ho id). lia.
Qed.

(** One purchase and two broadcasts, of the same transaction. *)
Lemma gateway_submits_once_witness :
  sys_run (start example_db) crashed_events crashed /\ stored 1 example_submission (sdb crashed).
Proof.
  split; [apply crashed_run|]. apply (gateway_submits_once _ _ _ crashed_run). right. left.
Defined.

(** C3. As long as no settled outcome is taken back by a reorganization, at
    most one job is unfinished, and the outer-writer row belongs to it. *)
Theorem gateway_one_writer `{Externals} db tr s :
  one_writer db -> sys_run (start db) tr s -> Reorganized ∉ tr ->
  (forall id, unfinished (sdb s) id -> job_id (writer (sdb s)) = Some id) /\
  (forall id1 id2, unfinished (sdb s) id1 -> unfinished (sdb s) id2 -> id1 = id2).
Proof.
  intros Hi Hr Hn. destruct (run_one_writer _ _ _ Hr Hn Hi) as [Ho _]. split; [exact Ho|].
  intros id1 id2 H1%Ho H2%Ho. unfold owns in *. congruence.
Qed.

Lemma gateway_one_writer_witness :
  one_writer example_db /\ forall id, unfinished (sdb crashed) id -> job_id (writer (sdb crashed)) = Some id.
Proof.
  assert (one_writer example_db) as Hi.
  { split; [intros id (j & Hj & _)|intros id j Hj];
      change (jobs example_db) with ({[1 := example_job]} : gmap uuid Job) in Hj;
      apply lookup_singleton_Some in Hj as [<- <-]; done. }
  split; [exact Hi|]. apply (gateway_one_writer _ _ _ Hi crashed_run).
  intros Hin. apply list_elem_of_In in Hin. destruct Hin as [|[|[|[]]]]; discriminate.
Defined.

(** C16. A reservation token that was issued but no longer owns the writer
    row never owns it again, whatever happens afterwards. *)
Theorem fenced_token_stays_dead `{Externals} db tr1 s1 tr2 s2 token value :
  sys_run (start db) tr1 s1 -> sys_run s1 tr2 s2 ->
  parse_i64 (rt_fencing_token token) = Some value -> value <= fencing_token (writer (sdb s1)) ->
  owner_matches (writer (sdb s1)) token = false -> owner_matches (writer (sdb s2)) token = false.
Proof.
  intros H1 H2 Hv Hle Hm. destruct (run_forward _ _ _ _ _ H1 H2) as [[Hf He] _].
  apply not_true_iff_false. intros Hm2. unfold owner_matches in *.
  apply andb_true_iff in Hm2 as [Hid%bool_decide_eq_true Hft%bool_decide_eq_true].
  assert (value = fencing_token (writer (sdb s2))) as -> by congruence.
  destruct He as [He|He]; [lia| |congruence].
  rewrite !bool_decide_eq_true_2 in Hm; [done| |congruence]. rewrite Hft. f_equal. lia.
Qed.

Lemma fenced_token_stays_dead_witness :
  let alice := {| rt_id := 5; rt_fencing_token := "1" |} in
  owner_matches (writer (sdb (end_of (start free_db) [example_acquire 5 "alice" 0]))) alice = true /\
  owner_matches (writer (sdb three_owners)) alice = false.
Proof.
  split; [vm_compute; reflexivity|].
  apply (fenced_token_stays_dead free_db [] two_owners [] three_owners _ 1).
  - apply two_owners_run.
  - apply three_owners_run.
  - vm_compute. reflexivity.
  - vm_compute. discriminate.
  - vm_compute. reflexivity.
Defined.

(** ** Retries *)

(** The loop stops at the first reply that must not be retried. *)
Lemma execute_loop_spec read_only replies attempt remaining :
  let '(result, sent) := execute_loop read_only replies attempt remaining in
  (attempt < sent <= attempt + remaining + 1)%nat /\
  (forall i, (attempt <= i < sent - 1)%nat -> reply_transient (replies i) = true /\ read_only = true) /\
  ((result = reply_result (replies (sent - 1)%nat) /\
    (reply_transient (replies (sent - 1)%nat) = false \/ read_only = false)) \/
   (result = Unavailable (replies (sent - 1)%nat) /\ reply_transient (replies (sent - 1)%nat) = true /\
    read_only = true /\ sent = (attempt + remaining + 1)%nat)).
Proof.
  revert attempt. induction remaining as [|remaining IH]; intros attempt; cbn [execute_loop];
    destruct (reply_transient (replies attempt)) eqn:Ht, read_only; cbn [negb orb]; cbv iota beta;
    try (replace (S attempt - 1)%nat with attempt by lia; split_and!; [lia|lia|intros; lia|solve [rewrite Ht; auto]]).
  - replace (S attempt - 1)%nat with attempt by lia. split_and!; [lia|lia|intros; lia|right].
    split_and!; [done|done|done|lia].
  - specialize (IH (S attempt)). destruct (execute_loop _ _ _ _) as [result sent].
    destruct IH as ([H1 H2] & H3 & H4). split_and!; [lia|lia| |].
    + intros i Hi. destruct (decide (i = attempt)) as [->|Hne]; [done|]. apply H3. lia.
    + destruct H4 as [?|(? & ? & ? & ?)]; [by left|right]. split_and!; auto; lia.
Qed.

(** C39. A request to the Ethereum node terminates after at most
    [max_retries + 1] sends; a request that may have an effect is sent exactly
    once, and a read is only sent again after a transient failure, and given
    up as unavailable only when every allowed send failed so. *)
Theorem rpc_execute_bounded config methods replies :
  let '(result, sent) := execute config methods replies in
  (1 <= sent <= Z.to_nat (max_retries config) + 1)%nat /\
  (forallb is_read_method methods = false -> sent = 1%nat /\ result = reply_result (replies 0%nat)) /\
  (forall i, (i < sent - 1)%nat -> reply_transient (replies i) = true) /\
  (forall last, result = Unavailable last ->
     sent = (Z.to_nat (max_retries config) + 1)%nat /\
     forall i, (i < sent)%nat -> reply_transient (replies i) = true) /\
  (forall packet, result = Answer packet -> packet = replies (sent - 1)%nat).
Proof.
  unfold execute. pose proof (execute_loop_spec (forallb is_read_method methods) replies 0
    (Z.to_nat (max_retries config))) as Hs.
  destruct (execute_loop _ _ _ _) as [result sent]. destruct Hs as (Hn & Hi & Hr). split_and!; [lia|lia| | | |].
  - intros Hf. rewrite Hf in Hr. assert (sent = 1%nat) as ->.
    { destruct (decide (sent = 1%nat)); [done|]. destruct (Hi 0%nat ltac:(lia)); congruence. }
    split; [done|]. by destruct Hr as [[? _]|(_ & _ & ? & _)].
  - intros i Hlt. by apply Hi; lia.
  - intros last ->. destruct Hr as [[Hr _]|(_ & Ht & _ & Hs)]; [by destruct (replies _)|].
    split; [lia|]. intros i Hlt. destruct (decide (i = (sent - 1)%nat)) as [->|Hne]; [done|]. by apply Hi; lia.
  - intros packet ->. destruct Hr as [[Hr _]|[? _]]; [|done]. destruct (replies _); cbn in Hr; congruence.
Qed.

Lemma shiftl_1_small n : 0 <= n -> Z.shiftl 1 (Z.min n 8) = 2 ^ Z.min n 8.
Proof. intros Hn. rewrite Z.shiftl_mul_pow2 by lia. lia. Qed.

(** The delay before a retry doubles from its base (30 s when the account
    is out of funds, 2 s otherwise) up to 300 s, the cap on the shift hiding
    no doubling, and jitter adds at most a quarter, so it is between 2 and
    375 s. *)
Theorem retry_delay_bounds attempt class jitter :
  0 <= attempt -> 0 <= jitter ->
  let base := if bool_decide (class = InsufficientFunds) then 30 else 2 in
  let seconds := Z.min (base * 2 ^ attempt) 300 in
  seconds <= retry_delay attempt class jitter <= seconds + seconds / 4 /\
  2 <= retry_delay attempt class jitter <= 375.
Proof.
  intros Ha Hj. cbv zeta. unfold retry_delay. rewrite shiftl_1_small by done. set (base := if bool_decide (class = InsufficientFunds) then 30 else 2).
  assert (2 <= base <= 30) as Hb by (unfold base; case_bool_decide; lia).
  assert (Z.min (base * 2 ^ Z.min attempt 8) 300 = Z.min (base * 2 ^ attempt) 300) as ->.
  { destruct (Z.le_ge_cases attempt 8) as [Hle|Hge]; [by rewrite (Z.min_l attempt)|].
    rewrite (Z.min_r attempt 8) by lia. pose proof (Z.pow_le_mono_r 2 8 attempt ltac:(lia) ltac:(lia)).
    change (2 ^ 8) with 256 in *. nia. }
  assert (0 < 2 ^ attempt) by (apply Z.pow_pos_nonneg; lia).
  set (s := Z.min (base * 2 ^ attempt) 300). assert (2 <= s <= 300) by (unfold s; nia).
  pose proof (Z.div_pos s 4). pose proof (Z.mod_pos_bound jitter (s / 4 + 1)).
  pose proof (Z.div_le_mono s 300 4). change (300 / 4) with 75 in *. lia.
Qed.

Lemma retry_delay_bounds_witness : 0 <= 12 /\ 2 <= retry_delay 12 InsufficientFunds (2 ^ 63) <= 375.
Proof. split; [lia|]. apply (retry_delay_bounds 12 InsufficientFunds (2 ^ 63)); lia. Defined.

(** ** Failures *)

Lemma fail_retry_delay `{Externals} now id e j :
  0 <= id ->
  exists t, j_next_attempt_at (fail_retry now id e j) = Some t /\ now + 2 * second <= t <= now + 375 * second.
Proof.
  intros Hid. eexists. split; [reflexivity|].
  set (n := retry_count_u32 _). assert (0 <= n) as Hn.
  { unfold n, retry_count_u32, u32_MAX. destruct (Z.ltb_spec (j_retry_count j) 0); lia. }
  assert (2 <= retry_delay n (classify e) (id mod 2 ^ 64) <= 375) as Hd.
  { unfold retry_delay. rewrite shiftl_1_small by done. set (b := if bool_decide _ then 30 else 2).
    assert (2 <= b <= 30) by (unfold b; case_bool_decide; lia).
    assert (1 <= 2 ^ Z.min n 8) by (apply (Z.pow_le_mono_r 2 0); lia).
    set (s := Z.min (b * 2 ^ Z.min n 8) 300). assert (2 <= s <= 300) by (unfold s; nia).
    pose proof (Z.div_pos s 4). pose proof (Z.mod_pos_bound (id mod 2 ^ 64) (s / 4 + 1)).
    pose proof (Z.div_le_mono s 300 4). change (300 / 4) with 75 in *. lia. }
  unfold second in *. lia.
Qed.

(** C19. A failure never loses a transaction that may be on the network: the
    worker's job keeps its signed transaction and its hash, is not failed, and
    is scheduled again within 2 to 375 seconds; a job whose proof request may
    have been bought without an answer is queued, marked ambiguous and never
    claimed again; every other row is untouched. *)
Theorem failure_keeps_broadcast `{Externals} id attempts e now db u db' j :
  0 <= id -> jobs db !! id = Some j -> record_failure id attempts e now db = Ok (u, db') ->
  may_have_broadcast j = true \/ unknown_proof_request j = true ->
  (forall id', id' <> id -> jobs db' !! id' = jobs db !! id') /\ writer db' = writer db /\
  pending_commands db' = pending_commands db /\
  exists j', jobs db' !! id = Some j' /\
    j_prepared_transaction j' = j_prepared_transaction j /\ j_transaction_hash j' = j_transaction_hash j /\
    j_proof_request_intent j' = j_proof_request_intent j /\
    (j_attempts j <> attempts \/ status_in terminal_statuses j = true -> j' = j) /\
    (j_attempts j = attempts -> status_in terminal_statuses j = false ->
       status_in [queued; approved] j' = true /\
       (unknown_proof_request j = true ->
          j_error_class j' = Some "proof_request_ambiguous"%string /\
          forall now' db'', claimable now' db'' id j' = false) /\
       (unknown_proof_request j = false ->
          exists t, j_next_attempt_at j' = Some t /\ now + 2 * second <= t <= now + 375 * second)).
Proof.
  intros Hid Hj Ht Hb. unfold record_failure in Ht.
  do 2 apply tx_bind_Ok in Ht as (? & ? & [= <- <-] & Ht).
  apply tx_bind_Ok in Ht as (? & ? & [Hj' ->]%some_or_Ok & Ht). rewrite Hj in Hj'. injection Hj' as <-.
  destruct (_ || status_in terminal_statuses j) eqn:Hg.
  { inv_tx. split_and!; try done. exists j. split_and!; try done. intros Ha Hs. rewrite Hs in Hg.
    rewrite bool_decide_eq_true_2 in Hg by done. done. }
  apply orb_false_iff in Hg as [Ha%negb_false_iff%bool_decide_eq_true Hs].
  assert (forall f, (b ← update_job id (fun _ => true) f; mret tt) now db = Ok (u, db') ->
    db' = with_jobs (<[id := f j]> (jobs db)) db) as Hupd.
  { intros f (b & db1 & [(_ & j1 & Hj1 & _ & _ & _ & ->)|(_ & _ & Hn)]%update_job_Ok & [= <- <-])%tx_bind_Ok.
    - by simplify_eq.
    - by rewrite Hj in Hn. }
  destruct (unknown_proof_request j) eqn:Hu.
  - apply Hupd in Ht as ->. cbn. split_and!; try done; [by intros; rewrite lookup_insert_ne|].
    eexists. rewrite lookup_insert_eq. split_and!; try done; [by intros [|]; congruence|].
    intros _ _. split_and!; [done| |done]. intros _. split; [done|]. intros now' db''. unfold claimable.
    assert (unknown_proof_request (fail_ambiguous now e j) = true) as -> by exact Hu.
    by rewrite andb_false_r.
  - destruct Hb as [Hb|]; [|done]. rewrite Hb, orb_true_r in Ht. apply Hupd in Ht as ->. cbn.
    split_and!; try done; [by intros; rewrite lookup_insert_ne|].
    eexists. rewrite lookup_insert_eq. split_and!; try done; [by intros [|]; congruence|].
    intros _ _. split_and!; [unfold status_in; cbn; by destruct (j_approval j)|done|]. intros _. by apply fail_retry_delay.
Qed.

Lemma failure_keeps_broadcast_witness :
  exists db', record_failure 1 1 (message "connection reset") 7 failing_db = Ok (tt, db') /\
  writer db' = writer failing_db.
Proof.
  assert (is_ok (record_failure 1 1 (message "connection reset") 7 failing_db) = true) as Hok by reflexivity.
  apply is_ok_Ok in Hok as [[[] db'] Ht]. exists db'. split; [exact Ht|].
  refine (proj1 (proj2 (failure_keeps_broadcast 1 1 (message "connection reset") 7 failing_db tt db' failing_job
    _ _ Ht _))); [lia|reflexivity|by left].
Defined.

(** ** Fenced workers *)

(** What is left of a worker's program after any steps of it. *)
Inductive remains `{Externals} (config : WorkerConfig) (job : ClaimedJob) : prog unit -> Prop :=
| remains_all : remains config job (process_job config job)
| remains_transaction {B} (t : tx B) k r : remains config job (Transaction t k) -> remains config job (k r)
| remains_call {B} (c : call B) k r : remains config job (Call c k) -> remains config job (k r).

(** The database after the next step of a program. *)
Definition after `{Externals} (p : prog unit) (now : Z) (db : Db) : Db :=
  match p with Transaction t _ => snd (transact t now db) | _ => db end.

Lemma remains_each `{Externals} config job p :
  remains config job p -> each_tx (guarded (cj_id job) (cj_attempts job)) p.
Proof.
  induction 1 as [|B t k r _ [_ Hk]|B c k r _ Hk]; [apply process_job_each|apply Hk|apply Hk].
Qed.

(** C13. Once the claim of a worker was taken over, by a restart or another
    claim, whatever that worker still does, at any later time, leaves the
    database unchanged, except that it may record the identifier of the proof
    request that is sealed in its job. *)
Theorem superseded_worker_is_harmless `{Externals} db tr1 s1 tr2 s2 config job p now :
  sys_run (start db) tr1 s1 -> sys_run s1 tr2 s2 ->
  overtaken (cj_id job) (cj_attempts job) s1 -> remains config job p ->
  harmless (cj_id job) (sdb s2) (after p now (sdb s2)).
Proof.
  intros H1 H2 Ho Hp%remains_each. destruct (run_forward _ _ _ _ _ H1 H2) as [_ Hover].
  destruct (Hover _ _ Ho) as [_ Hlt]. destruct p as [| |B t k|]; cbn; try by left.
  unfold transact. destruct (t now (sdb s2)) as [[a db']| |] eqn:Ht; cbn; try by left.
  destruct Hp as [Hg _]. eapply Hg; [|exact Ht]. intros j Hj. specialize (Hlt j Hj). lia.
Qed.

Lemma remains_answers config job n p : remains config job p -> remains config job (answer_calls n p).
Proof.
  revert p. induction n as [|n IH]; intros p Hp; [done|]. destruct p; try done. cbn. by eapply IH, remains_call, Hp.
Qed.

Lemma superseded_worker_is_harmless_witness :
  let p := answer_calls 8 (process_job example_config (claimed_job 1 example_job)) in
  is_transaction p = true /\ harmless 1 (sdb overtaken_worker) (after p 11 (sdb overtaken_worker)).
Proof.
  split; [vm_compute; reflexivity|].
  apply (superseded_worker_is_harmless example_db [] overtaken_worker [] overtaken_worker example_config
    (claimed_job 1 example_job)); [apply overtaken_worker_run|apply run_nil| |apply remains_answers, remains_all].
  split.
  - apply (bool_decide_eq_true_1 (1 ∈ issued overtaken_worker)). vm_compute. reflexivity.
  - intros j Hj. change (cj_attempts (claimed_job 1 example_job)) with 1. apply Z.ltb_lt.
    assert (from_option (fun j => 1 <? j_attempts j) false (jobs (sdb overtaken_worker) !! 1) = true) as Hlt
      by (vm_compute; reflexivity).
    change (jobs (sdb overtaken_worker) !! 1 = Some j) in Hj. by rewrite Hj in Hlt.
Defined.

(** ** Rollback *)

Lemma count_two `{Externals} p (js : gmap uuid Job) id1 id2 j1 j2 :
  id1 <> id2 -> js !! id1 = Some j1 -> js !! id2 = Some j2 -> p j1 = true -> p j2 = true ->
  (2 <= count_jobs p js)%nat.
Proof.
  intros Hne H1 H2 Hp1 Hp2. unfold count_jobs. rewrite <- size_dom.
  transitivity (size ({[id1; id2]} : gset uuid)).
  - rewrite size_union, !size_singleton by set_solver. done.
  - apply subseteq_size. intros i [->%elem_of_singleton| ->%elem_of_singleton]%elem_of_union; apply elem_of_dom;
      eexists; by apply map_lookup_filter_Some.
Qed.

Lemma update_jobs_row `{Externals} p f now db u db' id j :
  update_jobs p f now db = Ok (u, db') -> jobs db !! id = Some j ->
  jobs db' !! id = Some (if p id j then f id j else j).
Proof. intros (_ & -> & _)%update_jobs_Ok Hj. cbn. by rewrite map_lookup_imap, Hj. Qed.

(** A bridge job in an orphaned block that was not recovered from events. *)
Definition orphaned_bridge `{Externals} (ancestor : Z) (j : Job) : Prop :=
  j_kind j = Bridge /\ recovered j = false /\ above ancestor j = true /\
  status_in [submitted; confirmed] j = true.

Lemma rollback_requeues `{Externals} ancestor now db u db' :
  rollback_after ancestor now db = Ok (u, db') ->
  exists js, unique_ok js = true /\
  forall id j, jobs db !! id = Some j -> orphaned_bridge ancestor j -> js !! id = Some (requeue now j).
Proof.
  unfold rollback_after. intros Ht. do 2 apply tx_bind_Ok in Ht as (? & ? & [= <- <-] & Ht).
  apply tx_bind_Ok in Ht as (? & ? & [= <- <-] & Ht).
  apply tx_bind_Ok in Ht as (? & db1 & H1 & Ht). apply tx_bind_Ok in Ht as (? & db2 & H2 & Ht).
  apply tx_bind_Ok in Ht as (? & db3 & H3 & Ht). apply tx_bind_Ok in Ht as (? & db4 & H4 & _).
  pose proof H4 as (Hu & -> & _)%update_jobs_Ok. eexists. split; [exact Hu|].
  intros id j Hj (Hk & Hr & Ha & Hs).
  assert (jobs db1 !! id = Some j) as Hj1.
  { eapply update_jobs_row in H1; [|exact Hj]. by rewrite Hr in H1. }
  assert (jobs db2 !! id = Some j) as Hj2.
  { unfold delete_jobs in H2. inv_tx. cbn. apply map_lookup_filter_Some. cbn. by rewrite Hr. }
  assert (jobs db3 !! id = Some j) as Hj3.
  { destruct (retry_settlement _ _); [|by injection H3 as _ <-].
    eapply update_jobs_row in H3; [|exact Hj2]. by rewrite Hk in H3. }
  cbn. rewrite map_lookup_imap, Hj3. cbn. by rewrite Ha, Hs, Hk.
Qed.

(** C40. When a reorganization removes the blocks of two bridge batches the
    gateway submitted itself, the rollback would queue both, which the unique
    index on active bridge batches forbids: the transaction fails and leaves
    the orphaned state in place, every time it is retried. *)
Theorem two_orphaned_bridges_stop_rollback `{Externals} ancestor now db id1 id2 j1 j2 :
  id1 <> id2 -> jobs db !! id1 = Some j1 -> jobs db !! id2 = Some j2 ->
  orphaned_bridge ancestor j1 -> orphaned_bridge ancestor j2 ->
  is_ok (rollback_after ancestor now db) = false /\ snd (transact (rollback_after ancestor) now db) = db.
Proof.
  intros Hne H1 H2 Ho1 Ho2. unfold transact.
  destruct (rollback_after ancestor now db) as [[u db']| |] eqn:Ht; [exfalso|done|done].
  apply rollback_requeues in Ht as (js & Hu & Hjs).
  assert (forall j, orphaned_bridge ancestor j -> in_active_bridge (requeue now j) = true) as Hact.
  { intros j (Hk & _). unfold in_active_bridge. cbn. rewrite Hk. unfold status_in. cbn.
    by destruct (j_approval j). }
  pose proof (count_two in_active_bridge js id1 id2 _ _ Hne (Hjs _ _ H1 Ho1) (Hjs _ _ H2 Ho2)
    (Hact _ Ho1) (Hact _ Ho2)) as Hc.
  unfold unique_ok in Hu. apply andb_true_iff in Hu as [_ Hu%Nat.leb_le]. lia.
Qed.

Lemma two_orphaned_bridges_stop_rollback_witness :
  is_ok (rollback_after 4 9 two_bridges_db) = false /\
  snd (transact (rollback_after 4) 9 two_bridges_db) = two_bridges_db.
Proof.
  apply (two_orphaned_bridges_stop_rollback 4 9 two_bridges_db 1 2 (mined_bridge 5) (mined_bridge 6));
    [done|reflexivity|reflexivity|repeat split; reflexivity|repeat split; reflexivity].
Defined.

(** ** Rows *)

(** C17. Every row of the job table stays well typed, whatever workers, API
    calls, crashes, restarts and reorganizations do: the recorded hash is that
    of the signed transaction, a network request has its sealed intent,
    [proof_requested] and [approved] have the request and the approval they
    stand for, a confirmed job has its block and a job with a block its
    transaction, a job that ended has its completion time, and the counters stay
    in their ranges. *)
Theorem gateway_rows_typed `{Externals} db tr s : sys_run (start db) tr s -> all_typed db -> all_typed (sdb s).
Proof. apply run_typed. Qed.

Lemma approved_typed approval values now :
  typed (with_approval (Some approval) (with_public_values values (with_status approved
    (new_job Bridge (jnull : Value) None "" now)))).
Proof. fresh_typed. intros Hs. in_statuses Hs; done. Qed.

Lemma gateway_rows_typed_witness :
  exists j, jobs (sdb crashed) !! 1 = Some j /\ j_transaction_hash j = Some "0xaa"%string /\ typed j.
Proof.
  assert (from_option (fun _ => true) false (jobs (sdb crashed) !! 1) = true) as Hs by (vm_compute; reflexivity).
  destruct (jobs (sdb crashed) !! 1) as [j|] eqn:Hj; [|discriminate Hs].
  exists j. split; [reflexivity|]. split.
  - assert (((jobs (sdb crashed) !! 1) ≫= j_transaction_hash) = Some "0xaa"%string) as Hh
      by (vm_compute; reflexivity).
    rewrite Hj in Hh. exact Hh.
  - apply (gateway_rows_typed example_db crashed_events crashed crashed_run) with (id := 1); [|exact Hj].
    intros id j' Hj'. change (({[1 := example_job]} : gmap uuid Job) !! id = Some j') in Hj'.
    apply lookup_singleton_Some in Hj' as [_ <-]. apply approved_typed.
Defined.

(** ** Progress *)

(** C18. When nobody holds the writer and a sequencer is granted a lease, a
    settlement proof that carries the granted token, matches the reserved
    checkpoint and arrives before the lease expires is admitted, and the next
    claim of any worker, whenever it runs, gets exactly this job. *)
Theorem reserved_settlement_is_claimed `{Externals} print fresh request block state now1 db res db1
    id fresh' name header input value token expiry now2 :
  0 <= fencing_token (writer db) -> reservation_id (writer db) = None ->
  acquire fresh request block state now1 db = Ok (res, db1) ->
  r_expires_at res = Some expiry -> now2 < expiry ->
  jobs db !! id = None -> find_key (job_key print header Settlement input) (jobs db) = None ->
  get input "reservation" = Some value -> is_null value = false -> parse_reservation value = Some token ->
  rt_id token = r_reservation_id res -> rt_fencing_token token = r_fencing_token res ->
  proof_matches_checkpoint input (r_checkpoint res) = Ok true -> is_ok (ledger_hashes input) = true ->
  exists db2, create_job print id fresh' name header Settlement input now2 db1 = Ok (id, db2) /\
  forall now3, exists job db3, claim_job now3 db2 = Ok (Some job, db3) /\
    cj_id job = id /\ cj_kind job = Settlement /\ cj_input job = input /\ cj_attempts job = 1.
Proof.
  intros H0 Hfree Hacq He Hlt Hid Hkey Hget Hnull Hparse Ht1 Ht2 Hp Hh.
  apply acquire_free in Hacq as (e & account & -> & -> & Hr & Hft & Ha & Ham & Hn); [|done].
  cbn in He, Ht1, Ht2, Hp. injection He as ->.
  destruct (create_reserved print id fresh' name header input value fresh (ar_owner_id request) token
    (from_chain block state) expiry account now2 db) as [Hc Ho]; try done.
  { unfold owner_matches. cbn. rewrite Ht1, Ht2, parse_i64_to_string by lia.
    by rewrite !bool_decide_eq_true_2. }
  match type of Hc with _ = Ok (_, ?d) => set (db2 := d) in Hc end.
  exists db2. split; [exact Hc|]. intros now3.
  destruct (claim_only now3 db2 id (new_job Settlement input (job_key print header Settlement input)
    (proof_input_digest input) now2)) as [db3 Hcl]; [done|done|apply lookup_insert_eq|exact Ho|done..|].
  by eexists _, db3.
Qed.

Lemma reserved_settlement_is_claimed_witness :
  exists res db1 db2, acquire 5 alice_request example_block example_settlement_state 0 free_db = Ok (res, db1) /\
  create_job i64_to_string 9 10 "" None Settlement example_settlement (29 * second) db1 = Ok (9, db2) /\
  forall now, exists job db3, claim_job now db2 = Ok (Some job, db3) /\ cj_id job = 9.
Proof.
  set (c := from_chain example_block example_settlement_state).
  set (res := {| r_reservation_id := 5; r_fencing_token := "1"; r_expires_at := Some (30 * second);
                 r_checkpoint := c |}).
  set (db1 := with_writer (leased (writer free_db) 5 "alice" (30 * second) c) free_db).
  assert (acquire 5 alice_request example_block example_settlement_state 0 free_db = Ok (res, db1)) as Ha
    by reflexivity.
  destruct (reserved_settlement_is_claimed i64_to_string 5 alice_request example_block example_settlement_state 0
    free_db res db1 9 10 "" None example_settlement example_reservation
    {| rt_id := 5; rt_fencing_token := "1" |} (30 * second) (29 * second)) as (db2 & Hc & Hclaim);
    [discriminate|reflexivity|exact Ha|reflexivity|reflexivity|reflexivity|reflexivity|vm_compute; reflexivity..|].
  exists res, db1, db2. split; [exact Ha|]. split; [exact Hc|]. intros now.
  destruct (Hclaim now) as (job & db3 & Hj & Hid & _). by exists job, db3.
Defined.
