(* ===== verification/ApiProperties.v ===== *)
(** * Properties of what the gateway serves

    The withdrawals of a confirmed settlement are served with proofs of its
    root, with the examples that run them. *)

From Stdlib Require Import Strings.Byte.
From stdpp Require Import gmap strings countable.
From S2P Require Import Prelude Hashing Codec PublicValues BridgeValues InnerActionTree ActionBatch Rpc Database Program.
From S2P Require Import OuterWriter Submission Worker Indexer System Ledger Accounts Base58 Withdrawals DepositBatch ExampleGateway LedgerProperties.
From S2P Require Import Field.
From S2P Require BridgeGuest.


(** C27. Packed addresses and Base58Check addresses.  Every packed address of
    32 bytes is printed and read back; an address that is read prints to
    itself exactly when the top byte of its x-coordinate is below 128, and
    another text otherwise. *)
Theorem zeko_address_roundtrip `{E : Externals} sha256 :
  (forall m, length (sha256 m) = 32%nat) -> (forall x, hex_decode (hex_encode x) = Some x) ->
  (forall x, length x = 32%nat -> exists address,
     packed_zeko_address_to_base58 sha256 (hex x) = Ok address /\
     packed_zeko_address_from_base58 sha256 address = Ok (hex x)) /\
  (forall address packed, packed_zeko_address_from_base58 sha256 address = Ok packed ->
     exists r y parity, length r = 31%nat /\
       address = base58_check_encode sha256 MINA_PUBLIC_KEY_VERSION (key_payload r y parity) /\
       (packed_zeko_address_to_base58 sha256 packed = Ok address <-> byte_val y < 128)).
Proof.
  intros Hsha Hhex. split.
  - intros [|x r] Hl; [done|]. injection Hl as Hl. eexists. split; [by apply to_base58_exact|].
    apply from_base58_exact; [done|]. eexists _, _, _. split_and!; [exact Hl| |reflexivity|by rewrite set_top_split].
    destruct (byte_val x <? 128); set_solver.
  - intros address packed (r & y & parity & Hl & Hp & -> & ->)%from_base58_exact; [|done].
    exists r, y, parity. split_and!; [done..|]. rewrite to_base58_exact by done. rewrite <- (split_set_top y parity Hp). split.
    + intros [= He]. apply check_encode_inj in He as [_ He]; [|done]. by apply key_payload_inj in He as (_ & -> & ->).
    + intros [Hy ->]. by rewrite Hy.
Qed.

(** C8. A deposit batch is proved and accepted.  When the deposits of the
    table are those the contract logged, the input that
    [canonical_deposit_batch] builds is one the bridge guest accepts: its
    receipt leads from the bridged checkpoint to the current nonce and deposit
    state of the contract, and passes the worker's validation as long as the
    contracts have not moved. *)
Theorem deposit_batch_is_accepted `{E : Externals} `{T : AlloyText} `{K : Keccak} `{P : Poseidon} view block bridge
    historical settlement chain l input :
  (forall s x, parse_b256 s = Some x -> length x = 32%nat) ->
  (forall s x, parse_address s = Some x -> length x = 20%nat) ->
  view_answers view block bridge historical settlement chain ->
  (forall nonce d, deposits l !! nonce = Some d -> dp_removed d = false ->
     authentic (view_ethereum view bridge historical chain) (nonce, d)) ->
  canonical_deposit_batch view l = Ok input ->
  let receipt := BridgeGuest.output input in
  BridgeGuest.derive_bridge_transition input = Ok receipt /\
  ethereum_nonce_before receipt = bs_bridged_deposit_nonce bridge /\
  ethereum_nonce_after receipt = bs_deposit_nonce bridge /\
  ethereum_state_before receipt = historical /\
  ethereum_state_after receipt = bs_current_deposit_state bridge /\
  forall config answer value,
    same_contracts answer block bridge historical settlement chain (zeko_action_state_after receipt) ->
    parse_bridge_input value = Some input -> bridge_address config = bv_bridge_address view ->
    answered answer (validate_bridge config value receipt) = Ok tt.
Proof.
  intros H32 H20 Hview Hau Hc receipt.
  destruct (batch_is_provable H32 H20 _ _ _ _ _ _ _ _ Hview Hau Hc) as (Hp & Hlt & Heth & Hz & Hn & Hty & Hok & Hst).
  split_and!; [by apply BridgeGuest.derive_Ok| | | |done|].
  4: { intros config answer value Hsc Hparse Haddr. by eapply batch_is_validated. }
  all: unfold receipt, BridgeGuest.output; destruct (BridgeGuest.replay _ _ _);
    cbn [ethereum_nonce_before ethereum_nonce_after ethereum_state_before]; rewrite Heth; cbn; try done.
  rewrite Hn. pose proof (va_nonce _ _ _ _ _ _ Hview) as Hu. unfold is_u64 in Hu. rewrite Z.mod_small; lia.
Qed.


(** ** Examples *)

#[local] Existing Instance checksum_keccak.

Definition claim_native : NativeWithdrawalV2 := {| nw_recipient := to_be 20 500; nw_amount := 9 |}.
Definition claim_token : TokenWithdrawalV3 := {|
  tw_encoding_version := 2; tw_registry_index := 4; tw_record_commitment := to_be 32 5; tw_token := to_be 20 6;
  tw_asset_id := to_be 32 7; tw_recipient := to_be 20 500; tw_amount := 10; tw_params_fields := [] |}.
Definition claim_batch : InnerActionBatchWitnessV2 := {|
  ib_bridge_address := to_be 20 17;
  ib_actions := [
    {| ia_fields := [zeros 32]; ia_withdrawal := None; ia_token_withdrawal := None |};
    {| ia_fields := [zeros 32; to_be 32 1]; ia_withdrawal := Some claim_native; ia_token_withdrawal := None |};
    {| ia_fields := [to_be 32 2]; ia_withdrawal := None; ia_token_withdrawal := Some claim_token |}] |}.
Definition claim_receipt (r : bytes) : V2.SettlementPublicValuesV2 := {|
  V2.settlement := PublicValues.Examples.v1; V2.bridge_address := to_be 20 17; V2.inner_action_root := r;
  V2.inner_action_start_index := 40; V2.inner_action_count := 3 |}.
Definition claim_leaves : outcome error (list bytes) :=
  map snd <$> map_ok (leaf_entry (claim_receipt []) claim_batch) (imap pair (ib_actions claim_batch)).
Definition claim_root : bytes := Eval vm_compute in
  match claim_leaves ≫= InnerActionTree.root with Ok r => r | _ => [] end.
Definition claim_bytes : bytes := Eval vm_compute in
  match V2.encode (E := unit) (claim_receipt claim_root) with Ok b => b | _ => [] end.

(** The ledger's JSON, with the batch read from its input. *)
Definition claim_objects : JsonObjects := {|
  object_insert := object_insert; array_value := array_value; string_value := string_value; bool_value := bool_value;
  u64_value := u64_value; object_value := object_value; as_u64 := as_u64; fields_value := fields_value;
  parse_inner_action_batch := fun _ => Some claim_batch |}.
Definition claim_text : AlloyText := {|
  parse_b256 := example_text 32; parse_address := example_text 20; address_to_string := hex |}.
Definition claim_contracts : Contracts := {|
  current_virtual_slot := Ok 130; withdrawal_delay_slots := Ok 5; next_withdrawal_index := fun _ => Ok 0;
  next_token_withdrawal_index := fun _ _ => Ok 0 |}.
Definition claim_submission : json :=
  GenNode 2 (jobject [("outerAccountPublicKey", GenLeaf "outer"); ("feePayerPublicKey", GenLeaf "payer"); ("nonce", GenLeaf "3")]%string).
Definition claim_input : json :=
  GenNode 2 (jobject [
    ("submission", claim_submission);
    ("proof", GenNode 2 (jobject [("innerActionBatch", GenLeaf "batch");
                                  ("binding", GenNode 2 (jobject [("actions", jarray [jarray [zero_field]])]))]))]%string).
Lemma claim_committed : exists l,
  commit (apply_confirmed_settlement (H0 := claim_objects) 1 (claim_input : Value) (hex claim_bytes) (10, "0xb10"%string) "0xcc")
    10 settlement_ledger = (Ok tt, l).
Proof.
  assert ((commit (apply_confirmed_settlement (H0 := claim_objects) 1 (claim_input : Value) (hex claim_bytes) (10, "0xb10"%string) "0xcc")
    10 settlement_ledger).1 = Ok tt) as Hok by (vm_compute; reflexivity).
  revert Hok. destruct (commit _ _ _) as [r l]. cbn. intros ->. by exists l.
Qed.

Lemma claim_typed : Forall withdrawals_typed (ib_actions claim_batch).
Proof.
  cbn [ib_actions claim_batch].
  repeat first [apply Forall_nil_2|apply Forall_cons_2; [split; cbn; intros w Hw; [try done|try done]|]].
  all: injection Hw as <-; repeat split; try done; cbn; lia.
Qed.

Lemma claim_decoded : decode_receipt (hex claim_bytes) = Ok claim_bytes.
Proof. vm_compute. reflexivity. Qed.
Lemma claim_values : settlement_values claim_bytes = Ok (PV2 (claim_receipt claim_root)).
Proof. vm_compute. reflexivity. Qed.
Lemma claim_new : has_history 1 settlement_ledger = false.
Proof. vm_compute. reflexivity. Qed.
Lemma claim_parsed : (pointer (claim_input : Value) "/proof/innerActionBatch" ≫= fun _ => Some claim_batch) = Some claim_batch.
Proof. vm_compute. reflexivity. Qed.
Lemma claim_submitted : get (claim_input : Value) "submission" = Some (claim_submission : Value).
Proof. vm_compute. reflexivity. Qed.
Lemma no_leaves sequence offset f : leaves settlement_ledger !! (sequence, offset) = Some f -> lf_removed f = true.
Proof. change (leaves settlement_ledger) with (∅ : gmap (Z * Z) LeafRow). by rewrite lookup_empty. Qed.


Definition example_sha256 (m : bytes) : bytes := checksum m.
Definition example_address : bytes := to_be 32 (2 ^ 255 + 77).

Lemma zeko_address_roundtrip_witness : exists address,
  packed_zeko_address_to_base58 example_sha256 (hex example_address) = Ok address /\
  packed_zeko_address_from_base58 example_sha256 address = Ok (hex example_address).
Proof.
  apply (zeko_address_roundtrip (E := example_externals) example_sha256 (keccak256_length (Keccak := checksum_keccak))
    example_hex_decode_encode). reflexivity.
Defined.

(** ** A batch of one deposit *)

#[local] Existing Instance mix_poseidon.

Definition one_eth : BridgeGuest.EthereumBridgeState := {|
  BridgeGuest.chain_id := 1; BridgeGuest.bridge_address := zeros 20; BridgeGuest.deposit_nonce := 0;
  BridgeGuest.deposit_state := zeros 32 |}.
Definition one_deposit : BridgeGuest.BridgeDeposit := {|
  BridgeGuest.bd_token := zeros 20; BridgeGuest.bd_asset_id := zeros 32; BridgeGuest.bd_encoding_version := 0;
  BridgeGuest.bd_registry_index := 0; BridgeGuest.bd_record_commitment := zeros 32;
  BridgeGuest.bd_amount := to_be 32 7000000000; BridgeGuest.bd_zeko_amount := Some 7;
  BridgeGuest.bd_zeko_recipient := to_be 32 500; BridgeGuest.bd_timeout := u32_MAX |}.
Definition one_state : bytes := Eval vm_compute in
  BridgeGuest.compute_ethereum_state (zeros 32) (keccak256 (BridgeGuest.leaf_encoded one_eth one_deposit 1)).
Definition one_columns : DepositColumns := {|
  dc_deposit_leaf := "0x01"; dc_old_deposit_state := hex (zeros 32); dc_new_deposit_state := hex one_state;
  dc_token := hex (zeros 20); dc_asset_id := None; dc_action_encoding_version := 0; dc_registry_index := None;
  dc_record_commitment := None; dc_sender := "0x04"; dc_zeko_recipient := hex (to_be 32 500);
  dc_ethereum_amount := 7000000000; dc_zeko_amount := 7; dc_timeout := u32_MAX; dc_block := (4, "0xb4"%string);
  dc_transaction_hash := "0x06"; dc_log_index := 0 |}.
Definition one_row : DepositRow := {|
  dp_columns := one_columns; dp_bridge_job_id := None; dp_outer_action := None; dp_synchronized := None;
  dp_removed := false |}.
Definition one_ledger : Ledger :=
  with_gateway free_db (with_blocks {[4 := final_row "0xb4"]} (with_deposits {[1 := one_row]} example_ledger)).
Definition one_block : BlockRef := {| br_number := 4; br_hash := "0xb4"; br_parent_hash := "0xb3" |}.
Definition one_bridge : BridgeState := {|
  bs_program_vkey := zeros 32; bs_deposit_nonce := 1; bs_current_deposit_state := one_state;
  bs_bridged_deposit_nonce := 0; bs_action_state_processed := None; bs_paused := false |}.
Definition one_view : BridgeView := {|
  bv_latest_block := Ok one_block; bv_bridge_state_at := fun _ _ => Ok (one_bridge, Some (zeros 32));
  bv_settlement_state_at := fun _ => Ok example_settlement_state; bv_chain_id := Ok 1; bv_bridge_address := zeros 20 |}.
Definition one_input : BridgeGuest.BridgeTransitionInput := {|
  BridgeGuest.ethereum := one_eth;
  BridgeGuest.zeko := {| BridgeGuest.action_state := zeros 32; BridgeGuest.action_state_length := 0 |};
  BridgeGuest.deposits := [one_deposit] |}.

Lemma one_batch : canonical_deposit_batch (H0 := claim_text) one_view one_ledger = Ok one_input.
Proof. vm_compute. reflexivity. Qed.

Lemma one_answers : view_answers one_view one_block one_bridge (zeros 32) example_settlement_state 1.
Proof. split; cbn; try done; try lia; by eexists. Qed.

Lemma one_decoded : row_deposit (H0 := claim_text) one_columns = Ok one_deposit.
Proof. vm_compute. reflexivity. Qed.

Lemma one_authentic nonce d :
  deposits one_ledger !! nonce = Some d -> dp_removed d = false ->
  authentic (H0 := claim_text) (view_ethereum one_view one_bridge (zeros 32) 1) (nonce, d).
Proof.
  change (deposits one_ledger) with ({[1 := one_row]} : gmap Z DepositRow).
  intros [<- <-]%lookup_singleton_Some _. split; [done|]. intros d old new Hd Hold Hnew. cbn [snd one_row dp_columns] in *.
  rewrite one_decoded in Hd. injection Hd as <-. change (example_text 32 (hex (zeros 32)) = Some old) in Hold.
  change (example_text 32 (hex one_state) = Some new) in Hnew. rewrite example_text_hex in Hold, Hnew by done.
  injection Hold as <-. injection Hnew as <-. split_and!; vm_compute; done.
Qed.

Lemma example_text_length n s b : example_text n s = Some b -> length b = n.
Proof.
  unfold example_text. destruct (example_hex_decode _) as [x|]; [|done]. cbn. destruct (Nat.eqb_spec (length x) n); [|done].
  by intros [= <-].
Qed.

Lemma deposit_batch_is_accepted_witness :
  let receipt := BridgeGuest.output one_input in
  BridgeGuest.derive_bridge_transition one_input = Ok receipt /\ ethereum_state_after receipt = one_state.
Proof.
  destruct (deposit_batch_is_accepted (E := example_externals) (T := claim_text) one_view one_block one_bridge (zeros 32)
    example_settlement_state 1 one_ledger one_input (example_text_length 32) (example_text_length 20) one_answers
    one_authentic one_batch) as (Hd & _ & _ & _ & Hs & _).
  split; [exact Hd|exact Hs].
Defined.

Definition one_json : BridgeJson := {|
  bridge_input_value := fun i => (GenNode 2 (jobject [("zeko", GenNode 2 (jobject [("action_state",
    GenLeaf (hex (BridgeGuest.action_state (BridgeGuest.zeko i))))]))]%string) : Value) |}.

Lemma one_queued : exists l, commit (queue_deposit_batch (H0 := one_json) 9 10 "bridge:9" (Some "key"%string) true one_input)
  12 one_ledger = (Ok 9, l).
Proof.
  assert ((commit (queue_deposit_batch (H0 := one_json) 9 10 "bridge:9" (Some "key"%string) true one_input) 12 one_ledger).1
    = Ok 9) as Hok by (vm_compute; reflexivity).
  revert Hok. destruct (commit _ _ _) as [r l]. cbn. intros ->. by exists l.
Qed.

(** A retry with the same idempotency key and the same batch is refused. *)
Example retry_is_refused :
  let queue id now l := commit (queue_deposit_batch (H0 := one_json) id 10 "bridge" (Some "key"%string) true one_input) now l in
  is_ok (queue 9 12 one_ledger).1 && negb (is_ok (queue 19 13 (queue 9 12 one_ledger).2).1) = true.
Proof. vm_compute. reflexivity. Qed.

