(* ===== verification/ArchiveProperties.v ===== *)
(** * Properties of the archive's withdrawals

    What [withdrawal_activity.rs] restores and lists, with the examples that
    run it. *)

From Stdlib Require Import Strings.Byte.
From stdpp Require Import gmap strings countable sorting.
From S2P Require Import Prelude Hashing Codec PublicValues InnerActionTree ActionBatch Rpc Database Program.
From S2P Require Import OuterWriter Submission Worker Base58 Indexer System Ledger Accounts Withdrawals Archive ExampleGateway LedgerProperties.

(** C7. Restored batches are served.  After a run of
    [recover_settled_inner_actions] that returns, every settlement that had a
    batch and no live leaves, and whose actions the archive has, is served
    with proofs of the root that the contract accepted; native and token
    withdrawals are answered with the recipient and amount of the archive. *)
Theorem archive_recovery_serves `{E : Externals} `{J : !JsonObjects} `{K : Keccak} `{T : AlloyText} `{D : DecimalText}
    view between now items key acts chain_id contracts l l' row sequence root_text start count end_ :
  (forall x, length x = 32%nat -> parse_b256 (hex x) = Some x) ->
  (forall x, length x = 20%nat -> parse_address (address_to_string x) = Some x) ->
  (forall s z, u256_from_decimal s = Some z -> 0 <= z < 2 ^ 256) ->
  (forall n ids resolved identity token, av_resolve view n ids = Ok resolved ->
     resolved_token resolved identity = Some token -> length token = 20%nat) ->
  (forall n l, leaves (between n l) = leaves l) ->
  av_archive view = Some (Ok items) -> av_inner_public_key view = Some key ->
  load_archive_inner_actions (Ok items) key = Ok acts -> av_chain_id view = Ok chain_id ->
  NoDup (map (fun row : settlement_row => se_batch_sequence row.2) (awaiting_settlements l)) ->
  recover_settled_inner_actions view between now l = (Ok tt, l') ->
  row ∈ awaiting_settlements l -> settlement_range row = Ok (sequence, root_text, start, count, end_) ->
  Z.of_nat (length (in_batch start end_ acts)) = count -> is_u32 (se_slot_upper row.2) ->
  exists committed resolved, parse_hex_bytes32 root_text = Ok committed /\
  (exists n, av_resolve view n (unique_token_withdrawal_identities (omap token_of (in_batch start end_ acts))) = Ok resolved) /\
  forall i a, in_batch start end_ acts !! i = Some a ->
  exists f siblings fields_hash leaf token,
    let p := served_proof start (se_slot_upper row.2) (Z.of_nat i) siblings (Z.of_nat i, f) in
    load_inner_action_batch_proof l' sequence (Z.of_nat i) = Ok p /\
    action_fields_hash (E := error) (aa_fields a) = Ok fields_hash /\ lf_action_fields_hash f = hex fields_hash /\
    archive_action_leaf chain_id (av_bridge_address view) (aa_global_action_index a) fields_hash (aa_withdrawal a) token = Ok leaf /\
    length siblings = TREE_DEPTH /\ verify_merkle_proof leaf (Z.of_nat i) siblings committed = true /\
    forall current delay, claimable contracts l' resolved sequence i p a current delay.
Proof.
  intros H32 H20 Hdec Htok Hb Ha Hk Hl Hc Hnd Hr Hin Hrange Hcount Hslot.
  destruct (run_restores H32 _ _ _ _ _ _ _ _ _ _ _ _ _ _ _ Hb Ha Hk Hl Hc Hnd Hr Hin Hrange Hcount Hslot)
    as (committed & Hroot & lvs & resolved & [n Hn] & Hseq & Hbatch & Hpos).
  exists committed, resolved. split; [done|]. split; [by exists n|]. intros i a Hi.
  destruct (Hpos i a Hi) as (f & leaf & Hf & Hlf & Hrow).
  destruct (load_batch_position _ _ _ _ _ _ _ _ _ Hseq Hbatch Hf Hlf) as (siblings & Hload & Hls & Hver).
  pose proof Hrow as (fields_hash & token & Hg & _ & Hfh & _ & Hleaf & _ & Hff).
  exists f, siblings, fields_hash, leaf, token. rewrite Hg. split_and!; try done.
  intros current delay. eapply (restored_claimable H32 H20); [by eauto| |exact Hrow|exact Hload|done].
  intros w Hw. eapply (loaded_withdrawal Hdec); [exact Hl| |exact Hw].
  apply list_elem_of_lookup_2 in Hi. unfold in_batch in Hi. by apply list_elem_of_filter in Hi as [_ ?].
Qed.


(** C22. The parameters of a withdrawal.  [parse_withdrawal] accepts exactly
    the numbers that encode a withdrawal, and answers the withdrawal that they
    encode. *)
Theorem parse_withdrawal_exact `{D : DecimalText} fields w :
  (forall s z, u256_from_decimal s = Some z -> 0 <= z < 2 ^ 256) ->
  parse_withdrawal fields = Ok w <->
  exists values, Forall2 (fun f v => u256_from_decimal f = Some v) fields values /\ withdrawal_params w values.
Proof.
  intros Hdec. unfold parse_withdrawal. split.
  - destruct (length fields =? 3)%nat; intros (x & Hx & ->)%fmap_Ok.
    + by apply (parse_native_exact Hdec).
    + by apply (parse_token_Ok Hdec).
  - intros (values & Hv & Hp). pose proof (Forall2_length _ _ _ Hv) as Hl. destruct w as [w|w].
    + assert (length fields = 3%nat) as -> by (rewrite Hl; by destruct Hp as (_ & _ & ->)). cbn.
      rewrite (proj2 (parse_native_exact Hdec fields w)); [done|by exists values].
    + destruct (Nat.eqb_spec (length fields) 3) as [H3|_].
      * destruct Hp as (_ & _ & _ & _ & _ & _ & _ & _ & _ & others & Ho & ->).
        cbn in Hl. rewrite !length_app, Ho in Hl. cbn in Hl. lia.
      * by rewrite (parse_token_accepts fields w values).
Qed.

(** C24. Pages are complete.  A client that asks for page after page of the
    pending withdrawals, each after the last index it saw, reads every
    unsettled withdrawal of its kind and recipient once, in order, and comes
    to an empty page within as many requests as the archive has actions. *)
Theorem pending_pages_complete `{D : DecimalText} archive key acts settled tokens recipient limit :
  load_archive_inner_actions archive key = Ok acts -> (0 < limit)%nat ->
  let read := pages (S (length acts)) acts settled tokens recipient None limit in
  read = pending acts settled tokens recipient None /\
  StronglySorted index_lt read /\
  forall a, a ∈ read <-> a ∈ acts /\ (aa_global_action_index a ∉ settled) /\
    exists address, recipient_of tokens a = Some address /\ from_option (fun r => r = address) True recipient.
Proof.
  intros Hl Hlim read. assert (StronglySorted index_lt acts) as Hs by (apply sorted_indices; intros; by eapply load_indices).
  assert (read = pending acts settled tokens recipient None) as Hr.
  { apply pages_complete_after; [done..|]. unfold pending. pose proof (length_filter
      (fun action => on_page settled tokens recipient None action = true) acts). lia. }
  rewrite Hr. split_and!; [done|by apply StronglySorted_filter|].
  intros a. unfold pending. rewrite list_elem_of_filter. unfold on_page. cbn. rewrite orb_false_r.
  destruct (decide (aa_global_action_index a ∈ settled)) as [Hin|Hnin].
  - rewrite bool_decide_true by done. naive_solver.
  - rewrite bool_decide_false by done. destruct (recipient_of tokens a) as [address|]; [|naive_solver].
    destruct recipient as [r|]; cbn; [rewrite bool_decide_eq_true|]; naive_solver.
Qed.

(** Resolved tokens are registered.  An answer of
    [resolve_token_withdrawal_identities] has a token for exactly the
    identities that were asked for, and the contract knew each token, at one
    block, under the whole identity. *)
Theorem resolved_tokens_registered node ids resolved :
  resolve_token_withdrawal_identities node ids = Ok resolved ->
  (forall i token, resolved_token resolved i = Some token ->
     i ∈ ids /\ (exists snapshot, rn_latest_block node = Ok snapshot /\ registered_as (rn_registry node snapshot) i token)) /\
  (forall i, i ∈ ids -> is_Some (resolved_token resolved i)).
Proof.
  intros Hr. pose proof (resolved_at _ _ _ Hr) as Hat. split.
  - intros i token Ht. destruct (Hat i) as [Hn Hy]. destruct (decide (i ∈ ids)) as [Hin|Hnin]; [|by rewrite Hn in Ht].
    destruct (Hy Hin) as (snapshot & token' & Hs & Ht' & Hreg). split; [done|]. exists snapshot. split; [done|congruence].
  - intros i Hin. destruct (Hat i) as [_ Hy]. destruct (Hy Hin) as (? & token & _ & Ht & _). by exists token.
Qed.

(** ** Examples *)

#[local] Existing Instance checksum_keccak.

(** Decimal texts below 2^64, and addresses printed in lower case. *)
#[local] Instance example_decimal : DecimalText := {| u256_from_decimal := parse_u64 |}.
#[local] Instance example_alloy : AlloyText := {|
  parse_b256 := example_text 32; parse_address := example_text 20; address_to_string := hex |}.

Lemma example_decimal_range s z : parse_u64 s = Some z -> 0 <= z < 2 ^ 256.
Proof.
  unfold parse_u64. intros (x & (u & _ & ->)%fmap_Some & Hx)%bind_Some.
  destruct (Z.ltb_spec (Z.of_int (Decimal.Pos u)) (2 ^ 64)); [|done]. injection Hx as <-.
  cbn in *. unfold Z.of_uint in *. lia.
Qed.

Definition item (hash key : string) (sequence_no update balance : Z) (fields : list string) : ArchiveItem := {|
  it_height := 3; it_block_id := 1; it_timestamp := "0"; it_hash := hash; it_sequence_no := sequence_no; it_update_ordinal := update;
  it_action_ordinal := 0; it_public_key := key; it_balance_change := balance; it_increment_nonce := true;
  it_call_depth := 0; it_fields := fields |}.
(** A withdrawal of nine units by the first command, and a bare inner action
    of the second. *)
Definition two_commands : list ArchiveItem :=
  [item "tx1" "holder" 0 0 (-9) ["500"; "0"; "9"]%string; item "tx1" "inner" 0 1 0 ["7"]%string;
   item "tx2" "inner" 1 0 0 ["8"]%string].
Definition two_actions : list ArchiveInnerAction := Eval vm_compute in
  match load_archive_inner_actions (Ok two_commands) "inner" with Ok acts => acts | _ => [] end.

Definition two_entries : outcome error (list archive_entry) :=
  map_ok (recovered_entry 1 (to_be 20 17) [] 0) (imap pair two_actions).
Definition two_root : bytes := Eval vm_compute in
  match (entries ← two_entries; InnerActionTree.root (map (fun e : archive_entry => e.1.2) entries)) with Ok r => r | _ => [] end.

Definition two_event : SettlementEvent := {|
  se_batch_sequence := 1; se_mina_transaction_hash := "0x"; se_ledger_hash := "0x"; se_outer_action_state := "0x";
  se_outer_action_state_length := 0; se_inner_action_state := "0x"; se_inner_action_state_length := 0; se_slot_lower := 0;
  se_slot_upper := 60; se_inner_batch := Some (hex two_root, 0, 2, 60); se_block := (5, "0xb5"); se_removed := false |}.
Definition two_ledger : Ledger := with_settlement_events {[("0xaa"%string, 2) := two_event]} example_ledger.
Definition two_view : ArchiveView := {|
  av_archive := Some (Ok two_commands); av_inner_public_key := Some "inner"%string; av_resolve := fun _ _ => Ok [];
  av_chain_id := Ok 1; av_bridge_address := to_be 20 17 |}.
Definition two_contracts : Contracts := {|
  current_virtual_slot := Ok 130; withdrawal_delay_slots := Ok 5; next_withdrawal_index := fun _ => Ok 0;
  next_token_withdrawal_index := fun _ _ => Ok 0 |}.
Definition undisturbed (n : nat) (l : Ledger) : Ledger := l.

Lemma two_recovered : exists l, recover_settled_inner_actions two_view undisturbed 9 two_ledger = (Ok tt, l).
Proof.
  assert ((recover_settled_inner_actions two_view undisturbed 9 two_ledger).1 = Ok tt) as Hok by (vm_compute; reflexivity).
  revert Hok. destruct (recover_settled_inner_actions _ _ _ _) as [r l]. cbn. intros ->. by exists l.
Qed.
Lemma two_awaiting : awaiting_settlements two_ledger = [(("0xaa"%string, 2), two_event)].
Proof. vm_compute. reflexivity. Qed.
Lemma two_loaded : load_archive_inner_actions (Ok two_commands) "inner" = Ok two_actions.
Proof. vm_compute. reflexivity. Qed.
Lemma two_range : settlement_range (("0xaa"%string, 2), two_event) = Ok (1, hex two_root, 0, 2, 2).
Proof. vm_compute. reflexivity. Qed.

Lemma archive_recovery_serves_witness : exists l answer,
  recover_settled_inner_actions two_view undisturbed 9 two_ledger = (Ok tt, l) /\
  load_native_withdrawal_proof_at two_contracts l 1 0 130 5 = Ok answer /\ np_amount answer = "9"%string.
Proof.
  destruct two_recovered as [l Hrun].
  destruct (archive_recovery_serves (E := example_externals) (T := example_alloy) (D := example_decimal) two_view undisturbed 9 two_commands "inner" two_actions 1 two_contracts
    two_ledger l (("0xaa"%string, 2), two_event) 1 (hex two_root) 0 2 2 (fun x => example_text_hex 32 x) (fun x => example_text_hex 20 x)
    example_decimal_range ltac:(by intros n ids resolved i token [= <-]) ltac:(done) eq_refl eq_refl two_loaded eq_refl
    ltac:(rewrite two_awaiting; apply NoDup_singleton) Hrun ltac:(rewrite two_awaiting; by left) two_range
    ltac:(vm_compute; reflexivity) ltac:(split; vm_compute; congruence)) as (committed & resolved & _ & _ & Hserved).
  destruct (Hserved 0%nat _ eq_refl) as (f & siblings & fields_hash & leaf & token & _ & _ & _ & _ & _ & _ & Hclaim).
  exists l. eexists. split; [exact Hrun|]. split; [exact (Hclaim 130 5)|reflexivity].
Defined.

(** A confirmed batch, as the settlement stores it and as the archive has
    it. *)
Definition match_native : NativeWithdrawalV2 := {| nw_recipient := to_be 20 500; nw_amount := 9 |}.
Definition match_token : TokenWithdrawalV3 := {|
  tw_encoding_version := 2; tw_registry_index := 4; tw_record_commitment := to_be 32 5; tw_token := to_be 20 6;
  tw_asset_id := to_be 32 7; tw_recipient := to_be 20 500; tw_amount := 10; tw_params_fields := [] |}.
Definition match_batch : InnerActionBatchWitnessV2 := {|
  ib_bridge_address := to_be 20 17;
  ib_actions := [
    {| ia_fields := [zeros 32; to_be 32 1]; ia_withdrawal := Some match_native; ia_token_withdrawal := None |};
    {| ia_fields := [to_be 32 2]; ia_withdrawal := None; ia_token_withdrawal := Some match_token |};
    {| ia_fields := [zeros 32]; ia_withdrawal := None; ia_token_withdrawal := None |}] |}.
Definition archived (i : Z) (fields : list bytes) (w : option ArchiveWithdrawal) : ArchiveInnerAction := {|
  aa_global_action_index := i; aa_transaction_hash := "tx"; aa_block_height := 3; aa_timestamp := "0";
  aa_fields := fields; aa_withdrawal := w |}.
Definition match_archived_token : ArchiveTokenWithdrawal := {|
  at_encoding_version := 2; at_registry_index := 4; at_record_commitment := to_be 32 5; at_asset_id := to_be 32 7;
  at_recipient := to_be 20 500; at_amount := 10 |}.
Definition match_actions : list ArchiveInnerAction :=
  [archived 40 [zeros 32; to_be 32 1] (Some (Native {| an_recipient := to_be 20 500; an_amount := 9 |}));
   archived 41 [to_be 32 2] (Some (Token match_archived_token)); archived 42 [zeros 32] None].
Definition match_receipt (r : bytes) : V2.SettlementPublicValuesV2 := {|
  V2.settlement := PublicValues.Examples.v1; V2.bridge_address := to_be 20 17; V2.inner_action_root := r;
  V2.inner_action_start_index := 40; V2.inner_action_count := 3 |}.
Definition match_root : bytes := Eval vm_compute in
  match (entries ← map_ok (leaf_entry (match_receipt []) match_batch) (imap pair (ib_actions match_batch));
         InnerActionTree.root (map snd entries)) with Ok r => r | _ => [] end.
#[local] Instance match_objects : JsonObjects := {|
  object_insert := object_insert; array_value := array_value; string_value := string_value; bool_value := bool_value;
  u64_value := u64_value; object_value := object_value; as_u64 := as_u64; fields_value := fields_value;
  parse_inner_action_batch := fun _ => Some match_batch |}.
Definition match_input : json :=
  GenNode 2 (jobject [("proof", GenNode 2 (jobject [("innerActionBatch", GenLeaf "batch")]))]%string).
Definition match_event : SettlementEvent := {|
  se_batch_sequence := 42; se_mina_transaction_hash := "0x"; se_ledger_hash := "0x"; se_outer_action_state := "0x";
  se_outer_action_state_length := 0; se_inner_action_state := "0x"; se_inner_action_state_length := 0; se_slot_lower := 0;
  se_slot_upper := V1.slot_upper PublicValues.Examples.v1; se_inner_batch := None; se_block := (5, "0xb5"); se_removed := false |}.
Definition match_resolved : resolution := [(token_withdrawal_identity match_archived_token, to_be 20 6)].
Definition match_view : ArchiveView := {|
  av_archive := None; av_inner_public_key := None; av_resolve := fun _ _ => Ok match_resolved;
  av_chain_id := Ok 1; av_bridge_address := to_be 20 17 |}.

Lemma match_stored : exists rows,
  leaf_rows (H0 := match_objects) (match_input : Value) (match_receipt match_root) (5, "0xb5"%string) "0xaa" = Ok rows.
Proof.
  assert (is_ok (leaf_rows (H0 := match_objects) (match_input : Value) (match_receipt match_root) (5, "0xb5"%string) "0xaa") = true)
    as Hok by (vm_compute; reflexivity).
  revert Hok. destruct (leaf_rows _ _ _ _) as [rows| |]; cbn; [|done..]. intros _. by exists rows.
Qed.
Lemma match_archived i action a :
  ib_actions match_batch !! i = Some action -> match_actions !! i = Some a -> archived_as match_resolved 40 i action a.
Proof.
  intros Hi Ha. do 3 (destruct i as [|i]; [injection Hi as <-; injection Ha as <-; split_and!; vm_compute; split_and?; reflexivity|]).
  by destruct i.
Qed.
Lemma match_root_decodes : parse_hex_bytes32 (hex match_root) = Ok match_root.
Proof. vm_compute. reflexivity. Qed.


Lemma parse_withdrawal_exact_witness : exists w, parse_withdrawal ["500"; "0"; "9"]%string = Ok w.
Proof.
  exists (Native {| an_recipient := to_be 20 500; an_amount := 9 |}). apply (parse_withdrawal_exact (D := example_decimal) _ _ example_decimal_range).
  exists [500; 0; 9]. split; [repeat constructor|]. split; [reflexivity|]. split; [vm_compute; split; congruence|reflexivity].
Defined.

Lemma pending_pages_complete_witness :
  map aa_global_action_index (pages 3 two_actions ∅ false None None 1) = [0].
Proof.
  destruct (pending_pages_complete (Ok two_commands) "inner" two_actions ∅ false None 1 two_loaded (le_n 1)) as (Hr & _).
  change (S (length two_actions)) with 3%nat in Hr. rewrite Hr. vm_compute. reflexivity.
Defined.

Definition example_registry : TokenRegistry := {|
  asset_token_by_registry_index := fun _ => Ok (to_be 20 6); canonical_token_registered := fun _ => Ok true;
  asset_id_by_token := fun _ => Ok (to_be 32 7); registry_index_by_token := fun _ => Ok 4;
  record_commitment_by_token := fun _ => Ok (to_be 32 5) |}.
Definition example_node : RegistryNode := {|
  rn_latest_block := Ok {| br_number := 5; br_hash := "0xb5"; br_parent_hash := "0xb4" |}; rn_registry := fun _ => example_registry |}.

Lemma resolved_tokens_registered_witness :
  is_Some (resolved_token match_resolved (token_withdrawal_identity match_archived_token)).
Proof.
  apply (proj2 (resolved_tokens_registered example_node [token_withdrawal_identity match_archived_token] match_resolved
    ltac:(vm_compute; reflexivity))). by left.
Defined.

(** ** Where the archive's answers go wrong *)

(** A candidate of eleven fields, a width the query prefers and the parser
    refuses, stops the whole list, whoever sent it. *)
Example wide_candidate_stops_archive :
  load_archive_inner_actions
    (Ok (two_commands ++ [item "tx2" "stranger" 1 (-1) (-9) (replicate 11 "1"%string)])) "inner" =
  Err (message "invalid ERC20 withdrawal parameter width").
Proof. vm_compute. reflexivity. Qed.

(** A rollback between the query of the settlements and the insertion of the
    leaves: the settlement is removed, its leaves are live. *)
Definition rolled_back (n : nat) (l : Ledger) : Ledger := (commit (rollback_after 4) 9 l).2.
Example restored_after_rollback :
  let l := (recover_settled_inner_actions two_view rolled_back 9 two_ledger).2 in
  map (fun row => se_removed row.2) (map_to_list (settlement_events l)) = [true] /\
  map (fun row => lf_removed row.2) (map_to_list (leaves l)) = [false; false] /\
  is_ok (load_native_withdrawal_proof_at two_contracts l 1 0 130 5) = true.
Proof. vm_compute. split_and!; reflexivity. Qed.
